(* ===== verification/_CoqProject ===== *)
-Q . S2P
Prelude.v
Words.v
Ring.v
Keyboard.v
Scheduler.v
Stubs.v
Paging.v
Packets.v
Hardware.v
Pci.v
Rtc.v
Mouse.v
Disk.v
Ata.v
AtaProps.v
Str.v
Fmt.v
Serial.v
Cpu.v
Vga.v
VgaProps.v
Ext3.v
Ext3Read.v
Ext3Write.v
Ext3Files.v
Ext3Dirs.v
Ext3Props.v
Vfs.v
Ramfs.v
Net.v
Rtl8139.v
Dhcp.v
Tcp.v
TcpSegments.v
TcpConnProps.v
TcpSpec.v
TcpTable.v
TcpProps.v
Calc.v
Memory.v
Framebuffer.v
Boot.v
Descriptors.v
Interrupts.v
Heap.v
HeapLists.v
HeapProps.v
Kernel.v
Editor.v
Simulator.v
Shell.v
ShellFiles.v
ShellInfo.v
ShellNet.v
ShellRun.v
ShellSafe.v
ShellProps.v
ShellLoop.v
ShellChecks.v
Main.v
MainChecks.v
Unused.v
RustcFilter.v
