(* ===== verification/Prelude.v ===== *)
(** * Verification of the x86_64 Rust kernel

    The repository is a kernel for x86_64 written in Rust (src/src): boot code
    and interrupt stubs in assembly, drivers, memory management, a scheduler,
    a network stack, two file systems and a shell.  This library models its
    logic as executable Rocq functions and proves what makes them correct.

    ** How the parts interact

    The boot code of asm.rs builds page tables, enters long mode and calls
    [kernel_main] (main.rs), which initialises serial port, descriptor tables,
    interrupt controller and timer, then the heap, the frame bitmap, the
    screen, mouse, network card and disk, the scheduler, and runs the shell.
    The timer interrupt calls [schedule]; the keyboard and mouse interrupts
    push into event rings the shell pops from; shell commands call the network
    stack, the file systems, the calculator and the clock, and print through
    vga.rs and serial.rs.  The network stack is layered ethernet - arp/ipv4 -
    udp/tcp - dhcp over the card chosen by drivers/net/mod.rs.  All containers
    allocate from the heap.

    The model follows these calls.  Code that touches hardware is written
    against interfaces (type classes): [Ports], [Nic] and [Clock] (Hardware),
    [BlockDevice] (Disk), [FileSystem] (Vfs), [Uart] (Serial), [PciBus],
    [RtlCard], [AtaDrive], [KeyStream].  Where the repository implements an
    interface (rtl8139.rs for [Nic], ata.rs for [BlockDevice], ramfs.rs for
    [FileSystem]), the implementation is modelled and its laws are proved; where the hardware does, the laws are its documented behaviour and
    a simulated device is an instance.  [Kernel] joins the state of the parts;
    the shell and [kernel_main] run on it.

    ** Files of the library and files of the kernel

    - Prelude: outcomes (a value, a panic, out of fuel), the state monad [ST]
      with its total-correctness [wp] and partial-correctness [safe].
    - Words: machine integers as [Z] with [wrap], byte order, bounds-checked
      slices.  The kernel is built in release mode, so arithmetic wraps;
      indexing and slicing out of range panic.
    - Ring: rings with one free slot, used by keyboard.rs and mouse.rs.
    - Keyboard: keyboard.rs.  [LockFreeRing], the interrupt handler [Irq], and
      [Spsc], the ring's atomic accesses interleaved.  Mouse: mouse.rs.
    - Scheduler: scheduler.rs and the exit path of the timer stub, task frames
      as words on the saved stacks.
    - Stubs: the interrupt stubs of asm.rs on a machine of registers and words.
      Boot: its boot code and page tables.  Descriptors: gdt.rs, idt.rs.
      Interrupts: interrupts.rs, timer.rs, arch.rs over a pair of 8259s.
    - Paging: memory/paging.rs, the frame bitmap.
    - Memory, Heap, HeapLists, HeapProps: memory/bucket_allocator.rs and
      memory/mod.rs over byte memory: the free lists live in the free blocks.
    - Packets: drivers/net/ethernet.rs, arp.rs, ipv4.rs, udp.rs.
    - Hardware: the interfaces to the machine: [Ports] (port input/output of
      the x86 crate), [Nic] (a card and the clock), with scripted instances.
    - Pci: drivers/pci.rs.  Rtc: rtc.rs.  Rtl8139: drivers/net/rtl8139.rs.
    - Net: drivers/net/mod.rs.  Dhcp: drivers/net/dhcp.rs.
    - Tcp (drivers/net/tcp.rs), TcpSegments (wire format), TcpConnProps
      (effect of each handler), TcpSpec (the abstract connection), TcpTable
      (the table of connections), TcpProps.
    - Disk: Rust's [?] on [Result]s and the [BlockDevice] interface of a disk,
      with a disk in memory as an instance.
    - Ata, AtaProps: drivers/ata.rs over a drive behind the ports
      ([AtaDrive]); it implements [BlockDevice].
    - Str, Fmt: the operations of Rust's strings and of [format!] the kernel
      uses, on bytes.
    - Serial: serial.rs.  Cpu: cpu.rs.
    - Ext3 (layout, superblock, inodes, block and bitmap access), Ext3Files
      (file contents), Ext3Dirs (directories), Ext3Read and Ext3Write (what
      reading and writing preserve), Ext3Props: fs/ext3.rs.
    - Vfs: fs/vfs.rs, the trait as a class, its flat-store specification.
      Ramfs: fs/ramfs.rs.
    - Calc: shell/calc.rs.  Editor: shell/editor.rs.
    - Vga, VgaProps: vga.rs.  Framebuffer: framebuffer.rs.
    - Kernel: the kernel's variables in one state, printing, log.rs, and
      [MachineOk], what the parts may rely on; Simulator is a machine with these
      laws to run it on.
    - shell/mod.rs: Shell (history and input line), ShellFiles, ShellInfo and
      ShellNet (the commands), ShellRun (dispatch and main loop), ShellSafe
      (the invariant [kernel_ok] and the judgement [obeys]), ShellProps (every
      command obeys), ShellLoop (the theorems), ShellChecks (their witnesses).
    - Main: main.rs with the drivers' initialisation functions; MainChecks.
    - Unused: functions nothing calls (read_line, the e1000 skeleton,
      enable_vbe).  RustcFilter: tools/rustc-filter.rs.

    Record fields, functions and constants keep the names they have in Rust.
    A [Mutex] or atomic that only one context uses is a plain field; the
    keyboard ring, which an interrupt shares with the shell without a lock, is
    modelled access by access.

    ** What the theorems show

    - Start-up and shell: from power-on [kernel_main] reaches the shell with
      the kernel in order ([boot_enters_shell]); no command line makes it panic
      but the listed exceptions ([commands_never_panic]), so the invariant
      holds at every prompt ([shell_keeps_invariant]).  The file commands are
      operations on a finite map ([file_commands_act]), the input line is that
      of an abstract editor ([input_line]), the history is walked newest first
      ([history_walks]).
    - Memory: frames and heap blocks are held by one client at a time
      ([frames_exclusive], [heap_exclusive]); the large free list is first fit
      with coalescing ([large_list_refines]).
    - Machine: the boot page tables map the first GiB to itself
      ([boot_identity_map]), the descriptor tables decode to what was meant
      ([descriptor_tables_decode]), every timer and keyboard request is served
      ([interrupts_served]).
    - Scheduling: round robin, no ready task waits longer than the table is
      long; the stubs save and resume contexts as the scheduler takes for
      granted ([stubs_switch_and_restore]).
    - Input: the lock-free ring is a FIFO queue under every interleaving; the
      mouse handler queues the events of the complete packets.
    - Network: the checksum is the Internet checksum, TCP segments round-trip;
      DHCP terminates and accepts only its own replies; every TCP operation
      refines an abstract connection, from the initial table no sequence of
      calls and segments panics, and the reader sees a prefix of the peer's
      stream; the card's driver implements [Nic] ([rtl8139_is_a_nic],
      [rtl8139_receives_in_order]).
    - Screen: printing is an endless terminal with a 500-line scrollback; no
      call writes outside the buffer.  The framebuffer console stays inside
      video memory ([fb_write_str]).
    - The calculator evaluates the usual grammar or reports overflow; the
      editor saves what the keys make of the file ([editor_session]).
    - Clock: a reading is never torn by a tick.
    - Disk and files: the driver is a block device whose transfers round-trip
      ([ata_write_read]); what write_file_data stores read_file_inode returns
      ([ext3_write_read]), a directory is a list of names
      ([directory_lists_names]), no contents of a disk make reading panic or
      run on ([ext3_reads_safe]); the file system in memory is a finite map
      ([ramfs_is_a_map]).
    - Theorems of kind error exhibit where the code departs from its purpose;
      PROJECT.json lists them as findings.

    ** Fuel and bounds

    Loops are structural where the data allows it; the others take fuel equal
    to the number of iterations the code can make: the ones' complement fold
    (proved to end in two), the DHCP deadline loop ([patience] of [Clock]),
    the option parser (the length of its input), walks of the free lists (the
    number of regions), the PCI scan (32 slots), the wait for the clock chip
    (100000, as in the code) and the mouse (10000 and 100000, as in the code),
    the polls of disk, serial port and card (one more than the device's
    [latency], [tx_limit], [reset_wait]).  Running out of fuel is [Diverge],
    which no [wp] or [runs] allows, so each of these theorems includes
    termination.  Only loops that wait for a user or the network without a
    bound, and the shell's own loop, are judged by [safe] (for every fuel, no
    panic); [waits] lists the commands concerned.

    ** Not modelled

    - Log lines of the drivers and of tcp.rs outside start-up: they write to
      screen and serial port only.
    - Allocations behind [Vec] and [String]: containers are lists; the
      allocator itself is modelled.
    - fs/mod.rs and drivers/mod.rs contain only module declarations.
    - The spin locks: each part's state is used by one context at a time,
      except the keyboard ring.  A panic while the screen's lock is held would
      wait for it for ever in the panic handler.
    - The instructions [hlt], [sti] and [cli], and the Xen note of asm.rs. *)
From stdpp Require Export base tactics option list numbers fin_maps gmap.
From Stdlib Require Export ZArith Lia ZifyNat.

#[global] Arguments Nat.modulo : simpl never.
#[global] Arguments Nat.div : simpl never.
#[global] Arguments Z.modulo : simpl never.
#[global] Arguments Z.div : simpl never.
#[global] Arguments Z.pow : simpl never.
#[global] Arguments Z.land : simpl never.
#[global] Arguments Z.lor : simpl never.
#[global] Arguments Z.shiftl : simpl never.
#[global] Arguments Z.shiftr : simpl never.

(** ** Outcomes

    A Rust function of the kernel either returns, panics (index out of bounds,
    slice of the wrong length, [expect] on [None]) or, in a loop modelled with
    fuel, is cut off.  [Done] is the only good outcome, so a theorem stating
    that a computation is [Done _] says that the code neither panics nor needs
    more iterations than the fuel given. *)

Inductive outcome (A : Type) : Type :=
  | Done (a : A)
  | Panic
  | Diverge.
Arguments Done {A} a.
Arguments Panic {A}.
Arguments Diverge {A}.

(** Rust's [Result<A, E>]. *)
Inductive result (A E : Type) : Type :=
  | Ok (a : A)
  | Err (e : E).
Arguments Ok {A E} a.
Arguments Err {A E} e.

#[export] Instance outcome_ret : MRet outcome := λ A a, Done a.
#[export] Instance outcome_bind : MBind outcome := λ A B f m,
  match m with Done a => f a | Panic => Panic | Diverge => Diverge end.

(** [runs m Q]: the computation [m] returns, with a value satisfying [Q]. *)
Definition runs {A} (m : outcome A) (Q : A → Prop) : Prop :=
  match m with Done a => Q a | _ => False end.

Lemma runs_ret {A} (a : A) (Q : A → Prop) : Q a → runs (mret a) Q.
Proof. done. Qed.

Lemma runs_bind {A B} (m : outcome A) (f : A → outcome B) (Q : B → Prop) :
  runs m (λ a, runs (f a) Q) → runs (m ≫= f) Q.
Proof. by destruct m. Qed.

Lemma runs_mono {A} (m : outcome A) (P Q : A → Prop) :
  runs m P → (∀ a, P a → Q a) → runs m Q.
Proof. destruct m; simpl; auto. Qed.

Lemma runs_inv {A} (m : outcome A) (Q : A → Prop) :
  runs m Q → ∃ a, m = Done a ∧ Q a.
Proof. destruct m; simpl; [eauto | done..]. Qed.

Lemma runs_done {A} (m : outcome A) (a : A) (Q : A → Prop) :
  m = Done a → Q a → runs m Q.
Proof. by intros ->. Qed.

Lemma outcome_bind_done {A B} (m : outcome A) (f : A → outcome B) b :
  (m ≫= f) = Done b ↔ ∃ a, m = Done a ∧ f a = Done b.
Proof.
  destruct m; simpl; split; intros H; try (destruct H as (? & [=] & ?)); try done.
  - eauto.
  - by subst.
Qed.

(** ** Stateful code

    [ST S A] is code that threads a state [S] (the kernel's global variables it
    touches and the devices) and may panic. *)

Definition ST (S A : Type) : Type := S → outcome (A * S).

#[export] Instance st_ret {S} : MRet (ST S) := λ A a s, Done (a, s).
#[export] Instance st_bind {S} : MBind (ST S) := λ A B f m s,
  match m s with
  | Done (a, s') => f a s'
  | Panic => Panic
  | Diverge => Diverge
  end.

Definition get {S} : ST S S := λ s, Done (s, s).
Definition gets {S A} (f : S → A) : ST S A := λ s, Done (f s, s).
Definition modify {S} (f : S → S) : ST S unit := λ s, Done (tt, f s).
Definition lift {S A} (m : outcome A) : ST S A := λ s,
  match m with Done a => Done (a, s) | Panic => Panic | Diverge => Diverge end.

(** The value of a run, if it returns. *)
Definition value_of {S A} (m : outcome (A * S)) : option A :=
  match m with Done (a, _) => Some a | _ => None end.

Definition diverge {S A} : ST S A := λ _, Diverge.

(** Total-correctness weakest precondition of [ST]: from state [s] the code
    [m] returns, and its value and final state satisfy [Q]. *)
Definition wp {S A} (m : ST S A) (Q : A → S → Prop) (s : S) : Prop :=
  match m s with Done (a, s') => Q a s' | _ => False end.

Section wp.
Context {S : Type}.

Lemma wp_ret {A} (a : A) (Q : A → S → Prop) s : Q a s → wp (mret a) Q s.
Proof. done. Qed.

Lemma wp_bind {A B} (m : ST S A) (f : A → ST S B) (Q : B → S → Prop) s :
  wp m (λ a s', wp (f a) Q s') s → wp (m ≫= f) Q s.
Proof.
  unfold wp, mbind, st_bind. destruct (m s) as [[a s']| |]; done.
Qed.

Lemma wp_get (Q : S → S → Prop) s : Q s s → wp get Q s.
Proof. done. Qed.

Lemma wp_gets {A} (f : S → A) (Q : A → S → Prop) s : Q (f s) s → wp (gets f) Q s.
Proof. done. Qed.

Lemma wp_modify (f : S → S) (Q : unit → S → Prop) s :
  Q tt (f s) → wp (modify f) Q s.
Proof. done. Qed.

Lemma wp_lift {A} (m : outcome A) (Q : A → S → Prop) s :
  runs m (λ a, Q a s) → wp (lift m) Q s.
Proof. unfold wp, lift. by destruct m. Qed.

Lemma wp_mono {A} (m : ST S A) (P Q : A → S → Prop) s :
  wp m P s → (∀ a s', P a s' → Q a s') → wp m Q s.
Proof. unfold wp. destruct (m s) as [[a s']| |]; auto. Qed.

Lemma wp_and {A} (m : ST S A) (P Q : A → S → Prop) s :
  wp m P s → wp m Q s → wp m (λ a s', P a s' ∧ Q a s') s.
Proof. unfold wp. destruct (m s) as [[a s']| |]; auto. Qed.

Lemma wp_inv {A} (m : ST S A) (Q : A → S → Prop) s :
  wp m Q s → ∃ a s', m s = Done (a, s') ∧ Q a s'.
Proof. unfold wp. destruct (m s) as [[a s']| |]; [eauto | done..]. Qed.

Lemma wp_done {A} (m : ST S A) a s' (Q : A → S → Prop) s :
  m s = Done (a, s') → Q a s' → wp m Q s.
Proof. unfold wp. by intros ->. Qed.
End wp.

(** ** Code that may wait for ever

    [safe m Q s]: from [s] the code [m] does not panic, and if it returns, its
    value and final state satisfy [Q]; it may be cut off. *)
Definition safe {S A} (m : ST S A) (Q : A → S → Prop) (s : S) : Prop :=
  match m s with Done (a, s') => Q a s' | Panic => False | Diverge => True end.

Section safe.
Context {S : Type}.

Lemma wp_safe {A} (m : ST S A) (Q : A → S → Prop) s : wp m Q s → safe m Q s.
Proof. unfold wp, safe. by destruct (m s). Qed.

Lemma safe_bind {A B} (m : ST S A) (f : A → ST S B) (Q : B → S → Prop) s :
  safe m (λ a s', safe (f a) Q s') s → safe (m ≫= f) Q s.
Proof. unfold safe, mbind, st_bind. by destruct (m s) as [[a s']| |]. Qed.

Lemma safe_bind_wp {A B} (m : ST S A) (f : A → ST S B) (Q : B → S → Prop) s :
  wp m (λ a s', safe (f a) Q s') s → safe (m ≫= f) Q s.
Proof. intros. by apply safe_bind, wp_safe. Qed.

Lemma safe_mono {A} (m : ST S A) (P Q : A → S → Prop) s :
  safe m P s → (∀ a s', P a s' → Q a s') → safe m Q s.
Proof. unfold safe. destruct (m s) as [[a s']| |]; auto. Qed.

Lemma safe_ret {A} (a : A) (Q : A → S → Prop) s : Q a s → safe (mret a) Q s.
Proof. done. Qed.

Lemma safe_diverge {A} (Q : A → S → Prop) s : safe diverge Q s.
Proof. done. Qed.
End safe.
