(* ===== verification/Words.v ===== *)
(** * Machine integers, bytes and slices

    Unsigned integers of the kernel are [Z] values kept below [2^w] by [wrap]
    (release builds of the kernel wrap on overflow); byte strings are lists of
    such values; [slice], [put] and [get] are Rust's bounds-checked indexing,
    which panics out of range. *)
From S2P Require Import Prelude.
Local Open Scope Z_scope.

#[global] Coercion Z.of_nat : nat >-> Z.
Create HintDb words.

(** ** Words *)

Definition wrap (w x : Z) : Z := x mod 2 ^ w.
Definition fits (w x : Z) : Prop := 0 ≤ x < 2 ^ w.
(** Rust's [!x] on an unsigned integer of [w] bits. *)
Definition wnot (w x : Z) : Z := wrap w (Z.lnot x).
(** [wrapping_sub]; in release builds also plain [-] and [+] behave so. *)
Definition wsub (w a b : Z) : Z := wrap w (a - b).
Definition wadd (w a b : Z) : Z := wrap w (a + b).
Definition wmul (w a b : Z) : Z := wrap w (a * b).

#[export] Instance fits_dec w x : Decision (fits w x).
Proof. unfold fits. apply _. Defined.

Lemma pow2_pos w : 0 ≤ w → 0 < 2 ^ w.
Proof. intros. by apply Z.pow_pos_nonneg. Qed.

Lemma wrap_fits w x : 0 ≤ w → fits w (wrap w x).
Proof. intros. apply Z.mod_pos_bound, pow2_pos. done. Qed.

Lemma wrap_id w x : fits w x → wrap w x = x.
Proof. intros []. by apply Z.mod_small. Qed.

Lemma wrap_wrap w x : wrap w (wrap w x) = wrap w x.
Proof. apply Zmod_mod. Qed.

Lemma wrap_add_l w x y : wrap w (wrap w x + y) = wrap w (x + y).
Proof. apply Zplus_mod_idemp_l. Qed.

Lemma wrap_add_r w x y : wrap w (x + wrap w y) = wrap w (x + y).
Proof. apply Zplus_mod_idemp_r. Qed.

Lemma wrap_sub_l w x y : wrap w (wrap w x - y) = wrap w (x - y).
Proof. apply Zminus_mod_idemp_l. Qed.

Lemma wrap_sub_r w x y : wrap w (x - wrap w y) = wrap w (x - y).
Proof. apply Zminus_mod_idemp_r. Qed.

Lemma wnot_spec w x : 0 ≤ w → fits w x → wnot w x = 2 ^ w - 1 - x.
Proof.
  intros Hw [? ?]. unfold wnot, wrap.
  rewrite <- (Z_mod_plus_full _ 1), Z.mod_small; unfold Z.lnot; lia.
Qed.

Lemma wadd_fits w a b : 0 ≤ w → fits w (wadd w a b).
Proof. apply wrap_fits. Qed.

Lemma wsub_fits w a b : 0 ≤ w → fits w (wsub w a b).
Proof. apply wrap_fits. Qed.

Lemma fits_weaken v w x : v ≤ w → fits v x → fits w x.
Proof.
  intros Hle [? ?]. split; [done|].
  assert (2 ^ v ≤ 2 ^ w); [|lia].
  destruct (decide (0 ≤ v)); [by apply Z.pow_le_mono_r; lia|].
  rewrite (Z.pow_neg_r 2 v) by lia. apply Z.pow_nonneg. lia.
Qed.

#[export] Hint Resolve wrap_fits wadd_fits wsub_fits : words.
#[export] Hint Extern 1 (0 ≤ _) => lia : words.

(** Evaluate the powers of two that occur with a literal exponent, so that
    [lia] sees constants. *)
Ltac pow2 :=
  unfold fits in *;
  repeat match goal with
  | H : context [2 ^ ?w] |- _ =>
      let v := eval vm_compute in (2 ^ w) in progress change (2 ^ w) with v in H
  | |- context [2 ^ ?w] =>
      let v := eval vm_compute in (2 ^ w) in progress change (2 ^ w) with v
  end.

(** ** Bytes *)

Abbreviation byte := (fits 8).
Abbreviation bytes := (Forall (fits 8)).

(** [to_le_bytes], [to_be_bytes] of an [8n]-bit integer, and their inverses. *)
Fixpoint to_le (n : nat) (z : Z) : list Z :=
  match n with
  | O => []
  | S n => wrap 8 z :: to_le n (Z.shiftr z 8)
  end.
Definition to_be (n : nat) (z : Z) : list Z := reverse (to_le n z).

Fixpoint from_le (l : list Z) : Z :=
  match l with
  | [] => 0
  | b :: l => b + 256 * from_le l
  end.
Definition from_be (l : list Z) : Z := from_le (reverse l).

Lemma length_to_le n z : length (to_le n z) = n.
Proof. revert z. induction n; intros; simpl; auto. Qed.

Lemma length_to_be n z : length (to_be n z) = n.
Proof. unfold to_be. by rewrite length_reverse, length_to_le. Qed.

Lemma bytes_to_le n z : bytes (to_le n z).
Proof.
  revert z. induction n; intros; simpl; constructor; auto.
  by apply wrap_fits.
Qed.

Lemma bytes_to_be n z : bytes (to_be n z).
Proof. apply Forall_reverse, bytes_to_le. Qed.

Lemma from_to_le n z : from_le (to_le n z) = wrap (8 * n) z.
Proof.
  revert z. induction n as [|n IH]; intros z; simpl.
  { unfold wrap. by rewrite Z.mod_1_r. }
  rewrite IH. unfold wrap. rewrite Z.shiftr_div_pow2 by lia.
  replace (8 * S n) with (8 + 8 * n) by lia.
  rewrite Z.pow_add_r by lia.
  rewrite Z.rem_mul_r; [done | lia..].
Qed.

Lemma from_to_be n z : from_be (to_be n z) = wrap (8 * n) z.
Proof. unfold from_be, to_be. by rewrite reverse_involutive, from_to_le. Qed.

Lemma from_le_fits l : bytes l → fits (8 * length l) (from_le l).
Proof.
  induction 1 as [|b l [? Hb] ? IH]; simpl; [done|].
  change (2 ^ 8) with 256 in Hb. unfold fits in *.
  replace (8 * S (length l)) with (8 + 8 * length l) by lia.
  rewrite Z.pow_add_r by lia. change (2 ^ 8) with 256. nia.
Qed.

Lemma from_be_fits l : bytes l → fits (8 * length l) (from_be l).
Proof.
  intros. unfold from_be. rewrite <- (length_reverse l).
  by apply from_le_fits, Forall_reverse.
Qed.

Lemma to_from_le l : bytes l → to_le (length l) (from_le l) = l.
Proof.
  induction 1 as [|b l Hb Hl IH]; simpl; [done|]. f_equal.
  - unfold wrap. rewrite (Z.mul_comm 256), Z_mod_plus_full.
    by apply Z.mod_small.
  - rewrite Z.shiftr_div_pow2 by lia. change (2 ^ 8) with 256 in *.
    rewrite (Z.mul_comm 256), Z_div_plus_full by lia.
    rewrite Z.div_small by done. done.
Qed.

Lemma to_from_be l : bytes l → to_be (length l) (from_be l) = l.
Proof.
  intros. unfold to_be, from_be. rewrite <- (length_reverse l).
  rewrite to_from_le by by apply Forall_reverse. apply reverse_involutive.
Qed.

#[export] Hint Rewrite length_to_be length_to_le : lens.
#[export] Hint Rewrite @length_app @length_take @length_drop @length_replicate
  @length_insert @length_cons @length_nil : lens.
#[export] Hint Resolve bytes_to_be bytes_to_le : words.

(** Simplify the list lengths of a goal and close it by arithmetic. *)
Ltac len := autorewrite with lens in *; simpl length in *; try lia.

(** ** Slices *)

Section slices.
Context {A : Type}.
Implicit Types l src : list A.

(** [l[i]] *)
Definition index (i : nat) (l : list A) : outcome A :=
  match l !! i with Some x => Done x | None => Panic end.

(** [l[i] = x] *)
Definition store (i : nat) (x : A) (l : list A) : outcome (list A) :=
  if decide (i < length l)%nat then Done (<[i := x]> l) else Panic.

(** [&l[a..b]] *)
Definition slice (a b : nat) (l : list A) : outcome (list A) :=
  if decide (a ≤ b ∧ b ≤ length l)%nat then Done (take (b - a) (drop a l))
  else Panic.

(** [l[a..b].copy_from_slice(src)] *)
Definition put (a b : nat) (src l : list A) : outcome (list A) :=
  if decide (a ≤ b ∧ b ≤ length l ∧ length src = b - a)%nat
  then Done (take a l ++ src ++ drop b l) else Panic.

(** [l.copy_within(a..b, 0)] *)
Definition copy_within0 (a b : nat) (l : list A) : outcome (list A) :=
  mid ← slice a b l; put 0 (b - a) mid l.

Lemma index_done i l x : l !! i = Some x → index i l = Done x.
Proof. unfold index. by intros ->. Qed.

Lemma index_lt i l : (i < length l)%nat → ∃ x, l !! i = Some x ∧ index i l = Done x.
Proof. intros [x Hx]%lookup_lt_is_Some. eauto using index_done. Qed.

Lemma store_done i x l : (i < length l)%nat → store i x l = Done (<[i := x]> l).
Proof. intros. unfold store. by rewrite decide_True by done. Qed.

Lemma slice_done a b l :
  (a ≤ b)%nat → (b ≤ length l)%nat → slice a b l = Done (take (b - a) (drop a l)).
Proof. intros. unfold slice. by rewrite decide_True by done. Qed.

Lemma slice_take n l : (n ≤ length l)%nat → slice 0 n l = Done (take n l).
Proof. intros. rewrite slice_done by lia. by rewrite Nat.sub_0_r, drop_0. Qed.

Lemma put_done a b src l :
  (a ≤ b)%nat → (b ≤ length l)%nat → length src = (b - a)%nat →
  put a b src l = Done (take a l ++ src ++ drop b l).
Proof. intros. unfold put. by rewrite decide_True by done. Qed.

(** A buffer that is filled from left to right: [pre] is already written and
    the next field goes right behind it. *)
Lemma put_next a b src pre rest :
  length pre = a → (a ≤ b)%nat → (b - a ≤ length rest)%nat →
  length src = (b - a)%nat →
  put a b src (pre ++ rest) = Done ((pre ++ src) ++ drop (b - a) rest).
Proof.
  intros <- ? ? ?. rewrite put_done by (rewrite ?length_app; lia).
  rewrite take_app_length, drop_app_ge by lia. by rewrite app_assoc.
Qed.

(** Overwriting a field of a buffer that is already filled. *)
Lemma put_mid a b src pre old post :
  length pre = a → length old = (b - a)%nat → length src = (b - a)%nat →
  (a ≤ b)%nat →
  put a b src (pre ++ old ++ post) = Done (pre ++ src ++ post).
Proof.
  intros <- ? ? ?. rewrite put_done by (rewrite ?length_app; lia).
  rewrite take_app_length, drop_app_ge, drop_app_ge by lia.
  by replace (b - length pre - length old)%nat with 0%nat by lia.
Qed.

Lemma slice_mid a b pre mid post :
  length pre = a → length mid = (b - a)%nat → (a ≤ b)%nat →
  slice a b (pre ++ mid ++ post) = Done mid.
Proof.
  intros <- ? ?. rewrite slice_done by (rewrite ?length_app; lia).
  rewrite drop_app_length, take_app_length'; [done|lia].
Qed.

Lemma put_length a b src l l' : put a b src l = Done l' → length l' = length l.
Proof.
  unfold put. case_decide; [|done]. intros [= <-].
  rewrite !length_app, length_take, length_drop. lia.
Qed.

Lemma copy_within0_done a b l :
  (a ≤ b)%nat → (b ≤ length l)%nat →
  copy_within0 a b l = Done (take (b - a) (drop a l) ++ drop (b - a) l).
Proof.
  intros. unfold copy_within0. rewrite slice_done by done. simpl.
  rewrite put_done by (rewrite ?length_take, ?length_drop; lia).
  by rewrite Nat.sub_0_r || simpl.
Qed.

Lemma length_copy_within0 a b l l' :
  copy_within0 a b l = Done l' → length l' = length l.
Proof.
  unfold copy_within0, slice. case_decide; [|done]. simpl. apply put_length.
Qed.
End slices.

(** ** Bit fields *)

Lemma land_shiftl_low a k c : 0 ≤ k → 0 ≤ c < 2 ^ k → Z.land (Z.shiftl a k) c = 0.
Proof.
  intros Hk Hc. apply Z.bits_inj'. intros n Hn.
  rewrite Z.land_spec, Z.bits_0, Z.shiftl_spec by done.
  destruct (decide (n < k)).
  - by rewrite Z.testbit_neg_r by lia.
  - rewrite <- (Z.mod_small c (2 ^ k)) by done.
    rewrite Z.mod_pow2_bits_high by lia. by rewrite andb_false_r.
Qed.

(** [(a << k) | c] for a field [c] of [k] bits. *)
Lemma lor_shiftl_add a k c :
  0 ≤ k → 0 ≤ c < 2 ^ k → Z.lor (Z.shiftl a k) c = a * 2 ^ k + c.
Proof.
  intros. rewrite <- Z.shiftl_mul_pow2 by done.
  rewrite Z.add_nocarry_lxor by by apply land_shiftl_low.
  apply Z.bits_inj'. intros n Hn. rewrite Z.lor_spec, Z.lxor_spec.
  assert (Z.testbit (Z.land (Z.shiftl a k) c) n = false) as E
    by by rewrite land_shiftl_low, Z.bits_0.
  rewrite Z.land_spec in E.
  by destruct (Z.testbit (Z.shiftl a k) n), (Z.testbit c n).
Qed.

Lemma shiftr_field a k c :
  0 ≤ k → 0 ≤ c < 2 ^ k → Z.shiftr (a * 2 ^ k + c) k = a.
Proof.
  intros. rewrite Z.shiftr_div_pow2 by done.
  rewrite Z.add_comm, Z_div_plus_full by lia. rewrite Z.div_small; lia.
Qed.

Lemma wrap_field a k c :
  0 ≤ k → 0 ≤ c < 2 ^ k → wrap k (a * 2 ^ k + c) = c.
Proof.
  intros. unfold wrap. rewrite Z.add_comm, Z_mod_plus_full. by apply Z.mod_small.
Qed.

(** ** Bits of a word *)

Lemma testbit_one_shift bit k : 0 ≤ bit → 0 ≤ k → Z.testbit (Z.shiftl 1 bit) k = (k =? bit).
Proof.
  intros. rewrite Z.shiftl_1_l, Z.pow2_bits_eqb by done. by rewrite Z.eqb_sym.
Qed.

Lemma testbit_wnot w x k : 0 ≤ k < w → Z.testbit (wnot w x) k = negb (Z.testbit x k).
Proof.
  intros. unfold wnot, wrap. rewrite Z.mod_pow2_bits_low by lia.
  by rewrite Z.lnot_spec by lia.
Qed.

Lemma land_one_shift x bit : 0 ≤ bit →
  negb (Z.land x (Z.shiftl 1 bit) =? 0) = Z.testbit x bit.
Proof.
  intros Hb. destruct (Z.eqb_spec (Z.land x (Z.shiftl 1 bit)) 0) as [E|E]; simpl.
  - assert (Z.testbit (Z.land x (Z.shiftl 1 bit)) bit = false) as H
      by by rewrite E, Z.bits_0.
    rewrite Z.land_spec, testbit_one_shift, Z.eqb_refl, andb_true_r in H by done. done.
  - destruct (Z.testbit x bit) eqn:Ht; [done|]. destruct E.
    apply Z.bits_inj'. intros k Hk.
    rewrite Z.land_spec, testbit_one_shift, Z.bits_0 by done.
    destruct (Z.eqb_spec k bit) as [->|]; [by rewrite Ht|by rewrite andb_false_r].
Qed.

Lemma land_shiftr_one x bit : 0 ≤ bit →
  negb (Z.land (Z.shiftr x bit) 1 =? 0) = Z.testbit x bit.
Proof.
  intros. change 1 with (Z.shiftl 1 0). rewrite land_one_shift by done.
  by rewrite Z.shiftr_spec, Z.add_0_l by done.
Qed.

Lemma fits_bits w x : 0 ≤ w → 0 ≤ x → (∀ k, w ≤ k → Z.testbit x k = false) → fits w x.
Proof.
  intros Hw Hx Hk. split; [done|]. rewrite <- (Z.mod_small x (2 ^ w)).
  - by apply Z.mod_pos_bound, pow2_pos.
  - assert (x mod 2 ^ w = x) as <-; [|by apply Z.mod_pos_bound, pow2_pos].
    apply Z.bits_inj'. intros k ?. destruct (decide (k < w)).
    + by apply Z.mod_pow2_bits_low.
    + rewrite Z.mod_pow2_bits_high by lia. symmetry. apply Hk. lia.
Qed.

Lemma fits_testbit w x k : 0 ≤ w → fits w x → w ≤ k → Z.testbit x k = false.
Proof.
  intros ? [? ?] ?. rewrite <- (Z.mod_small x (2 ^ w)) by done.
  by apply Z.mod_pow2_bits_high.
Qed.

Lemma fits_lor w x y : 0 ≤ w → fits w x → fits w y → fits w (Z.lor x y).
Proof.
  intros Hw Hx Hy. apply fits_bits; [done| |].
  - apply Z.lor_nonneg. split; [apply Hx|apply Hy].
  - intros k ?. by rewrite Z.lor_spec, !(fits_testbit w).
Qed.

Lemma land_le a b : 0 ≤ a → Z.land a b ≤ a.
Proof.
  intros Ha. apply (Z.ldiff_le (Z.land a b) a); [done|]. apply Z.bits_inj'. intros n _.
  rewrite Z.ldiff_spec, Z.land_spec, Z.bits_0. by destruct (Z.testbit a n), (Z.testbit b n).
Qed.

Lemma fits_land w x y : 0 ≤ w → fits w x → fits w (Z.land x y).
Proof.
  intros Hw Hx. apply fits_bits; [done| |].
  - apply Z.land_nonneg. left. apply Hx.
  - intros k ?. by rewrite Z.land_spec, (fits_testbit w).
Qed.

(** Clearing the low [w] bits of a number of [w + k] bits. *)
Lemma land_high x w k : 0 ≤ w → 0 ≤ k → 0 ≤ x < 2 ^ (w + k) →
  Z.land x (Z.shiftl (Z.ones k) w) = Z.shiftl (Z.shiftr x w) w.
Proof.
  intros Hw Hk Hx. apply Z.bits_inj'. intros n Hn.
  rewrite Z.land_spec, !Z.shiftl_spec by done. destruct (decide (n < w)).
  { rewrite (Z.testbit_neg_r (Z.ones k)), (Z.testbit_neg_r (Z.shiftr x w)) by lia. apply andb_false_r. }
  rewrite Z.shiftr_spec, Z.testbit_ones by lia. replace (n - w + w) with n by lia.
  destruct (decide (n < w + k)).
  - assert ((0 <=? n - w) && (n - w <? k) = true) as -> by lia. apply andb_true_r.
  - by rewrite (fits_testbit (w + k) x n) by (done || lia).
Qed.

Lemma fits_one_shift w bit : 0 ≤ bit < w → fits w (Z.shiftl 1 bit).
Proof.
  intros. rewrite Z.shiftl_1_l. split; [apply Z.pow_nonneg; lia|].
  apply Z.pow_lt_mono_r; lia.
Qed.
