(* ===== verification/Ring.v ===== *)
(** * Ring buffers

    The kernel has two rings with one slot kept free: the lock-free keyboard
    ring (src/src/keyboard.rs) and the mouse event ring (src/src/mouse.rs).
    Both keep a [head] (next slot to fill) and a [tail] (next slot to read);
    [contents] is the queue such a ring stands for. *)
From S2P Require Import Prelude Words.

#[local] Set Default Proof Using "HN".

Section ring.
Context {A : Type} `{!Inhabited A} (N : nat) (HN : 0 < N).
Implicit Types (buf : list A) (h t k : nat).

(** Number of queued elements. *)
Definition ring_count h t : nat := if decide (t ≤ h) then h - t else h + N - t.

(** Index of the [k]-th queued element. *)
Definition ring_slot t k : nat := if decide (t + k < N) then t + k else t + k - N.

Definition ring_contents buf h t : list A :=
  (λ k, buf !!! ring_slot t k) <$> seq 0 (ring_count h t).

Lemma succ_mod h : h < N → (h + 1) mod N = if decide (h + 1 = N) then 0 else h + 1.
Proof.
  intros. case_decide as E; [rewrite E; apply Nat.Div0.mod_same|].
  apply Nat.mod_small. lia.
Qed.

Lemma succ_mod_lt h : (h + 1) mod N < N.
Proof. apply Nat.mod_upper_bound. lia. Qed.

Lemma length_ring_contents buf h t : length (ring_contents buf h t) = ring_count h t.
Proof using. unfold ring_contents. by rewrite length_fmap, length_seq. Qed.

Lemma ring_empty buf h t : h < N → t < N → ring_contents buf h t = [] ↔ h = t.
Proof.
  intros. rewrite <- length_zero_iff_nil, length_ring_contents.
  unfold ring_count. case_decide; lia.
Qed.

Lemma ring_full buf h t : h < N → t < N →
  (h + 1) mod N = t ↔ length (ring_contents buf h t) = N - 1.
Proof.
  intros. rewrite length_ring_contents, succ_mod by done.
  unfold ring_count. repeat case_decide; lia.
Qed.

Lemma ring_count_lt h t : h < N → t < N → ring_count h t < N.
Proof. intros. unfold ring_count. case_decide; lia. Qed.

Lemma ring_push buf h t x :
  length buf = N → h < N → t < N → (h + 1) mod N ≠ t →
  ring_contents (<[h := x]> buf) ((h + 1) mod N) t = ring_contents buf h t ++ [x].
Proof.
  intros Hlen ? ? Hne. rewrite succ_mod in * by done. unfold ring_contents.
  assert (ring_count (if decide (h + 1 = N) then 0 else h + 1) t
          = S (ring_count h t)) as ->.
  { unfold ring_count. repeat case_decide; lia. }
  rewrite seq_S, fmap_app. f_equal.
  - apply list_fmap_ext. intros i k [-> ?]%lookup_seq. simpl.
    rewrite list_lookup_total_insert_ne; [done|].
    unfold ring_slot, ring_count in *. repeat case_decide; lia.
  - simpl. f_equal. replace (ring_slot t (ring_count h t)) with h.
    + apply list_lookup_total_insert_eq. lia.
    + unfold ring_slot, ring_count in *. repeat case_decide; lia.
Qed.

Lemma ring_pop buf h t : h < N → t < N → h ≠ t →
  ring_contents buf h t = buf !!! t :: ring_contents buf h ((t + 1) mod N).
Proof.
  intros. rewrite succ_mod by done. unfold ring_contents.
  assert (ring_count h t
    = S (ring_count h (if decide (t + 1 = N) then 0 else t + 1))) as ->.
  { unfold ring_count. repeat case_decide; lia. }
  simpl. f_equal.
  - f_equal. unfold ring_slot. case_decide; lia.
  - rewrite <- fmap_S_seq, <- list_fmap_compose. apply list_fmap_ext.
    intros i k [-> Hi]%lookup_seq. simpl. f_equal.
    revert Hi. unfold ring_slot, ring_count. repeat case_decide; lia.
Qed.

(** Overwriting a slot outside the queued range changes nothing. *)
Lemma ring_write_free buf h t x :
  length buf = N → h < N → t < N →
  ring_contents (<[h := x]> buf) h t = ring_contents buf h t.
Proof.
  intros. unfold ring_contents. apply list_fmap_ext.
  intros i k [-> Hi]%lookup_seq. simpl.
  rewrite list_lookup_total_insert_ne; [done|].
  revert Hi. unfold ring_slot, ring_count. repeat case_decide; lia.
Qed.

(** The queue from an older head is a prefix of the present queue. *)
Lemma ring_prefix buf h h' t :
  h < N → h' < N → t < N → ring_count h' t ≤ ring_count h t →
  ring_contents buf h h' = drop (ring_count h' t) (ring_contents buf h t).
Proof.
  intros ? ? ? Hle. unfold ring_contents. rewrite <- fmap_drop, drop_seq, Nat.add_0_l.
  assert (ring_count h h' = ring_count h t - ring_count h' t) as Hc.
  { revert Hle. unfold ring_count. repeat case_decide; lia. }
  rewrite Hc.
  replace (seq (ring_count h' t)) with (seq (ring_count h' t + 0)) by (f_equal; lia).
  rewrite <- fmap_add_seq, <- list_fmap_compose. apply list_fmap_ext.
  intros i k [-> Hi]%lookup_seq. simpl. f_equal.
  revert Hi Hle. unfold ring_slot, ring_count. repeat case_decide; lia.
Qed.
End ring.
