(* ===== verification/Keyboard.v ===== *)
(** * Keyboard driver (src/src/keyboard.rs)

    The scancode translator run by IRQ1, the packed event encoding and the
    lock-free single-producer single-consumer ring.  [LockFreeRing] holds the
    ring's sequential operations, [Irq] the interrupt handler, and [Spsc] the
    same ring operations cut into their atomic accesses, interleaved. *)
From S2P Require Import Prelude Words Ring.
From stdpp Require Import relations.
Local Open Scope Z_scope.

Definition BUF_SIZE : nat := 64.

Inductive KeyEvent :=
  | Char (c : Z)
  | Up | Down | Left | Right
  | Backspace | Enter | Escape
  | Ctrl (c : Z)
  | PageUp | PageDown.

#[export] Instance KeyEvent_eq_dec : EqDecision KeyEvent.
Proof. solve_decision. Defined.

Definition encode (ev : KeyEvent) : Z :=
  match ev with
  | Char c => Z.lor (Z.shiftl 1 8) c
  | Up => Z.shiftl 2 8
  | Down => Z.shiftl 3 8
  | Left => Z.shiftl 4 8
  | Right => Z.shiftl 5 8
  | Backspace => Z.shiftl 6 8
  | Enter => Z.shiftl 7 8
  | Escape => Z.shiftl 8 8
  | Ctrl c => Z.lor (Z.shiftl 9 8) c
  | PageUp => Z.shiftl 10 8
  | PageDown => Z.shiftl 11 8
  end.

Definition decode (val : Z) : option KeyEvent :=
  if val =? 0 then None else
  let typ := Z.shiftr val 8 in
  let data := wrap 8 val in
  match typ with
  | 1 => Some (Char data)
  | 2 => Some Up
  | 3 => Some Down
  | 4 => Some Left
  | 5 => Some Right
  | 6 => Some Backspace
  | 7 => Some Enter
  | 8 => Some Escape
  | 9 => Some (Ctrl data)
  | 10 => Some PageUp
  | 11 => Some PageDown
  | _ => None
  end.

(** The payload of [Char] is a [u8]; the translator only builds [Ctrl] from a
    [u8] too. *)
Definition event_ok (ev : KeyEvent) : Prop :=
  match ev with Char c | Ctrl c => byte c | _ => True end.

#[export] Instance event_ok_dec ev : Decision (event_ok ev).
Proof. destruct ev; apply _. Defined.

(** ** The ring, run without interruption *)
Module LockFreeRing.
Record t := mk { buf : list Z; head : nat; tail : nat }.

Definition new : t := mk (replicate BUF_SIZE 0) 0 0.

Definition push (ev : KeyEvent) (r : t) : outcome t :=
  let h := head r in
  let tl := tail r in
  let next := ((h + 1) mod BUF_SIZE)%nat in
  if decide (next = tl) then Done r
  else
    b ← store h (encode ev) (buf r);
    Done (mk b next tl).

Definition pop (r : t) : outcome (option KeyEvent * t) :=
  let tl := tail r in
  let h := head r in
  if decide (tl = h) then Done (None, r)
  else
    val ← index tl (buf r);
    Done (decode val, mk (buf r) h ((tl + 1) mod BUF_SIZE)%nat).

Definition clear (r : t) : t := mk (buf r) (head r) (head r).

Definition wf (r : t) : Prop :=
  length (buf r) = BUF_SIZE ∧ (head r < BUF_SIZE)%nat ∧ (tail r < BUF_SIZE)%nat.

(** The queue of encoded events the ring stands for. *)
Definition queue (r : t) : list Z := ring_contents BUF_SIZE (buf r) (head r) (tail r).
End LockFreeRing.

(** ** The interrupt handler *)
Module Irq.
Record Kbd := mk {
  KEYBUF : LockFreeRing.t;
  SHIFT : bool;
  CTRL : bool;
  EXTENDED : bool;
}.

Definition init : Kbd := mk LockFreeRing.new false false false.

Definition set_KEYBUF r k := mk r (SHIFT k) (CTRL k) (EXTENDED k).
Definition set_SHIFT b k := mk (KEYBUF k) b (CTRL k) (EXTENDED k).
Definition set_CTRL b k := mk (KEYBUF k) (SHIFT k) b (EXTENDED k).
Definition set_EXTENDED b k := mk (KEYBUF k) (SHIFT k) (CTRL k) b.

Definition LOWER : list Z :=
  [0; 27; 49; 50; 51; 52; 53; 54; 55; 56; 57; 48; 45; 61; 8;
   9; 113; 119; 101; 114; 116; 121; 117; 105; 111; 112; 91; 93; 10;
   0; 97; 115; 100; 102; 103; 104; 106; 107; 108; 59; 39; 96; 0;
   92; 122; 120; 99; 118; 98; 110; 109; 44; 46; 47; 0; 42; 0; 32].
Definition UPPER : list Z :=
  [0; 27; 33; 64; 35; 36; 37; 94; 38; 42; 40; 41; 95; 43; 8;
   9; 81; 87; 69; 82; 84; 89; 85; 73; 79; 80; 123; 125; 10;
   0; 65; 83; 68; 70; 71; 72; 74; 75; 76; 58; 34; 126; 0;
   124; 90; 88; 67; 86; 66; 78; 77; 60; 62; 63; 0; 42; 0; 32].

Definition scancode_to_ascii (sc : Z) (shift : bool) : outcome (option Z) :=
  if decide (length LOWER ≤ Z.to_nat sc)%nat then Done None
  else
    c ← (if shift then index (Z.to_nat sc) UPPER else index (Z.to_nat sc) LOWER);
    Done (if (c =? 0) || (c =? 27) then None else Some c).

Definition translate_extended (sc : Z) : option KeyEvent :=
  if decide (sc = 0x48) then Some Up
  else if decide (sc = 0x50) then Some Down
  else if decide (sc = 0x4B) then Some Left
  else if decide (sc = 0x4D) then Some Right
  else if decide (sc = 0x49) then Some PageUp
  else if decide (sc = 0x51) then Some PageDown
  else None.

Definition translate (sc : Z) : ST Kbd (option KeyEvent) :=
  if decide (sc = 0x2A ∨ sc = 0x36) then modify (set_SHIFT true) ;; mret None
  else if decide (sc = 0x1D) then modify (set_CTRL true) ;; mret None
  else if decide (sc = 0x0E) then mret (Some Backspace)
  else if decide (sc = 0x1C) then mret (Some Enter)
  else if decide (sc = 0x01) then mret (Some Escape)
  else
    shift ← gets SHIFT;
    ctrl ← gets CTRL;
    c ← lift (scancode_to_ascii sc shift);
    match c with
    | None => mret None
    | Some c => mret (Some (if (ctrl : bool) then Ctrl c else Char c))
    end.

Definition handle_release (sc : Z) : ST Kbd unit :=
  if decide (sc = 0x2A ∨ sc = 0x36) then modify (set_SHIFT false)
  else if decide (sc = 0x1D) then modify (set_CTRL false)
  else mret tt.

Definition push (ev : KeyEvent) : ST Kbd unit :=
  r ← gets KEYBUF;
  r' ← lift (LockFreeRing.push ev r);
  modify (set_KEYBUF r').

(** [status] and [sc] are what the ports 0x64 and 0x60 read as. *)
Definition handle_irq (status sc : Z) : ST Kbd unit :=
  if negb (Z.land status 0x20 =? 0) then mret tt
  else if sc =? 0xE0 then modify (set_EXTENDED true)
  else
    ext ← gets EXTENDED;
    modify (set_EXTENDED false) ;;
    if ext : bool then
      match translate_extended sc with
      | Some ev => push ev
      | None => mret tt
      end
    else if negb (Z.land sc 0x80 =? 0) then handle_release (Z.land sc 0x7F)
    else
      ev ← translate sc;
      match ev with
      | Some ev => push ev
      | None => mret tt
      end.

Definition pop_event : ST Kbd (option KeyEvent) :=
  r ← gets KEYBUF;
  '(ev, r') ← lift (LockFreeRing.pop r);
  modify (set_KEYBUF r') ;;
  mret ev.

Definition flush : ST Kbd unit :=
  modify (λ k, set_KEYBUF (LockFreeRing.clear (KEYBUF k)) k).
End Irq.

(** ** Encoding *)

Lemma encode_decode ev : event_ok ev → decode (encode ev) = Some ev.
Proof.
  destruct ev; try done; simpl; intros Hc; unfold decode, encode;
    rewrite lor_shiftl_add, shiftr_field, wrap_field by done;
    (case_match eqn:E; [apply Z.eqb_eq in E; destruct Hc; lia | done]).
Qed.

Module LockFreeRingProps.
Import LockFreeRing.

Lemma BUF_SIZE_pos : (0 < BUF_SIZE)%nat.
Proof. unfold BUF_SIZE. lia. Qed.
#[local] Hint Resolve BUF_SIZE_pos : core.

Lemma push_spec ev r : wf r →
  runs (push ev r) (λ r', wf r' ∧
    queue r' = if decide (length (queue r) = BUF_SIZE - 1)%nat then queue r
               else queue r ++ [encode ev]).
Proof.
  intros (Hl & Hh & Ht). unfold push.
  pose proof (ring_full BUF_SIZE BUF_SIZE_pos (buf r) _ _ Hh Ht) as Hfull.
  fold (queue r) in Hfull.
  destruct (decide (_ = tail r)) as [E|E].
  { simpl. by rewrite decide_True by by apply Hfull. }
  rewrite decide_False by by rewrite <- Hfull.
  rewrite store_done by lia. simpl. split.
  - unfold wf. simpl. rewrite length_insert. split_and!; [done | | done].
    by apply succ_mod_lt.
  - unfold queue. simpl. by apply ring_push.
Qed.

Lemma pop_spec r : wf r →
  runs (pop r) (λ '(o, r'), wf r' ∧
    match queue r with
    | [] => o = None ∧ r' = r
    | v :: q => o = decode v ∧ queue r' = q
    end).
Proof.
  intros (Hl & Hh & Ht). unfold pop.
  destruct (decide (tail r = head r)) as [E|E]; simpl.
  { split; [done|]. unfold queue.
    by rewrite (proj2 (ring_empty BUF_SIZE BUF_SIZE_pos (buf r) (head r) (tail r) Hh Ht)). }
  destruct (index_lt (tail r) (buf r)) as (v & Hv & ->); [lia|]. simpl.
  split; [split_and!; simpl; auto; by apply succ_mod_lt|].
  unfold queue. rewrite (ring_pop BUF_SIZE BUF_SIZE_pos) by auto. simpl.
  by rewrite (list_lookup_total_correct _ _ _ Hv).
Qed.

Lemma wf_new : wf new.
Proof. unfold wf, new, BUF_SIZE. simpl. lia. Qed.

Lemma clear_spec r : wf r → wf (clear r) ∧ queue (clear r) = [].
Proof. intros (? & ? & ?). split; [done|]. by apply ring_empty. Qed.
End LockFreeRingProps.

(** ** The ring under interruption

    [push] runs in the IRQ1 handler and [pop]/[clear] in the shell; the
    interrupt may arrive between any two memory accesses of the consumer, and
    the model also lets the consumer run between two accesses of the producer.
    Each transition is one atomic access. *)
Module Spsc.
Inductive Producer :=
  | PIdle
  | PHead (ev : KeyEvent) (h : nat)       (* head.load done *)
  | PSpace (ev : KeyEvent) (h : nat)      (* tail.load done, there is room *)
  | PStored (ev : KeyEvent) (h : nat).    (* buf[h].store done *)

Inductive Consumer :=
  | CIdle
  | CTail (t : nat)                       (* pop: tail.load done *)
  | CAvail (t : nat)                      (* pop: head.load done, not empty *)
  | CLoaded (t : nat) (val : Z)           (* pop: buf[t].load done *)
  | CFlush (h : nat).                     (* clear: head.load done *)

Record state := mk {
  buf : list Z;
  head : nat;
  tail : nat;
  prod : Producer;
  cons : Consumer;
}.

Definition init : state := mk (replicate BUF_SIZE 0) 0 0 PIdle CIdle.

(** What an atomic step makes visible: an event accepted or dropped by
    [push], the result of a [pop], the effect of a [clear]. *)
Inductive label :=
  | Tau
  | Pushed (ev : KeyEvent)
  | Dropped (ev : KeyEvent)
  | Popped (r : option KeyEvent)
  | Flushed (n : nat).

Inductive step : state → label → state → Prop :=
  | push_load_head b h t c ev : event_ok ev →
      step (mk b h t PIdle c) Tau (mk b h t (PHead ev h) c)
  | push_full b h t c ev h' : ((h' + 1) mod BUF_SIZE)%nat = t →
      step (mk b h t (PHead ev h') c) (Dropped ev) (mk b h t PIdle c)
  | push_space b h t c ev h' : ((h' + 1) mod BUF_SIZE)%nat ≠ t →
      step (mk b h t (PHead ev h') c) Tau (mk b h t (PSpace ev h') c)
  | push_store b h t c ev h' b' : store h' (encode ev) b = Done b' →
      step (mk b h t (PSpace ev h') c) Tau (mk b' h t (PStored ev h') c)
  | push_commit b h t c ev h' :
      step (mk b h t (PStored ev h') c) (Pushed ev)
           (mk b ((h' + 1) mod BUF_SIZE)%nat t PIdle c)
  | pop_load_tail b h t p :
      step (mk b h t p CIdle) Tau (mk b h t p (CTail t))
  | pop_empty b h t p t' : t' = h →
      step (mk b h t p (CTail t')) (Popped None) (mk b h t p CIdle)
  | pop_avail b h t p t' : t' ≠ h →
      step (mk b h t p (CTail t')) Tau (mk b h t p (CAvail t'))
  | pop_load b h t p t' v : index t' b = Done v →
      step (mk b h t p (CAvail t')) Tau (mk b h t p (CLoaded t' v))
  | pop_commit b h t p t' v :
      step (mk b h t p (CLoaded t' v)) (Popped (decode v))
           (mk b h ((t' + 1) mod BUF_SIZE)%nat p CIdle)
  | clear_load_head b h t p :
      step (mk b h t p CIdle) Tau (mk b h t p (CFlush h))
  | clear_commit b h t p h' :
      step (mk b h t p (CFlush h')) (Flushed (ring_count BUF_SIZE h' t))
           (mk b h h' p CIdle).

(** The specification: a bounded FIFO queue of events. *)
Inductive spec_step : list KeyEvent → label → list KeyEvent → Prop :=
  | spec_tau q : spec_step q Tau q
  | spec_push q ev : (length q < BUF_SIZE - 1)%nat →
      spec_step q (Pushed ev) (q ++ [ev])
  | spec_drop q ev : length q = (BUF_SIZE - 1)%nat → spec_step q (Dropped ev) q
  | spec_pop ev q : spec_step (ev :: q) (Popped (Some ev)) q
  | spec_empty : spec_step [] (Popped None) []
  | spec_flush q n : (n ≤ length q)%nat → spec_step q (Flushed n) (drop n q).

Inductive run {A} (R : A → label → A → Prop) : A → list label → A → Prop :=
  | run_nil s : run R s [] s
  | run_cons s1 l s2 ls s3 : R s1 l s2 → run R s2 ls s3 → run R s1 (l :: ls) s3.

Definition contents (s : state) : list Z := ring_contents BUF_SIZE (buf s) (head s) (tail s).

(** Invariant and refinement relation. *)
Record inv (s : state) (q : list KeyEvent) : Prop := {
  inv_len : length (buf s) = BUF_SIZE;
  inv_head : (head s < BUF_SIZE)%nat;
  inv_tail : (tail s < BUF_SIZE)%nat;
  inv_queue : contents s = encode <$> q;
  inv_ok : Forall event_ok q;
  inv_prod : match prod s with
    | PIdle => True
    | PHead ev h => event_ok ev ∧ h = head s
    | PSpace ev h => event_ok ev ∧ h = head s ∧ ((h + 1) mod BUF_SIZE)%nat ≠ tail s
    | PStored ev h => event_ok ev ∧ h = head s ∧ ((h + 1) mod BUF_SIZE)%nat ≠ tail s ∧
        buf s !! h = Some (encode ev)
    end;
  inv_cons : match cons s with
    | CIdle => True
    | CTail t => t = tail s
    | CAvail t => t = tail s ∧ tail s ≠ head s
    | CLoaded t v => t = tail s ∧ tail s ≠ head s ∧ buf s !! t = Some v
    | CFlush h => (h < BUF_SIZE)%nat ∧
        (ring_count BUF_SIZE h (tail s) ≤ ring_count BUF_SIZE (head s) (tail s))%nat
    end;
}.

Lemma contents_nil s q : inv s q → tail s = head s → q = [].
Proof.
  intros [] E. assert (contents s = []) as Hc.
  { by apply ring_empty; try apply LockFreeRingProps.BUF_SIZE_pos. }
  rewrite inv_queue0 in Hc. by apply fmap_nil_inv in Hc.
Qed.

Lemma contents_cons s q : inv s q → tail s ≠ head s →
  ∃ ev q', q = ev :: q' ∧ buf s !! tail s = Some (encode ev) ∧
    ring_contents BUF_SIZE (buf s) (head s) ((tail s + 1) mod BUF_SIZE) = encode <$> q'.
Proof.
  intros [] E. unfold contents in *.
  rewrite ring_pop in inv_queue0 by (try apply LockFreeRingProps.BUF_SIZE_pos; auto).
  destruct q as [|ev q']; [done|]. injection inv_queue0 as Hv Hq.
  exists ev, q'. split_and!; [done| |done]. rewrite <- Hv.
  apply list_lookup_lookup_total_lt. lia.
Qed.

Lemma contents_length s q : inv s q → length q = ring_count BUF_SIZE (head s) (tail s).
Proof. intros []. by rewrite <- length_ring_contents with (buf := buf s), <- (length_fmap encode), <- inv_queue0. Qed.

Lemma step_refines s l s' q :
  inv s q → step s l s' → ∃ q', spec_step q l q' ∧ inv s' q'.
Proof.
  intros Hinv Hstep. pose proof (contents_nil s q Hinv) as Hnil.
  pose proof (contents_cons s q Hinv) as Hcons.
  pose proof (contents_length s q Hinv) as Hlen.
  destruct Hinv as [Hl Hh Ht Hq Hok Hp Hc].
  assert (0 < BUF_SIZE)%nat as Hpos by (unfold BUF_SIZE; lia).
  destruct Hstep; simpl in *.
  - exists q. split; constructor; simpl; auto.
  - destruct Hp as [Hev ->]. exists q. split; [|constructor; simpl; auto].
    constructor. rewrite Hlen. apply (ring_full _ Hpos b) in H; [|done..].
    by rewrite length_ring_contents in H.
  - exists q. split; constructor; simpl; naive_solver.
  - destruct Hp as (Hev & -> & Hne).
    rewrite store_done in H by lia. injection H as <-.
    exists q. split; [constructor|]. constructor; simpl; auto.
    + by rewrite length_insert.
    + unfold contents. simpl. by rewrite ring_write_free.
    + split_and!; auto. apply list_lookup_insert_eq. lia.
    + destruct c; auto. destruct Hc as (-> & ? & ?). split_and!; auto.
      by rewrite list_lookup_insert_ne by done.
  - destruct Hp as (Hev & -> & Hne & Hb). exists (q ++ [ev]). split.
    + constructor. rewrite Hlen.
      pose proof (ring_count_lt BUF_SIZE Hpos h t Hh Ht).
      rewrite (ring_full _ Hpos b), length_ring_contents in Hne by done. lia.
    + constructor; simpl; auto.
      * by apply succ_mod_lt.
      * unfold contents in *. simpl in *.
        rewrite <- (list_insert_id _ _ _ Hb), ring_push by done.
        by rewrite Hq, fmap_app.
      * apply Forall_app. auto.
      * rewrite succ_mod in * by done.
        destruct c; auto;
          unfold ring_count in *; repeat case_decide; naive_solver lia.
  - exists q. split; constructor; simpl; auto.
  - subst. rewrite (Hnil eq_refl) in *. exists []. split; constructor; simpl; auto.
  - exists q. split; constructor; simpl; naive_solver.
  - destruct Hc as [-> Hne]. destruct (Hcons Hne) as (ev & q' & -> & Hb & _).
    exists (ev :: q'). split; constructor; simpl; auto.
    split_and!; auto. unfold index in H. rewrite Hb in H. congruence.
  - destruct Hc as (-> & Hne & Hv). destruct (Hcons Hne) as (ev & q' & -> & Hb & Hq').
    rewrite Hb in Hv. injection Hv as <-.
    apply Forall_cons in Hok as [Hev Hok].
    rewrite encode_decode by done.
    exists q'. split; [constructor|]. constructor; simpl; auto.
    + by apply succ_mod_lt.
    + rewrite (succ_mod _ Hpos t) by done.
      destruct p as [|ev' h'|ev' h'|ev' h']; auto;
        (destruct Hp as (? & -> & Hp); rewrite succ_mod in * by done;
         split_and!; auto; try (by destruct Hp); repeat case_decide; lia).
  - exists q. split; [constructor|]. constructor; simpl; auto.
  - destruct Hc as [Hh' Hle].
    eexists. split; [constructor; by rewrite Hlen|]. constructor; simpl; auto.
    + unfold contents in *. simpl in *.
      by rewrite (ring_prefix _ Hpos _ _ _ t), Hq, fmap_drop.
    + by apply Forall_drop.
    + destruct p as [|ev' h1|ev' h1|ev' h1]; auto;
        destruct Hp as (? & -> & Hp); rewrite succ_mod in * by done;
        split_and!; auto; try (by destruct Hp);
        unfold ring_count in *; repeat case_decide; lia.
Qed.
End Spsc.


Module IrqProps.
Import Irq LockFreeRingProps.

Definition queue (k : Kbd) : list Z := LockFreeRing.queue (KEYBUF k).
Definition wf (k : Kbd) : Prop := LockFreeRing.wf (KEYBUF k).

(** At most one event is queued behind the old ones, and it decodes back to
    itself. *)
Definition grows (q q' : list Z) : Prop :=
  q' = q ∨ ∃ ev, event_ok ev ∧ q' = q ++ [encode ev].

Lemma push_grows ev k : wf k → event_ok ev →
  wp (push ev) (λ _ k', wf k' ∧ grows (queue k) (queue k') ∧
    SHIFT k' = SHIFT k ∧ CTRL k' = CTRL k ∧ EXTENDED k' = EXTENDED k) k.
Proof.
  intros Hwf Hev. unfold push. apply wp_bind, wp_gets, wp_bind, wp_lift.
  eapply runs_mono; [by apply push_spec|]. intros r' [Hwf' Hq].
  apply wp_modify. split; [done|]. split; [|done].
  unfold queue, grows. simpl. rewrite Hq. case_decide; eauto.
Qed.

Lemma table_bytes : bytes LOWER ∧ bytes UPPER ∧ length UPPER = length LOWER.
Proof. split_and!; [by refine (bool_decide_unpack _ _); vm_compute..|done]. Qed.

Lemma scancode_to_ascii_spec sc shift :
  runs (scancode_to_ascii sc shift) (λ o, ∀ c, o = Some c → byte c).
Proof.
  unfold scancode_to_ascii. case_decide as Hlen; simpl; [done|].
  destruct table_bytes as (Hl & Hu & E).
  assert (∃ c, (if shift then index (Z.to_nat sc) UPPER else index (Z.to_nat sc) LOWER)
               = Done c ∧ byte c) as (c & -> & Hc).
  { destruct shift.
    - destruct (index_lt (Z.to_nat sc) UPPER) as (c & Hc & ->); [lia|].
      exists c. split; [done|]. by eapply Forall_lookup_1 in Hc.
    - destruct (index_lt (Z.to_nat sc) LOWER) as (c & Hc & ->); [lia|].
      exists c. split; [done|]. by eapply Forall_lookup_1 in Hc. }
  simpl. intros c'. case_match; [done|]. intros [= <-]. done.
Qed.

(** The modifier a make code raises, if any. *)
Definition translate_flags (sc : Z) (k k' : Kbd) : Prop :=
  KEYBUF k' = KEYBUF k ∧ EXTENDED k' = EXTENDED k ∧
  SHIFT k' = (if decide (sc = 0x2A ∨ sc = 0x36) then true else SHIFT k) ∧
  CTRL k' = (if decide (sc = 0x1D) then true else CTRL k).

Lemma translate_spec sc k :
  wp (translate sc) (λ o k', translate_flags sc k k' ∧
    ∀ ev, o = Some ev → event_ok ev) k.
Proof.
  unfold translate_flags, translate.
  destruct (decide (sc = 0x2A ∨ sc = 0x36)).
  { apply wp_bind, wp_modify, wp_ret. rewrite decide_False by lia. by split_and!. }
  destruct (decide (sc = 0x1D)); [by apply wp_bind, wp_modify, wp_ret; split_and!|].
  do 3 (case_decide; [apply wp_ret; split_and!; try done; by intros ? [= <-]|]).
  apply wp_bind, wp_gets, wp_bind, wp_gets, wp_bind, wp_lift.
  eapply runs_mono; [apply scancode_to_ascii_spec|]. intros o Ho.
  destruct o as [c|]; apply wp_ret; split_and!; try done.
  intros ev [= <-]. by destruct (CTRL k); apply Ho.
Qed.

Lemma handle_release_spec sc k :
  wp (handle_release sc) (λ _ k',
    KEYBUF k' = KEYBUF k ∧ EXTENDED k' = EXTENDED k ∧
    SHIFT k' = (if decide (sc = 0x2A ∨ sc = 0x36) then false else SHIFT k) ∧
    CTRL k' = (if decide (sc = 0x1D) then false else CTRL k)) k.
Proof.
  unfold handle_release.
  destruct (decide (sc = 0x2A ∨ sc = 0x36)).
  { apply wp_modify. rewrite decide_False by lia. by split_and!. }
  destruct (decide (sc = 0x1D)); [by apply wp_modify; split_and! | by apply wp_ret].
Qed.

Lemma translate_extended_ok sc ev : translate_extended sc = Some ev → event_ok ev.
Proof. unfold translate_extended. repeat case_decide; by intros [= <-]. Qed.
End IrqProps.

(** The top bit of a scancode distinguishes releases. *)
Lemma land_80 sc : byte sc →
  (Z.land sc 0x80 = 0 ∧ Z.land sc 0x7F = sc ∧ sc < 0x80) ∨
  (Z.land sc 0x80 = 0x80 ∧ Z.land sc 0x7F = sc - 0x80 ∧ 0x80 ≤ sc).
Proof.
  intros [Hl Hu]. change (2 ^ 8) with 256 in Hu.
  assert (Forall (λ n : nat,
      (Z.land n 0x80 = 0 ∧ Z.land n 0x7F = n ∧ n < 0x80) ∨
      (Z.land n 0x80 = 0x80 ∧ Z.land n 0x7F = n - 0x80 ∧ 0x80 ≤ n)) (seq 0 256)) as H.
  { refine (bool_decide_unpack _ _). by vm_compute. }
  rewrite Forall_forall in H. rewrite <- (Z2Nat.id sc) by done.
  apply H, elem_of_seq. lia.
Qed.

(** ** Properties *)
Module KeyboardProps.
Import Irq IrqProps.

(** C11: Whatever the interleaving of the interrupt handler's
    [push] with the shell's [pop] and [clear], the ring behaves as a bounded
    FIFO queue of events: the visible actions of any run of the atomic
    accesses are a run of the queue specification, and the pops return the
    events exactly as pushed. *)
Theorem spsc_refines_fifo ls s :
  Spsc.run Spsc.step Spsc.init ls s →
  ∃ q, Spsc.run Spsc.spec_step [] ls q ∧ Spsc.contents s = encode <$> q.
Proof.
  assert (Spsc.inv Spsc.init []) as Hinit.
  { constructor; simpl; auto; unfold BUF_SIZE; lia. }
  generalize (@nil KeyEvent), Hinit. generalize Spsc.init. clear Hinit.
  intros s0 q Hinv Hrun. revert q Hinv.
  induction Hrun as [s1|s1 l s2 ls s3 Hstep Hrun IH]; intros q Hinv.
  - exists q. split; [constructor|]. by apply Hinv.
  - destruct (Spsc.step_refines _ _ _ _ Hinv Hstep) as (q2 & Hs & Hinv2).
    destruct (IH _ Hinv2) as (q3 & ? & ?). exists q3. split; [by econstructor|done].
Qed.

(** One keyboard interrupt, on any well-formed ring: it
    never panics, queues at most one event (one that decodes back to itself)
    and tracks the modifiers: after an unprefixed code SHIFT and CTRL say
    whether the last code of that key was a press, the 0xE0 prefix marks
    exactly the next code, and a prefixed code leaves the modifiers alone. *)
Theorem handle_irq_spec status sc k :
  IrqProps.wf k → byte sc → Z.land status 0x20 = 0 →
  wp (handle_irq status sc) (λ _ k', IrqProps.wf k' ∧
    grows (IrqProps.queue k) (IrqProps.queue k') ∧
    EXTENDED k' = (sc =? 0xE0) ∧
    SHIFT k' = (if EXTENDED k || (sc =? 0xE0) then SHIFT k
                else if decide (sc = 0x2A ∨ sc = 0x36) then true
                else if decide (sc = 0xAA ∨ sc = 0xB6) then false
                else SHIFT k) ∧
    CTRL k' = (if EXTENDED k || (sc =? 0xE0) then CTRL k
               else if decide (sc = 0x1D) then true
               else if decide (sc = 0x9D) then false
               else CTRL k)) k.
Proof.
  intros Hwf Hsc Hst. unfold handle_irq. rewrite Hst. simpl.
  destruct (Z.eqb_spec sc 0xE0) as [->|Hne].
  { apply wp_modify. rewrite orb_true_r. split_and!; try done. by left. }
  rewrite orb_false_r. apply wp_bind, wp_gets, wp_bind, wp_modify.
  destruct (EXTENDED k) eqn:Hext.
  { destruct (translate_extended sc) as [ev|] eqn:Htr.
    - apply translate_extended_ok in Htr.
      eapply wp_mono; [by apply push_grows|].
      intros _ k' (Hwf' & Hg & Hs & Hc & He). by split_and!.
    - apply wp_ret. split_and!; try done. by left. }
  destruct (land_80 sc Hsc) as [(E1 & E2 & Hlt)|(E1 & E2 & Hge)]; rewrite E1; simpl.
  - apply wp_bind. eapply wp_mono; [apply translate_spec|].
    intros o k' [(Hk & He & Hs & Hc) Ho]. simpl in *.
    rewrite (decide_False (P := sc = 0xAA ∨ _)), (decide_False (P := sc = 0x9D)) by lia.
    rewrite <- Hs, <- Hc. destruct o as [ev|].
    + eapply wp_mono; [apply push_grows; [unfold IrqProps.wf; by rewrite Hk|by apply Ho]|].
      intros _ k'' (Hwf' & Hg & -> & -> & ->). unfold IrqProps.queue in *.
      rewrite Hk in Hg. by split_and!.
    + apply wp_ret. unfold IrqProps.wf, IrqProps.queue. rewrite Hk.
      split_and!; try done. by left.
  - eapply wp_mono; [apply handle_release_spec|].
    intros _ k' (Hk & He & Hs & Hc). simpl in *.
    unfold IrqProps.wf, IrqProps.queue. rewrite Hk, He, Hs, Hc, E2.
    rewrite (decide_False (P := sc = 0x2A ∨ _)), (decide_False (P := sc = 0x1D)) by lia.
    split_and!; try done; [by left|..]; repeat case_decide; try done; lia.
Qed.

(** Shift held, then the key of [a]: the reader sees [Char 65]. *)
Lemma handle_irq_spec_witness :
  IrqProps.wf (set_SHIFT true init) ∧ wp (handle_irq 0x1C 0x1E) (λ _ k', IrqProps.wf k' ∧
    grows [] (IrqProps.queue k') ∧ EXTENDED k' = false ∧ SHIFT k' = true ∧ CTRL k' = false)
    (set_SHIFT true init).
Proof.
  split; [apply LockFreeRingProps.wf_new|].
  apply (handle_irq_spec 0x1C 0x1E (set_SHIFT true init)).
  - apply LockFreeRingProps.wf_new.
  - by split.
  - reflexivity.
Defined.

Lemma spsc_refines_fifo_witness :
  ∃ q, Spsc.run Spsc.spec_step []
         [Spsc.Tau; Spsc.Tau; Spsc.Tau; Spsc.Pushed (Char 65)] q ∧
    [321] = encode <$> q.
Proof.
  pose (s := Spsc.mk (<[0%nat := 321]> (replicate BUF_SIZE 0)) 1 0 Spsc.PIdle Spsc.CIdle).
  change [321] with (Spsc.contents s). apply (spsc_refines_fifo _ s).
  econstructor; [apply (Spsc.push_load_head _ _ _ _ (Char 65)); by split|].
  econstructor; [by apply Spsc.push_space|].
  econstructor; [by apply Spsc.push_store|].
  econstructor; [apply Spsc.push_commit|]. constructor.
Defined.
End KeyboardProps.
