(* ===== verification/Scheduler.v ===== *)
(** * Round-robin scheduler (src/src/scheduler.rs)

    The task table, [spawn] with the initial interrupt frame it writes on the
    new task's stack, [schedule] as called by the timer interrupt, and the exit
    path of the [irq0] stub (src/src/asm.rs) that pops the frame [schedule]
    returns. *)
From S2P Require Import Prelude Words.
Local Open Scope Z_scope.

Definition MAX_TASKS : nat := 8.
Definition STACK_SIZE : Z := 32768.

Inductive TaskState := Free | Ready | Running.

#[export] Instance TaskState_eq_dec : EqDecision TaskState.
Proof. solve_decision. Defined.

(** A task slot.  Its stack lives in [Sched.mem]; where the linker put it is
    [stack_base] below. *)
Record Task := mkTask { rsp : Z; task_state : TaskState }.

Definition Task_new : Task := mkTask 0 Free.

(** The state: the task table, the index of the running task, and the 64-bit
    words of memory that stacks are made of, by address. *)
Record Sched := mkSched {
  TASKS : list Task;
  CURRENT : nat;
  mem : gmap Z Z;
}.

Definition boot : Sched := mkSched (replicate MAX_TASKS Task_new) 0 ∅.

Definition set_task (i : nat) (t : Task) (s : Sched) : Sched :=
  mkSched (<[i := t]> (TASKS s)) (CURRENT s) (mem s).

(** Reading [TASKS[i]] and writing a field of it; both panic out of range. *)
Definition task_at (i : nat) : ST Sched Task :=
  s ← get; lift (index i (TASKS s)).

Definition put_task (i : nat) (f : Task → Task) : ST Sched unit :=
  t ← task_at i; modify (set_task i (f t)).

Definition with_rsp (r : Z) (t : Task) : Task := mkTask r (task_state t).
Definition with_state (st : TaskState) (t : Task) : Task := mkTask (rsp t) st.

(** [init]: task 0, the boot context, becomes ready. *)
Definition init : ST Sched unit := put_task 0 (with_state Ready).

Section spawn.
(** Address of the stack array of slot [i]. *)
Variable stack_base : nat → Z.

Definition stack_top (i : nat) : Z := stack_base i + STACK_SIZE.

(** The 20 words written below [stack_top], from the highest ([sp.offset(-1)],
    SS) to the lowest ([sp.offset(-20)]). *)
Definition initial_frame (i : nat) (entry : Z) : list Z :=
  [0x10; stack_top i - 8; 0x200; 0x08; entry] ++ replicate 15 0.

Fixpoint write_down (sp : Z) (ws : list Z) (m : gmap Z Z) : gmap Z Z :=
  match ws with
  | [] => m
  | w :: ws => write_down (sp - 8) ws (<[sp - 8 := w]> m)
  end.

(** The search loop of [spawn] from slot [i], [n] slots left. *)
Fixpoint spawn_from (n i : nat) (entry : Z) : ST Sched Z :=
  match n with
  | O => mret (-1)
  | S n =>
      t ← task_at i;
      if decide (task_state t = Free) then
        modify (λ s, mkSched (TASKS s) (CURRENT s)
                  (write_down (stack_top i) (initial_frame i entry) (mem s))) ;;
        put_task i (with_rsp (stack_top i - 8 * 20)) ;;
        put_task i (with_state Ready) ;;
        mret (Z.of_nat i)
      else spawn_from n (S i) entry
  end.

Definition spawn (entry : Z) : ST Sched Z := spawn_from (MAX_TASKS - 1) 1 entry.
End spawn.

(** The search loop of [schedule]: [tried] slots looked at, [next] is next. *)
Fixpoint find_ready (fuel tried next : nat) : ST Sched (option nat) :=
  match fuel with
  | O => mret None
  | S fuel =>
      if decide (tried < MAX_TASKS)%nat then
        t ← task_at next;
        if decide (task_state t = Ready) then mret (Some next)
        else find_ready fuel (S tried) ((next + 1) mod MAX_TASKS)%nat
      else mret None
  end.

Definition schedule (current_rsp : Z) : ST Sched Z :=
  cur ← gets CURRENT;
  put_task cur (with_rsp current_rsp) ;;
  t ← task_at cur;
  (if decide (task_state t = Running) then put_task cur (with_state Ready)
   else mret tt) ;;
  found ← find_ready MAX_TASKS 0 ((cur + 1) mod MAX_TASKS)%nat;
  match found with
  | Some next =>
      put_task next (with_state Running) ;;
      modify (λ s, mkSched (TASKS s) next (mem s)) ;;
      t ← task_at next;
      mret (rsp t)
  | None =>
      put_task cur (with_state Running) ;;
      mret current_rsp
  end.

(** ** The exit path of [irq0]

    [mov rsp, rax; pop rax; ...; pop r15; iretq]: fifteen registers are popped
    in the order of [irq0_pops], then [iretq] pops RIP, CS, RFLAGS, RSP, SS. *)
Inductive reg := RAX | RBX | RCX | RDX | RBP | RSI | RDI | R8 | R9 | R10 | R11 | R12
  | R13 | R14 | R15.

Definition irq0_pops : list reg :=
  [RAX; RBX; RCX; RDX; RBP; RSI; RDI; R8; R9; R10; R11; R12; R13; R14; R15].

Record Context := mkContext {
  gprs : list (reg * Z);
  rip : Z; cs : Z; rflags : Z; ctx_rsp : Z; ss : Z;
}.

Definition load (m : gmap Z Z) (a : Z) : option Z := m !! a.

Fixpoint pops (m : gmap Z Z) (sp : Z) (rs : list reg) : option (list (reg * Z) * Z) :=
  match rs with
  | [] => Some ([], sp)
  | r :: rs =>
      v ← load m sp;
      '(l, sp') ← pops m (sp + 8) rs;
      Some ((r, v) :: l, sp')
  end.

Definition irq0_exit (m : gmap Z Z) (sp : Z) : option Context :=
  '(l, sp) ← pops m sp irq0_pops;
  ip ← load m sp;
  c ← load m (sp + 8);
  fl ← load m (sp + 16);
  sp' ← load m (sp + 24);
  s ← load m (sp + 32);
  Some (mkContext l ip c fl sp' s).

(** ** The invariant *)

Definition state_at (s : Sched) (i : nat) : option TaskState := task_state <$> TASKS s !! i.

Record inv (s : Sched) : Prop := {
  inv_len : length (TASKS s) = MAX_TASKS;
  inv_cur : (CURRENT s < MAX_TASKS)%nat;
  inv_alive : state_at s (CURRENT s) ≠ Some Free;
  inv_running : ∀ i, state_at s i = Some Running → i = CURRENT s;
}.

(** The table once [schedule] has saved the preempted task. *)
Definition saved (r : Z) (s : Sched) : list Task := <[CURRENT s := mkTask r Ready]> (TASKS s).

(** [next] is the first ready task behind [cur] in cyclic order. *)
Definition first_ready (l : list Task) (start next : nat) : Prop :=
  ∃ d, (d < MAX_TASKS)%nat ∧ next = ((start + d) mod MAX_TASKS)%nat ∧
    task_state <$> l !! next = Some Ready ∧
    ∀ d', (d' < d)%nat → task_state <$> l !! ((start + d') mod MAX_TASKS)%nat ≠ Some Ready.

Lemma wp_task_at i (Q : Task → Sched → Prop) s t :
  TASKS s !! i = Some t → Q t s → wp (task_at i) Q s.
Proof.
  intros Ht HQ. unfold task_at. apply wp_bind, wp_get, wp_lift.
  by rewrite (index_done _ _ _ Ht).
Qed.

Lemma wp_put_task i f (Q : unit → Sched → Prop) s t :
  TASKS s !! i = Some t → Q tt (set_task i (f t) s) → wp (put_task i f) Q s.
Proof.
  intros Ht HQ. unfold put_task. apply wp_bind. eapply wp_task_at; [done|].
  by apply wp_modify.
Qed.

#[local] Ltac Zify.zify_post_hook ::= Z.to_euclidean_division_equations.

Lemma find_ready_spec fuel tried next s :
  length (TASKS s) = MAX_TASKS → (next < MAX_TASKS)%nat →
  (tried + fuel = MAX_TASKS)%nat →
  wp (find_ready fuel tried next) (λ o s', s' = s ∧
    match o with
    | Some j => ∃ d, (d < fuel)%nat ∧ j = ((next + d) mod MAX_TASKS)%nat ∧
        task_state <$> TASKS s !! j = Some Ready ∧
        ∀ d', (d' < d)%nat →
          task_state <$> TASKS s !! ((next + d') mod MAX_TASKS)%nat ≠ Some Ready
    | None => ∀ d, (d < fuel)%nat →
        task_state <$> TASKS s !! ((next + d) mod MAX_TASKS)%nat ≠ Some Ready
    end) s.
Proof.
  intros Hlen. revert tried next.
  induction fuel as [|fuel IH]; intros tried next Hn Hf; simpl.
  { apply wp_ret. split; [done|]. lia. }
  rewrite decide_True by lia. apply wp_bind.
  destruct (lookup_lt_is_Some_2 (TASKS s) next) as [t Ht]; [lia|].
  eapply wp_task_at; [done|].
  assert (((next + 0) mod MAX_TASKS)%nat = next) as E0
    by (unfold MAX_TASKS in *; lia).
  case_decide as Hr.
  - apply wp_ret. split; [done|]. exists 0%nat. rewrite E0, Ht. simpl.
    rewrite Hr. split_and!; try done; lia.
  - assert (∀ d, (((next + 1) mod MAX_TASKS + d) mod MAX_TASKS
                 = (next + S d) mod MAX_TASKS)%nat) as Hshift.
    { intros d. rewrite Nat.Div0.add_mod_idemp_l. f_equal. lia. }
    eapply wp_mono; [apply IH; [unfold MAX_TASKS in *; lia|lia]|].
    assert (task_state <$> TASKS s !! ((next + 0) mod MAX_TASKS)%nat ≠ Some Ready) as H0.
    { rewrite E0, Ht. simpl. congruence. }
    intros o s' [-> Ho]. split; [done|]. destruct o as [j|].
    + destruct Ho as (d & ? & -> & ? & Hmin). exists (S d). rewrite Hshift in *.
      split_and!; try done; [lia|]. intros [|d'] ?; [done|].
      rewrite <- Hshift. apply Hmin. lia.
    + intros [|d] ?; [done|]. rewrite <- Hshift. apply Ho. lia.
Qed.

#[local] Arguments find_ready : simpl never.

Lemma saved_lookup r s : inv s → saved r s !! CURRENT s = Some (mkTask r Ready).
Proof. intros []. apply list_lookup_insert_eq. lia. Qed.

(** [schedule] saves the preempted task, picks the first ready task in cyclic
    order behind it, marks it running and returns its saved stack pointer. *)
Lemma schedule_wp r s : inv s →
  wp (schedule r) (λ r' s', inv s' ∧
    first_ready (saved r s) ((CURRENT s + 1) mod MAX_TASKS)%nat (CURRENT s') ∧
    rsp <$> saved r s !! CURRENT s' = Some r' ∧
    TASKS s' = <[CURRENT s' := mkTask r' Running]> (saved r s) ∧
    mem s' = mem s) s.
Proof.
  intros Hinv. pose proof (saved_lookup r s Hinv) as Hsaved.
  destruct Hinv as [Hlen Hcur Halive Hrun].
  destruct (lookup_lt_is_Some_2 (TASKS s) (CURRENT s)) as [t0 Ht0]; [lia|].
  unfold schedule. apply wp_bind, wp_gets, wp_bind.
  eapply wp_put_task; [done|]. apply wp_bind.
  eapply wp_task_at; [simpl; apply list_lookup_insert_eq; lia|].
  apply wp_bind. simpl.
  set (s1 := mkSched (saved r s) (CURRENT s) (mem s)).
  assert (wp (if decide (task_state t0 = Running) then put_task (CURRENT s) (with_state Ready)
              else mret tt)
            (λ _ s', s' = s1) (set_task (CURRENT s) (with_rsp r t0) s)) as Hs1.
  { unfold s1, saved. case_decide as Hst.
    - eapply wp_put_task; [simpl; apply list_lookup_insert_eq; lia|].
      unfold set_task. simpl. by rewrite list_insert_insert_eq.
    - apply wp_ret. unfold set_task, with_rsp. do 3 f_equal.
      unfold state_at in Halive. rewrite Ht0 in Halive. simpl in Halive.
      by destruct (task_state t0). }
  eapply wp_mono; [exact Hs1|]. intros _ s' ->. apply wp_bind.
  assert (length (saved r s) = MAX_TASKS) as Hlen1 by (unfold saved; by rewrite length_insert).
  eapply wp_mono.
  { apply find_ready_spec; [done|unfold MAX_TASKS in *; lia|done]. }
  intros o s' [-> Ho]. simpl in *. destruct o as [next|].
  - assert (next < MAX_TASKS)%nat as Hnext.
    { destruct Ho as (d & _ & -> & _). unfold MAX_TASKS. lia. }
    destruct (lookup_lt_is_Some_2 (saved r s) next) as [t Ht]; [lia|].
    apply wp_bind. eapply wp_put_task; [done|]. apply wp_bind, wp_modify.
    apply wp_bind. eapply wp_task_at; [simpl; apply list_lookup_insert_eq; lia|].
    apply wp_ret. simpl. rewrite Ht. split_and!; try done.
    constructor; simpl.
    + by rewrite length_insert.
    + done.
    + unfold state_at. simpl. rewrite list_lookup_insert_eq by lia. done.
    + intros i. unfold state_at. simpl. destruct (decide (i = next)) as [|Hne]; [done|].
      rewrite list_lookup_insert_ne by done. unfold saved.
      destruct (decide (i = CURRENT s)) as [->|Hne'].
      * rewrite list_lookup_insert_eq by lia. done.
      * rewrite list_lookup_insert_ne by done. intros Hi. by destruct Hne'; apply Hrun.
  - exfalso. apply (Ho (MAX_TASKS - 1)%nat); [unfold MAX_TASKS; lia|].
    replace (((CURRENT s + 1) mod MAX_TASKS + (MAX_TASKS - 1)) mod MAX_TASKS)%nat
      with (CURRENT s) by (unfold MAX_TASKS in *; lia).
    by rewrite Hsaved.
Qed.

(** ** Spawning *)

Lemma lookup_write_down sp ws m (k : nat) w :
  ws !! k = Some w → write_down sp ws m !! (sp - 8 * (k + 1)) = Some w.
Proof.
  revert sp m k. induction ws as [|w0 ws IH]; intros sp m k Hk; [done|]. simpl.
  assert (∀ ws sp a m, sp - 8 < a ∨ a < sp - 8 * length ws →
    write_down sp ws m !! a = m !! a) as Hframe.
  { clear. induction ws as [|w ws IH]; intros sp a m Ha; simpl in *; [done|].
    rewrite IH by lia. apply lookup_insert_ne. lia. }
  destruct k as [|k]; simpl in Hk.
  - injection Hk as ->. rewrite Hframe by lia.
    replace (sp - 8 * (0%nat + 1)) with (sp - 8) by lia. apply lookup_insert_eq.
  - replace (sp - 8 * (S k + 1)) with (sp - 8 - 8 * (k + 1)) by lia. by apply IH.
Qed.

Lemma write_down_frame sp ws m a :
  sp ≤ a ∨ a < sp - 8 * length ws → write_down sp ws m !! a = m !! a.
Proof.
  revert sp m. induction ws as [|w ws IH]; intros sp m Ha; simpl in *; [done|].
  rewrite IH by lia. apply lookup_insert_ne. lia.
Qed.

(** The context a task starts with. *)
Definition start_context (top entry : Z) : Context :=
  mkContext ((λ r, (r, 0)) <$> irq0_pops) entry 0x08 0x200 (top - 8) 0x10.

Lemma pops_zero m sp rs :
  (∀ k : nat, (k < length rs)%nat → m !! (sp + 8 * k) = Some 0) →
  pops m sp rs = Some ((λ r, (r, 0)) <$> rs, sp + 8 * length rs).
Proof.
  revert sp. induction rs as [|r rs IH]; intros sp Hm; simpl.
  { do 2 f_equal. lia. }
  assert (load m sp = Some 0) as ->.
  { unfold load. rewrite <- (Hm 0%nat) by (simpl; lia). f_equal. lia. }
  simpl. rewrite IH.
  - simpl. do 2 f_equal. lia.
  - intros k Hk. replace (sp + 8 + 8 * k) with (sp + 8 * S k) by lia.
    apply Hm. simpl. lia.
Qed.

(** Popping the frame [spawn] prepared, in any memory that still holds it. *)
Lemma irq0_exit_initial base i entry m m' :
  (∀ a, base i ≤ a < stack_top base i →
     m' !! a = write_down (stack_top base i) (initial_frame base i entry) m !! a) →
  irq0_exit m' (stack_top base i - 8 * 20) = Some (start_context (stack_top base i) entry).
Proof.
  intros Hm. set (top := stack_top base i) in *.
  assert (∀ (k : nat) w, initial_frame base i entry !! k = Some w →
    m' !! (top - 8 * (k + 1)) = Some w) as Hw.
  { intros k w Hk. assert (k < 20)%nat by by apply lookup_lt_Some in Hk.
    rewrite Hm; [by apply lookup_write_down|]. unfold top, stack_top, STACK_SIZE. lia. }
  unfold irq0_exit. rewrite pops_zero.
  - assert (∀ (z : Z) (k : nat) w, initial_frame base i entry !! k = Some w →
      z = top - 8 * (k + 1) → load m' z = Some w) as Hl by (intros z k w ? ->; by apply Hw).
    unfold mbind, option_bind.
    rewrite (Hl _ 4%nat entry), (Hl _ 3%nat 8), (Hl _ 2%nat 0x200), (Hl _ 1%nat (top - 8)),
      (Hl _ 0%nat 0x10) by (done || (simpl; lia)).
    reflexivity.
  - intros k Hk. replace (top - 8 * 20 + 8 * k) with (top - 8 * ((19 - k)%nat + 1)).
    + apply Hw. simpl in Hk. by do 15 (destruct k as [|k]; [done|]); lia.
    + simpl in Hk. lia.
Qed.

#[local] Arguments write_down : simpl never.
#[local] Arguments initial_frame : simpl never.
#[local] Arguments stack_top : simpl never.
#[local] Arguments Z.mul : simpl never.
#[local] Arguments Z.sub : simpl never.

Section spawn_spec.
Variable stack_base : nat → Z.

(** The state after a successful [spawn] into slot [i]. *)
Definition spawned (i : nat) (entry : Z) (s : Sched) : Sched :=
  mkSched (<[i := mkTask (stack_top stack_base i - 8 * 20) Ready]> (TASKS s)) (CURRENT s)
    (write_down (stack_top stack_base i) (initial_frame stack_base i entry) (mem s)).

Lemma spawn_from_spec n i entry s :
  length (TASKS s) = MAX_TASKS → (i + n = MAX_TASKS)%nat →
  wp (spawn_from stack_base n i entry) (λ r s',
    (∃ j, (i ≤ j < MAX_TASKS)%nat ∧ r = Z.of_nat j ∧ state_at s j = Some Free ∧
       (∀ k, (i ≤ k < j)%nat → state_at s k ≠ Some Free) ∧ s' = spawned j entry s) ∨
    (r = -1 ∧ s' = s ∧ ∀ k, (i ≤ k < MAX_TASKS)%nat → state_at s k ≠ Some Free)) s.
Proof.
  intros Hlen. revert i. induction n as [|n IH]; intros i Hi; simpl.
  { apply wp_ret. right. split_and!; try done. lia. }
  destruct (lookup_lt_is_Some_2 (TASKS s) i) as [t Ht]; [lia|].
  apply wp_bind. eapply wp_task_at; [done|].
  assert (state_at s i = Some (task_state t)) as Hst by (unfold state_at; by rewrite Ht).
  case_decide as Hf.
  - apply wp_bind, wp_modify, wp_bind. eapply wp_put_task; [done|].
    apply wp_bind. eapply wp_put_task; [simpl; apply list_lookup_insert_eq; lia|].
    apply wp_ret. left. exists i. rewrite Hst, Hf. split_and!; try done; try lia.
    unfold set_task, spawned, with_rsp, with_state. simpl.
    by rewrite list_insert_insert_eq.
  - eapply wp_mono; [apply IH; lia|].
    assert (state_at s i ≠ Some Free) as Hne by (rewrite Hst; congruence).
    intros r s' [(j & Hj & -> & Hfree & Hmin & ->)|(-> & -> & Hall)].
    + left. exists j. split_and!; try done; try lia.
      intros k Hk. destruct (decide (k = i)) as [->|]; [done|]. apply Hmin. lia.
    + right. split_and!; try done. intros k Hk.
      destruct (decide (k = i)) as [->|]; [done|]. apply Hall. lia.
Qed.

Lemma spawned_inv i entry s : inv s → (1 ≤ i < MAX_TASKS)%nat →
  state_at s i = Some Free → inv (spawned i entry s).
Proof.
  intros [Hlen Hcur Halive Hrun] Hi Hfree.
  assert (i ≠ CURRENT s) as Hne by by intros ->.
  constructor; unfold state_at in *; simpl.
  - by rewrite length_insert.
  - done.
  - by rewrite list_lookup_insert_ne.
  - intros k. destruct (decide (k = i)) as [->|].
    + rewrite list_lookup_insert_eq by lia. done.
    + rewrite list_lookup_insert_ne by done. apply Hrun.
Qed.

(** ** Sequences of timer ticks and spawns *)

Inductive action := Tick (r : Z) | Spawn (entry : Z).

Definition act (a : action) : ST Sched Z :=
  match a with Tick r => schedule r | Spawn e => spawn stack_base e end.

Fixpoint exec (l : list action) : ST Sched unit :=
  match l with
  | [] => mret tt
  | a :: l => act a ;; exec l
  end.

Fixpoint ticks (l : list action) : nat :=
  match l with
  | [] => 0
  | Tick _ :: l => S (ticks l)
  | Spawn _ :: l => ticks l
  end.

Lemma spawn_wp entry s : inv s →
  wp (spawn stack_base entry) (λ _ s', inv s' ∧ CURRENT s' = CURRENT s ∧
    ∀ i, state_at s i ≠ Some Free → TASKS s' !! i = TASKS s !! i) s.
Proof.
  intros Hinv. eapply wp_mono; [apply spawn_from_spec; [apply Hinv|done]|].
  intros r s' [(j & Hj & -> & Hfree & _ & ->)|(_ & -> & _)].
  - split; [apply spawned_inv; auto; lia|]. split; [done|].
    intros i Hi. simpl. rewrite list_lookup_insert_ne; [done|]. by intros ->.
  - done.
Qed.

End spawn_spec.

(** ** Progress of a waiting task *)

(** How many slots behind the running task [t] is. *)
Definition distance (c t : nat) : nat := ((t + MAX_TASKS - c - 1) mod MAX_TASKS)%nat.

(** A tick either resumes the waiting task [t] or brings it closer. *)
Lemma tick_progress x t r s :
  inv s → t ≠ CURRENT s → TASKS s !! t = Some (mkTask r Ready) →
  wp (schedule x) (λ r' s', inv s' ∧
    ((CURRENT s' = t ∧ r' = r) ∨
     (t ≠ CURRENT s' ∧ TASKS s' !! t = Some (mkTask r Ready) ∧
      (distance (CURRENT s') t < distance (CURRENT s) t)%nat))) s.
Proof.
  intros Hinv Hne Ht. eapply wp_mono; [by apply schedule_wp|].
  assert (saved x s !! t = Some (mkTask r Ready)) as Hsv.
  { unfold saved. by rewrite list_lookup_insert_ne. }
  assert (t < MAX_TASKS)%nat as Htlt.
  { apply lookup_lt_Some in Ht. by rewrite (inv_len _ Hinv) in Ht. }
  pose proof (inv_cur _ Hinv) as Hc.
  intros r' s' (Hinv' & (d & Hd & Hnext & _ & Hmin) & Hr & HT & _).
  split; [done|]. destruct (decide (CURRENT s' = t)) as [E|Hne'].
  - left. split; [done|]. rewrite E, Hsv in Hr. by injection Hr.
  - right. split; [done|]. split.
    + rewrite HT. by rewrite list_lookup_insert_ne.
    + pose proof (inv_cur _ Hinv') as Hc'.
      assert (d < distance (CURRENT s) t)%nat as Hdlt.
      { apply Nat.nle_gt. intros Hle. destruct (decide (d = distance (CURRENT s) t)) as [->|].
        - apply Hne'. rewrite Hnext. unfold distance, MAX_TASKS in *. lia.
        - apply (Hmin (distance (CURRENT s) t)); [lia|].
          replace (((CURRENT s + 1) mod MAX_TASKS + distance (CURRENT s) t) mod MAX_TASKS)%nat
            with t by (unfold distance, MAX_TASKS in *; lia).
          by rewrite Hsv. }
      rewrite Hnext. unfold distance, MAX_TASKS in *. lia.
Qed.

(** ** Properties *)
Module SchedulerProps.
(** C19: A timer tick in a state where the running task is
    alive: [schedule] returns, saves the preempted task as ready at the stack
    pointer it was given, and resumes at its saved stack pointer the first
    task that is ready in cyclic order behind it, which is afterwards the
    only running one; no other slot and no memory word changes. *)
Theorem schedule_round_robin r s : inv s →
  wp (schedule r) (λ r' s', inv s' ∧
    first_ready (saved r s) ((CURRENT s + 1) mod MAX_TASKS)%nat (CURRENT s') ∧
    rsp <$> saved r s !! CURRENT s' = Some r' ∧
    TASKS s' = <[CURRENT s' := mkTask r' Running]> (saved r s) ∧
    mem s' = mem s ∧
    ∀ i, state_at s' i = Some Running ↔ i = CURRENT s') s.
Proof.
  intros Hinv. eapply wp_mono; [by apply schedule_wp|].
  intros r' s' (Hinv' & Hf & Hr & HT & Hm). split_and!; try done.
  intros i. split; [apply Hinv'|]. intros ->. unfold state_at.
  rewrite HT, list_lookup_insert_eq; [done|].
  unfold saved. rewrite length_insert, (inv_len _ Hinv). apply Hinv'.
Qed.

(** Task 2 waits at 0x2000 while the boot task runs. *)
Definition two_tasks : Sched :=
  mkSched (<[0%nat := mkTask 0 Running]> (<[2%nat := mkTask 0x2000 Ready]>
    (replicate MAX_TASKS Task_new))) 0 ∅.

Lemma two_tasks_inv : inv two_tasks.
Proof.
  constructor; [done|unfold MAX_TASKS; simpl; lia|done|].
  intros i. by do 8 (destruct i as [|i]; [done|]).
Qed.

Lemma schedule_round_robin_witness :
  wp (schedule 0x1000) (λ r' s', CURRENT s' = 2%nat ∧ r' = 0x2000) two_tasks.
Proof.
  eapply wp_mono; [apply (wp_and _ (λ r' s', CURRENT s' = 2%nat ∧ r' = 0x2000));
    [by vm_compute|apply (schedule_round_robin 0x1000), two_tasks_inv]|].
  intros r' s' [? _]. done.
Defined.

(** C20: No task starves and every task resumes where it was
    preempted: a task that is ready with saved stack pointer [r] gets the CPU
    back, at exactly [r], within [distance] + 1 ≤ 8 timer ticks, whatever the
    other tasks' stack pointers are and however many tasks are spawned in
    between. *)
Theorem waiting_task_resumes stack_base acts s t r :
  inv s → t ≠ CURRENT s → TASKS s !! t = Some (mkTask r Ready) →
  (distance (CURRENT s) t < ticks acts)%nat →
  ∃ acts1 x acts2 s1 s2,
    acts = acts1 ++ Tick x :: acts2 ∧
    exec stack_base acts1 s = Done (tt, s1) ∧
    schedule x s1 = Done (r, s2) ∧ CURRENT s2 = t.
Proof.
  revert s. induction acts as [|a acts IH]; intros s Hinv Hne Ht Hd; [simpl in Hd; lia|].
  destruct a as [x|e].
  - destruct (wp_inv _ _ _ (tick_progress x t r s Hinv Hne Ht))
      as (r' & s' & Hs & Hinv' & [[Hcur ->]|(Hne' & Ht' & Hlt)]).
    { by exists [], x, acts, s, s'. }
    simpl in Hd.
    destruct (IH s' Hinv' Hne' Ht') as (l1 & y & l2 & s1 & s2 & -> & He & Hy & Hc); [lia|].
    exists (Tick x :: l1), y, l2, s1, s2. split_and!; try done. simpl.
    unfold mbind, st_bind. by rewrite Hs.
  - destruct (wp_inv _ _ _ (spawn_wp stack_base e s Hinv)) as (r' & s' & Hs & Hinv' & Hc' & HT).
    rewrite <- Hc' in Hd, Hne.
    destruct (IH s' Hinv' Hne) as (l1 & y & l2 & s1 & s2 & -> & He & Hy & Hc).
    + rewrite HT; [done|]. unfold state_at. by rewrite Ht.
    + done.
    + exists (Spawn e :: l1), y, l2, s1, s2. split_and!; try done. simpl.
      unfold mbind, st_bind. by rewrite Hs.
Qed.

Lemma waiting_task_resumes_witness :
  ∃ acts1 x acts2 s1 s2,
    [Spawn 0x5000; Tick 0x1000; Tick 0x1100] = acts1 ++ Tick x :: acts2 ∧
    exec (λ i, 0x100000 + 0x10000 * Z.of_nat i) acts1 two_tasks = Done (tt, s1) ∧
    schedule x s1 = Done (0x2000, s2) ∧ CURRENT s2 = 2%nat.
Proof.
  apply waiting_task_resumes;
    [apply two_tasks_inv | done | reflexivity | vm_compute; lia].
Defined.

(** [spawn] takes the first free slot above 0, leaves the
    others and the running task alone and writes only on that slot's stack;
    popping the frame it prepared with the exit path of [irq0] starts the
    task at [entry] with zeroed registers, CS 0x08, SS 0x10, interrupts
    enabled and RSP at the stack's top minus 8.  With no free slot it returns
    -1 and changes nothing. *)
Theorem spawn_prepares_entry stack_base entry s : inv s →
  wp (spawn stack_base entry) (λ r s', inv s' ∧
    ((∃ i, (1 ≤ i < MAX_TASKS)%nat ∧ r = Z.of_nat i ∧ state_at s i = Some Free ∧
        (∀ k, (1 ≤ k < i)%nat → state_at s k ≠ Some Free) ∧
        CURRENT s' = CURRENT s ∧
        (∀ k, k ≠ i → TASKS s' !! k = TASKS s !! k) ∧
        (∀ a, stack_top stack_base i ≤ a ∨ a < stack_base i → mem s' !! a = mem s !! a) ∧
        ∃ t, TASKS s' !! i = Some t ∧ task_state t = Ready ∧
          irq0_exit (mem s') (rsp t) = Some (start_context (stack_top stack_base i) entry)) ∨
     (r = -1 ∧ s' = s ∧ ∀ k, (1 ≤ k < MAX_TASKS)%nat → state_at s k ≠ Some Free))) s.
Proof.
  intros Hinv. unfold spawn.
  eapply wp_mono; [apply (spawn_from_spec stack_base _ 1 entry s (inv_len s Hinv)); reflexivity|].
  intros r s' [(i & Hi & -> & Hfree & Hmin & ->)|(-> & -> & Hall)]; [|by auto].
  split; [by apply spawned_inv|]. left. exists i. split_and!; try done; try lia.
  - intros k Hk. simpl. by rewrite list_lookup_insert_ne.
  - intros a Ha. simpl. apply write_down_frame.
    unfold stack_top, STACK_SIZE, initial_frame in *. simpl. lia.
  - eexists. split; [apply list_lookup_insert_eq; rewrite (inv_len _ Hinv); lia|].
    split; [done|]. simpl. by eapply irq0_exit_initial.
Qed.

Lemma spawn_prepares_entry_witness :
  inv two_tasks ∧
  wp (spawn (λ i, 0x100000 + 0x10000 * Z.of_nat i) 0x5000) (λ r _, r = 1) two_tasks.
Proof.
  split; [apply two_tasks_inv|].
  eapply wp_mono; [apply (wp_and _ (λ r _, r = 1)); [by vm_compute|
    apply (spawn_prepares_entry (λ i, 0x100000 + 0x10000 * Z.of_nat i) 0x5000), two_tasks_inv]|].
  intros r s' [? _]. done.
Defined.
End SchedulerProps.
