(* ===== verification/Stubs.v ===== *)
(** * The interrupt stubs (src/src/asm.rs)

    The assembly between the processor's interrupt frame and the Rust handlers:
    push all registers, call, pop, [iretq].  A machine with the fifteen
    registers, the stack pointer and words of memory runs them; the handler is
    any code that keeps the calling convention. *)
From stdpp Require Import functions.
From S2P Require Import Prelude Words Scheduler.
Local Open Scope Z_scope.
Local Open Scope list_scope.

#[export] Instance reg_eq_dec : EqDecision reg.
Proof. solve_decision. Defined.

Inductive instr :=
  | Push (r : reg) | PushImm (v : Z) | Pop (r : reg)
  | MovRdiRsp | MovRspRax | LoadRdi (offset : Z)
  | LeaRspDf | AddRsp (n : Z)
  | Call | Iretq.

(** ** The code *)

Definition saves : list instr :=
  [Push R15; Push R14; Push R13; Push R12; Push R11; Push R10; Push R9; Push R8;
   Push RDI; Push RSI; Push RBP; Push RDX; Push RCX; Push RBX; Push RAX].
Definition restores : list instr :=
  [Pop RAX; Pop RBX; Pop RCX; Pop RDX; Pop RBP; Pop RSI; Pop RDI; Pop R8; Pop R9; Pop R10;
   Pop R11; Pop R12; Pop R13; Pop R14; Pop R15].

Definition isr0 : list instr := [PushImm 0; PushImm 0] ++ saves ++ [Call] ++ restores ++ [AddRsp 16; Iretq].
Definition isr6 : list instr := [PushImm 0; PushImm 6] ++ saves ++ [Call] ++ restores ++ [AddRsp 16; Iretq].
(** Ends in a loop. *)
Definition isr8 : list instr := [LeaRspDf; PushImm 8] ++ saves ++ [Call].
Definition isr13 : list instr := saves ++ [LoadRdi (15 * 8); Call] ++ restores ++ [AddRsp 8; Iretq].
Definition isr14 : list instr := saves ++ [LoadRdi (15 * 8); Call] ++ restores ++ [AddRsp 8; Iretq].
Definition irq0 : list instr := saves ++ [MovRdiRsp; Call; MovRspRax] ++ restores ++ [Iretq].
Definition irq1 : list instr := saves ++ [Call] ++ restores ++ [Iretq].
Definition irq12 : list instr := saves ++ [Call] ++ restores ++ [Iretq].

(** ** The processor *)

Record Regs := mkRegs { gpr : reg → Z; sp : Z; words : gmap Z Z }.
Definition set_gpr (r : reg) (v : Z) (c : Regs) : Regs := mkRegs (<[r := v]> (gpr c)) (sp c) (words c).
Definition set_sp (v : Z) (c : Regs) : Regs := mkRegs (gpr c) v (words c).
Definition push_word (v : Z) (c : Regs) : Regs :=
  mkRegs (gpr c) (sp c - 8) (<[sp c - 8 := v]> (words c)).

(** The registers in the order of [irq0_pops]. *)
Definition saved_gprs (g : reg → Z) : list (reg * Z) := (λ r, (r, g r)) <$> irq0_pops.

Section exec.
Context (df_stack_top : Z) (handler : Regs → Regs).

(** The context [iretq] resumes; [None] when the code ends before it or pops
    a word that nothing wrote. *)
Fixpoint exec (code : list instr) (c : Regs) : option Context :=
  match code with
  | [] => None
  | i :: code =>
      match i with
      | Push r => exec code (push_word (gpr c r) c)
      | PushImm v => exec code (push_word v c)
      | Pop r => v ← words c !! sp c; exec code (set_gpr r v (set_sp (sp c + 8) c))
      | MovRdiRsp => exec code (set_gpr RDI (sp c) c)
      | MovRspRax => exec code (set_sp (gpr c RAX) c)
      | LoadRdi offset => v ← words c !! (sp c + offset); exec code (set_gpr RDI v c)
      | LeaRspDf => exec code (set_sp df_stack_top c)
      | AddRsp n => exec code (set_sp (sp c + n) c)
      | Call => exec code (handler c)
      | Iretq =>
          ip ← words c !! sp c;
          seg ← words c !! (sp c + 8);
          fl ← words c !! (sp c + 16);
          sp' ← words c !! (sp c + 24);
          s ← words c !! (sp c + 32);
          Some (mkContext (saved_gprs (gpr c)) ip seg fl sp' s)
      end
  end.

(** The stack pointer at the call of the handler. *)
Fixpoint sp_at_call (code : list instr) (s : Z) : option Z :=
  match code with
  | [] => None
  | Push _ :: code | PushImm _ :: code => sp_at_call code (s - 8)
  | Pop _ :: code => sp_at_call code (s + 8)
  | AddRsp n :: code => sp_at_call code (s + n)
  | LeaRspDf :: code => sp_at_call code df_stack_top
  | Call :: _ => Some s
  | _ :: code => sp_at_call code s
  end.
End exec.

(** The processor's interrupt frame lies at the stack pointer. *)
Definition interrupted (c : Regs) (ctx : Context) : Prop :=
  gprs ctx = saved_gprs (gpr c) ∧
  words c !! sp c = Some (rip ctx) ∧ words c !! (sp c + 8) = Some (cs ctx) ∧
  words c !! (sp c + 16) = Some (rflags ctx) ∧ words c !! (sp c + 24) = Some (ctx_rsp ctx) ∧
  words c !! (sp c + 32) = Some (ss ctx).

(** The calling convention: the handler returns with the stack pointer it was
    called with and has not written at or above it. *)
Definition abi (handler : Regs → Regs) : Prop :=
  ∀ c, sp (handler c) = sp c ∧ ∀ a, sp c ≤ a → words (handler c) !! a = words c !! a.

(** ** Proofs *)

Definition after_saves (c : Regs) : Regs := foldl (λ c r, push_word (gpr c r) c) c (reverse irq0_pops).

Lemma exec_pushes df h rs code c : exec df h ((Push <$> rs) ++ code) c =
  exec df h code (foldl (λ c r, push_word (gpr c r) c) c rs).
Proof. revert c. induction rs as [|r rs IH]; intros c; [done|]. cbn [fmap list_fmap app exec foldl]. apply IH. Qed.
Lemma exec_saves df h code c : exec df h (saves ++ code) c = exec df h code (after_saves c).
Proof. change saves with (Push <$> reverse irq0_pops). apply exec_pushes. Qed.
Lemma exec_call df h code c : exec df h ([Call] ++ code) c = exec df h code (h c).
Proof. done. Qed.
Lemma exec_switch df h code c : exec df h ([MovRdiRsp; Call; MovRspRax] ++ code) c =
  let c' := h (set_gpr RDI (sp c) c) in exec df h code (set_sp (gpr c' RAX) c').
Proof. done. Qed.

Lemma after_saves_gpr c : gpr (after_saves c) = gpr c.
Proof. done. Qed.
Lemma after_saves_sp c : sp (after_saves c) = sp c - 120.
Proof. cbn. lia. Qed.

(** A word the pushes have not written. *)
Lemma after_saves_above c a : sp c ≤ a → words (after_saves c) !! a = words c !! a.
Proof. intros Ha. cbn. by rewrite !lookup_insert_ne by lia. Qed.

Lemma after_saves_below c (i : nat) r : irq0_pops !! i = Some r →
  words (after_saves c) !! (sp c - 120 + 8 * i) = Some (gpr c r).
Proof.
  intros Hi. do 15 (destruct i as [|i];
    [injection Hi as <-; cbn; repeat (rewrite lookup_insert_ne by lia); apply lookup_insert_Some; left; split; [lia|done]|]).
  done.
Qed.

Lemma pops_lookup m s rs g : (∀ (i : nat) r, rs !! i = Some r → m !! (s + 8 * i) = Some (g r)) →
  pops m s rs = Some ((λ r, (r, g r)) <$> rs, s + 8 * length rs).
Proof.
  revert s. induction rs as [|r rs IH]; intros s Hm; cbn [pops fmap list_fmap length].
  { do 2 f_equal. lia. }
  unfold load. specialize (Hm O r eq_refl) as H0. rewrite Z.mul_0_r, Z.add_0_r in H0. rewrite H0. cbn.
  rewrite IH; cbn; [do 2 f_equal; lia|].
  intros i r' Hi. rewrite <- (Hm (S i) r' Hi). f_equal. lia.
Qed.

Lemma pops_above m m' s rs : (∀ a, s ≤ a → m' !! a = m !! a) → pops m' s rs = pops m s rs.
Proof.
  revert s. induction rs as [|r rs IH]; intros s Hm; cbn [pops]; [done|].
  unfold load. rewrite (Hm s) by lia. rewrite IH; [done|]. intros a Ha. apply Hm. lia.
Qed.

Lemma pops_sp m s rs l s' : pops m s rs = Some (l, s') → s' = s + 8 * length rs.
Proof.
  revert s l. induction rs as [|r rs IH]; intros s l; cbn [pops length]; [intros [= _ <-]; lia|].
  destruct (load m s); cbn; [|done]. destruct (pops m (s + 8) rs) as [[l' s1]|] eqn:E; cbn; [|done].
  intros [= _ <-]. apply IH in E. lia.
Qed.

Lemma irq0_exit_above m m' s : (∀ a, s ≤ a → m' !! a = m !! a) → irq0_exit m' s = irq0_exit m s.
Proof.
  intros Hm. unfold irq0_exit. rewrite (pops_above m m') by done.
  destruct (pops m s irq0_pops) as [[l s']|] eqn:E; [|done]. apply pops_sp in E. cbn [length irq0_pops] in E.
  cbn. unfold load. by rewrite !Hm by lia.
Qed.

Lemma pops_fst m s rs l s' : pops m s rs = Some (l, s') → l.*1 = rs.
Proof.
  revert s l. induction rs as [|r rs IH]; intros s l; cbn [pops]; [by intros [= <- _]|].
  destruct (load m s); cbn; [|done]. destruct (pops m (s + 8) rs) as [[l' s1]|] eqn:E; cbn; [|done].
  intros [= <- <-]. cbn. f_equal. by eapply IH.
Qed.

Definition load_gprs (g : reg → Z) (l : list (reg * Z)) : reg → Z :=
  foldl (λ g x, <[x.1 := x.2]> g) g l.
Lemma load_gprs_other g l r : r ∉ l.*1 → load_gprs g l r = g r.
Proof.
  revert g. induction l as [|[r' v] l IH]; intros g Hr; [done|]. cbn in *.
  rewrite IH by set_solver. apply fn_lookup_insert_ne. set_solver.
Qed.
Lemma load_gprs_fmap g l : NoDup l.*1 → (λ r, (r, load_gprs g l r)) <$> l.*1 = l.
Proof.
  revert g. induction l as [|[r v] l IH]; intros g Hd; [done|]. cbn in Hd |- *.
  apply NoDup_cons in Hd as [Hr Hd]. f_equal; [|by apply IH]. f_equal.
  change (load_gprs (<[r:=v]> g) l r = v). rewrite load_gprs_other by done. apply fn_lookup_insert.
Qed.

Lemma exec_pops df h rs code c : exec df h ((Pop <$> rs) ++ code) c =
  '(l, s') ← pops (words c) (sp c) rs; exec df h code (mkRegs (load_gprs (gpr c) l) s' (words c)).
Proof.
  revert c. induction rs as [|r rs IH]; intros c; [by destruct c|].
  cbn [fmap list_fmap app exec pops]. unfold load. destruct (words c !! sp c) as [v|]; [|done].
  cbn [mbind option_bind]. rewrite IH. cbn [words sp set_gpr set_sp gpr].
  by destruct (pops (words c) (sp c + 8) rs) as [[l s']|].
Qed.

(** The end of every returning stub is the exit path the scheduler's frames are
    made for. *)
Lemma exec_exit df h c : exec df h (restores ++ [Iretq]) c = irq0_exit (words c) (sp c).
Proof.
  change restores with (Pop <$> irq0_pops). rewrite exec_pops. unfold irq0_exit.
  destruct (pops (words c) (sp c) irq0_pops) as [[l s']|] eqn:E; [|done].
  cbn [mbind option_bind exec sp words gpr]. unfold load.
  assert (saved_gprs (load_gprs (gpr c) l) = l) as ->; [|done].
  unfold saved_gprs. apply pops_fst in E. rewrite <- E at 1. apply load_gprs_fmap. rewrite E.
  apply (bool_decide_unpack _). by vm_compute.
Qed.

Lemma exit_of_frame m s t g ctx : t = s + 120 →
  (∀ (i : nat) r, irq0_pops !! i = Some r → m !! (s + 8 * i) = Some (g r)) →
  gprs ctx = saved_gprs g → m !! t = Some (rip ctx) → m !! (t + 8) = Some (cs ctx) →
  m !! (t + 16) = Some (rflags ctx) → m !! (t + 24) = Some (ctx_rsp ctx) → m !! (t + 32) = Some (ss ctx) →
  irq0_exit m s = Some ctx.
Proof.
  intros -> Hm Hg H1 H2 H3 H4 H5. unfold irq0_exit. rewrite (pops_lookup _ _ _ g) by done.
  change (s + 8 * length irq0_pops) with (s + 120). cbn [mbind option_bind]. unfold load.
  rewrite H1, H2, H3, H4, H5. cbn [mbind option_bind]. fold (saved_gprs g). rewrite <- Hg. by destruct ctx.
Qed.

Lemma saved_frame c ctx : interrupted c ctx → irq0_exit (words (after_saves c)) (sp c - 120) = Some ctx.
Proof.
  intros (Hg & H1 & H2 & H3 & H4 & H5).
  apply (exit_of_frame _ _ (sp c) (gpr c)); [lia| |done|..].
  - intros i r. apply after_saves_below.
  - by rewrite after_saves_above by lia.
  - by rewrite after_saves_above by lia.
  - by rewrite after_saves_above by lia.
  - by rewrite after_saves_above by lia.
  - by rewrite after_saves_above by lia.
Qed.

(** The handlers of the keyboard and mouse interrupts cannot be noticed by the
    code they interrupt: whatever they do to registers and below the stack
    pointer, the stub resumes the interrupted context. *)
Lemma irq_transparent df h code c ctx : code = irq1 ∨ code = irq12 → abi h → interrupted c ctx →
  exec df h code c = Some ctx.
Proof.
  intros Hcode Habi Hc. assert (code = saves ++ [Call] ++ restores ++ [Iretq]) as -> by (by destruct Hcode).
  rewrite exec_saves, exec_call, exec_exit. destruct (Habi (after_saves c)) as [Hsp Hw]. rewrite Hsp, after_saves_sp in *.
  rewrite (irq0_exit_above (words (after_saves c))) by done. by apply saved_frame.
Qed.

Lemma words_set_gpr r v c : words (set_gpr r v c) = words c.
Proof. done. Qed.
Lemma irq0_saved c ctx : interrupted c ctx → let at_call := set_gpr RDI (sp c - 120) (after_saves c) in
  irq0_exit (words at_call) (gpr at_call RDI) = Some ctx.
Proof.
  intros Hc at_call. unfold at_call. rewrite words_set_gpr.
  assert (∀ d v, gpr (set_gpr RDI v d) RDI = v) as -> by (intros; apply fn_lookup_insert).
  by apply saved_frame.
Qed.
Lemma irq0_exec df h c : let c' := h (set_gpr RDI (sp c - 120) (after_saves c)) in
  exec df h irq0 c = irq0_exit (words c') (gpr c' RAX).
Proof. cbn zeta. unfold irq0. rewrite exec_saves, exec_switch, exec_exit, after_saves_sp. done. Qed.

(** C35: context switch.  The timer stub hands [schedule] the address of a frame
    from which its own exit path would resume the interrupted task exactly, and
    then resumes whatever the frame at the address returned describes; this is
    what the scheduler's theorems take for granted.  The other two hardware
    interrupts are transparent: any handler that keeps the calling convention
    leaves all fifteen registers, stack, flags and program counter as they
    were. *)
Theorem stubs_switch_and_restore df (h : Regs → Regs) c ctx : interrupted c ctx →
  let at_call := set_gpr RDI (sp c - 120) (after_saves c) in
  irq0_exit (words at_call) (gpr at_call RDI) = Some ctx ∧
  exec df h irq0 c = irq0_exit (words (h at_call)) (gpr (h at_call) RAX) ∧
  (abi h → exec df h irq1 c = Some ctx ∧ exec df h irq12 c = Some ctx).
Proof.
  intros Hc. cbn zeta. split; [exact (irq0_saved c ctx Hc)|]. split; [exact (irq0_exec df h c)|].
  intros Habi. split; (apply irq_transparent; [auto|done|done]).
Qed.

(** A task interrupted at 0x4000 with RAX = 7; the handler clobbers RAX. *)
Definition example_regs : Regs :=
  mkRegs (<[RAX := 7]> (λ _, 0)) 0x9000
    (list_to_map [(0x9000, 0x4000); (0x9008, 8); (0x9010, 0x202); (0x9018, 0x9100); (0x9020, 16)]).
Definition example_context : Context :=
  mkContext (saved_gprs (gpr example_regs)) 0x4000 8 0x202 0x9100 16.
Lemma stubs_switch_and_restore_witness :
  exec 0 (set_gpr RAX 99) irq1 example_regs = Some example_context.
Proof.
  assert (interrupted example_regs example_context) as Hc by (split_and!; by vm_compute).
  apply (stubs_switch_and_restore 0 (set_gpr RAX 99) _ _ Hc). by split.
Defined.

(** The calling convention wants the stack pointer a multiple of 16 at a call.
    The processor aligns it before it pushes its frame of five words, or six
    with an error code. *)
Lemma stub_call_alignment df s : s `mod` 16 = 0 → df `mod` 16 = 0 →
  (∀ code, code ∈ [isr0; isr6; isr8; irq0; irq1; irq12] → ∃ t, sp_at_call df code (s - 40) = Some t ∧ t `mod` 16 = 0) ∧
  (∀ code, code ∈ [isr13; isr14] → ∃ t, sp_at_call df code (s - 48) = Some t ∧ t `mod` 16 = 8).
Proof.
  intros Hs Hd. assert (∃ k, s = 16 * k) as [k ->] by (exists (s / 16); pose proof (Z.div_mod s 16); lia).
  assert (∃ j, df = 16 * j) as [j ->] by (exists (df / 16); pose proof (Z.div_mod df 16); lia).
  split; intros code Hin; repeat (apply elem_of_cons in Hin as [->|Hin]); try by apply elem_of_nil in Hin.
  all: eexists; split; [reflexivity|].
  all: match goal with |- ?x `mod` 16 = ?r => first
    [ replace x with (r + (k - 10) * 16) by lia | replace x with (r + (k - 11) * 16) by lia
    | replace x with (r + (k - 12) * 16) by lia | replace x with (r + (j - 8) * 16) by lia ] end.
  all: by rewrite Z_mod_plus_full.
Qed.
