(* ===== verification/Paging.v ===== *)
(** * Physical frame allocator (src/src/memory/paging.rs)

    One bit per 4 KiB frame between 4 MiB and 1 GiB, set when the frame is
    free, in an array of 64-bit words updated with [fetch_or]/[fetch_and]. *)
From S2P Require Import Prelude Words.
Local Open Scope Z_scope.

Definition PHYS_BASE : Z := 0x00400000.
Definition PHYS_END : Z := 0x40000000.
Definition PAGE_SIZE : Z := 4096.
Definition FRAME_COUNT : Z := (PHYS_END - PHYS_BASE) / PAGE_SIZE.
Definition BITMAP_WORDS : Z := (FRAME_COUNT + 63) / 64.

Record Frames := mkFrames { BITMAP : list Z; INITIALIZED : bool }.

(** The statics before [init]. *)
Definition zeroed : Frames := mkFrames (replicate (Z.to_nat BITMAP_WORDS) 0) false.

(** [BITMAP[word]] and its atomic updates; out of range they panic. *)
Definition load (word : Z) : ST Frames Z :=
  s ← get; lift (index (Z.to_nat word) (BITMAP s)).

Definition update (word : Z) (f : Z → Z) : ST Frames Z :=
  s ← get;
  w ← lift (index (Z.to_nat word) (BITMAP s));
  b ← lift (store (Z.to_nat word) (f w) (BITMAP s));
  modify (λ s, mkFrames b (INITIALIZED s)) ;;
  mret w.

Definition fetch_or (word m : Z) : ST Frames Z := update word (λ w, Z.lor w m).
Definition fetch_and (word m : Z) : ST Frames Z := update word (λ w, Z.land w m).

Definition page_index (phys : Z) : option Z :=
  if (phys <? PHYS_BASE) || (PHYS_END <=? phys) then None
  else Some ((phys - PHYS_BASE) / PAGE_SIZE).

Definition set_bit (idx : Z) (free : bool) : ST Frames unit :=
  if FRAME_COUNT <=? idx then mret tt else
  let word := idx / 64 in
  let bit := idx mod 64 in
  if BITMAP_WORDS <=? word then mret tt else
  (if free then fetch_or word (Z.shiftl 1 bit)
   else fetch_and word (wnot 64 (Z.shiftl 1 bit))) ;;
  mret tt.

Definition test_bit (idx : Z) : ST Frames bool :=
  if FRAME_COUNT <=? idx then mret false else
  let word := idx / 64 in
  let bit := idx mod 64 in
  if BITMAP_WORDS <=? word then mret false else
  w ← load word;
  mret (negb (Z.land (Z.shiftr w bit) 1 =? 0)).

Definition mark_used (phys : Z) : ST Frames unit :=
  match page_index phys with Some idx => set_bit idx false | None => mret tt end.

Definition mark_free (phys : Z) : ST Frames unit :=
  match page_index phys with Some idx => set_bit idx true | None => mret tt end.

(** [for w in 0..BITMAP_WORDS { BITMAP[w].store(!0) }] *)
Fixpoint fill (n : nat) (w : Z) : ST Frames unit :=
  match n with
  | O => mret tt
  | S n => update w (λ _, 0xFFFFFFFFFFFFFFFF) ;; fill n (w + 1)
  end.

(** [while addr < kernel_end { mark_used(addr); ... }]; with a 64-bit [usize]
    the saturating addition never overflows here. *)
Fixpoint mark_kernel (fuel : nat) (addr kernel_start kernel_end : Z) : ST Frames unit :=
  if addr <? kernel_end then
    match fuel with
    | O => diverge
    | S fuel =>
        mark_used addr ;;
        let addr := Z.min (addr + PAGE_SIZE) (2 ^ 64 - 1) in
        if addr <? kernel_start then mret tt
        else mark_kernel fuel addr kernel_start kernel_end
    end
  else mret tt.

Definition init : ST Frames unit :=
  fill (Z.to_nat BITMAP_WORDS) 0 ;;
  let remainder := FRAME_COUNT mod 64 in
  (if (0 <? remainder) && (0 <? BITMAP_WORDS) then
     fetch_and (BITMAP_WORDS - 1) (Z.shiftl 1 remainder - 1) ;; mret tt
   else mret tt) ;;
  mark_kernel 768 0x00100000 0x00100000 PHYS_BASE ;;
  modify (λ s, mkFrames (BITMAP s) true).

Fixpoint alloc_from (n : nat) (i : Z) : ST Frames Z :=
  match n with
  | O => mret 0
  | S n =>
      let word := i / 64 in
      let bit := i mod 64 in
      let mask := Z.shiftl 1 bit in
      prev ← fetch_and word (wnot 64 mask);
      if negb (Z.land prev mask =? 0) then mret (PHYS_BASE + i * PAGE_SIZE)
      else alloc_from n (i + 1)
  end.

Definition alloc_frame : ST Frames Z :=
  s ← get;
  if negb (INITIALIZED s) then mret 0
  else alloc_from (Z.to_nat FRAME_COUNT) 0.

Definition free_frame (phys : Z) : ST Frames unit :=
  if negb (phys mod PAGE_SIZE =? 0) then mret tt
  else match page_index phys with Some idx => set_bit idx true | None => mret tt end.

Fixpoint count_free (n : nat) (i free : Z) : ST Frames Z :=
  match n with
  | O => mret free
  | S n => b ← test_bit i; count_free n (i + 1) (if (b : bool) then free + 1 else free)
  end.

Definition stats : ST Frames (Z * Z * Z) :=
  free ← count_free (Z.to_nat FRAME_COUNT) 0 0;
  mret (FRAME_COUNT, free, FRAME_COUNT - free).

(** ** The abstract view: which frames are free *)

Definition is_free (s : Frames) (i : Z) : bool :=
  Z.testbit (BITMAP s !!! Z.to_nat (i / 64)) (i mod 64).

Definition in_range (i : Z) : Prop := 0 ≤ i < FRAME_COUNT.

Definition wf (s : Frames) : Prop :=
  length (BITMAP s) = Z.to_nat BITMAP_WORDS ∧ Forall (fits 64) (BITMAP s).

#[local] Ltac Zify.zify_post_hook ::= Z.to_euclidean_division_equations.

(** ** Effect of the operations on the set of free frames *)

Definition split_ok (i : Z) : Prop :=
  (Z.to_nat (i / 64) < Z.to_nat BITMAP_WORDS)%nat ∧ 0 ≤ i mod 64 < 64.

Lemma FRAME_COUNT_val : FRAME_COUNT = 261120.
Proof. done. Qed.

Lemma in_range_split i : in_range i → split_ok i.
Proof.
  unfold in_range, split_ok. rewrite FRAME_COUNT_val.
  change BITMAP_WORDS with 4080. lia.
Qed.

Lemma update_wp word f s : wf s →
  (Z.to_nat word < Z.to_nat BITMAP_WORDS)%nat →
  (∀ w, fits 64 w → fits 64 (f w)) →
  wp (update word f) (λ w s', wf s' ∧ w = BITMAP s !!! Z.to_nat word ∧
    s' = mkFrames (<[Z.to_nat word := f w]> (BITMAP s)) (INITIALIZED s)) s.
Proof.
  intros [Hlen Hfit] Hw Hf. unfold update. apply wp_bind, wp_get, wp_bind, wp_lift.
  destruct (index_lt (Z.to_nat word) (BITMAP s)) as (w & Hl & ->); [lia|]. simpl.
  apply wp_bind, wp_lift. rewrite store_done by lia. simpl.
  apply wp_bind, wp_modify, wp_ret. split_and!.
  - unfold wf. simpl. rewrite length_insert. split; [done|].
    apply Forall_insert; [done|]. apply Hf. by eapply Forall_lookup_1 in Hfit.
  - by rewrite (list_lookup_total_correct _ _ _ Hl).
  - done.
Qed.

Lemma is_free_insert s i j (w : Z) b : wf s → in_range i → in_range j →
  is_free (mkFrames (<[Z.to_nat (i / 64) := w]> (BITMAP s)) b) j =
  if decide (j / 64 = i / 64) then Z.testbit w (j mod 64) else is_free s j.
Proof.
  intros [Hlen _] Hir Hj. pose proof (in_range_split i Hir) as Hi.
  unfold is_free, split_ok, in_range in *. simpl.
  case_decide as E.
  - rewrite E, list_lookup_total_insert_eq; [done|lia].
  - rewrite list_lookup_total_insert_ne; [done|].
    rewrite FRAME_COUNT_val in *. intros ?%Z2Nat.inj; lia.
Qed.

(** [fetch_or]/[fetch_and] with the mask of frame [i]. *)
Lemma fetch_mask_wp (free : bool) i s : wf s → in_range i →
  wp (if free then fetch_or (i / 64) (Z.shiftl 1 (i mod 64))
      else fetch_and (i / 64) (wnot 64 (Z.shiftl 1 (i mod 64))))
    (λ w s', wf s' ∧ INITIALIZED s' = INITIALIZED s ∧
       Z.testbit w (i mod 64) = is_free s i ∧
       ∀ j, in_range j → is_free s' j = if decide (j = i) then free else is_free s j) s.
Proof.
  intros Hwf Hi. pose proof (in_range_split i Hi) as [Hword Hbit].
  assert (∀ j, j / 64 = i / 64 → j ≠ i → j mod 64 ≠ i mod 64) as Hdist by lia.
  assert (∀ j, 0 ≤ j mod 64 < 64) as Hmod by lia.
  assert (∀ w s' (f : Z → Z), (∀ w k, 0 ≤ k < 64 → Z.testbit (f w) k =
      if decide (k = i mod 64) then free else Z.testbit w k) →
    w = BITMAP s !!! Z.to_nat (i / 64) →
    s' = mkFrames (<[Z.to_nat (i / 64) := f w]> (BITMAP s)) (INITIALIZED s) →
    INITIALIZED s' = INITIALIZED s ∧ Z.testbit w (i mod 64) = is_free s i ∧
    ∀ j, in_range j → is_free s' j = if decide (j = i) then free else is_free s j) as Hgen.
  { intros w s' f Hf -> ->. split; [done|]. split; [done|]. intros j Hj.
    rewrite is_free_insert by done. destruct (decide (j = i)) as [->|Hne].
    - rewrite decide_True, Hf, decide_True by done. done.
    - case_decide as E; [|done]. rewrite Hf by done.
      rewrite decide_False by auto. unfold is_free. by rewrite E. }
  destruct free; unfold fetch_or, fetch_and.
  - eapply wp_mono; [apply update_wp; [done|done|]|].
    { intros w ?. apply fits_lor; [done..|]. by apply fits_one_shift. }
    intros w s' (Hwf' & Hw & Hs'). split; [done|]. apply (Hgen _ _ (λ w, Z.lor w (Z.shiftl 1 (i mod 64)))); [|done..].
    intros w' k ?. rewrite Z.lor_spec, testbit_one_shift by lia.
    destruct (Z.eqb_spec k (i mod 64)); case_decide; try done;
      rewrite ?orb_true_r, ?orb_false_r; done.
  - eapply wp_mono; [apply update_wp; [done|done|]|].
    { intros w ?. by apply fits_land. }
    intros w s' (Hwf' & Hw & Hs'). split; [done|]. apply (Hgen _ _ (λ w, Z.land w (wnot 64 (Z.shiftl 1 (i mod 64))))); [|done..].
    intros w' k ?. rewrite Z.land_spec, testbit_wnot, testbit_one_shift by lia.
    destruct (Z.eqb_spec k (i mod 64)); case_decide; try done;
      rewrite ?andb_true_r, ?andb_false_r; done.
Qed.

Definition frame_addr (i : Z) : Z := PHYS_BASE + i * PAGE_SIZE.

Lemma set_bit_wp i b s : wf s → in_range i →
  wp (set_bit i b) (λ _ s', wf s' ∧ INITIALIZED s' = INITIALIZED s ∧
    ∀ j, in_range j → is_free s' j = if decide (j = i) then b else is_free s j) s.
Proof.
  intros Hwf Hi. unfold set_bit, in_range in *.
  destruct (Z.leb_spec FRAME_COUNT i); [lia|].
  destruct (Z.leb_spec BITMAP_WORDS (i / 64)) as [Hle|].
  { change BITMAP_WORDS with 4080 in Hle. rewrite FRAME_COUNT_val in *. lia. }
  apply wp_bind. eapply wp_mono; [by apply fetch_mask_wp|].
  intros w s' (? & ? & _ & ?). by apply wp_ret.
Qed.

Lemma test_bit_wp i s : wf s → in_range i →
  wp (test_bit i) (λ b s', s' = s ∧ b = is_free s i) s.
Proof.
  intros Hwf Hi. pose proof (in_range_split i Hi) as [Hword Hbit].
  unfold test_bit, in_range in *. destruct (Z.leb_spec FRAME_COUNT i); [lia|].
  destruct (Z.leb_spec BITMAP_WORDS (i / 64)) as [Hle|].
  { change BITMAP_WORDS with 4080 in Hle. rewrite FRAME_COUNT_val in *. lia. }
  destruct Hwf as [Hlen _]. unfold load.
  destruct (index_lt (Z.to_nat (i / 64)) (BITMAP s)) as (w & Hl & Hidx); [lia|].
  apply wp_bind, wp_bind, wp_get, wp_lift. rewrite Hidx. simpl. apply wp_ret. split; [done|].
  rewrite land_shiftr_one by lia. unfold is_free.
  by rewrite (list_lookup_total_correct _ _ _ Hl).
Qed.

Lemma page_index_spec phys : 0 ≤ phys →
  match page_index phys with
  | Some i => in_range i ∧ frame_addr i ≤ phys < frame_addr i + PAGE_SIZE
  | None => phys < PHYS_BASE ∨ PHYS_END ≤ phys
  end.
Proof.
  intros. unfold page_index, in_range, frame_addr. rewrite FRAME_COUNT_val.
  unfold PHYS_BASE, PHYS_END, PAGE_SIZE.
  destruct (Z.ltb_spec phys 0x00400000); simpl; [lia|].
  destruct (Z.leb_spec 0x40000000 phys); simpl; lia.
Qed.

Lemma page_index_frame i : in_range i → page_index (frame_addr i) = Some i.
Proof.
  unfold in_range, page_index, frame_addr. rewrite FRAME_COUNT_val.
  unfold PHYS_BASE, PHYS_END, PAGE_SIZE. intros.
  destruct (Z.ltb_spec (0x00400000 + i * 4096) 0x00400000); simpl; [lia|].
  destruct (Z.leb_spec 0x40000000 (0x00400000 + i * 4096)); simpl; [lia|].
  f_equal. lia.
Qed.

Lemma free_frame_wp i s : wf s → in_range i →
  wp (free_frame (frame_addr i)) (λ _ s', wf s' ∧ INITIALIZED s' = INITIALIZED s ∧
    ∀ j, in_range j → is_free s' j = if decide (j = i) then true else is_free s j) s.
Proof.
  intros Hwf Hi. unfold free_frame.
  destruct (Z.eqb_spec (frame_addr i mod PAGE_SIZE) 0) as [_|E]; simpl.
  - rewrite page_index_frame by done. by apply set_bit_wp.
  - exfalso. apply E. unfold frame_addr, PHYS_BASE, PAGE_SIZE. lia.
Qed.

(** The first free frame from [i] on, if there is one. *)
Definition first_free (s : Frames) (i j : Z) : Prop :=
  i ≤ j ∧ in_range j ∧ is_free s j = true ∧ ∀ k, i ≤ k < j → is_free s k = false.

Lemma alloc_from_wp (n : nat) i s : wf s → 0 ≤ i → i + n = FRAME_COUNT →
  wp (alloc_from n i) (λ a s', wf s' ∧ INITIALIZED s' = INITIALIZED s ∧
    ((∃ j, a = frame_addr j ∧ first_free s i j ∧
       ∀ k, in_range k → is_free s' k = if decide (k = j) then false else is_free s k) ∨
     (a = 0 ∧ (∀ k, i ≤ k < FRAME_COUNT → is_free s k = false) ∧
       ∀ k, in_range k → is_free s' k = is_free s k))) s.
Proof.
  revert i s. induction n as [|n IH]; intros i s Hwf Hi Hn; simpl.
  { apply wp_ret. split_and!; try done. right. split_and!; try done. intros k ?. lia. }
  assert (in_range i) as Hir by (unfold in_range; lia).
  pose proof (in_range_split i Hir) as [_ Hbit].
  apply wp_bind. eapply wp_mono; [by apply (fetch_mask_wp false i)|].
  intros w s1 (Hwf1 & Hin1 & Hw & Hs1). rewrite land_one_shift, Hw by lia.
  destruct (is_free s i) eqn:Hf.
  - apply wp_ret. split_and!; try done. left. exists i.
    split_and!; try done. unfold first_free. split_and!; try done; intros; lia.
  - assert (∀ k, in_range k → is_free s1 k = is_free s k) as Hsame.
    { intros k Hk. rewrite Hs1 by done. case_decide; [|done]. by subst. }
    eapply wp_mono; [apply IH; [done|lia|lia]|].
    intros a s' (Hwf' & Hin' & Ha). split; [done|]. split; [congruence|].
    destruct Ha as [(j & -> & (Hj1 & Hj2 & Hj3 & Hj4) & Hs')|(-> & Hall & Hs')].
    + left. exists j. unfold first_free. split_and!; try done; try lia.
      * by rewrite <- Hsame.
      * intros k Hk. destruct (decide (k = i)) as [->|]; [done|].
        rewrite <- Hsame; [apply Hj4; lia|]. unfold in_range in *. lia.
      * intros k Hk. rewrite Hs' by done. by rewrite Hsame.
    + right. split_and!; [done| |].
      * intros k Hk. destruct (decide (k = i)) as [->|]; [done|].
        rewrite <- Hsame; [apply Hall; lia|]. unfold in_range. lia.
      * intros k Hk. by rewrite Hs', Hsame.
Qed.

Lemma alloc_frame_wp s : wf s → INITIALIZED s = true →
  wp alloc_frame (λ a s', wf s' ∧ INITIALIZED s' = true ∧
    ((∃ j, a = frame_addr j ∧ first_free s 0 j ∧
       ∀ k, in_range k → is_free s' k = if decide (k = j) then false else is_free s k) ∨
     (a = 0 ∧ (∀ k, in_range k → is_free s k = false) ∧
       ∀ k, in_range k → is_free s' k = is_free s k))) s.
Proof.
  intros Hwf Hin. unfold alloc_frame. apply wp_bind, wp_get. rewrite Hin. simpl negb. cbv iota.
  eapply wp_mono; [apply alloc_from_wp; [done|lia|by rewrite Z2Nat.id by done]|].
  intros a s' (? & ? & H). rewrite Hin in *. by split_and!.
Qed.

(** ** Initialisation *)

Lemma fill_wp (n : nat) w s : wf s → 0 ≤ w → w + n = BITMAP_WORDS →
  wp (fill n w) (λ _ s', wf s' ∧ ∀ k, 0 ≤ k < BITMAP_WORDS →
    BITMAP s' !!! Z.to_nat k =
    if decide (w ≤ k) then 0xFFFFFFFFFFFFFFFF else BITMAP s !!! Z.to_nat k) s.
Proof.
  revert w s. induction n as [|n IH]; intros w s Hwf Hw Hn; simpl.
  { apply wp_ret. split; [done|]. intros k ?. rewrite decide_False by lia. done. }
  apply wp_bind. eapply wp_mono; [apply update_wp; [done|lia|done]|].
  intros _ s1 (Hwf1 & _ & Hs1). eapply wp_mono; [apply IH; [done|lia|lia]|].
  intros _ s' [Hwf' Hs']. split; [done|]. intros k Hk. rewrite Hs' by done.
  destruct Hwf as [Hlen _]. rewrite Hs1. simpl.
  destruct (decide (k = w)) as [->|].
  - rewrite (decide_True (P := w ≤ w)), decide_False by lia.
    by rewrite list_lookup_total_insert_eq by lia.
  - rewrite list_lookup_total_insert_ne by lia.
    repeat case_decide; done || lia.
Qed.

(** The loop that is to keep the kernel's own frames changes nothing: it ends
    below the first frame of the bitmap. *)
Lemma mark_kernel_wp (fuel : nat) addr s :
  0x00100000 ≤ addr → PHYS_BASE ≤ addr + fuel * PAGE_SIZE →
  wp (mark_kernel fuel addr 0x00100000 PHYS_BASE) (λ _ s', s' = s) s.
Proof.
  revert addr. induction fuel as [|fuel IH]; intros addr Ha Hf; cbn [mark_kernel].
  - unfold PAGE_SIZE in Hf. destruct (Z.ltb_spec addr PHYS_BASE); [lia|by apply wp_ret].
  - destruct (Z.ltb_spec addr PHYS_BASE) as [Hlt|]; [|by apply wp_ret].
    assert (mark_used addr = mret tt) as ->.
    { unfold mark_used, page_index.
      destruct (Z.ltb_spec addr PHYS_BASE); [done|lia]. }
    apply wp_bind, wp_ret. unfold PHYS_BASE, PAGE_SIZE in *.
    rewrite Z.min_l by (change (2 ^ 64) with 18446744073709551616; lia).
    destruct (Z.ltb_spec (addr + 4096) 0x00100000); [lia|].
    apply IH; lia.
Qed.

Lemma init_wp s : wf s →
  wp init (λ _ s', wf s' ∧ INITIALIZED s' = true ∧
    ∀ i, in_range i → is_free s' i = true) s.
Proof.
  intros Hwf. unfold init. apply wp_bind.
  eapply wp_mono; [apply fill_wp; [done|lia|]|].
  { by rewrite Z2Nat.id by done. }
  intros _ s1 [Hwf1 Hs1].
  change (FRAME_COUNT mod 64) with 0. change ((0 <? 0) && _) with false. cbv iota.
  apply wp_bind, wp_ret, wp_bind.
  eapply wp_mono; [apply mark_kernel_wp; [done|by vm_compute]|].
  intros _ s2 ->. apply wp_modify. split; [exact Hwf1|]. split; [done|].
  intros i Hi. unfold is_free. simpl.
  assert (0 ≤ i / 64 < BITMAP_WORDS) as Hr.
  { unfold in_range in Hi. rewrite FRAME_COUNT_val in Hi.
    change BITMAP_WORDS with 4080. lia. }
  rewrite Hs1, decide_True by (done || lia).
  change 0xFFFFFFFFFFFFFFFF with (Z.ones 64).
  rewrite Z.ones_spec_low; [done|lia].
Qed.

Lemma zeroed_wf : wf zeroed.
Proof.
  split; [apply length_replicate|]. apply Forall_forall.
  intros x [-> _]%elem_of_replicate. done.
Qed.

(** ** Clients

    The frames handed out and not yet given back, as a client sees them. *)
Inductive step : list Z * Frames → list Z * Frames → Prop :=
  | step_alloc held s a s' :
      alloc_frame s = Done (a, s') → a ≠ 0 → step (held, s) (a :: held, s')
  | step_alloc_fails held s s' :
      alloc_frame s = Done (0, s') → step (held, s) (held, s')
  | step_free a held held' s s' :
      held ≡ₚ a :: held' → free_frame a s = Done (tt, s') →
      step (held, s) (held', s').

Record consistent (x : list Z * Frames) : Prop := {
  c_wf : wf x.2;
  c_init : INITIALIZED x.2 = true;
  c_nodup : NoDup x.1;
  c_frames : ∀ a, a ∈ x.1 → ∃ i, in_range i ∧ a = frame_addr i;
  c_free : ∀ i, in_range i → is_free x.2 i = negb (bool_decide (frame_addr i ∈ x.1));
}.

Lemma frame_addr_inj i j : frame_addr i = frame_addr j → i = j.
Proof. unfold frame_addr, PAGE_SIZE. lia. Qed.

Lemma frame_addr_nonzero i : in_range i → frame_addr i ≠ 0.
Proof. unfold in_range, frame_addr, PHYS_BASE, PAGE_SIZE. lia. Qed.

Lemma not_held x i : consistent x → in_range i →
  is_free x.2 i = true ↔ frame_addr i ∉ x.1.
Proof.
  intros H Hi. rewrite (c_free _ H) by done.
  case_bool_decide; simpl; split; done || (intros; done).
Qed.

Lemma consistent_alloc held s a s' : consistent (held, s) →
  alloc_frame s = Done (a, s') →
  (a ≠ 0 → consistent (a :: held, s')) ∧
  (a = 0 → consistent (held, s') ∧ ∀ i, in_range i → frame_addr i ∈ held).
Proof.
  intros Hc E. pose proof (alloc_frame_wp s (c_wf _ Hc) (c_init _ Hc)) as H.
  unfold wp in H. rewrite E in H.
  destruct H as (Hwf' & Hin' & [(j & -> & (_ & Hj & Hfr & _) & Hs')|(-> & Hall & Hs')]).
  - split; [|by intros ?%frame_addr_nonzero]. intros _. constructor; simpl; try done.
    + constructor; [|apply Hc]. by apply (not_held (held, s)).
    + intros a [->|Ha]%elem_of_cons; [eauto|]. by apply (c_frames _ Hc).
    + intros i Hi. rewrite Hs' by done. case_decide as Eij.
      * subst. by rewrite bool_decide_eq_true_2 by left.
      * rewrite (c_free _ Hc) by done. simpl. f_equal. apply bool_decide_ext.
        rewrite elem_of_cons. split; [by right|]. by intros [?%frame_addr_inj|].
  - split; [done|]. intros _. split.
    + constructor; simpl; try apply Hc; try done.
      intros i Hi. rewrite Hs' by done. by apply (c_free _ Hc).
    + intros i Hi. specialize (Hall i Hi). rewrite (c_free _ Hc) in Hall by done.
      simpl in Hall. by case_bool_decide.
Qed.

Lemma consistent_free held held' a s s' : consistent (held, s) →
  held ≡ₚ a :: held' → free_frame a s = Done (tt, s') → consistent (held', s').
Proof.
  intros Hc Hp E.
  assert (a ∈ held) as Ha by (rewrite Hp; by left).
  destruct (c_frames _ Hc a Ha) as (j & Hj & ->).
  pose proof (free_frame_wp j s (c_wf _ Hc) Hj) as H.
  unfold wp in H. rewrite E in H. destruct H as (Hwf' & Hin' & Hs').
  assert (NoDup (frame_addr j :: held')) as Hnd by (rewrite <- Hp; apply Hc).
  apply NoDup_cons in Hnd as [Hnj Hnd].
  constructor; simpl; try done.
  - rewrite Hin'. apply Hc.
  - intros b Hb. apply (c_frames _ Hc). simpl. rewrite Hp. by right.
  - intros i Hi. rewrite Hs' by done. case_decide as Eij.
    + subst. by rewrite bool_decide_eq_false_2.
    + rewrite (c_free _ Hc) by done. simpl. f_equal. apply bool_decide_ext.
      rewrite Hp, elem_of_cons. split; [by intros [?%frame_addr_inj|]|by right].
Qed.

Lemma consistent_steps x y : rtc step x y → consistent x → consistent y.
Proof.
  induction 1 as [|x y z Hstep _ IH]; [done|]. intros Hx. apply IH.
  destruct Hstep as [held s a s' E|held s s' E|a held held' s s' Hp E].
  - by apply (consistent_alloc held s a s' Hx E).
  - by apply (consistent_alloc held s 0 s' Hx E).
  - by eapply consistent_free.
Qed.

(** C21: after [init], whatever clients allocate and give back, the frames in
    their hands are pairwise different, page-aligned and inside the managed
    range, a frame is marked free exactly when nobody holds it, and the next
    [alloc_frame] returns (never panics): the lowest frame nobody holds, or 0
    when every frame is held. *)
Theorem frames_exclusive s0 s held s' :
  wf s0 → init s0 = Done (tt, s) → rtc step ([], s) (held, s') →
  NoDup held ∧
  (∀ a, a ∈ held → a mod PAGE_SIZE = 0 ∧ PHYS_BASE ≤ a < PHYS_END) ∧
  (∀ i, in_range i → (is_free s' i = true ↔ frame_addr i ∉ held)) ∧
  ∃ a s'', alloc_frame s' = Done (a, s'') ∧
    ((∃ i, in_range i ∧ a = frame_addr i ∧ (a ∉ held) ∧
       ∀ k, 0 ≤ k < i → frame_addr k ∈ held) ∨
     (a = 0 ∧ ∀ i, in_range i → frame_addr i ∈ held)).
Proof.
  intros Hwf Hinit Hsteps. pose proof (init_wp s0 Hwf) as H.
  unfold wp in H. rewrite Hinit in H. destruct H as (Hwf1 & Hin1 & Hfree).
  assert (consistent (held, s')) as Hc.
  { eapply consistent_steps; [done|]. constructor; simpl; try done.
    - constructor.
    - by intros a ?%not_elem_of_nil. }
  split; [apply Hc|]. split; [|split].
  - intros a Ha. destruct (c_frames _ Hc a Ha) as (i & Hi & ->).
    unfold in_range, frame_addr in *. rewrite FRAME_COUNT_val in Hi.
    unfold PAGE_SIZE, PHYS_BASE, PHYS_END. lia.
  - intros i Hi. by apply (not_held (held, s')).
  - pose proof (alloc_frame_wp s' (c_wf _ Hc) (c_init _ Hc)) as H.
    apply wp_inv in H as (a & s'' & -> & _ & _ & H). exists a, s''. split; [done|].
    destruct H as [(j & -> & (_ & Hj & Hfr & Hmin) & _)|(-> & Hall & _)].
    + left. exists j. split_and!; try done.
      * by apply (not_held (held, s')).
      * intros k Hk. apply dec_stable. intros Hn.
        assert (in_range k) as Hkr by (unfold in_range in *; lia).
        apply (not_held (held, s') k Hc Hkr) in Hn. simpl in Hn.
        by rewrite Hmin in Hn by done.
    + right. split; [done|]. intros i Hi. apply dec_stable. intros Hn.
      apply (not_held (held, s') i Hc Hi) in Hn. simpl in Hn. by rewrite Hall in Hn.
Qed.

Lemma alloc_lowest i s : wf s → INITIALIZED s = true → first_free s 0 i →
  ∃ s', alloc_frame s = Done (frame_addr i, s') ∧ wf s' ∧ INITIALIZED s' = true ∧
    ∀ k, in_range k → is_free s' k = if decide (k = i) then false else is_free s k.
Proof.
  intros Hwf Hin (Hi0 & Hi & Hfi & Hmin).
  pose proof (alloc_frame_wp s Hwf Hin) as (a & s' & E & Hwf' & Hin' & H)%wp_inv.
  exists s'. destruct H as [(j & -> & (Hj0 & Hj & Hfj & Hminj) & Hs')|(-> & Hall & _)].
  - assert (j = i) as ->; [|done]. destruct (Z.lt_trichotomy i j) as [|[|]]; [|done|].
    + rewrite Hminj in Hfi by lia. done.
    + rewrite Hmin in Hfj by lia. done.
  - rewrite Hall in Hfi by done. done.
Qed.

Lemma frames_exclusive_witness : ∃ s s1 s2 s3,
  init zeroed = Done (tt, s) ∧ alloc_frame s = Done (0x400000, s1) ∧
  alloc_frame s1 = Done (0x401000, s2) ∧ free_frame 0x400000 s2 = Done (tt, s3) ∧
  is_free s3 0 = true.
Proof.
  assert (in_range 0 ∧ in_range 1) as [H0 H1]
    by (unfold in_range; rewrite FRAME_COUNT_val; lia).
  pose proof (init_wp zeroed zeroed_wf) as ([] & s & Hs & Hw & Hi & Hf)%wp_inv.
  destruct (alloc_lowest 0 s Hw Hi) as (s1 & E1 & Hw1 & Hi1 & Hf1).
  { split; [done|]. split; [exact H0|]. split; [exact (Hf 0 H0)|intros; lia]. }
  destruct (alloc_lowest 1 s1 Hw1 Hi1) as (s2 & E2 & Hw2 & Hi2 & Hf2).
  { split; [done|]. split; [exact H1|].
    split; [rewrite (Hf1 1 H1); exact (Hf 1 H1)|].
    intros k Hk. replace k with 0 by lia. rewrite (Hf1 0 H0). exact eq_refl. }
  pose proof (free_frame_wp 0 s2 Hw2 H0) as ([] & s3 & E3 & _)%wp_inv.
  exists s, s1, s2, s3. do 4 (split; [eassumption|]).
  apply (frames_exclusive zeroed s [0x401000] s3); [apply zeroed_wf|done|..].
  - eapply rtc_l; [by apply (step_alloc _ _ 0x400000 s1)|].
    eapply rtc_l; [by apply (step_alloc _ _ 0x401000 s2)|].
    eapply rtc_l; [|apply rtc_refl].
    eapply (step_free 0x400000); [|exact E3]. apply Permutation_swap.
  - exact H0.
  - intros H. apply list_elem_of_singleton in H. vm_compute in H. discriminate.
Defined.
