(* ===== verification/Packets.v ===== *)
(** * Packet formats (src/src/drivers/net/{ethernet,arp,ipv4,udp}.rs)

    Parsers take a byte slice and return the header with the payload slice;
    builders write into a caller's buffer and return the bytes written.  Fixed
    arrays ([u8; n]) are lists of length [n]; every access is bounds-checked. *)
From S2P Require Import Prelude Words.
Local Open Scope Z_scope.

(** [u16::from_be_bytes([data[i], data[i + 1]])] and its 32-bit version. *)
Definition be16 (i : nat) (data : list Z) : outcome Z :=
  a ← index i data; b ← index (i + 1) data; mret (from_be [a; b]).

Definition be32 (i : nat) (data : list Z) : outcome Z :=
  a ← index i data; b ← index (i + 1) data;
  c ← index (i + 2) data; d ← index (i + 3) data;
  mret (from_be [a; b; c; d]).

Definition ipv4_addr (ip : list Z) : Prop := length ip = 4%nat ∧ bytes ip.
Definition mac_addr (mac : list Z) : Prop := length mac = 6%nat ∧ bytes mac.

Module Checksum.
(** The word loop of [checksum] and of [tcp_checksum]:
    [while i + 1 < data.len()]. *)
Fixpoint sum_words (fuel i : nat) (sum : Z) (data : list Z) : outcome (nat * Z) :=
  if decide (i + 1 < length data)%nat then
    match fuel with
    | O => Diverge
    | S fuel =>
        w ← be16 i data;
        sum_words fuel (i + 2) (wadd 32 sum w) data
    end
  else mret (i, sum).

(** [while sum >> 16 != 0 { sum = (sum & 0xFFFF) + (sum >> 16) }] *)
Fixpoint fold16 (fuel : nat) (sum : Z) : outcome Z :=
  if Z.shiftr sum 16 =? 0 then mret sum
  else match fuel with
  | O => Diverge
  | S fuel => fold16 fuel (wadd 32 (Z.land sum 0xFFFF) (Z.shiftr sum 16))
  end.

#[global] Arguments sum_words : simpl never.
#[global] Arguments fold16 : simpl never.

(** Both checksums from their initial [sum] on. *)
Definition checksum_from (sum : Z) (data : list Z) : outcome Z :=
  '(i, sum) ← sum_words (length data) 0 sum data;
  sum ← (if decide (i < length data)%nat then
           b ← index i data; mret (wadd 32 sum (wrap 32 (Z.shiftl b 8)))
         else mret sum);
  sum ← fold16 2 sum;
  mret (wnot 16 (wrap 16 sum)).

Definition checksum (data : list Z) : outcome Z := checksum_from 0 data.

(** Reference: the 16-bit big-endian words, padded with a zero byte, added
    up in one's-complement arithmetic (RFC 1071). *)
Fixpoint words_sum (l : list Z) : Z :=
  match l with
  | a :: b :: l => 256 * a + b + words_sum l
  | [a] => 256 * a
  | [] => 0
  end.

Definition ones_complement (s : Z) : Z :=
  if s =? 0 then 0 else (s - 1) mod 65535 + 1.
End Checksum.

Module Ethernet.
Definition ETHERTYPE_IPV4 : Z := 0x0800.
Definition ETHERTYPE_ARP : Z := 0x0806.

Record EthernetFrame := mkFrame {
  dst : list Z; src : list Z; ethertype : Z; payload : list Z }.

Definition parse (data : list Z) : outcome (option EthernetFrame) :=
  if decide (length data < 60)%nat then mret None else
  dst ← slice 0 6 data;
  src ← slice 6 12 data;
  ethertype ← be16 12 data;
  payload ← slice 14 (length data) data;
  mret (Some (mkFrame dst src ethertype payload)).

Definition build (dst src : list Z) (ethertype : Z) (payload out : list Z) :
    outcome (option nat * list Z) :=
  let len := (14 + length payload)%nat in
  if decide (length out < len)%nat then mret (None, out) else
  out ← put 0 6 dst out;
  out ← put 6 12 src out;
  out ← put 12 14 (to_be 2 ethertype) out;
  out ← put 14 len payload out;
  mret (Some len, out).
End Ethernet.

Module Arp.
Definition ARP_REQUEST : Z := 1.
Definition ARP_REPLY : Z := 2.

Record ArpPacket := mkArp {
  hw_type : Z; proto_type : Z; opcode : Z;
  sender_mac : list Z; sender_ip : list Z;
  target_mac : list Z; target_ip : list Z }.

Definition build_request (sender_mac sender_ip target_ip out : list Z) :
    outcome (option nat * list Z) :=
  if decide (length out < 28)%nat then mret (None, out) else
  out ← put 0 2 (to_be 2 1) out;
  out ← put 2 4 (to_be 2 0x0800) out;
  out ← store 4 6 out;
  out ← store 5 4 out;
  out ← put 6 8 (to_be 2 1) out;
  out ← put 8 14 sender_mac out;
  out ← put 14 18 sender_ip out;
  out ← put 18 24 (replicate 6 0) out;
  out ← put 24 28 target_ip out;
  mret (Some 28%nat, out).

Definition parse (data : list Z) : outcome (option ArpPacket) :=
  if decide (length data < 28)%nat then mret None else
  hw_type ← be16 0 data;
  proto_type ← be16 2 data;
  hlen ← index 4 data;
  plen ← index 5 data;
  if negb (hw_type =? 1) || negb (proto_type =? 0x0800) || negb (hlen =? 6)
     || negb (plen =? 4) then mret None else
  opcode ← be16 6 data;
  sender_mac ← slice 8 14 data;
  sender_ip ← slice 14 18 data;
  target_mac ← slice 18 24 data;
  target_ip ← slice 24 28 data;
  mret (Some (mkArp hw_type proto_type opcode sender_mac sender_ip target_mac target_ip)).
End Arp.

Module Ipv4.
Record Ipv4Packet := mkIp {
  version : Z; header_len : Z; total_len : Z; protocol : Z;
  src : list Z; dst : list Z; payload : list Z }.

Definition parse (data : list Z) : outcome (option Ipv4Packet) :=
  if decide (length data < 20)%nat then mret None else
  version_ihl ← index 0 data;
  let version := Z.shiftr version_ihl 4 in
  let header_len := wrap 8 (Z.land version_ihl 0x0F * 4) in
  if decide (length data < Z.to_nat header_len)%nat then mret None else
  total_len ← be16 2 data;
  protocol ← index 9 data;
  src ← slice 12 16 data;
  dst ← slice 16 20 data;
  payload ← slice (Z.to_nat header_len) (length data) data;
  mret (Some (mkIp version header_len total_len protocol src dst payload)).

Definition build (src dst : list Z) (protocol payload_len : Z) (out : list Z) :
    outcome (option nat * list Z) :=
  if decide (length out < 20)%nat then mret (None, out) else
  let total_len := wadd 16 20 payload_len in
  out ← store 0 0x45 out;
  out ← store 1 0 out;
  out ← put 2 4 (to_be 2 total_len) out;
  out ← put 4 6 [0; 0] out;
  out ← put 6 8 [0; 0] out;
  out ← store 8 64 out;
  out ← store 9 protocol out;
  out ← put 10 12 [0; 0] out;
  out ← put 12 16 src out;
  out ← put 16 20 dst out;
  header ← slice 0 20 out;
  cksum ← Checksum.checksum header;
  out ← put 10 12 (to_be 2 cksum) out;
  mret (Some 20%nat, out).
End Ipv4.

Module Udp.
Record UdpHeader := mkUdp {
  src_port : Z; dst_port : Z; length_ : Z; payload : list Z }.

Definition parse (data : list Z) : outcome (option UdpHeader) :=
  if decide (length data < 8)%nat then mret None else
  src_port ← be16 0 data;
  dst_port ← be16 2 data;
  len ← be16 4 data;
  payload ← slice 8 (length data) data;
  mret (Some (mkUdp src_port dst_port len payload)).

Definition build (src_port dst_port : Z) (payload out : list Z) :
    outcome (option nat * list Z) :=
  let len := (8 + length payload)%nat in
  if decide (length out < len)%nat then mret (None, out) else
  out ← put 0 2 (to_be 2 src_port) out;
  out ← put 2 4 (to_be 2 dst_port) out;
  out ← put 4 6 (to_be 2 (wrap 16 len)) out;
  out ← put 6 8 [0; 0] out;
  out ← put 8 len payload out;
  mret (Some len, out).
End Udp.

(** ** Checksums *)

Module ChecksumProps.
Import Checksum.
#[local] Ltac Zify.zify_post_hook ::= Z.to_euclidean_division_equations.

Lemma words_sum_nonneg l : bytes l → 0 ≤ words_sum l.
Proof.
  revert l. fix IH 1. intros [|a [|b l]] H; simpl; [done|..].
  - apply Forall_cons_1 in H as [[? _] _]. lia.
  - apply Forall_cons_1 in H as [[? _] [[? _] Hl]%Forall_cons_1].
    pose proof (IH l Hl). lia.
Qed.

Lemma sum_words_eq fuel i s l : sum_words fuel i s l =
  if decide (i + 1 < length l)%nat then
    match fuel with
    | O => Diverge
    | S fuel => w ← be16 i l; sum_words fuel (i + 2) (wadd 32 s w) l
    end
  else mret (i, s).
Proof. by destruct fuel. Qed.

Lemma fold16_eq fuel s : fold16 fuel s =
  if Z.shiftr s 16 =? 0 then mret s
  else match fuel with
  | O => Diverge
  | S fuel => fold16 fuel (wadd 32 (Z.land s 0xFFFF) (Z.shiftr s 16))
  end.
Proof. by destruct fuel. Qed.

(** The loop and the odd byte behind it add up the words. *)
Lemma sum_words_spec (fuel : nat) pre l s : bytes l → (length l ≤ 2 * fuel)%nat →
  fits 32 s →
  runs (sum_words fuel (length pre) s (pre ++ l)) (λ '(i, s'),
    runs (if decide (i < length (pre ++ l))%nat then
            b ← index i (pre ++ l); mret (wadd 32 s' (wrap 32 (Z.shiftl b 8)))
          else mret s') (λ t, t = wrap 32 (s + words_sum l))).
Proof.
  revert pre l s. induction fuel as [|fuel IH]; intros pre l s Hl Hf Hs.
  { destruct l; simpl in Hf |- *; [|lia]. rewrite app_nil_r, sum_words_eq.
    rewrite decide_False by lia. simpl. rewrite decide_False by lia. simpl.
    by rewrite Z.add_0_r, wrap_id. }
  destruct l as [|a [|b l]]; rewrite sum_words_eq.
  - rewrite app_nil_r, decide_False by lia. simpl. rewrite decide_False by lia.
    simpl. by rewrite Z.add_0_r, wrap_id.
  - rewrite decide_False by len. simpl. rewrite decide_True by len.
    rewrite (index_done (length pre) _ a) by by apply list_lookup_middle.
    simpl. unfold wadd. rewrite wrap_add_r. f_equal. rewrite Z.shiftl_mul_pow2 by lia. lia.
  - rewrite decide_True by len. unfold be16.
    rewrite (index_done (length pre) _ a) by by apply list_lookup_middle.
    simpl mbind.
    rewrite (index_done (length pre + 1) _ b)
      by by rewrite lookup_app_r, Nat.add_sub' by lia.
    simpl mbind. replace (length pre + 2)%nat with (length (pre ++ [a; b])) by len.
    replace (pre ++ a :: b :: l) with ((pre ++ [a; b]) ++ l) by by rewrite <- app_assoc.
    apply Forall_cons_1 in Hl as [? [? Hl]%Forall_cons_1].
    eapply runs_mono; [apply IH; [done|simpl in Hf; lia|by apply wadd_fits]|].
    intros [i s'] Hr. eapply runs_mono; [exact Hr|]. intros t ->.
    unfold wadd. rewrite wrap_add_l. f_equal. unfold from_be. simpl. lia.
Qed.

Lemma fold_step s : fits 32 s →
  wadd 32 (Z.land s 0xFFFF) (Z.shiftr s 16) = s mod 65536 + s / 65536.
Proof.
  intros Hs. change 0xFFFF with (Z.ones 16). rewrite Z.land_ones by lia.
  rewrite Z.shiftr_div_pow2 by lia. change (2 ^ 16) with 65536.
  unfold wadd. apply wrap_id. pow2. lia.
Qed.

Lemma ones_complement_fold s : 0 ≤ s →
  ones_complement (s mod 65536 + s / 65536) = ones_complement s.
Proof.
  intros. unfold ones_complement.
  repeat case_match; rewrite ?Z.eqb_eq, ?Z.eqb_neq in *; lia.
Qed.

Lemma ones_complement_small s : 0 ≤ s < 65536 → ones_complement s = s.
Proof.
  intros. unfold ones_complement. case_match; rewrite ?Z.eqb_eq, ?Z.eqb_neq in *; lia.
Qed.

Lemma ones_complement_range s : 0 ≤ s → 0 ≤ ones_complement s < 65536.
Proof.
  intros. unfold ones_complement. case_match; rewrite ?Z.eqb_eq, ?Z.eqb_neq in *; lia.
Qed.

Lemma fold16_spec s : fits 32 s → fold16 2 s = Done (ones_complement s).
Proof.
  intros Hs. assert (∀ t, 0 ≤ t → (Z.shiftr t 16 =? 0) = (t <? 65536)) as Hsh.
  { intros t ?. rewrite Z.shiftr_div_pow2 by lia. change (2 ^ 16) with 65536.
    destruct (Z.eqb_spec (t / 65536) 0), (Z.ltb_spec t 65536); lia. }
  assert (0 ≤ s < 4294967296) as Hs' by (pow2; lia).
  rewrite fold16_eq, Hsh by lia. destruct (Z.ltb_spec s 65536).
  { by rewrite ones_complement_small by lia. }
  rewrite fold_step by done. set (t := s mod 65536 + s / 65536).
  assert (0 ≤ t < 131072) as Ht by lia.
  rewrite <- ones_complement_fold by lia. fold t. rewrite fold16_eq, Hsh by lia.
  destruct (Z.ltb_spec t 65536).
  { by rewrite ones_complement_small by lia. }
  rewrite fold_step by (pow2; lia). set (u := t mod 65536 + t / 65536).
  assert (0 ≤ u < 65536) as Hu by lia.
  rewrite <- ones_complement_fold by lia. fold u. rewrite fold16_eq, Hsh by lia.
  destruct (Z.ltb_spec u 65536); [|lia]. by rewrite ones_complement_small by lia.
Qed.

(** The loops end whatever the elements are. *)
Lemma sum_words_returns (fuel i : nat) s l : fits 32 s → (length l ≤ i + 2 * fuel + 1)%nat →
  runs (sum_words fuel i s l) (λ '(_, s'), fits 32 s').
Proof.
  revert i s. induction fuel as [|fuel IH]; intros i s Hs Hf; rewrite sum_words_eq;
    case_decide; try done; [lia|].
  unfold be16. destruct (index_lt i l) as (a & _ & ->); [lia|].
  destruct (index_lt (i + 1) l) as (b & _ & ->); [lia|]. cbn [mbind outcome_bind].
  apply IH; [by apply wadd_fits|lia].
Qed.

Lemma checksum_returns s l : fits 32 s → ∃ ck, checksum_from s l = Done ck.
Proof.
  intros Hs. unfold checksum_from.
  pose proof (sum_words_returns (length l) 0 s l Hs ltac:(lia)) as ([i s'] & -> & Hs')%runs_inv.
  cbn [mbind outcome_bind]. case_decide as Hi.
  - destruct (index_lt i l) as (b & _ & ->); [done|]. cbn [mbind outcome_bind mret outcome_ret].
    rewrite fold16_spec by by apply wadd_fits. by eexists.
  - cbn [mbind outcome_bind mret outcome_ret]. rewrite fold16_spec by done. by eexists.
Qed.

Lemma checksum_from_spec s l : bytes l → fits 32 s →
  checksum_from s l = Done (65535 - ones_complement (wrap 32 (s + words_sum l))).
Proof.
  intros Hl Hs. unfold checksum_from.
  pose proof (sum_words_spec (length l) [] l s Hl ltac:(lia) Hs) as H.
  simpl app in H. simpl length in H.
  apply runs_inv in H as ([i s'] & -> & H). simpl mbind. cbv beta iota in H |- *.
  apply runs_inv in H as (t & -> & ->). cbn [mbind outcome_bind].
  rewrite fold16_spec by by apply wrap_fits. simpl.
  set (v := wrap 32 _). assert (0 ≤ v) by by apply (wrap_fits 32).
  pose proof (ones_complement_range v ltac:(done)).
  assert (fits 16 (ones_complement v)) by (pow2; lia).
  by rewrite wrap_id, wnot_spec by done.
Qed.

(** Putting the checksum into a zero field makes the whole sum verify. *)
Lemma checksum_verifies s c : 0 < s → c = 65535 - ones_complement s →
  ones_complement (s + c) = 65535.
Proof.
  intros ? ->. unfold ones_complement.
  repeat case_match; rewrite ?Z.eqb_eq, ?Z.eqb_neq in *; lia.
Qed.

Lemma words_sum_bound l : bytes l → words_sum l ≤ 65535 * ((length l + 1) / 2).
Proof.
  revert l. fix IH 1. intros [|a [|b l]] H; simpl length; cbn [words_sum].
  - done.
  - apply Forall_cons_1 in H as [[??] _]. pow2. change ((1%nat + 1) / 2) with 1. lia.
  - apply Forall_cons_1 in H as [[??] [[??] Hl]%Forall_cons_1].
    pose proof (IH l Hl). pow2. lia.
Qed.

(** The sender's computation and the receiver's check, from a common initial
    sum: [l0] is the data with a zero checksum field, [l1] with the result. *)
Lemma checksum_patch s l0 l1 : bytes l0 → bytes l1 → 0 ≤ s →
  0 < s + words_sum l0 < 4294900000 →
  ∃ ck, checksum_from s l0 = Done ck ∧ fits 16 ck ∧
    (words_sum l1 = words_sum l0 + ck → checksum_from s l1 = Done 0).
Proof.
  intros H0 H1 Hs Hr. pose proof (words_sum_nonneg l0 H0).
  assert (fits 32 s) by (pow2; lia).
  rewrite !checksum_from_spec by done.
  pose proof (ones_complement_range (s + words_sum l0) ltac:(lia)).
  rewrite wrap_id by (pow2; lia).
  eexists; split_and!; [done|pow2; lia|]. intros ->.
  rewrite Z.add_assoc, wrap_id by (pow2; lia).
  by rewrite (checksum_verifies (s + words_sum l0)) by lia.
Qed.

(** C24: the checksum loop is the Internet checksum: for any buffer of at most
    131070 bytes (the largest for which the 32-bit sum cannot overflow; the
    buffers summed in the kernel have at most 576) it terminates without a
    panic and returns the complement of the one's-complement sum of the
    big-endian 16-bit words; and the two folding rounds given are enough. *)
Theorem checksum_correct data : bytes data → length data ≤ 131070 →
  ∃ c, checksum data = Done c ∧ c = 65535 - ones_complement (words_sum data) ∧
    fits 16 c.
Proof.
  intros Hb Hlen. unfold checksum. rewrite checksum_from_spec by done.
  pose proof (words_sum_bound data Hb). pose proof (words_sum_nonneg data Hb).
  pose proof (ones_complement_range (words_sum data) ltac:(done)).
  rewrite Z.add_0_l, wrap_id by (pow2; lia).
  eexists; split_and!; [done..|]. pow2. lia.
Qed.

Lemma checksum_correct_witness :
  (∃ c, checksum [0x45; 0; 0; 0x3c; 0x1c; 0x46; 0x40; 0; 0x40; 6; 0; 0;
                  172; 16; 10; 99; 172; 16; 10; 12; 7] = Done c ∧
     c = 65535 - ones_complement (words_sum
       [0x45; 0; 0; 0x3c; 0x1c; 0x46; 0x40; 0; 0x40; 6; 0; 0;
        172; 16; 10; 99; 172; 16; 10; 12; 7]) ∧ fits 16 c) ∧
  checksum [0x45; 0; 0; 0x3c; 0x1c; 0x46; 0x40; 0; 0x40; 6; 0; 0;
            172; 16; 10; 99; 172; 16; 10; 12] = Done 0xB1E6.
Proof.
  split; [|by vm_compute]. apply checksum_correct.
  - apply (bool_decide_unpack _). by vm_compute.
  - simpl. lia.
Defined.
End ChecksumProps.

(** ** Round trips

    [explode] turns a list of known length into its elements, and [run_buf]
    runs the buffer accesses of a builder or parser on explicit lists. *)
Ltac explode l H :=
  repeat (let x := fresh l in
    destruct l as [|x l]; simpl in H; [try discriminate H; try lia|];
    try discriminate H);
  try clear H.

Ltac run_buf :=
  repeat (first
    [ rewrite decide_False by (simpl; lia)
    | rewrite put_done by (simpl; lia)
    | rewrite store_done by (simpl; lia)
    | rewrite slice_done by (simpl; lia) ];
  simpl).

(** Filling a buffer from the left: what is written so far is a prefix. *)
Lemma store_next {A} (x : A) i pre rest : length pre = i → (0 < length rest)%nat →
  store i x (pre ++ rest) = Done ((pre ++ [x]) ++ drop 1 rest).
Proof.
  intros <- ?. rewrite store_done by (rewrite length_app; lia).
  destruct rest as [|y rest]; simpl in *; [lia|].
  rewrite insert_app_r_alt, Nat.sub_diag by lia. simpl. by rewrite <- app_assoc.
Qed.

Ltac buf_len := autorewrite with lens; simpl length; lia.
Ltac fill :=
  repeat (first [ rewrite put_next by buf_len | rewrite store_next by buf_len ];
          cbn [mbind outcome_bind]; rewrite ?drop_drop; cbn [Nat.add Nat.sub]).

Lemma take_rest (p : list Z) : take (length p - 0) (drop 0 p) = p.
Proof. by rewrite Nat.sub_0_r, drop_0, firstn_all. Qed.

Lemma to_be_2 z : to_be 2 z = [wrap 8 (Z.shiftr z 8); wrap 8 z].
Proof. done. Qed.

Lemma from_be_2 z : fits 16 z → from_be [wrap 8 (Z.shiftr z 8); wrap 8 z] = z.
Proof. intros. rewrite <- to_be_2, from_to_be. by apply wrap_id. Qed.

Lemma be16_done i data : (i + 1 < length data)%nat → ∃ w, be16 i data = Done w.
Proof.
  intros. unfold be16. destruct (index_lt i data) as (a & _ & ->); [lia|].
  destruct (index_lt (i + 1) data) as (b & _ & ->); [lia|]. by eexists.
Qed.

(** Run the accesses of a parser on a slice that is long enough, without
    looking at the bytes. *)
Ltac parse_step :=
  match goal with
  | |- context [be16 ?i ?d] =>
      let w := fresh "w" in let E := fresh "E" in
      destruct (be16_done i d) as [w E]; [lia|]; rewrite E
  | |- context [index ?i ?d] =>
      let w := fresh "b" in let E := fresh "E" in
      destruct (index_lt i d) as (w & _ & E); [lia|]; rewrite E
  | |- context [slice ?i ?j ?d] => rewrite (slice_done i j d) by lia
  end; cbn [mbind outcome_bind].

Lemma be32_total i data : (i + 3 < length data)%nat → ∃ w, be32 i data = Done w.
Proof.
  intros. unfold be32.
  destruct (index_lt i data) as (a & _ & ->); [lia|].
  destruct (index_lt (i + 1) data) as (b & _ & ->); [lia|].
  destruct (index_lt (i + 2) data) as (c & _ & ->); [lia|].
  destruct (index_lt (i + 3) data) as (d & _ & ->); [lia|]. by eexists.
Qed.

Module Ipv4Props.
Import Ipv4.

(** The header [build] writes, as a function of the checksum field. *)
Definition header (src dst : list Z) (protocol total_len ck : Z) : list Z :=
  [0x45; 0] ++ to_be 2 total_len ++ [0; 0; 0; 0; 64; protocol] ++ to_be 2 ck ++ src ++ dst.

Lemma length_header src dst protocol t ck : ipv4_addr src → ipv4_addr dst →
  length (header src dst protocol t ck) = 20%nat.
Proof. intros [? _] [? _]. unfold header. len. Qed.

Lemma bytes_header src dst protocol t ck : ipv4_addr src → ipv4_addr dst →
  byte protocol → bytes (header src dst protocol t ck).
Proof.
  intros [_ ?] [_ ?] ?. unfold header.
  repeat first [ apply Forall_app; split | apply Forall_cons; split ];
    auto with words; by pow2.
Qed.

Lemma words_sum_header src dst protocol t ck : ipv4_addr src → ipv4_addr dst →
  fits 16 ck →
  Checksum.words_sum (header src dst protocol t ck) =
  Checksum.words_sum (header src dst protocol t 0) + ck.
Proof.
  intros [Hs _] [Hd _] Hck. explode src Hs. explode dst Hd.
  unfold header. rewrite !to_be_2. simpl.
  pose proof (from_be_2 ck Hck) as H. unfold from_be in H. simpl in H.
  change (wrap 8 (Z.shiftr 0 8)) with 0. change (wrap 8 0) with 0. lia.
Qed.

(** Only the lengths matter for what is written where. *)
Lemma build_layout src dst protocol plen out :
  length src = 4%nat → length dst = 4%nat → (20 ≤ length out)%nat →
  ∃ ck, build src dst protocol plen out =
    Done (Some 20%nat, header src dst protocol (wadd 16 20 plen) ck ++ drop 20 out).
Proof.
  intros Hs Hd Hout. set (t := wadd 16 20 plen).
  set (h0 := header src dst protocol t 0).
  assert (length h0 = 20%nat) as Hl by (unfold h0, header; len).
  destruct (ChecksumProps.checksum_returns 0 h0) as [ck Hck]; [by pow2|]. exists ck. unfold build.
  rewrite decide_False by lia. change out with ([] ++ out) at 1. fold t. fill.
  rewrite slice_take, take_app_length' by buf_len. cbn [mbind outcome_bind].
  match goal with |- context [Checksum.checksum ?l] =>
    replace l with h0 by (by rewrite <- !app_assoc) end.
  change (Checksum.checksum h0) with (Checksum.checksum_from 0 h0).
  rewrite Hck. cbn [mbind outcome_bind]. clear -Hs Hd. unfold h0, header.
  explode src Hs. explode dst Hd. simpl app. run_buf. done.
Qed.

Lemma build_done src dst protocol plen out :
  ipv4_addr src → ipv4_addr dst → byte protocol → (20 ≤ length out)%nat →
  ∃ ck, fits 16 ck ∧
    Checksum.checksum (header src dst protocol (wadd 16 20 plen) ck) = Done 0 ∧
    build src dst protocol plen out =
      Done (Some 20%nat, header src dst protocol (wadd 16 20 plen) ck ++ drop 20 out).
Proof.
  intros Hsrc Hdst Hp Hout. set (t := wadd 16 20 plen).
  set (h0 := header src dst protocol t 0).
  assert (bytes h0) as Hb0 by by apply bytes_header.
  assert (0 < Checksum.words_sum h0 < 4294900000) as Hsum.
  { pose proof (ChecksumProps.words_sum_bound h0 Hb0) as H.
    unfold h0 in H at 2. rewrite length_header in H by done.
    split; [|change ((20%nat + 1) / 2) with 10 in H; lia].
    unfold h0, header. rewrite to_be_2. simpl.
    match goal with |- context [Checksum.words_sum ?l] =>
      pose proof (ChecksumProps.words_sum_nonneg l) as Hn end.
    pose proof (wrap_fits 8 (Z.shiftr t 8)) as H1. pose proof (wrap_fits 8 t) as H2.
    assert (bytes (src ++ dst)) as Hb by (destruct Hsrc, Hdst; by apply Forall_app_2).
    specialize (Hn Hb). destruct Hp, H1, H2; [done..|].
    change (wrap 8 (Z.shiftr 0 8)) with 0. change (wrap 8 0) with 0. lia. }
  destruct (ChecksumProps.checksum_patch 0 h0 h0 Hb0 Hb0 ltac:(done) Hsum)
    as (ck & Hck & Hf & _).
  exists ck. split; [done|]. split.
  - set (h1 := header src dst protocol t ck).
    assert (bytes h1) as Hb1 by by apply bytes_header.
    destruct (ChecksumProps.checksum_patch 0 h0 h1 Hb0 Hb1 ltac:(done) Hsum)
      as (ck' & Hck' & _ & Hv).
    rewrite Hck in Hck'. injection Hck' as <-. apply Hv. by apply words_sum_header.
  - pose proof (length_header src dst protocol t 0 Hsrc Hdst) as Hl.
    destruct Hsrc as [Hs _], Hdst as [Hd _]. unfold build.
    rewrite decide_False by lia. change out with ([] ++ out) at 1. fold t. fill.
    rewrite slice_take, take_app_length' by buf_len. cbn [mbind outcome_bind].
    match goal with |- context [Checksum.checksum ?l] =>
      replace l with h0 by (by rewrite <- !app_assoc) end.
    change (Checksum.checksum h0) with (Checksum.checksum_from 0 h0).
    rewrite Hck. cbn [mbind outcome_bind]. clear -Hs Hd. unfold h0, header.
    explode src Hs. explode dst Hd. simpl app. run_buf. done.
Qed.

Lemma parse_header src dst protocol t ck p : ipv4_addr src → ipv4_addr dst →
  fits 16 t →
  parse (header src dst protocol t ck ++ p) =
    Done (Some (mkIp 4 20 t protocol src dst p)).
Proof.
  intros [Hs _] [Hd _] Ht. explode src Hs. explode dst Hd.
  unfold header, parse. rewrite !to_be_2. cbn [app].
  rewrite decide_False by (simpl; lia).
  rewrite (index_done 0 _ 0x45) by done. cbn [mbind outcome_bind]. cbv zeta.
  change (Z.shiftr 69 4) with 4. change (wrap 8 (Z.land 69 15 * 4)) with 20.
  change (Z.to_nat 20) with 20%nat. rewrite decide_False by (simpl; lia).
  unfold be16. rewrite (index_done 2 _ (wrap 8 (Z.shiftr t 8))) by done.
  cbn [mbind outcome_bind]. rewrite (index_done 3 _ (wrap 8 t)) by done.
  cbn [mbind outcome_bind]. rewrite from_be_2 by done.
  rewrite (index_done 9 _ protocol) by done. cbn [mbind outcome_bind mret outcome_ret].
  rewrite !slice_done by (simpl; lia). cbn [mbind outcome_bind].
  cbn [take drop length Nat.sub]. repeat f_equal.
  apply take_rest.
Qed.

(** An IPv4 header written by [build] is what a receiver accepts: 20
    bytes are written and the rest of the buffer is left alone, the Internet
    checksum over the header is 0 (valid), and [parse] on the header with
    any payload behind it gives back the addresses, the protocol and the
    payload, with the total length truncated to 16 bits. *)
Theorem ipv4_build_parse src dst protocol plen out p :
  ipv4_addr src → ipv4_addr dst → byte protocol → (20 ≤ length out)%nat →
  ∃ hdr, build src dst protocol plen out = Done (Some 20%nat, hdr ++ drop 20 out) ∧
    length hdr = 20%nat ∧ bytes hdr ∧ Checksum.checksum hdr = Done 0 ∧
    parse (hdr ++ p) =
      Done (Some (mkIp 4 20 (wrap 16 (20 + plen)) protocol src dst p)).
Proof.
  intros Hs Hd Hp Hout. destruct (build_done src dst protocol plen out) as (ck & ? & ? & E);
    [done..|].
  eexists. split; [exact E|]. split_and!; [by apply length_header|by apply bytes_header|done|].
  apply parse_header; [done..|]. by apply wadd_fits.
Qed.

Lemma ipv4_build_parse_witness :
  ipv4_addr [10; 0; 2; 15] ∧ ipv4_addr [10; 0; 2; 2] ∧
  ∃ hdr, build [10; 0; 2; 15] [10; 0; 2; 2] 6 20 (replicate 21 7) =
      Done (Some 20%nat, hdr ++ [7]) ∧
    length hdr = 20%nat ∧ bytes hdr ∧ Checksum.checksum hdr = Done 0 ∧
    parse (hdr ++ [1; 2]) =
      Done (Some (mkIp 4 20 40 6 [10; 0; 2; 15] [10; 0; 2; 2] [1; 2])).
Proof.
  assert (ipv4_addr [10; 0; 2; 15] ∧ ipv4_addr [10; 0; 2; 2]) as [H1 H2]
    by (split; refine (bool_decide_unpack _ _); by vm_compute).
  split; [done|]. split; [done|].
  apply (ipv4_build_parse _ _ 6 20 (replicate 21 7)); [done..|by pow2|simpl; lia].
Defined.
End Ipv4Props.

Module CodecProps.
Lemma ethernet_build_layout dst src ethertype payload out :
  length dst = 6%nat → length src = 6%nat → (14 + length payload ≤ length out)%nat →
  Ethernet.build dst src ethertype payload out =
    Done (Some (14 + length payload)%nat,
          (dst ++ src ++ to_be 2 ethertype ++ payload) ++
          drop (14 + length payload) out).
Proof.
  intros Hd Hs Hout. unfold Ethernet.build.
  rewrite decide_False by lia. change out with ([] ++ out) at 1. fill.
  by rewrite Nat.sub_0_r, <- !app_assoc.
Qed.

Lemma ethernet_build_done dst src ethertype payload out :
  mac_addr dst → mac_addr src → (14 + length payload ≤ length out)%nat →
  Ethernet.build dst src ethertype payload out =
    Done (Some (14 + length payload)%nat,
          (dst ++ src ++ to_be 2 ethertype ++ payload) ++
          drop (14 + length payload) out).
Proof. intros [] []. by apply ethernet_build_layout. Qed.

Lemma ethernet_parse_frame dst src ethertype p :
  mac_addr dst → mac_addr src → fits 16 ethertype → (46 ≤ length p)%nat →
  Ethernet.parse (dst ++ src ++ to_be 2 ethertype ++ p) =
    Done (Some (Ethernet.mkFrame dst src ethertype p)).
Proof.
  intros [Hd _] [Hs _] He Hp. explode dst Hd. explode src Hs.
  unfold Ethernet.parse. rewrite to_be_2. cbn [app].
  rewrite decide_False by (simpl; lia). run_buf. rewrite from_be_2 by done.
  by rewrite take_rest.
Qed.

Lemma udp_build_done sp dp payload out :
  (8 + length payload ≤ length out)%nat →
  Udp.build sp dp payload out =
    Done (Some (8 + length payload)%nat,
          (to_be 2 sp ++ to_be 2 dp ++ to_be 2 (wrap 16 (8 + length payload)%nat)
           ++ [0; 0] ++ payload) ++ drop (8 + length payload) out).
Proof.
  intros Hout. unfold Udp.build.
  rewrite decide_False by lia. change out with ([] ++ out) at 1. fill.
  by rewrite Nat.sub_0_r, <- !app_assoc.
Qed.

Lemma udp_parse_datagram sp dp n p : fits 16 sp → fits 16 dp → fits 16 n →
  Udp.parse (to_be 2 sp ++ to_be 2 dp ++ to_be 2 n ++ [0; 0] ++ p) =
    Done (Some (Udp.mkUdp sp dp n p)).
Proof.
  intros ? ? ?. unfold Udp.parse.
  rewrite !to_be_2. cbn [app]. rewrite decide_False by (simpl; lia). run_buf.
  rewrite !from_be_2 by done. by rewrite take_rest.
Qed.

(** ARP requests round-trip: [build_request] fills exactly the first 28
    bytes of the buffer, and [parse] on the result (whatever follows it)
    gives a request with the sender's addresses and the target's IP. *)
Theorem arp_request_roundtrip mac ip target out :
  mac_addr mac → ipv4_addr ip → ipv4_addr target → (28 ≤ length out)%nat →
  ∃ pkt, Arp.build_request mac ip target out = Done (Some 28%nat, pkt ++ drop 28 out) ∧
    length pkt = 28%nat ∧ ∀ rest, Arp.parse (pkt ++ rest) =
      Done (Some (Arp.mkArp 1 0x0800 Arp.ARP_REQUEST mac ip (replicate 6 0) target)).
Proof.
  intros [Hm _] [Hi _] [Ht _] Hout. unfold Arp.build_request.
  rewrite decide_False by lia. change out with ([] ++ out) at 1. fill.
  eexists. split; [done|]. split; [buf_len|]. intros rest. rewrite <- !app_assoc.
  explode mac Hm. explode ip Hi. explode target Ht.
  unfold Arp.parse. rewrite !to_be_2. cbn [app replicate].
  rewrite decide_False by (simpl; lia). by run_buf.
Qed.

Lemma arp_request_roundtrip_witness :
  mac_addr [1; 2; 3; 4; 5; 6] ∧ ipv4_addr [10; 0; 2; 15] ∧
  ∃ pkt, Arp.build_request [1; 2; 3; 4; 5; 6] [10; 0; 2; 15] [10; 0; 2; 15]
      (replicate 30 9) = Done (Some 28%nat, pkt ++ [9; 9]) ∧
    length pkt = 28%nat ∧ ∀ rest, Arp.parse (pkt ++ rest) =
      Done (Some (Arp.mkArp 1 0x0800 Arp.ARP_REQUEST [1; 2; 3; 4; 5; 6] [10; 0; 2; 15]
                    (replicate 6 0) [10; 0; 2; 15])).
Proof.
  assert (mac_addr [1; 2; 3; 4; 5; 6] ∧ ipv4_addr [10; 0; 2; 15]) as [H1 H2]
    by (split; refine (bool_decide_unpack _ _); by vm_compute).
  split; [done|]. split; [done|].
  apply (arp_request_roundtrip _ _ _ (replicate 30 9)); [done..|simpl; lia].
Defined.

Lemma drop_rest n (data : list Z) : (n ≤ length data)%nat →
  take (length data - n) (drop n data) = drop n data.
Proof. intros. apply take_ge. rewrite length_drop. lia. Qed.

Lemma ethernet_parse_runs data : runs (Ethernet.parse data) (λ r, match r with
    | None => (length data < 60)%nat
    | Some f => Ethernet.payload f = drop 14 data ∧ length (Ethernet.dst f) = 6%nat ∧
                length (Ethernet.src f) = 6%nat end).
Proof.
  unfold Ethernet.parse. case_decide; [done|]. repeat parse_step.
  apply runs_ret. simpl. rewrite drop_rest by lia. split_and!; [done|..]; len.
Qed.

Lemma ipv4_parse_runs data : runs (Ipv4.parse data) (λ r, ∀ p, r = Some p →
    (20 ≤ length data)%nat ∧ 0 ≤ Ipv4.header_len p ≤ 60 ∧
    Ipv4.payload p = drop (Z.to_nat (Ipv4.header_len p)) data ∧
    length (Ipv4.src p) = 4%nat ∧ length (Ipv4.dst p) = 4%nat).
Proof.
  unfold Ipv4.parse. case_decide; [done|]. repeat parse_step.
  assert (∀ b, 0 ≤ wrap 8 (Z.land b 15 * 4) ≤ 60) as Hw.
  { intros b'. change 15 with (Z.ones 4). rewrite Z.land_ones by lia.
    pose proof (Z.mod_pos_bound b' (2 ^ 4) ltac:(done)). pow2.
    unfold wrap. pow2. rewrite Z.mod_small; lia. }
  case_decide as Hh; [done|]. repeat parse_step.
  apply runs_ret. intros p [= <-]. simpl. rewrite drop_rest by lia.
  split_and!; try done; try apply Hw; len.
Qed.

Lemma udp_parse_runs data : runs (Udp.parse data) (λ r, match r with
    | None => (length data < 8)%nat
    | Some u => Udp.payload u = drop 8 data end).
Proof.
  unfold Udp.parse. case_decide; [done|]. repeat parse_step.
  apply runs_ret. simpl. by rewrite drop_rest by lia.
Qed.

Lemma arp_parse_runs data : runs (Arp.parse data) (λ r, (length data < 28)%nat → r = None).
Proof.
  unfold Arp.parse. case_decide as Hd; [done|]. repeat parse_step.
  case_match; [done|]. repeat parse_step. by apply runs_ret.
Qed.

(** No received frame makes a parser panic: on any byte string each of
    the four parsers returns; it rejects what is shorter than its header, and
    an accepted packet's payload is the rest of the slice behind the header. *)
Theorem parsers_never_panic data :
  runs (Ethernet.parse data) (λ r, match r with
    | None => (length data < 60)%nat
    | Some f => Ethernet.payload f = drop 14 data ∧ length (Ethernet.dst f) = 6%nat ∧
                length (Ethernet.src f) = 6%nat end) ∧
  runs (Ipv4.parse data) (λ r, ∀ p, r = Some p →
    (20 ≤ length data)%nat ∧ 0 ≤ Ipv4.header_len p ≤ 60 ∧
    Ipv4.payload p = drop (Z.to_nat (Ipv4.header_len p)) data ∧
    length (Ipv4.src p) = 4%nat ∧ length (Ipv4.dst p) = 4%nat) ∧
  runs (Udp.parse data) (λ r, match r with
    | None => (length data < 8)%nat
    | Some u => Udp.payload u = drop 8 data end) ∧
  runs (Arp.parse data) (λ r, (length data < 28)%nat → r = None).
Proof.
  split_and!; [apply ethernet_parse_runs|apply ipv4_parse_runs|apply udp_parse_runs
              |apply arp_parse_runs].
Qed.
End CodecProps.
