(* ===== verification/Hardware.v ===== *)
(** * The machine the kernel talks to

    Port input/output comes from the x86 crate, whose instructions have the
    outside world behind them: [Ports] is the interface the drivers are
    written against.  [millis] is the tick counter of src/src/timer.rs, which
    the timer interrupt advances between any two steps of the other code; it
    is an operation of the machine, too. *)
From S2P Require Import Prelude Words.
Local Open Scope Z_scope.

(** Running code on a part of a larger state. *)
Definition zoom {S T A} (part : T → S) (put_part : S → T → T) (m : ST S A) : ST T A :=
  λ t, match m (part t) with
  | Done (a, s) => Done (a, put_part s t)
  | Panic => Panic
  | Diverge => Diverge
  end.

Lemma wp_zoom {S T A} (part : T → S) put_part (m : ST S A) (Q : A → T → Prop) t :
  wp m (λ a s, Q a (put_part s t)) (part t) → wp (zoom part put_part m) Q t.
Proof. unfold wp, zoom. by destruct (m (part t)) as [[a s]| |]. Qed.

Lemma safe_zoom {S T A} (part : T → S) put_part (m : ST S A) (Q : A → T → Prop) t :
  safe m (λ a s, Q a (put_part s t)) (part t) → safe (zoom part put_part m) Q t.
Proof. unfold safe, zoom. by destruct (m (part t)) as [[a s]| |]. Qed.

Class Ports (D : Type) := {
  inb : Z → ST D Z; outb : Z → Z → ST D unit;
  inw : Z → ST D Z; outw : Z → Z → ST D unit;
  inl : Z → ST D Z; outl : Z → Z → ST D unit;
}.

(** Port accesses do not fault (the kernel runs in ring 0), and a value read
    fits the access. *)
Class PortsOk (D : Type) `{Ports D} := {
  inb_ok p s : wp (inb p) (λ v _, fits 8 v) s;
  inw_ok p s : wp (inw p) (λ v _, fits 16 v) s;
  inl_ok p s : wp (inl p) (λ v _, fits 32 v) s;
  outb_ok p v s : wp (outb p v) (λ _ _, True) s;
  outw_ok p v s : wp (outw p v) (λ _ _, True) s;
  outl_ok p v s : wp (outl p v) (λ _ _, True) s;
}.

(** The tick counter. *)
Class Timer (D : Type) := { millis : ST D Z }.

(** A network card as the protocol code uses it, with the clock: frames handed
    to the card are recorded in [sent], which only [nic_send] extends. *)
Class Nic (D : Type) := {
  nic_timer :: Timer D;
  nic_send : list Z → ST D (result unit unit);
  nic_poll_rx : ST D (option (list Z));
  sent : D → list (list Z);
}.

Class NicOk (D : Type) `{Nic D} := {
  nic_send_ok f s : wp (nic_send f) (λ r s',
    sent s' = match r with Ok _ => sent s ++ [f] | Err _ => sent s end) s;
  nic_poll_rx_ok s : wp nic_poll_rx (λ r s', sent s' = sent s ∧
    match r with Some f => bytes f | None => True end) s;
  millis_ok s : wp millis (λ t s', sent s' = sent s ∧ fits 32 t) s;
  nic_frame_ok s : wp nic_poll_rx (λ r _, match r with Some f => (length f ≤ 1518)%nat | None => True end) s;
}.

(** Time: [uptime] is the number of milliseconds since boot, of which [millis]
    returns the low 32 bits ([TICKS] is an [AtomicU32]).  It never runs
    backwards, no single operation takes longer than a second, and polling the
    clock makes progress: [patience d] bounds the number of readings before the
    uptime reaches [d]. *)
Class Clock (D : Type) `{Nic D} := {
  uptime : D → Z;
  patience : Z → D → nat;
  millis_clock s : wp millis (λ t s', t = wrap 32 (uptime s') ∧
    uptime s ≤ uptime s' ≤ uptime s + 1000 ∧
    ∀ d, uptime s' < d → (patience d s' < patience d s)%nat) s;
  poll_rx_clock s : wp nic_poll_rx (λ _ s',
    uptime s ≤ uptime s' ≤ uptime s + 1000 ∧
    ∀ d, (patience d s' ≤ patience d s)%nat) s;
  send_clock f s : wp (nic_send f) (λ _ s',
    uptime s ≤ uptime s' ≤ uptime s + 1000) s;
}.

(** ** A scripted card

    Received frames and clock readings come from lists; used to evaluate the
    protocol code on concrete traffic. *)
Record Script := mkScript {
  rx_queue : list (list Z);
  clock : Z;        (* advances by [clock_step] at each reading *)
  clock_step : nat; (* by 1 to 1000 ms *)
  tx_log : list (list Z);
}.

#[export] Instance script_nic : Nic Script := {
  nic_send f s := Done (Ok tt, mkScript (rx_queue s) (clock s) (clock_step s) (tx_log s ++ [f]));
  nic_poll_rx s := match rx_queue s with
    | [] => Done (None, s)
    | f :: q => Done (Some (map (wrap 8) (take 1518 f)), mkScript q (clock s) (clock_step s) (tx_log s))
    end;
  nic_timer := {| millis s := Done (wrap 32 (clock s + 1 + clock_step s `mod` 1000),
    mkScript (rx_queue s) (clock s + 1 + clock_step s `mod` 1000) (clock_step s) (tx_log s)) |};
  sent := tx_log;
}.

#[export] Instance script_nic_ok : NicOk Script.
Proof.
  split; intros; unfold wp; simpl.
  - done.
  - destruct (rx_queue s) as [|f q]; [done|]. split; [done|].
    apply Forall_fmap, Forall_true. intros x. by apply (wrap_fits 8).
  - split; [done|]. by apply wrap_fits.
  - destruct (rx_queue s) as [|f q]; [done|]. rewrite length_map, length_take. lia.
Qed.

#[export, refine] Instance script_clock : Clock Script := {
  uptime := clock;
  patience d s := Z.to_nat (d - clock s);
}.
Proof.
  - intros s. pose proof (Z.mod_pos_bound (clock_step s) 1000 ltac:(done)).
    unfold wp. simpl. split; [done|]. split; [lia|]. intros d ?. lia.
  - intros s. unfold wp. simpl. destruct (rx_queue s); simpl; split; intros; lia.
  - intros f s. unfold wp. simpl. lia.
Defined.
