(* ===== verification/Pci.v ===== *)
(** * PCI configuration space (src/src/drivers/pci.rs) *)
From S2P Require Import Prelude Words Hardware.
Local Open Scope Z_scope.

Definition CONFIG_ADDRESS : Z := 0xCF8.
Definition CONFIG_DATA : Z := 0xCFC.

Definition pci_config_address (bus slot func offset : Z) : Z :=
  Z.lor (Z.lor (Z.lor (Z.lor (wrap 32 (Z.shiftl bus 16)) (wrap 32 (Z.shiftl slot 11)))
                      (wrap 32 (Z.shiftl func 8)))
               (Z.land offset 0xFC))
        0x80000000.

Record PciDevice := mkPci {
  bus : Z; slot : Z; func : Z;
  vendor_id : Z; device_id : Z;
  class : Z; subclass : Z }.

Section ops.
Context {D : Type} `{Ports D}.

Definition read_config_dword (bus slot func offset : Z) : ST D Z :=
  outl CONFIG_ADDRESS (pci_config_address bus slot func offset) ;;
  inl CONFIG_DATA.

Definition write_config_dword (bus slot func offset value : Z) : ST D unit :=
  outl CONFIG_ADDRESS (pci_config_address bus slot func offset) ;;
  outl CONFIG_DATA value.

Definition enable_bus_mastering (dev : PciDevice) : ST D unit :=
  cmd ← read_config_dword (bus dev) (slot dev) (func dev) 0x04;
  write_config_dword (bus dev) (slot dev) (func dev) 0x04 (Z.lor cmd 0x05).

Definition probe_device (bus slot func : Z) : ST D (option PciDevice) :=
  dword ← read_config_dword bus slot func 0;
  let vendor := wrap 16 (Z.land dword 0xFFFF) in
  if vendor =? 0xFFFF then mret None else
  let device := wrap 16 (Z.land (Z.shiftr dword 16) 0xFFFF) in
  class_rev ← read_config_dword bus slot func 0x08;
  let class := wrap 8 (Z.land (Z.shiftr class_rev 24) 0xFF) in
  let subclass := wrap 8 (Z.land (Z.shiftr class_rev 16) 0xFF) in
  mret (Some (mkPci bus slot func vendor device class subclass)).

(** [for slot in 0..32u8] from [slot] on, [n] slots left. *)
Fixpoint scan_from (n : nat) (slot : Z) (devices : list PciDevice) : ST D (list PciDevice) :=
  match n with
  | O => mret devices
  | S n =>
      r ← probe_device 0 slot 0;
      scan_from n (slot + 1)
        (match r with Some dev => devices ++ [dev] | None => devices end)
  end.
Definition scan_bus0 : ST D (list PciDevice) := scan_from 32 0 [].

Definition read_bar (dev : PciDevice) (bar : Z) : ST D Z :=
  read_config_dword (bus dev) (slot dev) (func dev) (wadd 8 0x10 (wrap 8 (bar * 4))).

Fixpoint find_from (n : nat) (slot : Z) : ST D (option PciDevice) :=
  match n with
  | O => mret None
  | S n =>
      r ← probe_device 0 slot 0;
      match r with
      | Some dev => if class dev =? 0x02 then mret (Some dev) else find_from n (slot + 1)
      | None => find_from n (slot + 1)
      end
  end.
Definition find_network_on_bus0 : ST D (option PciDevice) := find_from 32 0.
End ops.

(** ** The bus

    [config] is the configuration space by address; a read selects the address
    and then reads the register, and reading changes no register (PCI
    specification, configuration mechanism #1). *)
Class PciBus (D : Type) `{Ports D} := {
  config : D → Z → Z;
  config_read a s : wp (outl CONFIG_ADDRESS a ;; inl CONFIG_DATA)
    (λ v s', v = config s a ∧ config s' = config s) s;
}.

Section props.
Context {D : Type} `{PciBus D}.

(** What slot [slot] of bus 0 holds, read off the configuration space. *)
Definition device_at (s : D) (slot : Z) : option PciDevice :=
  let id := config s (pci_config_address 0 slot 0 0) in
  let cl := config s (pci_config_address 0 slot 0 8) in
  if Z.land id 0xFFFF =? 0xFFFF then None
  else Some (mkPci 0 slot 0 (Z.land id 0xFFFF) (Z.land (Z.shiftr id 16) 0xFFFF)
               (Z.land (Z.shiftr cl 24) 0xFF) (Z.land (Z.shiftr cl 16) 0xFF)).

Lemma device_at_config s s' slot : config s' = config s → device_at s' slot = device_at s slot.
Proof. unfold device_at. by intros ->. Qed.

Lemma wrap_land w x m : m = Z.ones w → 0 ≤ w → wrap w (Z.land x m) = Z.land x m.
Proof.
  intros -> Hw. rewrite Z.land_ones by done. apply wrap_id. by apply wrap_fits.
Qed.

Lemma probe_device_wp slot s :
  wp (probe_device 0 slot 0) (λ r s', r = device_at s slot ∧ config s' = config s) s.
Proof.
  unfold probe_device, read_config_dword, device_at. apply wp_bind.
  eapply wp_mono; [apply config_read|]. intros v s1 [-> Hs1]. cbv zeta.
  rewrite !(wrap_land 16) by done. case_match; [by apply wp_ret|].
  apply wp_bind. eapply wp_mono; [apply config_read|]. intros v s2 [-> Hs2].
  apply wp_ret. rewrite !(wrap_land 8) by done. rewrite Hs1 in *. done.
Qed.

Definition is_network (d : option PciDevice) : Prop :=
  ∃ dev, d = Some dev ∧ class dev = 0x02.

Lemma find_from_wp (n : nat) slot s :
  wp (find_from n slot) (λ r s', config s' = config s ∧
    match r with
    | Some dev => ∃ i, slot ≤ i < slot + n ∧ device_at s i = Some dev ∧ class dev = 0x02 ∧
        ∀ j, slot ≤ j < i → ¬ is_network (device_at s j)
    | None => ∀ j, slot ≤ j < slot + n → ¬ is_network (device_at s j)
    end) s.
Proof.
  revert slot s. induction n as [|n IH]; intros i s; simpl.
  { apply wp_ret. split; [done|]. intros; lia. }
  apply wp_bind. eapply wp_mono; [apply probe_device_wp|]. intros r s1 [-> Hs1].
  assert (¬ is_network (device_at s i) → wp (find_from n (i + 1)) (λ r s', config s' = config s ∧
    match r with
    | Some dev => ∃ i0, i ≤ i0 < i + S n ∧ device_at s i0 = Some dev ∧ class dev = 0x02 ∧
        ∀ j, i ≤ j < i0 → ¬ is_network (device_at s j)
    | None => ∀ j, i ≤ j < i + S n → ¬ is_network (device_at s j)
    end) s1) as Hrest.
  { intros Hn. eapply wp_mono; [apply IH|]. intros r s' [Hs' Hr].
    split; [congruence|]. destruct r as [dev|].
    - destruct Hr as (k & Hk & Hd & Hc & Hj). exists k.
      rewrite (device_at_config s) in Hd by done. split_and!; try done; [lia..|].
      intros j Hj'. destruct (decide (j = i)) as [->|]; [done|].
      rewrite <- (device_at_config s s1) by done. apply Hj. lia.
    - intros j Hj'. destruct (decide (j = i)) as [->|]; [done|].
      rewrite <- (device_at_config s s1) by done. apply Hr. lia. }
  destruct (device_at s i) as [dev|] eqn:Hd.
  - destruct (Z.eqb_spec (class dev) 0x02).
    + apply wp_ret. split; [done|]. exists i. split_and!; try done; lia.
    + apply Hrest. intros (? & [= ->] & ?). done.
  - apply Hrest. by intros (? & ? & ?).
Qed.

(** The search of bus 0 terminates and returns the network controller in
    the lowest occupied slot with class 2, read from the right registers, or
    nothing exactly when none of the 32 slots holds one; it leaves the
    configuration space as it was. *)
Theorem find_network_first s :
  wp find_network_on_bus0 (λ r s', config s' = config s ∧
    match r with
    | Some dev => ∃ i, 0 ≤ i < 32 ∧ device_at s i = Some dev ∧ class dev = 0x02 ∧
        ∀ j, 0 ≤ j < i → ¬ is_network (device_at s j)
    | None => ∀ j, 0 ≤ j < 32 → ¬ is_network (device_at s j)
    end) s.
Proof. apply (find_from_wp 32 0). Qed.
End props.

(** A machine with nothing but a configuration space. *)
Record CfgSpace := mkCfg { selected : Z; registers : Z → Z }.

#[export] Instance cfg_ports : Ports CfgSpace := {
  inb _ s := Done (0, s); inw _ s := Done (0, s);
  inl p s := Done (if p =? CONFIG_DATA then registers s (selected s) else 0, s);
  outb _ _ s := Done (tt, s); outw _ _ s := Done (tt, s);
  outl p v s := Done (tt, if p =? CONFIG_ADDRESS then mkCfg v (registers s) else s);
}.

#[export, refine] Instance cfg_bus : PciBus CfgSpace := { config := registers }.
Proof. intros a s. by vm_compute. Defined.

(** An RTL8139 (10EC:8139, class 2) in slot 3, all other slots empty. *)
Definition nic_in_slot3 (a : Z) : Z :=
  if a =? pci_config_address 0 3 0 0 then 0x813910EC
  else if a =? pci_config_address 0 3 0 8 then 0x02000000 else 0xFFFFFFFF.

Lemma find_network_first_witness :
  wp find_network_on_bus0 (λ r s', config s' = config (mkCfg 0 nic_in_slot3) ∧
      match r with
      | Some dev => ∃ i, 0 ≤ i < 32 ∧ device_at (mkCfg 0 nic_in_slot3) i = Some dev ∧
          class dev = 0x02 ∧
          ∀ j, 0 ≤ j < i → ¬ is_network (device_at (mkCfg 0 nic_in_slot3) j)
      | None => ∀ j, 0 ≤ j < 32 → ¬ is_network (device_at (mkCfg 0 nic_in_slot3) j)
      end) (mkCfg 0 nic_in_slot3) ∧
  wp find_network_on_bus0 (λ r _, r = Some (mkPci 0 3 0 0x10EC 0x8139 2 0))
    (mkCfg 0 nic_in_slot3).
Proof. split; [apply find_network_first | by vm_compute]. Defined.

(** The address word keeps the four fields apart. *)
Lemma config_address_fields b s f o :
  0 ≤ b < 256 → 0 ≤ s < 32 → 0 ≤ f < 8 → 0 ≤ o < 256 →
  pci_config_address b s f o = 0x80000000 + b * 65536 + s * 2048 + f * 256 + o / 4 * 4.
Proof.
  intros. unfold pci_config_address.
  assert (Z.land o 0xFC = o / 4 * 4) as ->.
  { change 0xFC with (Z.ldiff (Z.ones 8) (Z.ones 2)).
    rewrite Z.ldiff_land, Z.land_assoc, Z.land_ones, <- Z.ldiff_land, Z.ldiff_ones_r by lia.
    rewrite Z.shiftr_div_pow2, Z.shiftl_mul_pow2 by lia.
    rewrite (Z.mod_small o) by (change (2 ^ 8) with 256; lia). done. }
  rewrite !wrap_id by (pow2; rewrite Z.shiftl_mul_pow2 by lia; pow2; lia).
  pose proof (Z.div_mod o 4 ltac:(lia)). pose proof (Z.mod_pos_bound o 4 ltac:(lia)).
  assert (o / 4 * 4 < 256) by lia.
  replace (Z.shiftl s 11) with (Z.shiftl (Z.shiftl s 3) 8) by (rewrite Z.shiftl_shiftl; [done|lia]).
  replace (Z.shiftl b 16) with (Z.shiftl (Z.shiftl b 8) 8) by (rewrite Z.shiftl_shiftl; [done|lia]).
  rewrite <- !Z.shiftl_lor. replace (Z.shiftl b 8) with (Z.shiftl (Z.shiftl b 5) 3)
    by (rewrite Z.shiftl_shiftl; [done|lia]). rewrite <- Z.shiftl_lor.
  rewrite (lor_shiftl_add b 5 s), (lor_shiftl_add _ 3 f), lor_shiftl_add by (pow2; lia).
  rewrite Z.lor_comm. change 0x80000000 with (Z.shiftl 1 31).
  rewrite lor_shiftl_add by (pow2; lia). change (Z.shiftl 1 31) with 0x80000000. pow2. lia.
Qed.
