(* ===== verification/Rtc.v ===== *)
(** * The CMOS clock (src/src/rtc.rs)

    [read] over the [Ports] interface, and a model of the clock chip: registers
    that hold the time of day in one of its four formats, and one tick at any
    moment of the reading. *)
From S2P Require Import Prelude Words Hardware.
Local Open Scope Z_scope.

Record RtcTime := mkRtcTime { hours : Z; minutes : Z; seconds : Z }.

Definition bcd_to_bin (bcd : Z) : Z := wrap 8 (bcd / 16 * 10 + bcd `mod` 16).

Section driver.
Context {D : Type} `{Ports D}.

Definition read_reg (reg : Z) : ST D Z := outb 0x70 reg;; inb 0x71.

(** [for _ in 0..100_000], left when the update-in-progress bit is clear. *)
Fixpoint wait_update (n : nat) : ST D unit :=
  match n with
  | O => mret tt
  | S n => a ← read_reg 0x0A;
           if decide (Z.land a 0x80 = 0) then mret tt else wait_update n
  end.
Definition WAIT_LIMIT : nat := Z.to_nat 100000.

(** The conversion of the register values (the part of [read] after the
    registers have been read). *)
Definition convert (is_binary is_24h : bool) (sec min hour : Z) : RtcTime :=
  let '(sec, min, hour) :=
    if is_binary then (sec, min, hour)
    else (bcd_to_bin sec, bcd_to_bin min, bcd_to_bin hour) in
  let hour :=
    if is_24h then hour
    else
      let pm := bool_decide (Z.land hour 0x80 ≠ 0) in
      let hour := Z.land hour 0x7F in
      if pm then let hour := wadd 8 hour 12 in if decide (hour = 24) then 12 else hour
      else if decide (hour = 12) then 0 else hour in
  mkRtcTime hour min sec.

Definition read : ST D RtcTime :=
  reg_b ← read_reg 0x0B;
  let is_binary := bool_decide (Z.land reg_b 0x04 ≠ 0) in
  let is_24h := bool_decide (Z.land reg_b 0x02 ≠ 0) in
  wait_update WAIT_LIMIT;;
  sec1 ← read_reg 0x00; min ← read_reg 0x02; hour ← read_reg 0x04;
  sec2 ← read_reg 0x00;
  if decide (sec2 ≠ sec1) then
    wait_update WAIT_LIMIT;;
    sec ← read_reg 0x00; min ← read_reg 0x02; hour ← read_reg 0x04;
    mret (convert is_binary is_24h sec min hour)
  else mret (convert is_binary is_24h sec1 min hour).
End driver.

(** ** The clock chip *)

Definition to_bcd (x : Z) : Z := x / 10 * 16 + x `mod` 10.

(** The hour register: in 12-hour format 12, 1, ..., 11 with bit 7 for pm. *)
Definition hour_reg (binary h24 : bool) (h : Z) : Z :=
  let enc := λ x, if binary then x else to_bcd x in
  if h24 then enc h
  else enc (if decide (h `mod` 12 = 0) then 12 else h `mod` 12) + (if decide (12 ≤ h) then 0x80 else 0).
Definition min_reg (binary : bool) (x : Z) : Z := if binary then x else to_bcd x.

(** [time]: seconds since midnight; after [until_tick] more reads of the data
    port it advances by one second. *)
Record Cmos := mkCmos {
  binary : bool;
  h24 : bool;
  time : Z;
  until_tick : nat;
  selected : Z;
}.
Definition time_of (t : Z) : RtcTime := mkRtcTime (t / 3600) ((t / 60) `mod` 60) (t `mod` 60).
Definition next_second (t : Z) : Z := (t + 1) `mod` 86400.

Definition cmos_reg (c : Cmos) : Z :=
  if decide (selected c = 0x00) then min_reg (binary c) (seconds (time_of (time c)))
  else if decide (selected c = 0x02) then min_reg (binary c) (minutes (time_of (time c)))
  else if decide (selected c = 0x04) then hour_reg (binary c) (h24 c) (hours (time_of (time c)))
  else if decide (selected c = 0x0B) then (if binary c then 4 else 0) + (if h24 c then 2 else 0)
  else 0.
Definition cmos_read (c : Cmos) : Z * Cmos :=
  (cmos_reg c,
   mkCmos (binary c) (h24 c)
     (match until_tick c with O => time c | S O => next_second (time c) | S (S _) => time c end)
     (pred (until_tick c)) (selected c)).

Definition cmos_select (r : Z) (c : Cmos) : Cmos :=
  mkCmos (binary c) (h24 c) (time c) (until_tick c) r.

(** A machine with this chip behind ports 0x70 and 0x71. *)
Class CmosMachine (D : Type) `{Ports D} := {
  chip : D → Cmos;
  select_chip r d : wp (outb 0x70 r) (λ _ d', chip d' = cmos_select r (chip d)) d;
  read_chip d : wp (inb 0x71) (λ v d', (v, chip d') = cmos_read (chip d)) d;
}.

#[export] Instance cmos_ports : Ports Cmos := {
  inb p c := if decide (p = 0x71) then Done (cmos_read c) else Done (0, c);
  outb p v c := if decide (p = 0x70) then Done (tt, cmos_select v c) else Done (tt, c : Cmos);
  inw _ (c : Cmos) := Done (0, c); outw _ _ (c : Cmos) := Done (tt, c);
  inl _ (c : Cmos) := Done (0, c); outl _ _ (c : Cmos) := Done (tt, c);
}.
#[export, refine] Instance cmos_machine : CmosMachine Cmos := { chip := id }.
Proof.
  - intros r d. done.
  - intros d. done.
Defined.

(** ** Conversion *)

(** The formats the driver converts: all but the afternoon in BCD with 12 hours. *)
Definition convertible (bin h24 : bool) (h : Z) : Prop := bin = true ∨ h24 = true ∨ h < 12.

Lemma min_reg_back (bin : bool) x : 0 ≤ x < 60 → (if bin then min_reg bin x else bcd_to_bin (min_reg bin x)) = x.
Proof.
  intros Hx. destruct bin; [done|].
  assert (Forall (λ x, bcd_to_bin (to_bcd x) = x) (seqZ 0 60)) as H
    by (refine (bool_decide_unpack _ _); by vm_compute).
  rewrite Forall_forall in H. apply H, elem_of_seqZ. lia.
Qed.

Lemma hours_convert (bin h24 : bool) h sec min : 0 ≤ h < 24 →
  hours (convert bin h24 sec min (hour_reg bin h24 h)) =
  if bin || h24 || bool_decide (h < 12) then h else 80 + (if decide (h = 12) then 12 else h - 12).
Proof.
  intros Hh.
  assert (Forall (λ h, ∀ b1 b2, hours (convert b1 b2 0 0 (hour_reg b1 b2 h)) =
    if b1 || b2 || bool_decide (h < 12) then h else 80 + (if decide (h = 12) then 12 else h - 12))
    (seqZ 0 24)) as H by (repeat constructor; intros [] []; by vm_compute).
  rewrite Forall_forall in H. specialize (H h). rewrite elem_of_seqZ in H.
  rewrite <- H by lia. unfold convert. by destruct bin.
Qed.

Lemma convert_time (bin h24 : bool) t : 0 ≤ t < 86400 → convertible bin h24 (t / 3600) →
  convert bin h24 (min_reg bin (seconds (time_of t))) (min_reg bin (minutes (time_of t)))
    (hour_reg bin h24 (hours (time_of t))) = time_of t.
Proof.
  intros Ht Hc. set (r := convert _ _ _ _ _).
  pose proof (Z.mod_pos_bound t 60 ltac:(lia)). pose proof (Z.mod_pos_bound (t / 60) 60 ltac:(lia)).
  assert (0 ≤ t / 3600 < 24) by (split; [apply Z.div_pos; lia|apply Z.div_lt_upper_bound; lia]).
  assert (hours r = t / 3600) as Eh.
  { unfold r. rewrite hours_convert by (cbn; lia). cbn [hours time_of].
    destruct Hc as [->|[->|Hc]]; [done|by destruct bin|].
    rewrite (bool_decide_eq_true_2 (t / 3600 < 12)) by done. by rewrite orb_true_r. }
  assert (minutes r = (t / 60) `mod` 60) as Em.
  { pose proof (min_reg_back bin ((t / 60) `mod` 60)) as E. unfold r, convert. cbn [minutes time_of].
    destruct bin; cbn; auto. }
  assert (seconds r = t `mod` 60) as Es.
  { pose proof (min_reg_back bin (t `mod` 60)) as E. unfold r, convert. cbn [seconds time_of].
    destruct bin; cbn; auto. }
  destruct r. cbn in *. subst. done.
Qed.

(** ** Reading while the clock ticks *)

(** The time on the chip after [n] reads of the data port, and what register
    [r] then shows. *)
Definition time_after (n : nat) (c : Cmos) : Z :=
  if decide (0 < until_tick c ≤ n)%nat then next_second (time c) else time c.
Definition reg_after (r : Z) (n : nat) (c : Cmos) : Z :=
  cmos_reg (mkCmos (binary c) (h24 c) (time_after n c) (until_tick c - n) r).

Lemma reg_after_seconds n c : reg_after 0 n c = min_reg (binary c) (seconds (time_of (time_after n c))).
Proof. done. Qed.
Lemma reg_after_minutes n c : reg_after 2 n c = min_reg (binary c) (minutes (time_of (time_after n c))).
Proof. done. Qed.
Lemma reg_after_hours n c :
  reg_after 4 n c = hour_reg (binary c) (h24 c) (hours (time_of (time_after n c))).
Proof. done. Qed.

Section reading.
Context {D : Type} `{CmosMachine D}.
Implicit Types (d : D) (c : Cmos).

(** [d] is [n] reads further than the state in which the chip was [c]. *)
Definition reads_after (c : Cmos) (n : nat) (d : D) : Prop :=
  ∃ r, chip d = mkCmos (binary c) (h24 c) (time_after n c) (until_tick c - n) r.

Lemma reads_after_0 d : reads_after (chip d) 0 d.
Proof.
  exists (selected (chip d)). unfold time_after. destruct (chip d) as [? ? ? k ?]. cbn.
  rewrite decide_False by lia. f_equal. lia.
Qed.

Lemma wp_read_reg r c n d Q :
  reads_after c n d →
  (∀ d', reads_after c (S n) d' → Q (reg_after r n c) d') → wp (read_reg r) Q d.
Proof.
  intros [r' Hd] HQ. unfold read_reg. apply wp_bind.
  eapply wp_mono; [apply select_chip|]. cbn. intros _ d1 H1.
  eapply wp_mono; [apply read_chip|]. cbn. intros v d2 H2.
  rewrite Hd in H1. unfold cmos_select in H1. cbn in H1. rewrite H1 in H2.
  injection H2 as -> H2. apply HQ. exists r. rewrite H2. cbn. unfold time_after.
  f_equal; [|lia].
  destruct (until_tick c - n)%nat as [|[|?]] eqn:?; repeat case_decide; done || lia.
Qed.

(** The chip is never in an update when it is asked. *)
Lemma wp_wait_update m c n d (Q : unit → D → Prop) : (0 < m)%nat →
  reads_after c n d → (∀ d', reads_after c (S n) d' → Q tt d') → wp (wait_update m) Q d.
Proof.
  intros Hm Hd HQ. destruct m as [|m]; [lia|]. cbn [wait_update]. apply wp_bind.
  eapply wp_read_reg; [done|]. intros d' Hd'.
  rewrite decide_True by done. by apply HQ.
Qed.

End reading.

Lemma to_bcd_inj b x y : 0 ≤ x < 60 → 0 ≤ y < 60 → min_reg b x = min_reg b y → x = y.
Proof.
  intros Hx Hy E. rewrite <- (min_reg_back b x), <- (min_reg_back b y) by done.
  by rewrite E.
Qed.

Lemma next_second_bound t : 0 ≤ next_second t < 86400.
Proof. apply Z.mod_pos_bound. lia. Qed.

Lemma next_second_seconds t : 0 ≤ t → next_second t `mod` 60 ≠ t `mod` 60.
Proof.
  intros Ht. unfold next_second. rewrite Z.mod_mod_divide by (by exists 1440).
  pose proof (Z.mod_pos_bound t 60). pose proof (Z.mod_pos_bound (t + 1) 60).
  pose proof (Z.div_mod t 60). pose proof (Z.div_mod (t + 1) 60). lia.
Qed.

(** C28: the clock's reading is never torn: if the chip advances by a second
    between any two of the register reads, [read] still returns the time before
    the tick or the time after it, in every format but BCD with 12 hours in the
    afternoon. *)
Theorem rtc_never_torn {D} `{CmosMachine D} (d : D) :
  0 ≤ time (chip d) < 86400 →
  convertible (binary (chip d)) (h24 (chip d)) (time (chip d) / 3600) →
  convertible (binary (chip d)) (h24 (chip d)) (next_second (time (chip d)) / 3600) →
  wp read (λ r _, r = time_of (time (chip d)) ∨ r = time_of (next_second (time (chip d)))) d.
Proof.
  intros Ht Hc Hc'. pose proof (reads_after_0 d) as R. revert Ht Hc Hc' R.
  generalize (chip d). intros c Ht Hc Hc' R.
  assert (∀ n, convert (binary c) (h24 c) (reg_after 0 n c) (reg_after 2 n c) (reg_after 4 n c)
    = time_of (time_after n c)) as Hconv.
  { intros n. rewrite reg_after_seconds, reg_after_minutes, reg_after_hours.
    unfold time_after. case_decide; apply convert_time; auto using next_second_bound. }
  assert (∀ n m r, time_after n c = time_after m c → reg_after r n c = reg_after r m c) as Heq.
  { intros n m r E. unfold reg_after, cmos_reg. cbn -[time_of]. by rewrite E. }
  assert (∀ n, time_of (time_after n c) = time_of (time c) ∨
    time_of (time_after n c) = time_of (next_second (time c))) as Hres.
  { intros n. unfold time_after. case_decide; auto. }
  assert (reg_after 0x0B 0 c = (if binary c then 4 else 0) + (if h24 c then 2 else 0)) as EB by done.
  unfold read. apply wp_bind. eapply wp_read_reg; [done|]. clear R d. intros d R.
  rewrite EB.
  replace (bool_decide _) with (binary c) by (by destruct (binary c), (h24 c)).
  replace (bool_decide _) with (h24 c) by (by destruct (binary c), (h24 c)).
  apply wp_bind. eapply wp_wait_update; [unfold WAIT_LIMIT; lia|done|]. clear R d. intros d R.
  do 4 (apply wp_bind; eapply wp_read_reg; [done|]; clear R d; intros d R).
  case_decide as Hs.
  - apply wp_bind. eapply wp_wait_update; [unfold WAIT_LIMIT; lia|done|]. clear R d. intros d R.
    do 3 (apply wp_bind; eapply wp_read_reg; [done|]; clear R d; intros d R).
    apply wp_ret.
    assert (∀ n, (5 ≤ n)%nat → time_after n c = time_after 5 c) as Hl.
    { intros n Hn. destruct (decide (time_after 2 c = time_after 5 c)) as [E|E].
      - by rewrite (Heq 5%nat 2%nat) in Hs.
      - unfold time_after in E |- *. repeat case_decide; done || lia. }
    rewrite (Heq 7%nat 5%nat), (Heq 8%nat 5%nat), (Heq 9%nat 5%nat), Hconv by (apply Hl; lia).
    apply Hres.
  - apply wp_ret.
    assert (time_after 5 c = time_after 2 c) as E.
    { rewrite !reg_after_seconds in Hs.
      apply to_bcd_inj in Hs; [|apply Z.mod_pos_bound; lia..].
      cbn in Hs. pose proof (next_second_seconds (time c)).
      unfold time_after in Hs |- *. repeat case_decide; congruence || lia. }
    assert (∀ n, (2 ≤ n ≤ 5)%nat → time_after n c = time_after 2 c) as Hl.
    { intros n Hn. unfold time_after in E |- *. repeat case_decide; done || lia. }
    rewrite (Heq 3%nat 2%nat), (Heq 4%nat 2%nat), Hconv by (apply Hl; lia).
    apply Hres.
Qed.
(** Binary with 12 hours, 11:59:59 am, ticking between the minutes and the hours. *)
Definition noon : Cmos := mkCmos true false 43199 4 0.
Lemma rtc_never_torn_witness :
  wp read (λ r _, r = time_of 43199 ∨ r = time_of 43200) noon.
Proof.
  refine (wp_mono _ _ _ _ (rtc_never_torn noon _ _ _) _); [by split|by left..|].
  intros r d E. exact E.
Defined.

(** In the remaining format the afternoon is wrong: [bcd_to_bin] runs over
    the pm bit, so 1 pm is read as hour 81. *)
Theorem rtc_bcd_afternoon {D} `{CmosMachine D} (d : D) :
  0 ≤ time (chip d) < 86399 → binary (chip d) = false → h24 (chip d) = false →
  43200 ≤ time (chip d) → until_tick (chip d) = O →
  let h := time (chip d) / 3600 in
  wp read (λ r _, hours r = 80 + if decide (h = 12) then 12 else h - 12) d.
Proof.
  intros Ht Hb H24 Hn Hk h. subst h. pose proof (reads_after_0 d) as R. revert Ht Hb H24 Hn Hk R.
  generalize (chip d). intros c Ht Hb H24 Hn Hk R.
  assert (∀ n, time_after n c = time c) as Hc.
  { intros n. unfold time_after. rewrite decide_False by lia. done. }
  assert (12 ≤ time c / 3600 < 24)
    by (split; [apply Z.div_le_lower_bound; lia|apply Z.div_lt_upper_bound; lia]).
  assert (reg_after 0x0B 0 c = (if binary c then 4 else 0) + (if h24 c then 2 else 0)) as EB by done.
  unfold read. apply wp_bind. eapply wp_read_reg; [done|]. clear R d. intros d R.
  rewrite EB, Hb, H24.
  apply wp_bind. eapply wp_wait_update; [unfold WAIT_LIMIT; lia|done|]. clear R d. intros d R.
  do 4 (apply wp_bind; eapply wp_read_reg; [done|]; clear R d; intros d R).
  rewrite decide_False by (rewrite !reg_after_seconds, !Hc; tauto).
  apply wp_ret. rewrite reg_after_hours, Hc, Hb, H24.
  change (bool_decide _) with false. change (bool_decide _) with false.
  rewrite hours_convert by (cbn; lia). cbn [hours time_of orb].
  by rewrite bool_decide_eq_false_2 by lia.
Qed.
Lemma rtc_bcd_afternoon_witness :
  wp read (λ r _, hours r = 81) (mkCmos false false 46800 0 0).
Proof.
  refine (wp_mono _ _ _ _ (rtc_bcd_afternoon (mkCmos false false 46800 0 0) _ _ _ _ _) _);
    [cbn; lia|done|done|cbn; lia|done|]. intros r d E. rewrite E. by vm_compute.
Defined.
