(* ===== verification/Mouse.v ===== *)
(** * PS/2 mouse (src/src/mouse.rs)

    The set-up dialogue with the controller, the interrupt handler that
    collects packets of three or four bytes, and the event ring.  The handler
    is shown to queue exactly the events of complete packets. *)
From S2P Require Import Prelude Words Ring Hardware.
Local Open Scope Z_scope.

Definition PS2_DATA : Z := 0x60.
Definition PS2_STATUS : Z := 0x64.
Definition PS2_COMMAND : Z := 0x64.

Inductive MouseEvent :=
  | Move (dx dy : Z)
  | Scroll (delta : Z)
  | LeftClick
  | RightClick
  | MiddleClick.

Record EventRing := mkRing { buf : list (option MouseEvent); head : nat; tail : nat }.
Definition EventRing_new : EventRing := mkRing (replicate 32 None) 0 0.

Definition push (ev : MouseEvent) (r : EventRing) : outcome (bool * EventRing) :=
  let next := ((head r + 1) mod 32)%nat in
  if decide (next = tail r) then mret (false, r) else
  b ← store (head r) (Some ev) (buf r);
  mret (true, mkRing b next (tail r)).
Definition pop (r : EventRing) : outcome (option MouseEvent * EventRing) :=
  if decide (tail r = head r) then mret (None, r) else
  ev ← index (tail r) (buf r);
  b ← store (tail r) None (buf r);
  mret (ev, mkRing b (head r) ((tail r + 1) mod 32)%nat).

(** [MOUSE_STATE], [EVENT_QUEUE] and [INITIALIZED]. *)
Record Mouse := mkMouse {
  cycle : Z; pkt : list Z; has_scroll : bool; queue : EventRing; initialized : bool }.
Definition Mouse_new : Mouse := mkMouse 0 (replicate 4 0) false EventRing_new false.

Definition set_queue (q : EventRing) (m : Mouse) : Mouse :=
  mkMouse (cycle m) (pkt m) (has_scroll m) q (initialized m).
Definition push_event (ev : MouseEvent) : ST Mouse unit :=
  m ← get; r ← lift (push ev (queue m)); modify (set_queue r.2).
Definition pop_event : ST Mouse (option MouseEvent) :=
  m ← get; r ← lift (pop (queue m)); modify (set_queue r.2);; mret r.1.
Definition is_initialized : ST Mouse bool := gets initialized.

(** [x as i8]. *)
Definition as_i8 (x : Z) : Z := if decide (x < 128) then x else x - 256.
Definition bit (flags b : Z) : bool := bool_decide (Z.land flags b ≠ 0).
Definition when {S} (b : bool) (m : ST S unit) : ST S unit := if b then m else mret tt.

(** The packet in [pkt] is complete. *)
Definition handle_packet : ST Mouse unit :=
  m ← get;
  flags ← lift (index 0 (pkt m));
  dx ← lift (index 1 (pkt m));
  dy ← lift (index 2 (pkt m));
  if negb (bit flags 0x08) then mret tt else
  wheel ← lift (index 3 (pkt m));
  when (has_scroll m && bool_decide (wheel ≠ 0)) (push_event (Scroll (as_i8 wheel)));;
  when (bool_decide (2 < Z.abs dx) || bool_decide (2 < Z.abs dy)) (push_event (Move dx dy));;
  when (bit flags 0x01) (push_event LeftClick);;
  when (bit flags 0x02) (push_event RightClick);;
  when (bit flags 0x04) (push_event MiddleClick).

(** A byte from the mouse, the part of [handle_irq] with the lock held. *)
Definition on_byte (byte : Z) : ST Mouse unit :=
  m ← get;
  bytes ← lift (store (Z.to_nat (cycle m)) byte (pkt m));
  let cycle := wadd 8 (cycle m) 1 in
  modify (λ m, mkMouse cycle bytes (has_scroll m) (queue m) (initialized m));;
  let packet_size := if has_scroll m then 4 else 3 in
  if decide (packet_size ≤ cycle) then
    modify (λ m, mkMouse 0 (pkt m) (has_scroll m) (queue m) (initialized m));;
    handle_packet
  else mret tt.

Section controller.
Context {D : Type} `{Ports D}.
Abbreviation M := (ST (Mouse * D)).
Definition on_ports {A} (m : ST D A) : M A := zoom snd (λ d s, (s.1, d)) m.
Definition on_mouse {A} (m : ST Mouse A) : M A := zoom fst (λ m s, (m, s.2)) m.

Definition handle_irq : M unit :=
  init ← on_mouse is_initialized;
  if negb init then mret tt else
  status ← on_ports (inb PS2_STATUS);
  if decide (Z.land status 0x20 = 0) then mret tt else
  byte ← on_ports (inb PS2_DATA);
  on_mouse (on_byte byte).

(** ** Set-up *)

Fixpoint wait_write (n : nat) : ST D unit :=
  match n with
  | O => mret tt
  | S n => s ← inb PS2_STATUS; if decide (Z.land s 0x02 = 0) then mret tt else wait_write n
  end.
Definition write_command (cmd : Z) : ST D unit := wait_write (Z.to_nat 10000);; outb PS2_COMMAND cmd.
Definition write_data (data : Z) : ST D unit := wait_write (Z.to_nat 10000);; outb PS2_DATA data.
Fixpoint try_read (n : nat) : ST D (option Z) :=
  match n with
  | O => mret None
  | S n => s ← inb PS2_STATUS;
           if decide (Z.land s 0x01 ≠ 0) then b ← inb PS2_DATA; mret (Some b) else try_read n
  end.
Definition try_read_data : ST D (option Z) := try_read (Z.to_nat 100000).

Definition mouse_write (data : Z) : ST D (option Z) :=
  write_command 0xD4;; write_data data;; try_read_data.
Fixpoint set_rates (rates : list Z) : ST D unit :=
  match rates with
  | [] => mret tt
  | rate :: rates => mouse_write 0xF3;; mouse_write rate;; set_rates rates
  end.
(** The parts of [init] before and after its check of the configuration byte;
    Main.v composes them. *)
Definition read_configuration : ST D Z :=
  write_command 0xA8;; write_command 0x20;; config ← try_read_data; mret (default 0 config).
Definition identify : ST D Z :=
  mouse_write 0xF4;; set_rates [200; 100; 80];; mouse_write 0xF2;;
  device_id ← try_read_data; mret (default 0 device_id).
Definition enable (device_id : Z) (m : Mouse) : Mouse :=
  mkMouse (cycle m) (pkt m) (bool_decide (device_id = 3) || bool_decide (device_id = 4)) (queue m) true.
End controller.

(** ** The event ring is a queue of at most 31 events *)

Record ring_wf (r : EventRing) : Prop := {
  ring_len : length (buf r) = 32%nat;
  ring_head : (head r < 32)%nat;
  ring_tail : (tail r < 32)%nat;
  ring_some : ∀ e, e ∈ ring_contents 32 (buf r) (head r) (tail r) → e ≠ None;
}.
(** The queued events, oldest first. *)
Definition events (r : EventRing) : list MouseEvent :=
  omap id (ring_contents 32 (buf r) (head r) (tail r)).
Definition enqueue (q : list MouseEvent) (ev : MouseEvent) : list MouseEvent :=
  if decide (length q < 31)%nat then q ++ [ev] else q.

Lemma length_events r : ring_wf r →
  length (events r) = length (ring_contents 32 (buf r) (head r) (tail r)).
Proof.
  intros [_ _ _ Hs]. unfold events. induction (ring_contents _ _ _ _) as [|[e|] l IH]; [done| |].
  - cbn. rewrite IH; [done|]. set_solver.
  - exfalso. apply (Hs None); [set_solver|done].
Qed.

Lemma event_push_spec ev r : ring_wf r → ∃ b r', push ev r = Done (b, r') ∧ ring_wf r' ∧
  events r' = enqueue (events r) ev.
Proof.
  intros W. pose proof (length_events r W) as Hlen. destruct W as [Hl Hh Ht Hs]. unfold push, enqueue.
  pose proof (ring_full (A := option MouseEvent) 32 ltac:(lia) (buf r) (head r) (tail r) Hh Ht) as Hfull.
  pose proof (ring_count_lt 32 ltac:(lia) (head r) (tail r) Hh Ht).
  rewrite <- length_ring_contents with (buf := buf r) in H.
  case_decide as Hn.
  - eexists _, _. split; [done|]. split; [done|]. rewrite decide_False by (apply Hfull in Hn; lia). done.
  - rewrite store_done by lia. cbn. eexists _, _. split; [done|].
    pose proof (ring_push (A := option MouseEvent) 32 ltac:(lia) (buf r) (head r) (tail r) (Some ev) Hl Hh Ht Hn) as E.
    split.
    + split; cbn; [by rewrite length_insert|apply succ_mod_lt; lia|done|].
      intros e. rewrite E. intros [?| ->%list_elem_of_singleton]%elem_of_app; [by apply Hs|done].
    + unfold events at 1. cbn [buf head tail]. rewrite E, omap_app. cbn.
      rewrite decide_True; [done|]. assert (length (ring_contents 32 (buf r) (head r) (tail r)) ≠ 31%nat)
        by (intros ?; apply Hn, Hfull; lia). lia.
Qed.

Lemma event_pop_spec r : ring_wf r → ∃ r', pop r = Done (hd_error (events r), r') ∧ ring_wf r' ∧
  events r' = tl (events r).
Proof.
  intros [Hl Hh Ht Hs]. unfold pop.
  pose proof (ring_empty (A := option MouseEvent) 32 ltac:(lia) (buf r) (head r) (tail r) Hh Ht) as He.
  case_decide as Hn.
  - exists r. unfold events. rewrite (proj2 He) by done. by split_and!.
  - pose proof (ring_pop (A := option MouseEvent) 32 ltac:(lia) (buf r) (head r) (tail r) Hh Ht ltac:(done))
      as E.
    destruct (index_lt (tail r) (buf r)) as (e & Hlk & ->); [lia|]. cbn [mbind outcome_bind].
    rewrite store_done by lia. cbn [mbind outcome_bind].
    apply list_lookup_total_correct in Hlk. rewrite Hlk in E.
    assert (e ≠ None) as Hne by (apply Hs; rewrite E; by apply elem_of_cons; left).
    destruct e as [e|]; [|done].
    set (t' := ((tail r + 1) mod 32)%nat) in *.
    assert (ring_contents 32 (<[tail r := None]> (buf r)) (head r) t'
      = ring_contents 32 (buf r) (head r) t') as E'.
    { unfold ring_contents. apply list_fmap_ext. intros i k [-> Hi]%lookup_seq. cbn.
      apply list_lookup_total_insert_ne. subst t'. rewrite succ_mod in * by lia.
      revert Hi. unfold ring_slot, ring_count. repeat case_decide; lia. }
    eexists. unfold events at 1. rewrite E. cbn. split; [done|]. split.
    + split; cbn [buf head tail]; [by rewrite length_insert|done|by apply succ_mod_lt; lia|].
      intros x. rewrite E'. intros Hx. apply Hs. rewrite E. by right.
    + unfold events. cbn [buf head tail]. rewrite E', E. done.
Qed.

(** ** The handler *)

(** The events of a packet, from its bytes. *)
Definition packet_events (scroll : bool) (p : list Z) : list MouseEvent :=
  let flags := p !!! 0%nat in let dx := p !!! 1%nat in let dy := p !!! 2%nat in
  let wheel := p !!! 3%nat in
  if negb (bit flags 0x08) then [] else
  (if scroll && bool_decide (wheel ≠ 0) then [Scroll (as_i8 wheel)] else []) ++
  (if bool_decide (2 < dx) || bool_decide (2 < dy) then [Move dx dy] else []) ++
  (if bit flags 0x01 then [LeftClick] else []) ++
  (if bit flags 0x02 then [RightClick] else []) ++
  (if bit flags 0x04 then [MiddleClick] else []).

Definition packet_size (scroll : bool) : nat := if scroll then 4 else 3.

(** The mouse as its users see it: the bytes of the unfinished packet and the
    queued events. *)
Record Abs := mkAbs { received : list Z; pending : list MouseEvent }.
Definition abs_byte (scroll : bool) (b : Z) (a : Abs) : Abs :=
  let r := received a ++ [b] in
  if decide (length r = packet_size scroll)
  then mkAbs [] (foldl enqueue (pending a) (packet_events scroll r))
  else mkAbs r (pending a).
Definition abs_pop (a : Abs) : option MouseEvent * Abs :=
  (hd_error (pending a), mkAbs (received a) (tl (pending a))).

Record represents (m : Mouse) (a : Abs) : Prop := {
  rep_pkt : length (pkt m) = 4%nat;
  rep_cycle : cycle m = length (received a);
  rep_received : take (length (received a)) (pkt m) = received a;
  rep_size : (length (received a) < packet_size (has_scroll m))%nat;
  rep_ring : ring_wf (queue m);
  rep_queue : events (queue m) = pending a;
}.

Lemma push_event_wp ev m (Q : unit → Mouse → Prop) : ring_wf (queue m) →
  (∀ q', ring_wf q' → events q' = enqueue (events (queue m)) ev → Q tt (set_queue q' m)) →
  wp (push_event ev) Q m.
Proof.
  intros W HQ. unfold push_event. apply wp_bind, wp_get, wp_bind, wp_lift.
  destruct (event_push_spec ev (queue m) W) as (b & q' & -> & W' & E). cbn. by apply wp_modify, HQ.
Qed.

(** An optional event behind the events [evs] of the packet. *)
Lemma push_when_wp (b : bool) ev evs q m (Q : unit → Mouse → Prop) : ring_wf (queue m) →
  events (queue m) = foldl enqueue q evs →
  (∀ q', ring_wf q' → events q' = foldl enqueue q (evs ++ if b then [ev] else []) →
     Q tt (set_queue q' m)) →
  wp (when b (push_event ev)) Q m.
Proof.
  intros W E HQ. destruct b; cbn [when].
  - apply push_event_wp; [done|]. intros q' W' E'. apply HQ; [done|].
    by rewrite foldl_app, E', <- E.
  - apply wp_ret. specialize (HQ (queue m) W). rewrite app_nil_r in HQ.
    destruct m. apply HQ, E.
Qed.

Lemma handle_packet_wp m : length (pkt m) = 4%nat → bytes (pkt m) → ring_wf (queue m) →
  wp handle_packet (λ _ m', ∃ q, m' = set_queue q m ∧ ring_wf q ∧
    events q = foldl enqueue (events (queue m)) (packet_events (has_scroll m) (pkt m))) m.
Proof.
  intros Hl Hb W. unfold handle_packet. apply wp_bind, wp_get.
  destruct (pkt m) as [|flags [|dx [|dy [|wheel []]]]] eqn:Ep; try done.
  rewrite !Forall_cons in Hb. destruct Hb as (Hf & [Hx _] & [Hy _] & Hw & _).
  do 3 (apply wp_bind, wp_lift; cbn [index lookup list_lookup runs]).
  set (evs := packet_events _ _). unfold packet_events in evs. cbn in evs.
  destruct (bit flags 8) eqn:E8; cbn [negb] in *; cycle 1.
  { apply wp_ret. exists (queue m). split; [by destruct m|]. done. }
  apply wp_bind, wp_lift. cbn [index lookup list_lookup runs].
  apply wp_bind. apply (push_when_wp _ _ [] (events (queue m))); [done..|]. intros q1 W1 E1.
  apply wp_bind. eapply push_when_wp; [exact W1|exact E1|]. intros q2 W2 E2.
  apply wp_bind. eapply push_when_wp; [exact W2|exact E2|]. intros q3 W3 E3.
  apply wp_bind. eapply push_when_wp; [exact W3|exact E3|]. intros q4 W4 E4.
  eapply push_when_wp; [exact W4|exact E4|]. intros q5 W5 E5.
  exists q5. split; [done|]. split; [done|]. rewrite E5. unfold evs.
  rewrite !Z.abs_eq by done. by rewrite <- !app_assoc.
Qed.

(** What the handler and the readers of the queue do. *)
Inductive input := Byte (b : Z) | PopEvent.
Fixpoint run_inputs (ins : list input) : ST Mouse (list (option MouseEvent)) :=
  match ins with
  | [] => mret []
  | Byte b :: ins => on_byte b;; run_inputs ins
  | PopEvent :: ins => e ← pop_event; es ← run_inputs ins; mret (e :: es)
  end.
Fixpoint abs_inputs (scroll : bool) (a : Abs) (ins : list input) : list (option MouseEvent) :=
  match ins with
  | [] => []
  | Byte b :: ins => abs_inputs scroll (abs_byte scroll b a) ins
  | PopEvent :: ins => (abs_pop a).1 :: abs_inputs scroll (abs_pop a).2 ins
  end.

Lemma on_byte_refines b m a : fits 8 b → bytes (pkt m) → represents m a →
  (has_scroll m = false → pkt m !!! 3%nat = 0) →
  wp (on_byte b) (λ _ m', represents m' (abs_byte (has_scroll m) b a) ∧ bytes (pkt m') ∧
    has_scroll m' = has_scroll m ∧ (has_scroll m = false → pkt m' !!! 3%nat = 0)) m.
Proof.
  intros Hb Hpkt [Hl Hc Hr Hs W Hq] Hw. unfold on_byte. apply wp_bind, wp_get.
  assert (length (received a) < 4)%nat by (unfold packet_size in Hs; destruct (has_scroll m); lia).
  rewrite Hc, Nat2Z.id. apply wp_bind, wp_lift. rewrite store_done by lia. cbn [runs].
  unfold wadd. rewrite wrap_id by (pow2; lia). set (p := <[length (received a) := b]> (pkt m)).
  assert (length p = 4%nat) as Hlp by (unfold p; by rewrite length_insert).
  assert (bytes p) as Hbp by (by apply Forall_insert).
  assert (take (S (length (received a))) p = received a ++ [b]) as Hrp.
  { unfold p. erewrite take_S_r by (apply list_lookup_insert_eq; lia).
    rewrite take_insert_ge by lia. by rewrite Hr. }
  assert (has_scroll m = false → p !!! 3%nat = 0) as Hwp.
  { intros Hf. unfold p. rewrite Hf in Hs. cbn in Hs. rewrite list_lookup_total_insert_ne by lia. auto. }
  apply wp_bind, wp_modify. unfold abs_byte. rewrite length_app. cbn [length].
  assert ((if has_scroll m then 4 else 3) = packet_size (has_scroll m)) as Esz by by destruct (has_scroll m).
  cbn [has_scroll]. rewrite Esz. case_decide as Hfull.
  - rewrite decide_True by lia. apply wp_bind, wp_modify. cbn [pkt has_scroll queue initialized].
    eapply wp_mono; [by apply handle_packet_wp|]. cbn [queue has_scroll pkt].
    intros _ m' (q & -> & W' & E'). split_and!; [|done..].
    split; cbn [pkt cycle received queue set_queue has_scroll pending]; try done.
    + unfold packet_size. destruct (has_scroll m); cbn; lia.
    + rewrite E', Hq. f_equal. rewrite <- Hrp.
      assert (S (length (received a)) = packet_size (has_scroll m)) as -> by lia.
      destruct p as [|p0 [|p1 [|p2 [|p3 []]]]]; try done.
      destruct (has_scroll m); [done|]. specialize (Hwp eq_refl). cbn in Hwp. subst. done.
  - rewrite decide_False by lia. apply wp_ret. split_and!; [|done..].
    split; cbn [pkt cycle received queue has_scroll pending]; try done.
    + rewrite length_app. cbn. lia.
    + rewrite length_app, <- Hrp. cbn. f_equal. lia.
    + rewrite length_app. cbn. lia.
Qed.

(** C16: after set-up, for every sequence of bytes from the mouse and reads of the
    queue, the handler never panics, and the events read are those of the
    complete packets, in order, as if kept in a queue of 31 places that drops
    what does not fit. *)
Theorem mouse_refines_queue (scroll : bool) (ins : list input) :
  Forall (λ i, match i with Byte b => fits 8 b | PopEvent => True end) ins →
  wp (run_inputs ins) (λ answers _, answers = abs_inputs scroll (mkAbs [] []) ins)
    (mkMouse 0 (replicate 4 0) scroll EventRing_new true).
Proof.
  assert (∀ ins m a, has_scroll m = scroll → bytes (pkt m) → represents m a →
    (has_scroll m = false → pkt m !!! 3%nat = 0) →
    Forall (λ i, match i with Byte b => fits 8 b | PopEvent => True end) ins →
    wp (run_inputs ins) (λ answers _, answers = abs_inputs scroll a ins) m) as Hgen.
  { clear ins. intros ins. induction ins as [|[b|] ins IH]; intros m a Hs Hb R Hw Hin; cbn [run_inputs abs_inputs]; [done| |];
      apply Forall_cons in Hin as [Hi Hin].
    - apply wp_bind. eapply wp_mono; [by apply on_byte_refines|].
      intros _ m' (R' & Hb' & Hs' & Hw'). rewrite Hs in R'. apply IH; try done; congruence || auto.
      rewrite Hs', Hs. rewrite Hs in Hw'. exact Hw'.
    - apply wp_bind. unfold pop_event. apply wp_bind, wp_get, wp_bind, wp_lift.
      destruct (event_pop_spec (queue m)) as (q' & -> & W' & E'); [apply R|]. cbn [runs fst snd].
      apply wp_bind, wp_modify, wp_ret, wp_bind.
      assert (represents (set_queue q' m) (abs_pop a).2) as R'.
      { destruct R. split; try done. cbn. by rewrite E', rep_queue0. }
      eapply wp_mono; [by apply (IH (set_queue q' m) (abs_pop a).2)|].
      intros es s' ->. apply wp_ret. unfold abs_pop. cbn. by rewrite (rep_queue _ _ R). }
  intros Hin. apply Hgen; try done.
  - by apply Forall_replicate.
  - split; try done.
    + cbn. unfold packet_size. destruct scroll; lia.
    + split; cbn; try done; [lia..|]. intros e He. by apply elem_of_nil in He.
Qed.
Lemma mouse_refines_queue_witness : ∃ m,
  run_inputs [Byte 9; Byte 5; Byte 250; PopEvent; PopEvent; PopEvent]
    (mkMouse 0 (replicate 4 0) false EventRing_new true)
  = Done ([Some (Move 5 250); Some LeftClick; None], m).
Proof.
  destruct (wp_inv _ _ _ (mouse_refines_queue false
    [Byte 9; Byte 5; Byte 250; PopEvent; PopEvent; PopEvent] ltac:(repeat constructor; done)))
    as (es & m & E & ->). exists m. rewrite E. do 2 f_equal.
Defined.
