(* ===== verification/Disk.v ===== *)
(** * Fallible code and the disk

    [Result]-returning code: [x ←? m; k] (or [m ?;; k]) is [let x = m?; k].  [BlockDevice] is
    the interface of src/src/drivers/ata.rs the file system is written against,
    [BlockDeviceOk] what it relies on; [RamDisk] is an instance in memory. *)
From stdpp Require Import strings.
From S2P Require Import Prelude Words.
Local Open Scope Z_scope.
Local Open Scope list_scope.

(** ** The question mark *)

Definition try_bind {S A B E} (m : ST S (result A E)) (f : A → ST S (result B E)) :
    ST S (result B E) :=
  r ← m; match r with Ok a => f a | Err e => mret (Err e) end.
Notation "x ←? y ; z" := (try_bind y (λ x : _, z))
  (at level 20, y at level 100, z at level 200, only parsing) : stdpp_scope.
Notation "' x ←? y ; z" := (try_bind y (λ x : _, z))
  (at level 20, x pattern, y at level 100, z at level 200, only parsing) : stdpp_scope.
Notation "x ?;; z" := (try_bind x (λ _, z))
  (at level 100, z at level 200, only parsing, right associativity) : stdpp_scope.

Definition ok {S A E} (a : A) : ST S (result A E) := mret (Ok a).
Definition err {S A E} (e : E) : ST S (result A E) := mret (Err e).
(** [map_err]. *)
Definition map_err {S A E F} (f : E → F) (m : ST S (result A E)) : ST S (result A F) :=
  r ← m; mret (match r with Ok a => Ok a | Err e => Err (f e) end).

(** [wpe m Q R]: [m] returns [Ok] in a state where [Q] holds of the value, or
    an error in a state where [R] holds. *)
Definition wpe {S A E} (m : ST S (result A E)) (Q : A → S → Prop) (R : S → Prop) (s : S) : Prop :=
  wp m (λ r s', match r with Ok a => Q a s' | Err _ => R s' end) s.

Section wpe.
Context {S E : Type}.
Implicit Types (R : S → Prop) (s : S).

Lemma wpe_ok {A} (a : A) (Q : A → S → Prop) R s : Q a s → wpe (E := E) (ok a) Q R s.
Proof. done. Qed.

Lemma wpe_err {A} (e : E) (Q : A → S → Prop) R s : R s → wpe (err e) Q R s.
Proof. done. Qed.

Lemma wpe_try {A B} (m : ST S (result A E)) (f : A → ST S (result B E)) Q R s :
  wpe m (λ a, wpe (f a) Q R) R s → wpe (try_bind m f) Q R s.
Proof.
  intros H. apply wp_bind. eapply wp_mono; [exact H|]. intros [a|e] s' H'; done.
Qed.

Lemma wpe_mono {A} (m : ST S (result A E)) (P Q : A → S → Prop) (R R' : S → Prop) s :
  wpe m P R s → (∀ a s', P a s' → Q a s') → (∀ s', R s' → R' s') → wpe m Q R' s.
Proof. intros H HQ HR. eapply wp_mono; [exact H|]. intros [a|e] s'; auto. Qed.

Lemma wpe_lift {A B} (m : outcome A) (f : A → ST S (result B E)) Q R s :
  runs m (λ a, wpe (f a) Q R s) → wpe (lift m ≫= f) Q R s.
Proof. intros H. apply wp_bind, wp_lift. exact H. Qed.

Lemma wpe_wp {A} (m : ST S (result A E)) (Q : A → S → Prop) s :
  wpe m Q (λ _, False) s → wp m (λ r s', ∃ a, r = Ok a ∧ Q a s') s.
Proof. intros H. eapply wp_mono; [exact H|]. intros [a|e] s' ?; [eauto|done]. Qed.
End wpe.

(** ** Block devices *)

Definition SECTOR : nat := 512.

(** [read(lba, count, &mut buf)] returns the buffer it wrote into. *)
Class BlockDevice (D : Type) := {
  ata_read : Z → Z → list Z → ST D (result unit string * list Z);
  ata_write : Z → Z → list Z → ST D (result unit string);
}.

(** The bytes of [n] sectors from number [l] on. *)
Fixpoint sectors_from (f : Z → list Z) (l : Z) (n : nat) : list Z :=
  match n with O => [] | S n => f l ++ sectors_from f (l + 1) n end.

(** The disk's contents are [sector], addressed with 28 bits, below [capacity].
    A [reliable] device carries out every transfer inside the capacity; any
    device may fail, but reads change nothing, and writes nothing outside the
    sectors addressed. *)
Class BlockDeviceOk (D : Type) `{BlockDevice D} := {
  sector : D → Z → list Z;
  capacity : D → Z;
  reliable : D → Prop;
  valid_transfer (d : D) (lba count : Z) (len : nat) : Prop :=
    0 < count ∧ (Z.to_nat count * SECTOR ≤ len)%nat ∧ wrap 28 lba + count ≤ capacity d;
  sector_ok d l : length (sector d l) = SECTOR ∧ bytes (sector d l);
  ata_read_ok lba count buf d : fits 32 lba → fits 8 count →
    wp (ata_read lba count buf) (λ '(r, buf') d',
      (∀ l, sector d' l = sector d l) ∧ capacity d' = capacity d ∧
      length buf' = length buf ∧ (bytes buf → bytes buf') ∧
      (valid_transfer d lba count (length buf) → reliable d → r = Ok tt ∧ reliable d') ∧
      (r = Ok tt → valid_transfer d lba count (length buf) ∧
        buf' = sectors_from (sector d) (wrap 28 lba) (Z.to_nat count) ++
               drop (Z.to_nat count * SECTOR) buf)) d;
  ata_write_ok lba count buf d : fits 32 lba → fits 8 count → bytes buf →
    wp (ata_write lba count buf) (λ r d',
      (∀ l, ¬ wrap 28 lba ≤ l < wrap 28 lba + count → sector d' l = sector d l) ∧
      capacity d' = capacity d ∧
      (valid_transfer d lba count (length buf) → reliable d → r = Ok tt ∧ reliable d') ∧
      (r = Ok tt → valid_transfer d lba count (length buf) ∧
        sectors_from (sector d') (wrap 28 lba) (Z.to_nat count) =
        take (Z.to_nat count * SECTOR) buf)) d;
}.

(** ** A disk in memory *)

Record RamDisk := mkRamDisk { contents : gmap Z (list Z); size : Z }.
Definition ram_sector (d : RamDisk) (l : Z) : list Z :=
  resize SECTOR 0 (wrap 8 <$> default [] (contents d !! l)).
Fixpoint put_sectors (m : gmap Z (list Z)) (l : Z) (n : nat) (buf : list Z) : gmap Z (list Z) :=
  match n with
  | O => m
  | S n => <[l := take SECTOR buf]> (put_sectors m (l + 1) n (drop SECTOR buf))
  end.
Definition transfer_ok (d : RamDisk) (lba count : Z) (buf : list Z) : bool :=
  bool_decide (0 < count) && bool_decide (Z.to_nat count * SECTOR ≤ length buf)%nat &&
  bool_decide (wrap 28 lba + count ≤ size d).

#[export] Instance ram_disk : BlockDevice RamDisk := {
  ata_read lba count buf d :=
    if transfer_ok d lba count buf
    then Done (Ok tt, sectors_from (ram_sector d) (wrap 28 lba) (Z.to_nat count) ++
                      drop (Z.to_nat count * SECTOR) buf, d)
    else Done (Err "no transfer"%string, buf, d);
  ata_write lba count buf d :=
    if transfer_ok d lba count buf
    then Done (Ok tt, mkRamDisk (put_sectors (contents d) (wrap 28 lba) (Z.to_nat count) buf) (size d))
    else Done (Err "no transfer"%string, d);
}.

Lemma length_sectors_from f l (n : nat) : (∀ i, length (f i) = SECTOR) →
  length (sectors_from f l n) = (n * SECTOR)%nat.
Proof.
  intros Hf. revert l. induction n as [|n IH]; intros l; [done|].
  cbn [sectors_from]. rewrite length_app, Hf, IH. lia.
Qed.

Lemma bytes_sectors_from f l (n : nat) : (∀ i, bytes (f i)) → bytes (sectors_from f l n).
Proof. intros Hf. revert l. induction n; intros l; [done|]. by apply Forall_app. Qed.

Lemma sectors_from_ext f g l (n : nat) : (∀ i, l ≤ i < l + n → f i = g i) →
  sectors_from f l n = sectors_from g l n.
Proof.
  revert l. induction n as [|n IH]; intros l Hfg; [done|]. cbn [sectors_from].
  rewrite Hfg, IH; [done| |]; intros; try apply Hfg; lia.
Qed.

Lemma ram_sector_ok d l : length (ram_sector d l) = SECTOR ∧ bytes (ram_sector d l).
Proof.
  unfold ram_sector. split; [apply length_resize|].
  apply Forall_resize; [done|]. apply Forall_fmap, Forall_true. intros x. by apply (wrap_fits 8).
Qed.

Lemma put_sectors_ne m l n buf i : ¬ l ≤ i < l + Z.of_nat n → put_sectors m l n buf !! i = m !! i.
Proof.
  revert l buf. induction n as [|n IH]; intros l buf Hi; [done|]. cbn [put_sectors].
  rewrite lookup_insert_ne by lia. apply IH. lia.
Qed.

Lemma wrap_bytes l : bytes l → wrap 8 <$> l = l.
Proof. induction 1 as [|x l Hx Hl IH]; [done|]. cbn. by rewrite IH, wrap_id. Qed.

Lemma put_sectors_read m l n buf c : (n * SECTOR ≤ length buf)%nat → bytes buf →
  sectors_from (ram_sector (mkRamDisk (put_sectors m l n buf) c)) l n = take (n * SECTOR) buf.
Proof.
  revert l buf. induction n as [|n IH]; intros l buf Hn Hb; [done|].
  cbn [sectors_from put_sectors]. change (S n * SECTOR)%nat with (SECTOR + n * SECTOR)%nat.
  rewrite <- take_take_drop.
  f_equal.
  - unfold ram_sector. cbn [contents]. rewrite lookup_insert_eq. cbn [default].
    rewrite wrap_bytes by (by apply Forall_take).
    apply resize_all_alt. rewrite length_take. lia.
  - rewrite <- (IH (l + 1)); [|rewrite length_drop; lia|by apply Forall_drop].
    apply sectors_from_ext. intros i Hi.
    unfold ram_sector. cbn [contents]. by rewrite lookup_insert_ne by lia.
Qed.

Lemma transfer_ok_spec d lba count buf : transfer_ok d lba count buf = true ↔
  0 < count ∧ (Z.to_nat count * SECTOR ≤ length buf)%nat ∧ wrap 28 lba + count ≤ size d.
Proof. unfold transfer_ok. rewrite !andb_true_iff, !bool_decide_eq_true. tauto. Qed.

#[export, refine] Instance ram_disk_ok : BlockDeviceOk RamDisk := {
  sector := ram_sector; capacity := size; reliable _ := True;
}.
Proof.
  - apply ram_sector_ok.
  - intros lba count buf d _ _. unfold wp. cbn.
    destruct (transfer_ok d lba count buf) eqn:E.
    + apply transfer_ok_spec in E as E'. split_and!; try done.
      * rewrite length_app, length_sectors_from, length_drop; [lia|apply ram_sector_ok].
      * intros Hb. apply Forall_app. split; [|by apply Forall_drop].
        apply bytes_sectors_from, ram_sector_ok.
    + split_and!; try done. intros H. apply transfer_ok_spec in H. congruence.
  - intros lba count buf d _ _ Hb. unfold wp. cbn.
    destruct (transfer_ok d lba count buf) eqn:E.
    + apply transfer_ok_spec in E as (E1 & E2 & E3). split_and!; try done.
      * intros l Hl. unfold ram_sector. cbn. rewrite put_sectors_ne; [done|lia].
      * intros _. split; [done|]. by apply put_sectors_read.
    + split_and!; try done. intros H. apply transfer_ok_spec in H. congruence.
Defined.
