(* ===== verification/Ata.v ===== *)
(** * The disk driver (src/src/drivers/ata.rs)

    PIO transfers over the ports of the first ATA channel.  [Drive] is the
    documented behaviour of a drive, [AtaDrive] says that a machine has one
    behind those ports; over it the driver is a [BlockDevice] with the laws the
    file system relies on. *)
From stdpp Require Import strings functions.
From S2P Require Import Prelude Words Hardware Disk.
Local Open Scope Z_scope.
Local Open Scope list_scope.

Definition DATA : Z := 0x1F0.
Definition ERROR : Z := 0x1F1.
Definition SECTOR_COUNT : Z := 0x1F2.
Definition LBA_LO : Z := 0x1F3.
Definition LBA_MID : Z := 0x1F4.
Definition LBA_HI : Z := 0x1F5.
Definition DRIVE : Z := 0x1F6.
Definition STATUS : Z := 0x1F7.
Definition STATUS_ERR : Z := 0x01.
Definition STATUS_DRQ : Z := 0x08.
Definition STATUS_DRDY : Z := 0x40.
Definition STATUS_BSY : Z := 0x80.
Definition CMD_READ_SECTORS : Z := 0x20.
Definition CMD_WRITE_SECTORS : Z := 0x30.
Definition DRIVE_MASTER : Z := 0xE0.

Section driver.
Context {D : Type} `{Ports D, Timer D}.
Abbreviation E A := (ST D (result A string)).

Definition set (status flag : Z) : bool := negb (Z.land status flag =? 0).

(** [fuel] bounds the number of polls. *)
Fixpoint wait_ready_until (fuel : nat) (deadline : Z) : E unit :=
  match fuel with
  | O => diverge
  | S fuel =>
      status ← inb STATUS;
      if set status STATUS_ERR then inb ERROR;; err "ATA error"%string
      else if negb (set status STATUS_BSY) && set status STATUS_DRDY then ok tt
      else
        t ← millis;
        if decide (deadline < t) then err "ATA timeout"%string else wait_ready_until fuel deadline
  end.
Definition wait_ready (fuel : nat) : E unit :=
  t ← millis; wait_ready_until fuel (wadd 64 t 4000).

Fixpoint wait_drq_until (fuel : nat) (deadline : Z) : E unit :=
  match fuel with
  | O => diverge
  | S fuel =>
      status ← inb STATUS;
      if set status STATUS_ERR then err "ATA error"%string
      else if set status STATUS_DRQ then ok tt
      else if negb (set status STATUS_BSY) && set status STATUS_DRDY && negb (set status STATUS_DRQ)
      then err "ATA no data"%string
      else
        t ← millis;
        if decide (deadline < t) then err "ATA DRQ timeout"%string else wait_drq_until fuel deadline
  end.
Definition wait_drq (fuel : nat) : E unit :=
  t ← millis; wait_drq_until fuel (wadd 64 t 4000).

Definition issue (lba count cmd : Z) : ST D unit :=
  outb DRIVE (Z.lor DRIVE_MASTER (wrap 8 (Z.land (Z.shiftr lba 24) 0x0F)));;
  outb SECTOR_COUNT count;;
  outb LBA_LO (wrap 8 lba);;
  outb LBA_MID (wrap 8 (Z.shiftr lba 8));;
  outb LBA_HI (wrap 8 (Z.shiftr lba 16));;
  outb STATUS cmd.

(** [for w in 0..256], the last [n] of them; [ptr.add(w)] is [offset]. *)
Fixpoint read_words (n offset : nat) (buf : list Z) : ST D (list Z) :=
  match n with
  | O => mret buf
  | S n =>
      v ← inw DATA;
      buf ← lift (put offset (offset + 2) (to_le 2 v) buf);
      read_words n (offset + 2) buf
  end.
Fixpoint write_words (n offset : nat) (buf : list Z) : ST D unit :=
  match n with
  | O => mret tt
  | S n =>
      l ← lift (slice offset (offset + 2) buf);
      outw DATA (from_le l);;
      write_words n (offset + 2) buf
  end.

(** The loop over the sectors; the buffer is returned after an error, too. *)
Fixpoint read_loop (fuel n sector : nat) (buf : list Z) : ST D (result unit string * list Z) :=
  match n with
  | O => mret (Ok tt, buf)
  | S n =>
      r ← wait_drq fuel;
      match r with
      | Err e => mret (Err e, buf)
      | Ok _ =>
          buf ← read_words 256 (sector * 512) buf;
          inb STATUS;;
          read_loop fuel n (S sector) buf
      end
  end.
Definition read_sectors (fuel : nat) (lba count : Z) (buf : list Z) :
    ST D (result unit string * list Z) :=
  if decide (count = 0 ∨ (length buf < Z.to_nat count * 512)%nat)
  then mret (Err "ATA: buffer too small"%string, buf) else
  r ← wait_ready fuel;
  match r with
  | Err e => mret (Err e, buf)
  | Ok _ => issue lba count CMD_READ_SECTORS;; read_loop fuel (Z.to_nat count) 0 buf
  end.

Fixpoint write_loop (fuel n sector : nat) (buf : list Z) : E unit :=
  match n with
  | O => ok tt
  | S n =>
      wait_drq fuel ?;;
      write_words 256 (sector * 512) buf;;
      inb STATUS;;
      write_loop fuel n (S sector) buf
  end.
Definition write_sectors (fuel : nat) (lba count : Z) (buf : list Z) : E unit :=
  if decide (count = 0 ∨ (length buf < Z.to_nat count * 512)%nat)
  then err "ATA: buffer too small"%string else
  wait_ready fuel ?;;
  issue lba count CMD_WRITE_SECTORS;;
  write_loop fuel (Z.to_nat count) 0 buf ?;;
  wait_ready fuel.

(** ** The public functions, with [INITIALIZED] *)

Abbreviation A X := (ST (bool * D) X).
Definition on_ports {X} (m : ST D X) : A X := zoom snd (λ d s, (s.1, d)) m.

Definition init : A unit :=
  s ← get;
  if s.1 : bool then mret tt else
  status ← on_ports (inb STATUS);
  if decide (status = 0xFF) then mret tt else modify (λ s, (true, s.2)).
Definition read (fuel : nat) (lba count : Z) (buf : list Z) : A (result unit string * list Z) :=
  s ← get;
  (if s.1 : bool then mret tt else init);;
  on_ports (read_sectors fuel lba count buf).
Definition write (fuel : nat) (lba count : Z) (buf : list Z) : A (result unit string) :=
  s ← get;
  (if s.1 : bool then mret tt else init);;
  on_ports (write_sectors fuel lba count buf).
End driver.

(** ** The drive *)

Inductive Phase :=
  | Idle
  | Reading (lba : Z) (left words : nat)        (* [words] of sector [lba] read *)
  | Writing (lba : Z) (left : nat) (acc : list Z)   (* [acc] of sector [lba] written *)
  | Failed.
#[export] Instance Phase_eq_dec : EqDecision Phase.
Proof. solve_decision. Defined.
(** A sector holds 512 bytes. *)
Definition sector_bytes (l : list Z) : list Z := resize 512 0 (wrap 8 <$> l).
Record Drive := mkDrive {
  recorded : Z → list Z;
  sectors : Z;
  r_drive : Z; r_count : Z; r_lo : Z; r_mid : Z; r_hi : Z;
  phase : Phase;
  busy : nat;     (* polls of the status register until it is ready *)
}.
Definition medium (dr : Drive) (l : Z) : list Z := sector_bytes (recorded dr l).
Definition with_phase (p : Phase) (b : nat) (dr : Drive) : Drive :=
  mkDrive (recorded dr) (sectors dr) (r_drive dr) (r_count dr) (r_lo dr) (r_mid dr) (r_hi dr) p b.
Definition with_recorded (m : Z → list Z) (dr : Drive) : Drive :=
  mkDrive m (sectors dr) (r_drive dr) (r_count dr) (r_lo dr) (r_mid dr) (r_hi dr) (phase dr) (busy dr).

Definition status_of (dr : Drive) : Z :=
  if decide (0 < busy dr)%nat then 0x80
  else match phase dr with
  | Idle => 0x40 | Reading _ _ _ => 0x48 | Writing _ _ _ => 0x48 | Failed => 0x41
  end.
Definition polled (dr : Drive) : Drive := with_phase (phase dr) (pred (busy dr)) dr.

Definition set_reg (p v : Z) (dr : Drive) : Drive :=
  let s := λ q old, if decide (p = q) then v else old in
  mkDrive (recorded dr) (sectors dr) (s DRIVE (r_drive dr)) (s SECTOR_COUNT (r_count dr))
    (s LBA_LO (r_lo dr)) (s LBA_MID (r_mid dr)) (s LBA_HI (r_hi dr)) (phase dr) (busy dr).
Definition address (dr : Drive) : Z :=
  Z.land (r_drive dr) 0x0F * 2 ^ 24 + r_hi dr * 2 ^ 16 + r_mid dr * 2 ^ 8 + r_lo dr.
(** The phase a command starts. *)
Definition started (cmd : Z) (dr : Drive) : Phase :=
  if decide (address dr + r_count dr ≤ sectors dr) then
    if decide (cmd = CMD_READ_SECTORS) then Reading (address dr) (Z.to_nat (r_count dr)) 0
    else Writing (address dr) (Z.to_nat (r_count dr)) []
  else Failed.

Definition word (l : list Z) (w : nat) : Z := from_le (take 2 (drop (2 * w) l)).
(** After a word has been read or written: the phase and the medium. *)
Definition word_read (lba : Z) (left words : nat) : Phase :=
  if decide (S words < 256)%nat then Reading lba left (S words)
  else if decide (left = 1)%nat then Idle else Reading (lba + 1) (left - 1) 0.
Definition word_written (lba : Z) (left : nat) (acc : list Z) : Phase :=
  if decide (length acc < 512)%nat then Writing lba left acc
  else if decide (left = 1)%nat then Idle else Writing (lba + 1) (left - 1) [].
Definition stored (lba : Z) (acc : list Z) (m : Z → list Z) : Z → list Z :=
  if decide (length acc < 512)%nat then m else <[lba := acc]> m.

(** A machine with a drive behind the ports.  [time] is the uptime in
    milliseconds; a port access or a look at the clock takes at most [tick];
    the drive is busy for at most [latency] polls at a time. *)
Class AtaDrive (D : Type) `{Ports D, Timer D} := {
  drive : D → Drive;
  time : D → Z;
  tick : Z;
  latency : nat;
  drive_busy d : (busy (drive d) ≤ latency)%nat;
  status_law d : wp (inb STATUS) (λ v d', v = status_of (drive d) ∧
    drive d' = polled (drive d) ∧ time d ≤ time d' ≤ time d + tick) d;
  error_law d : wp (inb ERROR) (λ _ d', drive d' = drive d) d;
  millis_law d : wp millis (λ t d', drive d' = drive d ∧ t = wrap 32 (time d') ∧
    time d ≤ time d' ≤ time d + tick) d;
  reg_law p v d : p ∈ [DRIVE; SECTOR_COUNT; LBA_LO; LBA_MID; LBA_HI] →
    wp (outb p v) (λ _ d', drive d' = set_reg p v (drive d)) d;
  command_law cmd d : cmd = CMD_READ_SECTORS ∨ cmd = CMD_WRITE_SECTORS →
    wp (outb STATUS cmd) (λ _ d', ∃ b, drive d' = with_phase (started cmd (drive d)) b (drive d)) d;
  data_in_law lba left w d : phase (drive d) = Reading lba left w → busy (drive d) = 0%nat →
    wp (inw DATA) (λ v d', v = word (medium (drive d) lba) w ∧
      ∃ b, drive d' = with_phase (word_read lba left w) b (drive d) ∧
        ((S w < 256)%nat → b = 0%nat)) d;
  data_out_law lba left acc v d : phase (drive d) = Writing lba left acc → busy (drive d) = 0%nat →
    fits 16 v →
    wp (outw DATA v) (λ _ d', let acc := acc ++ to_le 2 v in
      ∃ b, drive d' = with_recorded (stored lba acc (recorded (drive d)))
        (with_phase (word_written lba left acc) b (drive d)) ∧
        ((length acc < 512)%nat → b = 0%nat)) d;
}.
