(* ===== verification/AtaProps.v ===== *)
(** * The disk driver: it is a block device

    What each step of a transfer does to the drive; [ata_block_device]
    discharges the laws of [BlockDeviceOk] for a machine with a drive. *)
From stdpp Require Import strings functions.
From S2P Require Import Prelude Words Hardware Disk Ata.
Local Open Scope Z_scope.
Local Open Scope list_scope.

#[local] Arguments wrap : simpl never.

Lemma sector_bytes_ok l : length (sector_bytes l) = 512%nat ∧ bytes (sector_bytes l).
Proof.
  split; [apply length_resize|]. apply Forall_resize; [done|].
  apply Forall_fmap, Forall_true. intros x. by apply (wrap_fits 8).
Qed.
Lemma drive_medium dr l : length (medium dr l) = 512%nat ∧ bytes (medium dr l).
Proof. apply sector_bytes_ok. Qed.
Lemma medium_with_phase p b dr : medium (with_phase p b dr) = medium dr.
Proof. done. Qed.
Lemma sector_bytes_id l : length l = 512%nat → bytes l → sector_bytes l = l.
Proof. intros Hl Hb. unfold sector_bytes. rewrite wrap_bytes by done. by apply resize_all_alt. Qed.

Section drive.
Context {D : Type} `{AtaDrive D}.
Implicit Types (d : D) (dr : Drive).

(** The drive is so fast that no wait of the driver times out. *)
Definition prompt : Prop := 2 * latency * tick ≤ 4000.

(** The same drive, perhaps nearer to being ready. *)
Definition waited d d' : Prop := ∃ b, drive d' = with_phase (phase (drive d)) b (drive d).

Lemma with_phase_twice p b p' b' dr : with_phase p b (with_phase p' b' dr) = with_phase p b dr.
Proof. done. Qed.
Lemma with_phase_id dr : with_phase (phase dr) (busy dr) dr = dr.
Proof. by destruct dr. Qed.

Lemma waited_refl d d' : drive d' = drive d → waited d d'.
Proof. intros E. exists (busy (drive d)). by rewrite E, with_phase_id. Qed.
Lemma waited_trans d1 d2 d3 : waited d1 d2 → waited d2 d3 → waited d1 d3.
Proof. intros [b1 E1] [b2 E2]. exists b2. by rewrite E2, E1. Qed.

(** No look at the clock during [k] more polls is past the deadline. *)
Definition in_time d (dl : Z) (k : nat) : Prop :=
  ∀ t, time d ≤ t ≤ time d + 2 * k * tick → wrap 32 t ≤ dl.

Lemma in_time_step d d' dl (k : nat) : time d ≤ time d' ≤ time d + 2 * tick →
  in_time d dl (S k) → in_time d' dl k.
Proof. intros Ht Hin t Hr. apply Hin. lia. Qed.

Lemma wrap_advance t t' : t ≤ t' → wrap 32 t' ≤ wrap 32 t + (t' - t).
Proof.
  intros. unfold wrap. pose proof (Z.div_mod t (2 ^ 32)). pose proof (Z.div_mod t' (2 ^ 32)).
  pose proof (Z.div_le_mono t t' (2 ^ 32)). pow2. lia.
Qed.

(** What a status byte says. *)
Lemma status_cases dr :
  (busy dr = O ∧ polled dr = dr) ∨ ((0 < busy dr)%nat ∧ status_of dr = 0x80).
Proof.
  unfold status_of, polled. destruct (busy dr) as [|b] eqn:E.
  - left. split; [done|]. destruct dr. cbn in *. by subst.
  - right. split; [lia|]. by rewrite decide_True by lia.
Qed.

Lemma wait_ready_until_spec fuel dl d : (busy (drive d) < fuel)%nat →
  wp (wait_ready_until fuel dl) (λ r d', waited d d' ∧
    (r = Ok tt → busy (drive d') = O ∧ phase (drive d) ≠ Failed) ∧
    (phase (drive d) ≠ Failed → in_time d dl (busy (drive d)) → r = Ok tt)) d.
Proof.
  revert d. induction fuel as [|fuel IH]; intros d Hf; [lia|]. cbn [wait_ready_until].
  apply wp_bind. eapply wp_mono; [apply status_law|]. intros v d1 (-> & E1 & T1).
  destruct (status_cases (drive d)) as [[Hb Hp]|[Hb ->]].
  - rewrite Hp in E1. unfold status_of. rewrite Hb. rewrite decide_False by lia.
    destruct (phase (drive d)) eqn:Ep; cbn.
    1-3: split; [by apply waited_refl|]; split; [intros _; by rewrite E1|done].
    apply wp_bind. eapply wp_mono; [apply error_law|]. intros v d2 E2.
    split; [by apply waited_refl; congruence|]. split; [done|by intros []].
  - change (set 0x80 STATUS_ERR) with false. change (set 0x80 STATUS_BSY) with true. cbn [negb andb].
    apply wp_bind. eapply wp_mono; [apply millis_law|]. intros t d2 (E2 & -> & T2).
    assert (drive d2 = polled (drive d)) as E2' by congruence.
    assert (waited d d2) as Hw by (exists (pred (busy (drive d))); exact E2').
    assert (phase (drive d2) = phase (drive d)) as Eph by by rewrite E2'.
    assert (busy (drive d2) = pred (busy (drive d))) as Ebu by by rewrite E2'.
    case_decide as Hdl.
    + split; [done|]. split; [done|]. intros _ Hin. exfalso.
      assert (2 * tick ≤ 2 * Z.of_nat (busy (drive d)) * tick) as Hk by nia.
      assert (wrap 32 (time d2) ≤ dl); [|lia]. apply Hin. split; [lia|].
      etrans; [|apply Z.add_le_mono_l, Hk]. lia.
    + eapply wp_mono; [apply IH; lia|]. intros r d3 (W3 & Hok & Hin3).
      split; [by eapply waited_trans|]. rewrite Eph in *. split; [done|].
      intros Hph Hin. apply Hin3; [done|]. rewrite Ebu.
      apply (in_time_step d); [lia|]. by replace (S (pred (busy (drive d)))) with (busy (drive d)) by lia.
Qed.

Definition transferring dr : bool :=
  match phase dr with Reading _ _ _ | Writing _ _ _ => true | _ => false end.

Lemma wait_drq_until_spec fuel dl d : (busy (drive d) < fuel)%nat →
  wp (wait_drq_until fuel dl) (λ r d', waited d d' ∧
    (r = Ok tt → busy (drive d') = O ∧ transferring (drive d) = true) ∧
    (transferring (drive d) = true → in_time d dl (busy (drive d)) → r = Ok tt)) d.
Proof.
  revert d. induction fuel as [|fuel IH]; intros d Hf; [lia|]. cbn [wait_drq_until].
  apply wp_bind. eapply wp_mono; [apply status_law|]. intros v d1 (-> & E1 & T1).
  destruct (status_cases (drive d)) as [[Hb Hp]|[Hb ->]].
  - rewrite Hp in E1. unfold status_of, transferring. rewrite Hb. rewrite decide_False by lia.
    destruct (phase (drive d)) eqn:Ep; cbn;
      (split; [by apply waited_refl|]; split; [intros ?; by rewrite ?E1|done]).
  - change (set 0x80 STATUS_ERR) with false. change (set 0x80 STATUS_BSY) with true.
    change (set 0x80 STATUS_DRQ) with false. cbn [negb andb].
    apply wp_bind. eapply wp_mono; [apply millis_law|]. intros t d2 (E2 & -> & T2).
    assert (drive d2 = polled (drive d)) as E2' by congruence.
    assert (waited d d2) as Hw by (exists (pred (busy (drive d))); exact E2').
    assert (transferring (drive d2) = transferring (drive d)) as Eph by by rewrite E2'.
    assert (busy (drive d2) = pred (busy (drive d))) as Ebu by by rewrite E2'.
    case_decide as Hdl.
    + split; [done|]. split; [done|]. intros _ Hin. exfalso.
      assert (2 * tick ≤ 2 * Z.of_nat (busy (drive d)) * tick) as Hk by nia.
      assert (wrap 32 (time d2) ≤ dl); [|lia]. apply Hin. split; [lia|].
      etrans; [|apply Z.add_le_mono_l, Hk]. lia.
    + eapply wp_mono; [apply IH; lia|]. intros r d3 (W3 & Hok & Hin3).
      split; [by eapply waited_trans|]. rewrite Eph in *. split; [done|].
      intros Hph Hin. apply Hin3; [done|]. rewrite Ebu.
      apply (in_time_step d); [lia|]. by replace (S (pred (busy (drive d)))) with (busy (drive d)) by lia.
Qed.

(** With the deadline four seconds from now. *)
Lemma deadline_in_time d d' (k : nat) : prompt → (k ≤ latency)%nat → time d ≤ time d' →
  0 ≤ tick → in_time d' (wadd 64 (wrap 32 (time d')) 4000) k.
Proof.
  intros Hp Hk Ht Htick t Hr. unfold prompt in Hp.
  pose proof (wrap_fits 32 (time d') ltac:(lia)) as [? ?].
  unfold wadd. rewrite (wrap_id 64) by (pow2; lia).
  destruct Hr as [Hr1 Hr2]. pose proof (wrap_advance (time d') t Hr1).
  assert (2 * Z.of_nat k * tick ≤ 2 * Z.of_nat latency * tick)
    by (apply Z.mul_le_mono_nonneg_r; lia).
  lia.
Qed.

Lemma wait_ready_spec fuel d : (latency < fuel)%nat →
  wp (wait_ready fuel) (λ r d', waited d d' ∧
    (r = Ok tt → busy (drive d') = O ∧ phase (drive d) ≠ Failed) ∧
    (phase (drive d) ≠ Failed → prompt → r = Ok tt)) d.
Proof.
  intros Hfuel. unfold wait_ready. apply wp_bind. eapply wp_mono; [apply millis_law|]. intros t d1 (E1 & -> & T1).
  pose proof (drive_busy d1). eapply wp_mono; [apply wait_ready_until_spec; lia|].
  intros r d2 (W & Hok & Hin). rewrite E1 in Hok, Hin.
  split; [eapply waited_trans; [by apply waited_refl|done]|]. split; [done|].
  intros Hph Hp. apply Hin; [done|]. rewrite <- E1. apply (deadline_in_time d d1); [done|lia..].
Qed.

Lemma wait_drq_spec fuel d : (latency < fuel)%nat →
  wp (wait_drq fuel) (λ r d', waited d d' ∧
    (r = Ok tt → busy (drive d') = O ∧ transferring (drive d) = true) ∧
    (transferring (drive d) = true → prompt → r = Ok tt)) d.
Proof.
  intros Hfuel. unfold wait_drq. apply wp_bind. eapply wp_mono; [apply millis_law|]. intros t d1 (E1 & -> & T1).
  pose proof (drive_busy d1). eapply wp_mono; [apply wait_drq_until_spec; lia|].
  intros r d2 (W & Hok & Hin). rewrite E1 in Hok, Hin.
  split; [eapply waited_trans; [by apply waited_refl|done]|]. split; [done|].
  intros Hph Hp. apply Hin; [done|]. rewrite <- E1. apply (deadline_in_time d d1); [done|lia..].
Qed.

(** ** Commands *)

Lemma address_of lba : fits 32 lba →
  Z.land (Z.lor DRIVE_MASTER (wrap 8 (Z.land (Z.shiftr lba 24) 0x0F))) 0x0F * 2 ^ 24 +
  wrap 8 (Z.shiftr lba 16) * 2 ^ 16 + wrap 8 (Z.shiftr lba 8) * 2 ^ 8 + wrap 8 lba = wrap 28 lba.
Proof.
  intros Hl.
  assert (∀ x, 0 ≤ x < 16 → Z.land (Z.lor DRIVE_MASTER (wrap 8 x)) 0x0F = x) as Hland.
  { intros x Hx. assert (Forall (λ x, Z.land (Z.lor DRIVE_MASTER (wrap 8 x)) 0x0F = x) (seqZ 0 16)) as Hall
      by (refine (bool_decide_unpack _ _); by vm_compute).
    rewrite Forall_forall in Hall. apply Hall, elem_of_seqZ. lia. }
  assert (Z.land (Z.shiftr lba 24) 0x0F = Z.shiftr lba 24 mod 2 ^ 4) as -> by (apply (Z.land_ones _ 4); lia).
  rewrite Hland by (apply (Z.mod_pos_bound _ 16); lia).
  rewrite !Z.shiftr_div_pow2 by lia. unfold wrap.
  change 28 with (8 + (8 + (8 + 4))). rewrite !Z.pow_add_r by lia.
  rewrite !Z.rem_mul_r by lia. rewrite !Z.div_div by lia. change (2 ^ 24) with (2 ^ 8 * (2 ^ 8 * 2 ^ 8)).
  change (2 ^ 16) with (2 ^ 8 * 2 ^ 8). rewrite Z.mul_assoc. lia.
Qed.

Lemma issue_spec lba count cmd d : fits 32 lba → fits 8 count → count ≠ 0 →
  cmd = CMD_READ_SECTORS ∨ cmd = CMD_WRITE_SECTORS →
  wp (issue lba count cmd) (λ _ d', medium (drive d') = medium (drive d) ∧
    sectors (drive d') = sectors (drive d) ∧
    phase (drive d') =
      if decide (wrap 28 lba + count ≤ sectors (drive d)) then
        if decide (cmd = CMD_READ_SECTORS) then Reading (wrap 28 lba) (Z.to_nat count) 0
        else Writing (wrap 28 lba) (Z.to_nat count) []
      else Failed) d.
Proof.
  intros Hl Hc Hz Hcmd. unfold issue.
  do 5 (apply wp_bind; eapply wp_mono; [apply reg_law; set_solver|]; intros [] ?d ?E).
  eapply wp_mono; [by apply command_law|]. intros [] d' [b E'].
  rewrite E'. cbn [with_phase sectors phase]. unfold started.
  assert (address (drive d4) = wrap 28 lba) as -> by (rewrite E3, E2, E1, E0, E; exact (address_of lba Hl)).
  assert (r_count (drive d4) = count) as -> by (by rewrite E3, E2, E1, E0, E).
  assert (sectors (drive d4) = sectors (drive d)) as -> by (by rewrite E3, E2, E1, E0, E).
  assert (recorded (drive d4) = recorded (drive d)) as Er by (by rewrite E3, E2, E1, E0, E).
  split; [|done]. unfold medium. cbn [recorded with_phase]. by rewrite Er.
Qed.

(** ** Sectors *)

Lemma word_bytes (l : list Z) (w : nat) : bytes l → (2 * w + 2 ≤ length l)%nat →
  to_le 2 (word l w) = take 2 (drop (2 * w) l).
Proof.
  intros Hb Hl. unfold word.
  assert (length (take 2 (drop (2 * w) l)) = 2%nat) as E by (rewrite length_take, length_drop; lia).
  rewrite <- E at 1. by apply to_from_le, Forall_take, Forall_drop.
Qed.

Lemma read_words_spec (n w : nat) L left pre rest d : (n + w = 256)%nat → (2 * n ≤ length rest)%nat →
  phase (drive d) = Reading L left w → busy (drive d) = O →
  wp (read_words n (length pre) (pre ++ rest)) (λ buf d',
    buf = pre ++ drop (2 * w) (medium (drive d) L) ++ drop (2 * n) rest ∧
    (n = O ∨ ∃ b, drive d' = with_phase (word_read L left 255) b (drive d))) d.
Proof.
  destruct (drive_medium (drive d) L) as [Hlm Hbm].
  revert w pre rest d Hlm Hbm. induction n as [|n IH]; intros w pre rest d Hlm Hbm Hnw Hr Hph Hb; cbn [read_words].
  { apply wp_ret. split; [|by left]. rewrite (drop_ge (medium _ _)) by lia. by rewrite drop_0. }
  apply wp_bind. eapply wp_mono; [by apply data_in_law|]. intros v d1 (-> & b & E1 & Hb1).
  rewrite word_bytes by (done || lia). apply wp_bind, wp_lift.
  set (two := take 2 (drop (2 * w) (medium (drive d) L))).
  assert (length two = 2%nat) as Htwo by (unfold two; rewrite length_take, length_drop; lia).
  rewrite (put_next _ _ _ pre rest) by lia. cbn [runs].
  replace (length pre + 2 - length pre)%nat with 2%nat by lia.
  replace (length pre + 2)%nat with (length (pre ++ two)) by (rewrite length_app; lia).
  assert (medium (drive d) L = take (2 * w) (medium (drive d) L) ++ two ++ drop (2 * S w) (medium (drive d) L))
    as Esplit.
  { replace (2 * S w)%nat with (2 * w + 2)%nat by lia. rewrite <- drop_drop. unfold two.
    by rewrite take_drop, take_drop. }
  assert (drop (2 * w) (medium (drive d) L) = two ++ drop (2 * S w) (medium (drive d) L)) as Edrop.
  { rewrite Esplit at 1. apply drop_app_length'. rewrite length_take. lia. }
  destruct (decide (S w < 256)%nat) as [Hlt|Hge].
  - assert (medium (drive d1) = medium (drive d)) as Em by by rewrite E1.
    eapply wp_mono; [apply (IH (S w)); try lia|].
    + by rewrite Em. + by rewrite Em. + rewrite length_drop. lia.
    + rewrite E1. cbn. unfold word_read. by rewrite decide_True.
    + rewrite E1. cbn. by apply Hb1.
    + intros buf d2 (-> & Hd2). rewrite Em, drop_drop, Edrop, <- !app_assoc. split.
      * do 3 f_equal. f_equal. lia.
      * right. destruct Hd2 as [->|[b2 E2]]; [lia|]. exists b2. by rewrite E2, E1.
  - assert (n = O) as -> by lia. assert (w = 255%nat) as -> by lia. cbn [read_words].
    apply wp_ret. split; [|right; eauto]. rewrite Edrop, (drop_ge _ (2 * 256)) by lia.
    by rewrite app_nil_r, <- app_assoc.
Qed.

Lemma write_words_spec (n : nat) L left acc (off : nat) buf d :
  (2 * n + length acc = 512)%nat → (off + 2 * n ≤ length buf)%nat → bytes buf →
  phase (drive d) = Writing L left acc → busy (drive d) = O → (0 < n)%nat →
  wp (write_words n off buf) (λ _ d', let acc' := acc ++ take (2 * n) (drop off buf) in
    ∃ b, drive d' = with_recorded (<[L := acc']> (recorded (drive d)))
      (with_phase (word_written L left acc') b (drive d))) d.
Proof.
  revert acc off d. induction n as [|n IH]; intros acc off d Hn Hl Hb Hph Hbusy Hpos; [lia|].
  cbn [write_words]. apply wp_bind, wp_lift. rewrite slice_done by lia. cbn [runs].
  replace (off + 2 - off)%nat with 2%nat by lia. set (two := take 2 (drop off buf)).
  assert (length two = 2%nat) as Htwo by (unfold two; rewrite length_take, length_drop; lia).
  assert (bytes two) as Hbt by (by apply Forall_take, Forall_drop).
  assert (to_le 2 (from_le two) = two) as Eto by (rewrite <- Htwo at 1; by apply to_from_le).
  apply wp_bind. eapply wp_mono; [apply (data_out_law L left acc _ d Hph Hbusy)|].
  { pose proof (from_le_fits two Hbt) as Hf. by rewrite Htwo in Hf. }
  cbn zeta. rewrite Eto. intros [] d1 (b & E1 & Hb1). rewrite length_app, Htwo in Hb1.
  assert (take (2 * S n) (drop off buf) = two ++ take (2 * n) (drop (off + 2) buf)) as Esplit.
  { replace (2 * S n)%nat with (2 + 2 * n)%nat by lia. rewrite <- take_take_drop, drop_drop. done. }
  cbn zeta. rewrite Esplit.
  destruct (decide (length acc + 2 < 512)%nat) as [Hlt|Hge].
  - unfold stored, word_written in E1. rewrite length_app, Htwo, !decide_True in E1 by done.
    eapply wp_mono; [apply (IH (acc ++ two) (off + 2)%nat d1)|].
    + rewrite length_app. lia.
    + lia.
    + done.
    + by rewrite E1.
    + rewrite E1. cbn. by apply Hb1.
    + lia.
    + intros [] d2 [b2 E2]. exists b2. rewrite <- app_assoc in E2. rewrite E2, E1. done.
  - assert (n = O) as -> by lia. cbn [write_words]. apply wp_ret. exists b.
    rewrite E1. unfold stored. rewrite length_app, Htwo, decide_False by lia.
    cbn [Nat.mul take]. by rewrite app_nil_r.
Qed.

(** ** Transfers *)

Context (fuel : nat) (Hfuel : (latency < fuel)%nat).

Lemma read_loop_spec (n k : nat) L pre rest d : length pre = (k * 512)%nat →
  (n * 512 ≤ length rest)%nat →
  phase (drive d) = (if decide (n = O) then Idle else Reading L n 0) →
  wp (read_loop fuel n k (pre ++ rest)) (λ '(r, buf) d',
    medium (drive d') = medium (drive d) ∧ sectors (drive d') = sectors (drive d) ∧
    length buf = length (pre ++ rest) ∧ (bytes (pre ++ rest) → bytes buf) ∧
    (prompt → r = Ok tt ∧ phase (drive d') = Idle) ∧
    (r = Ok tt → buf = pre ++ sectors_from (medium (drive d)) L n ++ drop (n * 512) rest)) d.
Proof.
  revert k L pre rest d. induction n as [|n IH]; intros k L pre rest d Hp Hr Hph; cbn [read_loop].
  { apply wp_ret. split_and!; done. }
  apply wp_bind. eapply wp_mono; [by apply wait_drq_spec|].
  intros r d1 ([b1 E1] & Hok & Hprompt). rewrite decide_False in Hph by done.
  assert (transferring (drive d) = true) as Htr by (unfold transferring; by rewrite Hph).
  destruct r as [[]|e]; cycle 1.
  { apply wp_ret. rewrite E1. split_and!; try done. intros Hpr. by specialize (Hprompt Htr Hpr). }
  destruct (Hok eq_refl) as [Hb1 _]. clear Hok Hprompt.
  apply wp_bind. rewrite <- Hp. eapply wp_mono.
  { apply (read_words_spec 256 0 L (S n)); [done|lia|by rewrite E1|done]. }
  intros buf d2 [-> Hd2]. destruct Hd2 as [?|[b2 E2]]; [done|].
  assert (medium (drive d1) = medium (drive d)) as Em1 by by rewrite E1.
  change (2 * 0)%nat with 0%nat. rewrite drop_0, Em1. set (sec := medium (drive d) L).
  destruct (drive_medium (drive d) L) as [Hls Hbs]. fold sec in Hls, Hbs.
  apply wp_bind. eapply wp_mono; [apply status_law|]. intros v d3 (_ & E3 & _).
  rewrite app_assoc. change (2 * 256)%nat with 512%nat.
  assert (medium (drive d3) = medium (drive d)) as Em3 by by rewrite E3, E2, E1.
  assert (sectors (drive d3) = sectors (drive d)) as Es3 by by rewrite E3, E2, E1.
  eapply wp_mono; [apply (IH (S k) (L + 1) (pre ++ sec) (drop 512 rest) d3)|].
  - rewrite length_app. lia.
  - rewrite length_drop. lia.
  - rewrite E3, E2. cbn [phase polled with_phase]. unfold word_read. rewrite decide_False by lia.
    destruct n; [done|]. rewrite decide_False by lia. rewrite decide_False by done. f_equal; lia.
  - intros [r buf] d4 (Em & Es & Hl & Hb & Hpr & Hdata).
    rewrite Em, Es, Em3, Es3. split_and!; [done|done| | |done|].
    + rewrite Hl, !length_app, length_drop. lia.
    + intros Hbytes. apply Forall_app in Hbytes as [? ?]. apply Hb.
      rewrite !Forall_app. split_and!; [done|done|by apply Forall_drop].
    + intros Hr'. rewrite (Hdata Hr'), Em3, drop_drop, <- app_assoc. cbn [sectors_from].
      rewrite <- app_assoc. by do 3 f_equal.
Qed.

Lemma read_loop_failed n k buf d : phase (drive d) = Failed → (0 < n)%nat →
  wp (read_loop fuel n k buf) (λ '(r, buf') d', drive d' = with_phase Failed (busy (drive d')) (drive d) ∧
    buf' = buf ∧ r ≠ Ok tt) d.
Proof.
  intros Hph Hn. destruct n as [|n]; [lia|]. cbn [read_loop].
  apply wp_bind. eapply wp_mono; [by apply wait_drq_spec|].
  intros r d1 ([b1 E1] & Hok & _). destruct r as [[]|e].
  - destruct (Hok eq_refl) as [_ Htr]. unfold transferring in Htr. by rewrite Hph in Htr.
  - apply wp_ret. rewrite E1, Hph. done.
Qed.

Lemma write_loop_spec (n k : nat) L buf d : ((k + n) * 512 ≤ length buf)%nat → bytes buf →
  phase (drive d) = (if decide (n = O) then Idle else Writing L n []) →
  wp (write_loop fuel n k buf) (λ r d',
    (∀ l, ¬ L ≤ l < L + n → medium (drive d') l = medium (drive d) l) ∧
    sectors (drive d') = sectors (drive d) ∧
    (prompt → r = Ok tt) ∧
    (r = Ok tt → phase (drive d') = Idle ∧
      sectors_from (medium (drive d')) L n = take (n * 512) (drop (k * 512) buf))) d.
Proof.
  revert k L d. induction n as [|n IH]; intros k L d Hl Hb Hph; cbn [write_loop].
  { apply wp_ret. split_and!; done. }
  apply wp_bind. eapply wp_mono; [by apply wait_drq_spec|].
  intros r d1 ([b1 E1] & Hok & Hprompt). rewrite decide_False in Hph by done.
  assert (transferring (drive d) = true) as Htr by (unfold transferring; by rewrite Hph).
  destruct r as [[]|e]; cycle 1.
  { apply wp_ret. rewrite E1. split_and!; try done. intros Hpr. by specialize (Hprompt Htr Hpr). }
  destruct (Hok eq_refl) as [Hb1 _]. clear Hok Hprompt.
  apply wp_bind. eapply wp_mono.
  { apply (write_words_spec 256 L (S n) [] (k * 512) buf d1); [done|lia|done|by rewrite E1|done|lia]. }
  cbn zeta. cbn [app]. intros [] d2 [b2 E2].
  change (2 * 256)%nat with 512%nat in E2. set (sec := take 512 (drop (k * 512) buf)) in *.
  assert (length sec = 512%nat) as Hls by (unfold sec; rewrite length_take, length_drop; lia).
  apply wp_bind. eapply wp_mono; [apply status_law|]. intros v d3 (_ & E3 & _).
  assert (bytes sec) as Hbs by (by apply Forall_take, Forall_drop).
  assert (∀ l, medium (drive d3) l = if decide (l = L) then sec else medium (drive d) l) as Em3.
  { intros l. unfold medium. rewrite E3, E2, E1. cbn [recorded with_recorded polled with_phase].
    destruct (decide (l = L)) as [->|El].
    - rewrite fn_lookup_insert. by apply sector_bytes_id.
    - by rewrite fn_lookup_insert_ne. }
  assert (sectors (drive d3) = sectors (drive d)) as Es3 by by rewrite E3, E2, E1.
  eapply wp_mono; [apply (IH (S k) (L + 1) d3); [lia|done|]|].
  - rewrite E3, E2. cbn [phase polled with_phase with_recorded]. unfold word_written.
    rewrite Hls, decide_False by lia.
    destruct n; [done|]. rewrite decide_False by lia. rewrite decide_False by done. f_equal; lia.
  - intros r d4 (Em & Es & Hpr & Hdata). split_and!; [|congruence|done|].
    + intros l Hnl. rewrite Em, Em3 by lia. by rewrite decide_False by lia.
    + intros Hr. destruct (Hdata Hr) as [Hidle Hd]. split; [done|].
      cbn [sectors_from]. rewrite Hd, Em, Em3, decide_True by lia.
      change (S n * 512)%nat with (512 + n * 512)%nat. rewrite <- take_take_drop, drop_drop.
      unfold sec. do 3 f_equal. lia.
Qed.

Lemma read_sectors_spec lba count buf d : fits 32 lba → fits 8 count →
  let valid := 0 < count ∧ (Z.to_nat count * 512 ≤ length buf)%nat ∧
    wrap 28 lba + count ≤ sectors (drive d) in
  wp (read_sectors fuel lba count buf) (λ '(r, buf') d',
    medium (drive d') = medium (drive d) ∧ sectors (drive d') = sectors (drive d) ∧
    length buf' = length buf ∧ (bytes buf → bytes buf') ∧
    (valid → phase (drive d) ≠ Failed → prompt → r = Ok tt ∧ phase (drive d') = Idle) ∧
    (r = Ok tt → valid ∧ buf' = sectors_from (medium (drive d)) (wrap 28 lba) (Z.to_nat count) ++
      drop (Z.to_nat count * 512) buf)) d.
Proof.
  intros Hl Hc valid. unfold read_sectors. destruct Hc as [Hc0 Hc].
  case_decide as Hsmall.
  { apply wp_ret. split_and!; try done. intros (? & ? & _). lia. }
  apply wp_bind. eapply wp_mono; [by apply wait_ready_spec|].
  intros r d1 ([b1 E1] & Hok & Hprompt). destruct r as [[]|e]; cycle 1.
  { apply wp_ret. rewrite E1. split_and!; try done. intros _ Hph Hpr. by specialize (Hprompt Hph Hpr). }
  clear Hok Hprompt. apply wp_bind. eapply wp_mono; [apply issue_spec; [done|done|lia|by left]|].
  intros [] d2 (Em & Es & Hph). rewrite E1 in Em, Es, Hph. rewrite medium_with_phase in Em. cbn [with_phase sectors] in Em, Es, Hph.
  rewrite (decide_True (P := CMD_READ_SECTORS = CMD_READ_SECTORS)) in Hph by done.
  case_decide as Hin.
  - eapply wp_mono; [apply (read_loop_spec (Z.to_nat count) 0 (wrap 28 lba) [] buf d2 eq_refl); [lia|]|].
    { rewrite Hph. by rewrite decide_False by lia. }
    intros [r buf'] d3 (Em3 & Es3 & Hl3 & Hb3 & Hpr3 & Hdata). cbn [app] in *.
    rewrite Em3, Es3, Em, Es. split_and!; auto. intros Hr. rewrite Em in Hdata.
    split; [unfold valid; lia|auto].
  - eapply wp_mono; [apply (read_loop_failed (Z.to_nat count) 0 buf d2 Hph); lia|].
    intros [r buf'] d3 (E3 & -> & Hne). rewrite E3, medium_with_phase. cbn [with_phase sectors].
    rewrite Em, Es. split_and!; try done. intros (_ & _ & ?). lia.
Qed.

Lemma write_sectors_spec lba count buf d : fits 32 lba → fits 8 count → bytes buf →
  let valid := 0 < count ∧ (Z.to_nat count * 512 ≤ length buf)%nat ∧
    wrap 28 lba + count ≤ sectors (drive d) in
  wp (write_sectors fuel lba count buf) (λ r d',
    (∀ l, ¬ wrap 28 lba ≤ l < wrap 28 lba + count → medium (drive d') l = medium (drive d) l) ∧
    sectors (drive d') = sectors (drive d) ∧
    (valid → phase (drive d) ≠ Failed → prompt → r = Ok tt ∧ phase (drive d') = Idle) ∧
    (r = Ok tt → valid ∧ sectors_from (medium (drive d')) (wrap 28 lba) (Z.to_nat count) =
      take (Z.to_nat count * 512) buf)) d.
Proof.
  intros Hl Hc Hb valid. unfold write_sectors. destruct Hc as [Hc0 Hc].
  case_decide as Hsmall.
  { apply wp_ret. split_and!; try done. intros (? & ? & _). lia. }
  apply wp_bind. eapply wp_mono; [by apply wait_ready_spec|].
  intros r d1 ([b1 E1] & Hok & Hprompt). destruct r as [[]|e]; cycle 1.
  { apply wp_ret. rewrite E1. split_and!; try done. intros _ Hph Hpr. by specialize (Hprompt Hph Hpr). }
  clear Hok Hprompt. apply wp_bind. eapply wp_mono; [apply issue_spec; [done|done|lia|by right]|].
  intros [] d2 (Em & Es & Hph). rewrite E1 in Em, Es, Hph. rewrite medium_with_phase in Em. cbn [with_phase sectors] in Em, Es, Hph.
  rewrite (decide_False (P := CMD_WRITE_SECTORS = CMD_READ_SECTORS)) in Hph by done.
  apply wp_bind. case_decide as Hin.
  - eapply wp_mono; [apply (write_loop_spec (Z.to_nat count) 0 (wrap 28 lba) buf d2); [lia|done|]|].
    { rewrite Hph. by rewrite decide_False by lia. }
    intros r d3 (Em3 & Es3 & Hpr3 & Hdata). rewrite Em in Em3. rewrite Z2Nat.id in Em3 by lia.
    destruct r as [[]|e]; cycle 1.
    { apply wp_ret. split_and!; [done|congruence| |done]. intros _ _ Hpr. by specialize (Hpr3 Hpr). }
    destruct (Hdata eq_refl) as [Hidle Hd].
    eapply wp_mono; [by apply wait_ready_spec|]. intros r d4 ([b4 E4] & _ & Hpr4).
    rewrite E4, medium_with_phase. cbn [with_phase sectors phase]. split_and!; [done|congruence| |].
    + intros _ _ Hpr. split; [|done]. apply Hpr4; [by rewrite Hidle|done].
    + intros _. split; [unfold valid; lia|]. by rewrite Hd, drop_0.
  - destruct (Z.to_nat count) as [|n] eqn:En; [lia|]. cbn [write_loop]. apply wp_bind.
    eapply wp_mono; [by apply wait_drq_spec|]. intros r d3 ([b3 E3] & Hok & _).
    destruct r as [[]|e].
    { destruct (Hok eq_refl) as [_ Htr]. unfold transferring in Htr. by rewrite Hph in Htr. }
    apply wp_ret, wp_ret. rewrite E3, medium_with_phase. cbn [with_phase sectors]. rewrite Em, Es.
    split_and!; try done. intros (_ & _ & ?). lia.
Qed.
(** A failed drive stays failed, whatever is asked of it. *)
Lemma wait_ready_failed d : phase (drive d) = Failed →
  wp (wait_ready fuel) (λ r d', ¬ (r = Ok tt) ∧ waited d d') d.
Proof.
  intros Hph. eapply wp_mono; [by apply wait_ready_spec|]. intros r d' (W & Hok & _).
  split; [|done]. intros Hr. by destruct (Hok Hr).
Qed.

Lemma read_sectors_failed lba count buf d : phase (drive d) = Failed →
  wp (read_sectors fuel lba count buf) (λ '(r, _) d', r ≠ Ok tt ∧
    phase (drive d') = Failed ∧ medium (drive d') = medium (drive d)) d.
Proof.
  intros Hph. unfold read_sectors. case_decide; [by apply wp_ret|].
  apply wp_bind. eapply wp_mono; [by apply wait_ready_failed|]. intros [[]|e] d' [Hr [b E]]; [done|].
  apply wp_ret. by rewrite E.
Qed.

Lemma write_sectors_failed lba count buf d : phase (drive d) = Failed →
  wp (write_sectors fuel lba count buf) (λ r d', r ≠ Ok tt ∧
    phase (drive d') = Failed ∧ medium (drive d') = medium (drive d)) d.
Proof.
  intros Hph. unfold write_sectors. case_decide; [by apply wp_ret|].
  apply wp_bind. eapply wp_mono; [by apply wait_ready_failed|]. intros [[]|e] d' [Hr [b E]]; [done|].
  apply wp_ret. by rewrite E.
Qed.

Lemma read_sectors_beyond lba count buf d : fits 32 lba → fits 8 count →
  0 < count → (Z.to_nat count * 512 ≤ length buf)%nat → sectors (drive d) < wrap 28 lba + count →
  prompt →
  wp (read_sectors fuel lba count buf) (λ '(r, _) d', r ≠ Ok tt ∧
    phase (drive d') = Failed ∧ medium (drive d') = medium (drive d)) d.
Proof.
  intros Hl Hc Hpos Hlen Hout Hpr.
  destruct (decide (phase (drive d) = Failed)) as [Hf|Hf]; [by apply read_sectors_failed|].
  unfold read_sectors. rewrite decide_False by lia.
  apply wp_bind. eapply wp_mono; [by apply wait_ready_spec|].
  intros r d1 ([b1 E1] & _ & Hprompt). rewrite (Hprompt Hf Hpr).
  apply wp_bind. eapply wp_mono; [apply issue_spec; [done|done|lia|by left]|].
  intros [] d2 (Em & Es & Hph). rewrite E1 in Em, Hph. rewrite medium_with_phase in Em.
  cbn [with_phase sectors] in Hph. rewrite decide_False in Hph by lia.
  eapply wp_mono; [apply (read_loop_failed (Z.to_nat count) 0 buf d2 Hph); lia|].
  intros [r' buf'] d3 (E3 & _ & Hne). rewrite E3, medium_with_phase. done.
Qed.

(** ** The public functions *)

Lemma init_spec s : wp init (λ _ s', ∃ b, drive s'.2 = with_phase (phase (drive s.2)) b (drive s.2)) s.
Proof.
  destruct s as [i d]. unfold init. apply wp_bind, wp_get. cbn.
  assert (waited d d) as W by by apply waited_refl.
  destruct i; [exact W|]. apply wp_bind, wp_zoom. eapply wp_mono; [apply status_law|].
  intros v d' (_ & E & _). cbn. case_decide; by exists (pred (busy (drive d))).
Qed.

(** Running a transfer after the check of [INITIALIZED]. *)
Lemma wp_public {X} (m : ST D X) (Q : X → bool * D → Prop) (s : bool * D) :
  (∀ i d b, drive d = with_phase (phase (drive s.2)) b (drive s.2) → wp m (λ x d', Q x (i, d')) d) →
  wp (t ← get; (if t.1 : bool then mret tt else init);; on_ports m) Q s.
Proof.
  intros Hm. apply wp_bind, wp_get, wp_bind.
  assert (wp (if s.1 : bool then mret tt else init)
    (λ _ s', ∃ b, drive s'.2 = with_phase (phase (drive s.2)) b (drive s.2)) s) as Hi.
  { destruct (s.1); [|apply init_spec]. apply wp_ret. exists (busy (drive s.2)). by rewrite with_phase_id. }
  eapply wp_mono; [exact Hi|]. intros [] [i d] [b E]. by apply wp_zoom, (Hm i d b).
Qed.
End drive.

(** ** The driver is a block device *)

Section device.
Context {D : Type} `{AtaDrive D}.

#[export] Instance ata_device : BlockDevice (bool * D) := {
  ata_read := read (S latency);
  ata_write := write (S latency);
}.

#[export, refine] Instance ata_device_ok : BlockDeviceOk (bool * D) := {
  sector s := medium (drive s.2);
  capacity s := sectors (drive s.2);
  reliable s := prompt ∧ phase (drive s.2) = Idle;
}.
Proof.
  - intros s l. apply drive_medium.
  - intros lba count buf s Hl Hc. apply wp_public. intros i d b E.
    eapply wp_mono; [apply read_sectors_spec; [lia|done..]|]. rewrite E, medium_with_phase.
    intros [r buf'] d' (Em & Es & Hlen & Hb & Hpr & Hd). cbn [snd]. rewrite Em.
    split_and!; [done|done|done|done| |done].
    intros Hv [Hp Hi]. destruct (Hpr Hv) as [? ?]; [cbn; by rewrite Hi|done|]. done.
  - intros lba count buf s Hl Hc Hb. apply wp_public. intros i d b E.
    eapply wp_mono; [apply write_sectors_spec; [lia|done..]|]. rewrite E, medium_with_phase.
    intros r d' (Em & Es & Hpr & Hd). cbn [snd]. split_and!; [done|done| |done].
    intros Hv [Hp Hi]. destruct (Hpr Hv) as [? ?]; [cbn; by rewrite Hi|done|]. done.
Defined.
End device.

(** ** What the driver does *)

(** C31: round trip.  On an idle drive that is fast enough for the driver's
    four-second deadlines, whatever happens on the ports between them, writing
    sectors and reading them back gives the bytes written, and no other sector
    of the disk has changed. *)
Theorem ata_write_read {D} `{AtaDrive D} (lba count : Z) (buf buf' : list Z) (s : bool * D) :
  fits 32 lba → fits 8 count → bytes buf → length buf' = length buf →
  valid_transfer s lba count (length buf) → prompt (D := D) → phase (drive s.2) = Idle →
  wp (w ← write (S latency) lba count buf; r ← read (S latency) lba count buf'; mret (w, r))
    (λ '(w, (r, out)) s', w = Ok tt ∧ r = Ok tt ∧
      take (Z.to_nat count * 512) out = take (Z.to_nat count * 512) buf ∧
      ∀ l, ¬ wrap 28 lba ≤ l < wrap 28 lba + count →
        medium (drive s'.2) l = medium (drive s.2) l) s.
Proof.
  intros Hl Hc Hb Hlen Hv Hp Hi. change (write (S latency)) with (ata_write (D := bool * D)).
  change (read (S latency)) with (ata_read (D := bool * D)). apply wp_bind.
  eapply wp_mono; [by apply (ata_write_ok lba count buf s)|].
  intros w s1 (Hother & Hcap & Hrel & Hw). destruct (Hrel Hv (conj Hp Hi)) as [-> Hrel1].
  destruct (Hw eq_refl) as [_ Hdata]. clear Hrel Hw.
  apply wp_bind. eapply wp_mono; [by apply (ata_read_ok lba count buf' s1)|].
  intros [r out] s2 (Hsame & _ & _ & _ & Hrel2 & Hr).
  destruct Hrel2 as [-> _]; [unfold valid_transfer in *; by rewrite Hcap, Hlen|done|].
  destruct (Hr eq_refl) as [_ ->]. apply wp_ret. split_and!; [done|done| |].
  - change SECTOR with 512%nat in *. rewrite Hdata, take_app_length'; [done|].
    rewrite length_take. destruct Hv as (_ & Hv & _). change SECTOR with 512%nat in Hv. lia.
  - intros l Hnl. exact (eq_trans (Hsame l) (Hother l Hnl)).
Qed.

(** C32: errors.  After a read beyond the end of the disk the driver can never
    use the disk again: the drive keeps its error bit until the next command,
    and [wait_ready] gives up on that bit before it issues one. *)
Theorem ata_error_final {D} `{AtaDrive D} (lba count lba' count' : Z) (buf buf' : list Z) (s : bool * D) :
  fits 32 lba → fits 8 count → 0 < count → (Z.to_nat count * 512 ≤ length buf)%nat →
  sectors (drive s.2) < wrap 28 lba + count → prompt (D := D) →
  wp (r ← read (S latency) lba count buf; w ← write (S latency) lba' count' buf';
      r' ← read (S latency) lba' count' buf'; mret (r.1, w, r'.1))
    (λ '(r, w, r') s', r ≠ Ok tt ∧ w ≠ Ok tt ∧ r' ≠ Ok tt ∧
      phase (drive s'.2) = Failed ∧ medium (drive s'.2) = medium (drive s.2)) s.
Proof.
  intros Hl Hc Hpos Hlen Hout Hp. apply wp_bind, wp_public. intros i d b E.
  eapply wp_mono; [apply read_sectors_beyond; try done; [lia|by rewrite E]|].
  intros [r out] d1 (Hr & F1 & M1). rewrite E, medium_with_phase in M1.
  apply wp_bind, wp_public. intros i2 d2 b2 E2. cbn [snd] in E2. rewrite F1 in E2.
  eapply wp_mono; [apply write_sectors_failed; [lia|by rewrite E2]|].
  intros w d3 (Hw & F3 & M3). rewrite E2, medium_with_phase in M3.
  apply wp_bind, wp_public. intros i4 d4 b4 E4. cbn [snd] in E4. rewrite F3 in E4.
  eapply wp_mono; [apply read_sectors_failed; [lia|by rewrite E4]|].
  intros [r' out'] d5 (Hr' & F5 & M5). rewrite E4, medium_with_phase in M5.
  apply wp_ret. cbn [fst snd]. split_and!; [done..|congruence].
Qed.

(** ** A simulated drive *)

(** The drive and the milliseconds since boot; a command keeps it busy for two
    polls. *)
Definition Sim : Type := Drive * Z.
Definition sim_drive (m : Sim) : Drive := with_phase (phase m.1) (busy m.1 `min` 2) m.1.

#[export] Instance sim_ports : Ports Sim := {
  inb p m := let dr := sim_drive m in
    if decide (p = STATUS) then Done (status_of dr, (polled dr, m.2 + 1)) else Done (0, m);
  outb p v m := let dr := sim_drive m in
    if decide (p = STATUS) then Done (tt, (with_phase (started v dr) 2 dr, m.2))
    else Done (tt, (set_reg p v dr, m.2));
  inw p m := let dr := sim_drive m in
    match phase dr with
    | Reading l n w =>
        Done (word (medium dr l) w,
          (with_phase (word_read l n w) (if decide (S w < 256)%nat then 0 else 2) dr, m.2))
    | _ => Done (0, m)
    end;
  outw p v m := let dr := sim_drive m in
    match phase dr with
    | Writing l n acc =>
        let acc := acc ++ to_le 2 v in
        Done (tt, (with_recorded (stored l acc (recorded dr))
          (with_phase (word_written l n acc) (if decide (length acc < 512)%nat then 0 else 2) dr), m.2))
    | _ => Done (tt, m)
    end;
  inl p m := Done (0, m);
  outl p v m := Done (tt, m);
}.
#[export] Instance sim_timer : Timer Sim := { millis m := Done (wrap 32 (m.2 + 1), (m.1, m.2 + 1)) }.

Lemma sim_drive_small dr t : (busy dr ≤ 2)%nat → sim_drive (dr, t) = dr.
Proof. intros. unfold sim_drive. cbn. rewrite Nat.min_l by done. apply with_phase_id. Qed.
Lemma sim_drive_busy m : (busy (sim_drive m) ≤ 2)%nat.
Proof. cbn. lia. Qed.

#[export, refine] Instance sim_ata : AtaDrive Sim := {
  drive := sim_drive; time := snd; tick := 1; latency := 2;
}.
Proof.
  - apply sim_drive_busy.
  - intros m. unfold wp. cbn -[status_of polled sim_drive]. split; [done|]. cbn [snd]. split; [|lia].
    apply sim_drive_small. unfold polled. cbn. lia.
  - done.
  - intros m. unfold wp. cbn -[sim_drive]. split; [done|]. split; [done|lia].
  - intros p v m Hp. unfold wp, outb, sim_ports. rewrite decide_False.
    { apply sim_drive_small. cbn. lia. }
    intros ->. apply (bool_decide_pack (_ ∈ _)) in Hp. by vm_compute in Hp.
  - intros cmd m _. unfold wp. cbn -[sim_drive with_phase started]. exists 2%nat. by apply sim_drive_small.
  - intros l left w m Hph _. unfold wp, inw, sim_ports. rewrite Hph. split; [done|]. eexists. split.
    + apply sim_drive_small. cbn. case_decide; lia.
    + intros. by rewrite decide_True.
  - intros l left acc v m Hph _ _. unfold wp, outw, sim_ports. rewrite Hph. cbn zeta. eexists. split.
    + apply sim_drive_small. cbn. case_decide; lia.
    + intros. by rewrite decide_True.
Defined.

(** An empty disk of eight sectors, just switched on. *)
Definition sim_disk : bool * Sim := (false, (mkDrive (λ _, []) 8 0 0 0 0 0 Idle 2, 0)).

Lemma ata_write_read_witness :
  wp (w ← write (D := Sim) (S latency) 5 2 (replicate (Z.to_nat 1024) 7);
      r ← read (D := Sim) (S latency) 5 2 (replicate (Z.to_nat 1024) 0); mret (w, r))
    (λ '(w, (r, out)) s', w = Ok tt ∧ r = Ok tt ∧
      take (Z.to_nat 2 * 512) out = take (Z.to_nat 2 * 512) (replicate (Z.to_nat 1024) 7) ∧
      ∀ l, ¬ wrap 28 5 ≤ l < wrap 28 5 + 2 → medium (drive s'.2) l = medium (drive sim_disk.2) l) sim_disk.
Proof.
  refine (ata_write_read 5 2 (replicate (Z.to_nat 1024) 7) (replicate (Z.to_nat 1024) 0) sim_disk
    _ _ _ _ _ _ _).
  - by apply (bool_decide_unpack _).
  - by apply (bool_decide_unpack _).
  - apply Forall_replicate. by apply (bool_decide_unpack _).
  - by rewrite !length_replicate.
  - rewrite length_replicate. unfold valid_transfer. split; [done|]. split; [by vm_compute|by vm_compute].
  - by vm_compute.
  - by vm_compute.
Defined.

Lemma ata_error_final_witness :
  wp (r ← read (D := Sim) (S latency) 7 2 (replicate (Z.to_nat 1024) 0); w ← write (D := Sim) (S latency) 0 1 (replicate 512 7);
      r' ← read (D := Sim) (S latency) 0 1 (replicate 512 7); mret (r.1, w, r'.1))
    (λ '(r, w, r') s', r ≠ Ok tt ∧ w ≠ Ok tt ∧ r' ≠ Ok tt ∧
      phase (drive s'.2) = Failed ∧ medium (drive s'.2) = medium (drive sim_disk.2)) sim_disk.
Proof.
  refine (ata_error_final 7 2 0 1 (replicate (Z.to_nat 1024) 0) (replicate 512 7) sim_disk
    _ _ _ _ _ _).
  - by apply (bool_decide_unpack _).
  - by apply (bool_decide_unpack _).
  - done.
  - by rewrite length_replicate.
  - by vm_compute.
  - by vm_compute.
Defined.
