(* ===== verification/Str.v ===== *)
(** * Strings

    A [String] or [str] is the list of its UTF-8 bytes.  What the file systems
    use of the standard library: validation, [trim], [split], [rfind], the
    order of the bytes. *)
From S2P Require Import Prelude Words.
Local Open Scope Z_scope.

Abbreviation str := (list Z).

(** ** [core::str::from_utf8] *)

Definition continuation (b : Z) : bool := bool_decide (0x80 ≤ b ≤ 0xBF).
(** The second byte of a sequence of three, or four, bytes. *)
Definition second3 (b0 b1 : Z) : bool :=
  bool_decide ((b0 = 0xE0 ∧ 0xA0 ≤ b1 ≤ 0xBF) ∨ (0xE1 ≤ b0 ≤ 0xEC ∧ 0x80 ≤ b1 ≤ 0xBF) ∨
    (b0 = 0xED ∧ 0x80 ≤ b1 ≤ 0x9F) ∨ (0xEE ≤ b0 ≤ 0xEF ∧ 0x80 ≤ b1 ≤ 0xBF)).
Definition second4 (b0 b1 : Z) : bool :=
  bool_decide ((b0 = 0xF0 ∧ 0x90 ≤ b1 ≤ 0xBF) ∨ (0xF1 ≤ b0 ≤ 0xF3 ∧ 0x80 ≤ b1 ≤ 0xBF) ∨
    (b0 = 0xF4 ∧ 0x80 ≤ b1 ≤ 0x8F)).

Fixpoint valid_utf8 (l : list Z) : bool :=
  match l with
  | [] => true
  | b0 :: l1 =>
      if decide (b0 < 0x80) then valid_utf8 l1
      else match l1 with
      | [] => false
      | b1 :: l2 =>
          if decide (0xC2 ≤ b0 ≤ 0xDF) then continuation b1 && valid_utf8 l2
          else match l2 with
          | [] => false
          | b2 :: l3 =>
              if second3 b0 b1 then continuation b2 && valid_utf8 l3
              else match l3 with
              | [] => false
              | b3 :: l4 => second4 b0 b1 && continuation b2 && continuation b3 && valid_utf8 l4
              end
          end
      end
  end.

(** ** [trim]: the characters with the property White_Space *)

Definition white_space : list (list Z) :=
  [[9]; [10]; [11]; [12]; [13]; [32]; [0xC2; 0x85]; [0xC2; 0xA0]; [0xE1; 0x9A; 0x80]] ++
  ((λ b, [0xE2; 0x80; b]) <$> seqZ 0x80 11) ++
  [[0xE2; 0x80; 0xA8]; [0xE2; 0x80; 0xA9]; [0xE2; 0x80; 0xAF]; [0xE2; 0x81; 0x9F];
   [0xE3; 0x80; 0x80]].

(** [strip_one ws l]: [l] without the first of [ws] that begins it. *)
Fixpoint strip_one (ws : list (list Z)) (l : list Z) : option (list Z) :=
  match ws with
  | [] => None
  | w :: ws => if decide (take (length w) l = w) then Some (drop (length w) l) else strip_one ws l
  end.
Fixpoint strip (ws : list (list Z)) (n : nat) (l : list Z) : list Z :=
  match n with
  | O => l
  | S n => match strip_one ws l with Some l => strip ws n l | None => l end
  end.
Definition trim_start (l : str) : str := strip white_space (length l) l.
Definition trim_end (l : str) : str :=
  reverse (strip (reverse <$> white_space) (length l) (reverse l)).
Definition trim (l : str) : str := trim_end (trim_start l).

(** ** [split(c)] and [rfind(c)] for an ASCII character *)

Fixpoint split (c : Z) (l : str) : list str :=
  match l with
  | [] => [[]]
  | b :: l =>
      if decide (b = c) then [] :: split c l
      else match split c l with [] => [[b]] | w :: ws => (b :: w) :: ws end
  end.

Fixpoint rfind (c : Z) (l : str) : option nat :=
  match l with
  | [] => None
  | b :: l =>
      match rfind c l with
      | Some i => Some (S i)
      | None => if decide (b = c) then Some O else None
      end
  end.

(** ** The order of strings *)

Fixpoint str_lt (a b : str) : bool :=
  match a, b with
  | _, [] => false
  | [], _ :: _ => true
  | x :: a, y :: b => bool_decide (x < y) || (bool_decide (x = y) && str_lt a b)
  end.

Lemma split_nonempty c l : split c l ≠ [].
Proof. destruct l as [|b l]; cbn; [done|]. case_decide; [done|]. by destruct (split c l). Qed.

Lemma rfind_lt c l i : rfind c l = Some i → (i < length l)%nat.
Proof.
  revert i. induction l as [|b l IH]; intros i; cbn; [done|].
  destruct (rfind c l) as [j|]; [intros [= <-]; specialize (IH j eq_refl); lia|].
  case_decide; [|done]. intros [= <-]. lia.
Qed.

Lemma str_lt_irrefl a : str_lt a a = false.
Proof.
  induction a as [|x a IH]; [done|]. cbn. rewrite IH, andb_false_r, orb_false_r.
  apply bool_decide_eq_false. lia.
Qed.

Lemma str_lt_trans a b c : str_lt a b = true → str_lt b c = true → str_lt a c = true.
Proof.
  revert b c. induction a as [|x a IH]; intros [|y b] [|z c]; try done. cbn.
  rewrite !orb_true_iff, !andb_true_iff, !bool_decide_eq_true.
  intros [?|[-> ?]] [?|[-> ?]]; [left; lia|left; lia|left; lia|right; eauto].
Qed.

Lemma str_lt_total a b : a = b ∨ str_lt a b = true ∨ str_lt b a = true.
Proof.
  revert b. induction a as [|x a IH]; intros [|y b]; cbn; auto.
  rewrite !orb_true_iff, !andb_true_iff, !bool_decide_eq_true.
  destruct (Z.lt_trichotomy x y) as [?|[->|?]]; auto.
  destruct (IH b) as [->|[?|?]]; auto.
Qed.
