(* ===== verification/Fmt.v ===== *)
(** * Formatting and parsing

    What the kernel uses of [core::fmt] and [core::str]: decimal and
    hexadecimal numbers with padding, [parse] and [from_str_radix] of the
    unsigned types, [split_whitespace], [strip_prefix] and the lossy decoding
    of UTF-8.  Printing a number and parsing it back gives the number. *)
From stdpp Require Import strings.
From S2P Require Import Prelude Words Str.
Local Open Scope Z_scope.
Local Open Scope list_scope.

(** Bytes of a string literal. *)
Definition ascii_bytes (s : string) : list Z :=
  (λ c, Z.of_N (Ascii.N_of_ascii c)) <$> String.list_ascii_of_string s.
Abbreviation txt s := (ascii_bytes s%string) (only parsing).

(** The quotation mark. *)
Definition QUOTE : Z := 34.

(** ** Numbers *)

Definition digit_char (d : Z) : Z := if decide (d < 10) then 48 + d else 87 + d.
Fixpoint digits (radix : Z) (fuel : nat) (n : Z) : str :=
  match fuel with
  | O => []
  | S fuel => (if decide (n < radix) then [] else digits radix fuel (n / radix)) ++
              [digit_char (n `mod` radix)]
  end.
(** [{}] and [{:x}]; 20 digits hold any [u64], 16 hexadecimal ones do. *)
Definition decimal (fuel : nat) (n : Z) : str := digits 10 fuel n.
Definition dec (n : Z) : str := decimal 20 n.
Definition hex (n : Z) : str := digits 16 16 n.
(** [{}] of an [i64]. *)
Definition dec_signed (n : Z) : str := if decide (n < 0) then 45 :: dec (- n) else dec n.

(** The number of characters: bytes that are no continuation bytes. *)
Definition chars (s : str) : nat := length (filter (λ b, continuation b = false) s).
(** [{:w}] of a string and of a number, and [{:0w}]. *)
Definition pad_right (w : nat) (s : str) : str := s ++ replicate (w - chars s) 32.
Definition pad_left (w : nat) (s : str) : str := replicate (w - chars s) 32 ++ s.
Definition pad_zero (w : nat) (s : str) : str := replicate (w - chars s) 48 ++ s.

Definition digit (radix b : Z) : option Z :=
  let d := if decide (48 ≤ b ≤ 57) then b - 48
           else if decide (97 ≤ b ≤ 122) then b - 87
           else if decide (65 ≤ b ≤ 90) then b - 55 else radix in
  if decide (d < radix) then Some d else None.
Fixpoint parse_digits (radix bits acc : Z) (s : str) : option Z :=
  match s with
  | [] => Some acc
  | b :: s =>
      match digit radix b with
      | None => None
      | Some d =>
          let v := acc * radix + d in
          if decide (v < 2 ^ bits) then parse_digits radix bits v s else None
      end
  end.
(** [uN::from_str_radix]: one leading plus sign is allowed. *)
Definition from_str_radix (radix bits : Z) (s : str) : option Z :=
  match s with
  | [] => None
  | [b] => if decide (b = 43 ∨ b = 45) then None else parse_digits radix bits 0 s
  | b :: s' => if decide (b = 43) then parse_digits radix bits 0 s' else parse_digits radix bits 0 s
  end.
(** [s.parse::<uN>()]. *)
Definition parse_uint (bits : Z) (s : str) : option Z := from_str_radix 10 bits s.

(** ** Strings *)

Definition strip_prefix (p s : str) : option str :=
  if decide (take (length p) s = p) then Some (drop (length p) s) else None.
Definition starts_with (p s : str) : bool := bool_decide (take (length p) s = p).
Definition ends_with (p s : str) : bool := bool_decide (drop (length s - length p) s = p).

Definition flush_word (w : str) : list str := if decide (w = []) then [] else [w].
Fixpoint words_from (n : nat) (w s : str) : list str :=
  match n with
  | O => flush_word w
  | S n =>
      match s with
      | [] => flush_word w
      | b :: s' =>
          match strip_one white_space s with
          | Some r => flush_word w ++ words_from n [] r
          | None => words_from n (w ++ [b]) s'
          end
      end
  end.
Definition split_whitespace (s : str) : list str := words_from (length s) [] s.
(** [s.find(char::is_whitespace)]. *)
Fixpoint find_whitespace (s : str) : option nat :=
  match s with
  | [] => None
  | b :: s' =>
      match strip_one white_space s with
      | Some _ => Some O
      | None => S <$> find_whitespace s'
      end
  end.

(** [str::lines]: a line ends in a newline, or in a carriage return and one. *)
Definition strip_cr (l : str) : str :=
  match last l with Some 13 => take (length l - 1) l | _ => l end.
Fixpoint lines_of (ls : list str) : list str :=
  match ls with
  | [] => []
  | [l] => if decide (l = []) then [] else [l]
  | l :: ls => strip_cr l :: lines_of ls
  end.
Definition lines (s : str) : list str := lines_of (split 10 s).

(** [String::from_utf8_lossy]: each maximal invalid sequence is replaced. *)
Definition REPLACEMENT : str := [0xEF; 0xBF; 0xBD].
Fixpoint from_utf8_lossy (l : list Z) : str :=
  match l with
  | [] => []
  | b0 :: l1 =>
      if decide (b0 < 0x80) then b0 :: from_utf8_lossy l1
      else match l1 with
      | [] => REPLACEMENT
      | b1 :: l2 =>
          if decide (0xC2 ≤ b0 ≤ 0xDF) then
            if continuation b1 then b0 :: b1 :: from_utf8_lossy l2
            else REPLACEMENT ++ from_utf8_lossy l1
          else if second3 b0 b1 then
            match l2 with
            | [] => REPLACEMENT
            | b2 :: l3 =>
                if continuation b2 then b0 :: b1 :: b2 :: from_utf8_lossy l3
                else REPLACEMENT ++ from_utf8_lossy l2
            end
          else if second4 b0 b1 then
            match l2 with
            | [] => REPLACEMENT
            | b2 :: l3 =>
                if continuation b2 then
                  match l3 with
                  | [] => REPLACEMENT
                  | b3 :: l4 =>
                      if continuation b3 then b0 :: b1 :: b2 :: b3 :: from_utf8_lossy l4
                      else REPLACEMENT ++ from_utf8_lossy l3
                  end
                else REPLACEMENT ++ from_utf8_lossy l2
            end
          else REPLACEMENT ++ from_utf8_lossy l1
      end
  end.
(** [c as char] of a byte, pushed onto a [String]. *)
Definition char_bytes (c : Z) : str :=
  if decide (c < 0x80) then [c] else [0xC0 + Z.shiftr c 6; 0x80 + Z.land c 0x3F].

(** ** Printing and parsing *)

Lemma digit_digit_char radix d : 0 ≤ d < radix → radix ≤ 16 → digit radix (digit_char d) = Some d.
Proof.
  intros Hd Hr. unfold digit, digit_char. repeat case_decide; try lia; f_equal; lia.
Qed.

Lemma parse_digits_app radix bits acc s t :
  parse_digits radix bits acc (s ++ t) = parse_digits radix bits acc s ≫= λ a, parse_digits radix bits a t.
Proof.
  revert acc. induction s as [|b s IH]; intros acc; [done|]. cbn [app parse_digits].
  destruct (digit radix b) as [d|]; [|done]. cbn zeta. case_decide; [apply IH|done].
Qed.

Lemma parse_digits_digits radix bits fuel n : 2 ≤ radix ≤ 16 → 0 ≤ n < radix ^ Z.of_nat fuel →
  n < 2 ^ bits → (0 < fuel)%nat → parse_digits radix bits 0 (digits radix fuel n) = Some n.
Proof.
  intros Hr. revert n. induction fuel as [|fuel IH]; intros n Hn Hb Hf; [lia|]. cbn [digits].
  assert (0 ≤ n `mod` radix < radix) as Hmod by (apply Z.mod_pos_bound; lia).
  pose proof (Z.div_mod n radix ltac:(lia)) as Hdm.
  rewrite parse_digits_app. case_decide as Hlt.
  - cbn. rewrite digit_digit_char by lia. rewrite Z.mod_small by lia. by rewrite decide_True by lia.
  - assert (0 < n / radix) as Hq by (apply Z.div_str_pos; lia).
    assert (n / radix ≤ n) as Hle by (apply Z.div_le_upper_bound; nia).
    rewrite Nat2Z.inj_succ, Z.pow_succ_r in Hn by lia.
    assert (n / radix < radix ^ Z.of_nat fuel) as Hup by (apply Z.div_lt_upper_bound; lia).
    rewrite IH; [|lia|lia|destruct fuel; cbn in Hup; lia].
    cbn [mbind option_bind parse_digits]. rewrite digit_digit_char by lia. cbn zeta.
    rewrite decide_True by lia. f_equal. lia.
Qed.

Lemma digits_head radix fuel n : 2 ≤ radix ≤ 16 → 0 ≤ n → (0 < fuel)%nat →
  ∃ b s, digits radix fuel n = b :: s ∧ b ≠ 43 ∧ b ≠ 45.
Proof.
  intros Hr. revert n. induction fuel as [|fuel IH]; intros n Hn Hf; [lia|]. cbn [digits].
  assert (0 ≤ n `mod` radix < radix) as Hmod by (apply Z.mod_pos_bound; lia).
  case_decide as Hlt.
  - cbn. eexists _, _. split; [done|]. unfold digit_char. case_decide; lia.
  - destruct fuel as [|fuel].
    + cbn. eexists _, _. split; [done|]. unfold digit_char. case_decide; lia.
    + destruct (IH (n / radix)) as (b & s & -> & ? & ?); [apply Z.div_pos; lia|lia|].
      by eexists _, _.
Qed.

Lemma from_str_radix_digits radix bits fuel n : 2 ≤ radix ≤ 16 → 0 ≤ n < radix ^ Z.of_nat fuel →
  n < 2 ^ bits → (0 < fuel)%nat → from_str_radix radix bits (digits radix fuel n) = Some n.
Proof.
  intros Hr Hn Hb Hf. rewrite <- (parse_digits_digits radix bits fuel n) by done.
  destruct (digits_head radix fuel n) as (b & s & -> & H1 & H2); [lia..|].
  unfold from_str_radix. destruct s; by rewrite decide_False by naive_solver.
Qed.

(** What is parsed fits the type. *)
Lemma parse_digits_fits radix bits s acc n : 0 ≤ radix → fits bits acc → parse_digits radix bits acc s = Some n → fits bits n.
Proof.
  intros Hr. revert acc. induction s as [|c s IH]; intros acc Ha; cbn [parse_digits]; [by intros [= <-]|].
  destruct (digit radix c) as [d|] eqn:Ed; [|done]. case_decide as Hv; [|done]. apply IH. split; [|done].
  assert (0 ≤ d) by (unfold digit in Ed; repeat case_decide; simplify_eq; lia). destruct Ha. nia.
Qed.
Lemma from_str_radix_fits radix bits s n : 0 ≤ radix → 0 ≤ bits → from_str_radix radix bits s = Some n → fits bits n.
Proof.
  intros Hr Hb. assert (fits bits 0) as H0 by (split; [done|by apply Z.pow_pos_nonneg]). unfold from_str_radix.
  destruct s as [|c s]; [done|]. destruct s; repeat case_decide; try done; by apply parse_digits_fits.
Qed.

Lemma parse_dec bits n : 0 ≤ n < 2 ^ 64 → n < 2 ^ bits → parse_uint bits (dec n) = Some n.
Proof. intros. apply from_str_radix_digits; pow2; lia. Qed.

Lemma parse_hex_hex bits n : 0 ≤ n < 2 ^ 64 → n < 2 ^ bits → from_str_radix 16 bits (hex n) = Some n.
Proof. intros. apply from_str_radix_digits; pow2; lia. Qed.

(** Formatted numbers are digits. *)
Lemma digits_chars radix fuel n : 2 ≤ radix ≤ 16 → 0 ≤ n →
  Forall (λ b, 48 ≤ b ≤ 57 ∨ 97 ≤ b ≤ 102) (digits radix fuel n).
Proof.
  intros Hr. revert n. induction fuel as [|fuel IH]; intros n Hn; [constructor|]. cbn [digits].
  assert (0 ≤ n `mod` radix < radix) as Hmod by (apply Z.mod_pos_bound; lia).
  apply Forall_app. split.
  - case_decide; [constructor|]. apply IH, Z.div_pos; lia.
  - constructor; [|constructor]. unfold digit_char. case_decide; lia.
Qed.
