(* ===== verification/Serial.v ===== *)
(** * The serial port (src/src/serial.rs)

    A 16550 UART behind [Ports]: polling before each byte, reading without
    waiting.  [Uart] is what the driver relies on of the chip: the transmitter
    becomes ready after a bounded number of polls, and a byte written then is
    sent. *)
From S2P Require Import Prelude Words Hardware.
Local Open Scope Z_scope.
Local Open Scope list_scope.

Definition COM1 : Z := 0x3F8.

Section driver.
Context {D : Type} `{Ports D}.
(** [INIT] and the machine. *)
Abbreviation U := (ST (bool * D)).
Definition on_uart {A} (m : ST D A) : U A := zoom snd (λ d s, (s.1, d)) m.

Definition init : U unit :=
  on_uart (outb (COM1 + 1) 0x00;; outb (COM1 + 3) 0x80;; outb (COM1 + 0) 0x01;;
    outb (COM1 + 1) 0x00;; outb (COM1 + 3) 0x03;; outb (COM1 + 2) 0xC7;; outb (COM1 + 4) 0x0B);;
  modify (λ s, (true, s.2)).

(** [fuel] bounds the polls. *)
Fixpoint putb (fuel : nat) (byte : Z) : ST D unit :=
  match fuel with
  | O => diverge
  | S fuel =>
      v ← inb (COM1 + 5);
      if decide (Z.land v 0x20 = 0) then putb fuel byte else outb COM1 byte
  end.
Fixpoint put_all (fuel : nat) (s : list Z) : ST D unit :=
  match s with [] => mret tt | b :: s => putb fuel b;; put_all fuel s end.

Definition poll_char : U (option Z) :=
  s ← get;
  if s.1 : bool then
    on_uart (v ← inb (COM1 + 5);
      if decide (Z.land v 0x01 = 0) then mret None else b ← inb COM1; mret (Some b))
  else mret None.

Definition write (fuel : nat) (text : list Z) : U unit :=
  s ← get; if s.1 : bool then on_uart (put_all fuel text) else mret tt.
Fixpoint write_fmt (fuel : nat) (pieces : list (list Z)) : U unit :=
  match pieces with [] => mret tt | p :: ps => write fuel p;; write_fmt fuel ps end.
End driver.

(** ** The chip *)

Class Uart (D : Type) `{Ports D} := {
  transmitted : D → list Z;
  tx_wait : D → nat;
  tx_limit : nat;
  tx_bounded d : (tx_wait d ≤ tx_limit)%nat;
  lsr_law d : wp (inb (COM1 + 5)) (λ v d', fits 8 v ∧ transmitted d' = transmitted d ∧
    match tx_wait d with
    | O => Z.land v 0x20 ≠ 0 ∧ tx_wait d' = O
    | S n => Z.land v 0x20 = 0 → (tx_wait d' ≤ n)%nat
    end) d;
  rbr_law d : wp (inb COM1) (λ v d', fits 8 v ∧ transmitted d' = transmitted d) d;
  thr_law b d : wp (outb COM1 b) (λ _ d', transmitted d' = transmitted d ++ [b]) d;
}.

Section props.
Context {D : Type} `{Uart D}.

Lemma putb_spec fuel b d : (tx_wait d < fuel)%nat →
  wp (putb fuel b) (λ _ d', transmitted d' = transmitted d ++ [b]) d.
Proof.
  revert d. induction fuel as [|fuel IH]; intros d Hf; [lia|]. cbn [putb].
  apply wp_bind. eapply wp_mono; [apply lsr_law|]. intros v d' (_ & Ht & Hw). rewrite <- Ht.
  case_decide as Hv; [|apply thr_law].
  destruct (tx_wait d) as [|n]; [by destruct Hw|]. apply IH. specialize (Hw Hv). lia.
Qed.

Context (fuel : nat) (Hfuel : (tx_limit < fuel)%nat).

Lemma put_all_spec s d : wp (put_all fuel s) (λ _ d', transmitted d' = transmitted d ++ s) d.
Proof.
  revert d. induction s as [|b s IH]; intros d; cbn [put_all].
  { apply wp_ret. by rewrite app_nil_r. }
  pose proof (tx_bounded d). apply wp_bind. eapply wp_mono; [apply putb_spec; lia|].
  intros [] d1 E1. eapply wp_mono; [apply IH|]. intros [] d2 ->. by rewrite E1, <- app_assoc.
Qed.

(** A text written is sent whole and in order, or, before [init], not at all. *)
Lemma write_fmt_spec pieces s :
  wp (write_fmt fuel pieces) (λ _ s', s'.1 = s.1 ∧
    transmitted s'.2 = transmitted s.2 ++ (if s.1 then concat pieces else [])) s.
Proof.
  revert s. induction pieces as [|p ps IH]; intros s; cbn [write_fmt].
  { apply wp_ret. split; [done|]. destruct (s.1); by rewrite app_nil_r. }
  apply wp_bind. apply (wp_mono _ (λ _ s', s'.1 = s.1 ∧
    transmitted s'.2 = transmitted s.2 ++ (if s.1 then p else []))).
  { unfold write. apply wp_bind, wp_get. destruct (s.1) eqn:E.
    - apply wp_zoom. eapply wp_mono; [apply put_all_spec|]. intros [] d' Ed. cbn. by rewrite Ed.
    - apply wp_ret. by rewrite app_nil_r. }
  intros [] s1 [E1 T1]. eapply wp_mono; [apply IH|]. intros [] s2 [E2 T2].
  rewrite E2, T2, E1, T1. split; [done|]. cbn [concat]. destruct (s.1); by rewrite <- app_assoc.
Qed.

Lemma poll_char_spec (s : bool * D) :
  wp poll_char (λ r s', s'.1 = s.1 ∧ transmitted s'.2 = transmitted s.2 ∧
    match r with Some b => fits 8 b | None => True end) s.
Proof.
  unfold poll_char. apply wp_bind, wp_get. destruct (s.1) eqn:E; [|by apply wp_ret].
  apply wp_zoom, wp_bind. eapply wp_mono; [apply lsr_law|]. intros v d1 (_ & T1 & _).
  case_decide; [by apply wp_ret|]. apply wp_bind. eapply wp_mono; [apply rbr_law|].
  intros b d2 [Hb T2]. apply wp_ret. cbn. split_and!; [done|congruence|done].
Qed.
End props.
