(* ===== verification/Cpu.v ===== *)
(** * CPU identification (src/src/cpu.rs)

    The strings the [cpuid] instruction returns in registers. *)
From stdpp Require Import strings.
From S2P Require Import Prelude Words Str Fmt.
Local Open Scope Z_scope.
Local Open Scope list_scope.

(** The result of [cpuid] for a leaf. *)
Record CpuidResult := mkCpuid { eax : Z; ebx : Z; ecx : Z; edx : Z }.

Section cpu.
Context (cpuid : Z → CpuidResult).

(** [VENDOR]: the text up to the first zero byte; [unwrap] panics when it is
    no UTF-8. *)
Definition vendor_bytes : list Z :=
  let r := cpuid 0 in to_le 4 (ebx r) ++ to_le 4 (edx r) ++ to_le 4 (ecx r) ++ [0].
Fixpoint position0 (l : list Z) : option nat :=
  match l with [] => None | b :: l => if decide (b = 0) then Some O else S <$> position0 l end.
Definition vendor_id : outcome str :=
  let bytes := vendor_bytes in
  let len := default 12%nat (position0 bytes) in
  s ← slice 0 len bytes; if valid_utf8 s then Done s else Panic.

Definition format_registers (a b c d : Z) : str :=
  concat (char_bytes <$> filter (λ b, b ≠ 0) (concat (to_le 4 <$> [a; b; c; d]))).
Definition brand_string : str :=
  trim (concat ((λ leaf, let r := cpuid leaf in format_registers (eax r) (ebx r) (ecx r) (edx r))
    <$> [0x80000002; 0x80000003; 0x80000004])).
End cpu.

Lemma position0_lt l i : position0 l = Some i → (i < length l)%nat.
Proof.
  revert i. induction l as [|b l IH]; intros i; cbn; [done|]. case_decide; [intros [= <-]; lia|].
  destruct (position0 l) as [j|]; cbn; [|done]. intros [= <-]. specialize (IH j eq_refl). lia.
Qed.

Lemma ascii_valid s : Forall (λ b, b < 0x80) s → valid_utf8 s = true.
Proof. induction 1 as [|b s Hb Hs IH]; [done|]. cbn. by rewrite decide_True. Qed.

(** For an ASCII vendor text the identification does not panic. *)
Lemma vendor_id_ok cpuid : Forall (λ b, b < 0x80) (vendor_bytes cpuid) →
  ∃ s, vendor_id cpuid = Done s ∧ Forall (λ b, b < 0x80) s.
Proof.
  intros Ha. unfold vendor_id.
  assert (default 12%nat (position0 (vendor_bytes cpuid)) ≤ length (vendor_bytes cpuid))%nat as Hl.
  { assert (length (vendor_bytes cpuid) = 13%nat) as Hl.
    { unfold vendor_bytes. by rewrite !length_app, !length_to_le. }
    destruct (position0 _) eqn:E; cbn [default from_option id]; [apply position0_lt in E|]; lia. }
  rewrite slice_done by lia. cbn [mbind outcome_bind].
  assert (Forall (λ b, b < 0x80) (take (default 12%nat (position0 (vendor_bytes cpuid)) - 0)
    (drop 0 (vendor_bytes cpuid)))) as Hs by (by apply Forall_take, Forall_drop).
  rewrite ascii_valid by done. eauto.
Qed.
