(* ===== verification/Vga.v ===== *)
(** * The text screen (src/src/vga.rs)

    80 by 25 cells of two bytes (character and colour) at 0xB8000; the last row
    is a status line.  The [Writer] prints into the other 24 rows and scrolls;
    the row that scrolls off is kept in [DEFERRED_SCROLL_LINE] until the call
    returns and then moves to the ring of 500 scrollback lines.  A volatile
    write outside the 4000 bytes would corrupt other memory; in the model it
    is [Panic].  The formatted text of [write_fmt] comes in pieces, one
    [write_str] each. *)
From stdpp Require Import strings.
From S2P Require Import Prelude Words Str Fmt.
Local Open Scope Z_scope.
Local Open Scope list_scope.

Definition WIDTH : Z := 80.
Definition HEIGHT : Z := 25.
Definition CONTENT_ROWS : Z := HEIGHT - 1.
Definition SCROLLBACK_LINES : Z := 500.

Inductive Color :=
  | Black | Blue | Green | Cyan | Red | Magenta | Brown | LightGray
  | DarkGray | LightBlue | LightGreen | LightCyan | LightRed | Pink | Yellow | White.
Definition color_u8 (c : Color) : Z :=
  match c with
  | Black => 0 | Blue => 1 | Green => 2 | Cyan => 3 | Red => 4 | Magenta => 5
  | Brown => 6 | LightGray => 7 | DarkGray => 8 | LightBlue => 9 | LightGreen => 10
  | LightCyan => 11 | LightRed => 12 | Pink => 13 | Yellow => 14 | White => 15
  end.
Definition ColorCode_new (fg bg : Color) : Z :=
  Z.lor (wrap 8 (Z.shiftl (color_u8 bg) 4)) (color_u8 fg).

Record ScrollbackBuffer := mkScrollback {
  lines : list (list Z);
  current_line : Z;
  scroll_offset : Z;
}.
Definition ScrollbackBuffer_new : ScrollbackBuffer :=
  mkScrollback (replicate 500 (replicate 160 0)) 0 0.

(** [buffer]: the bytes at 0xB8000; [row], [col], [color]: the [WRITER];
    [deferred]: [DEFERRED_SCROLL_LINE]; [ports]: the bytes sent to ports so far. *)
Record Vga := mkVga {
  buffer : list Z;
  row : Z;
  col : Z;
  color : Z;
  deferred : option (list Z);
  scrollback : ScrollbackBuffer;
  ports : list (Z * Z);
}.
Definition set_buffer x v := mkVga x (row v) (col v) (color v) (deferred v) (scrollback v) (ports v).
Definition set_row x v := mkVga (buffer v) x (col v) (color v) (deferred v) (scrollback v) (ports v).
Definition set_col x v := mkVga (buffer v) (row v) x (color v) (deferred v) (scrollback v) (ports v).
Definition put_color x v := mkVga (buffer v) (row v) (col v) x (deferred v) (scrollback v) (ports v).
Definition set_deferred x v := mkVga (buffer v) (row v) (col v) (color v) x (scrollback v) (ports v).
Definition set_scrollback x v := mkVga (buffer v) (row v) (col v) (color v) (deferred v) x (ports v).
Definition set_ports x v := mkVga (buffer v) (row v) (col v) (color v) (deferred v) (scrollback v) x.

Abbreviation vgaM := (ST Vga).

(** [for x in l { f(x) }]. *)
Fixpoint for_each {A} (l : list A) (f : A → vgaM unit) : vgaM unit :=
  match l with [] => mret tt | x :: l => f x;; for_each l f end.

Definition poke (off b : Z) : vgaM unit :=
  buf ← gets buffer; buf' ← lift (store (Z.to_nat off) b buf); modify (set_buffer buf').
Definition peek (off : Z) : vgaM Z := buf ← gets buffer; lift (index (Z.to_nat off) buf).
Definition outb (port value : Z) : vgaM unit := modify (λ v, set_ports (ports v ++ [(port, value)]) v).

(** ** Scrollback *)

Definition saturating_sub (a b : Z) : Z := Z.max 0 (a - b).

Definition add_line (line : list Z) (sb : ScrollbackBuffer) : outcome ScrollbackBuffer :=
  ls ← store (Z.to_nat (current_line sb `mod` SCROLLBACK_LINES)) line (lines sb);
  mret (mkScrollback ls (wadd 64 (current_line sb) 1)
    (if decide (0 < scroll_offset sb) then 0 else scroll_offset sb)).

Definition scroll_up (n : Z) (sb : ScrollbackBuffer) : ScrollbackBuffer :=
  let max_scroll := saturating_sub (current_line sb) CONTENT_ROWS in
  mkScrollback (lines sb) (current_line sb) (Z.min (wadd 64 (scroll_offset sb) n) max_scroll).
Definition scroll_down (n : Z) (sb : ScrollbackBuffer) : ScrollbackBuffer :=
  mkScrollback (lines sb) (current_line sb) (saturating_sub (scroll_offset sb) n).

Definition get_line (visible_row : Z) (sb : ScrollbackBuffer) : outcome (option (list Z)) :=
  if decide (current_line sb < CONTENT_ROWS) then mret None
  else
    let history_line := wadd 64 (saturating_sub (saturating_sub (current_line sb) CONTENT_ROWS)
                                   (scroll_offset sb)) visible_row in
    if decide (current_line sb ≤ history_line) then mret None
    else l ← index (Z.to_nat (history_line `mod` SCROLLBACK_LINES)) (lines sb); mret (Some l).

(** ** Writer *)

Definition write_crtc (index value : Z) : vgaM unit := outb 0x3D4 index;; outb 0x3D5 value.
Definition update_hardware_cursor (r c : Z) : vgaM unit :=
  let pos := wrap 16 (r * WIDTH + c) in
  write_crtc 0x0E (Z.shiftr pos 8);; write_crtc 0x0F (wrap 8 pos).
Definition init_hardware : vgaM unit :=
  write_crtc 0x0C 0;; write_crtc 0x0D 0;; update_hardware_cursor 0 0.

Definition put_cell (r c byte clr : Z) : vgaM unit :=
  let offset := (r * WIDTH + c) * 2 in
  poke offset byte;; poke (offset + 1) clr.

Definition Writer_clear : vgaM unit :=
  clr ← gets color;
  for_each (seqZ 0 CONTENT_ROWS) (λ r, for_each (seqZ 0 WIDTH) (λ c, put_cell r c 32 clr));;
  modify (set_row 0);; modify (set_col 0).

(** [copy_nonoverlapping] moves the rows below the first one up. *)
Definition scroll : vgaM unit :=
  buf ← gets buffer;
  line_data ← lift (slice 0 (Z.to_nat (WIDTH * 2)) buf);
  rest ← lift (slice (Z.to_nat (WIDTH * 2)) (Z.to_nat (CONTENT_ROWS * WIDTH * 2)) buf);
  buf' ← lift (put 0 (Z.to_nat ((CONTENT_ROWS - 1) * WIDTH * 2)) rest buf);
  modify (set_buffer buf');;
  modify (set_deferred (Some line_data));;
  for_each (seqZ 0 WIDTH)
    (λ c, put_cell (CONTENT_ROWS - 1) c 32 (ColorCode_new LightGray Black)).

Definition newline : vgaM unit :=
  modify (set_col 0);;
  r ← gets row;
  (if decide (CONTENT_ROWS ≤ r + 1) then scroll else modify (set_row (r + 1)));;
  v ← get; update_hardware_cursor (row v) (col v).

Definition is_ascii (b : Z) : bool := bool_decide (b < 128).
Definition write_byte (byte : Z) : vgaM unit :=
  if decide (byte = 10) then newline
  else if decide (byte = 13) then modify (set_col 0)
  else if decide (byte = 9) then
    c ← gets col;
    modify (set_col (Z.land (c + 8) (wnot 64 7)));;
    c ← gets col; if decide (WIDTH ≤ c) then newline else mret tt
  else
    let byte := if is_ascii byte && negb (bool_decide (byte = 0x7F)) then byte else 63 in
    c ← gets col;
    (if decide (WIDTH ≤ c) then newline else mret tt);;
    v ← get; put_cell (row v) (col v) byte (color v);;
    modify (set_col (col v + 1)).

Definition write_str (s : list Z) : vgaM unit :=
  for_each s write_byte;; v ← get; update_hardware_cursor (row v) (col v).

Definition commit_scrollback : vgaM unit :=
  v ← get; modify (set_deferred None);;
  match deferred v with
  | None => mret tt
  | Some line => sb ← lift (add_line line (scrollback v)); modify (set_scrollback sb)
  end.

(** ** The public functions *)

Definition init : vgaM unit := init_hardware;; Writer_clear;; update_hardware_cursor 0 0.
Definition write_fmt (pieces : list (list Z)) : vgaM unit :=
  for_each pieces write_str;; commit_scrollback.
Definition clear_screen : vgaM unit := Writer_clear;; commit_scrollback.
Definition set_color (fg bg : Color) : vgaM unit :=
  modify (put_color (ColorCode_new fg bg));; commit_scrollback.
Definition set_cursor (r c : Z) : vgaM unit :=
  modify (set_row (Z.min r (CONTENT_ROWS - 1)));; modify (set_col (Z.min c (WIDTH - 1)));;
  v ← get; update_hardware_cursor (row v) (col v);; commit_scrollback.
Definition cursor_position : vgaM (Z * Z) := gets (λ v, (row v, col v)).

(** Bytes with their positions, as [iter().enumerate()] gives them. *)
Definition enumerate {A} (l : list A) : list (Z * A) := zip (seqZ 0 (length l)) l.

Definition write_at (r c : Z) (s : list Z) : vgaM unit :=
  let r := Z.min r (CONTENT_ROWS - 1) in
  clr ← gets color;
  for_each (enumerate s) (λ '(i, b),
    if decide (wadd 64 c i < WIDTH) then put_cell r (wadd 64 c i) b clr else mret tt);;
  commit_scrollback.
Definition clear_line (r : Z) : vgaM unit :=
  let r := Z.min r (CONTENT_ROWS - 1) in
  clr ← gets color;
  for_each (seqZ 0 WIDTH) (λ c, put_cell r c 32 clr);; commit_scrollback.
Definition status_line (text : list Z) : vgaM unit :=
  clr ← gets color;
  modify (put_color (ColorCode_new Black LightGray));;
  for_each (seqZ 0 WIDTH)
    (λ c, put_cell (HEIGHT - 1) c 32 (ColorCode_new Black LightGray));;
  for_each (enumerate text) (λ '(i, b),
    if decide (i < WIDTH) then put_cell (HEIGHT - 1) i b (ColorCode_new Black LightGray)
    else mret tt);;
  modify (put_color clr);; commit_scrollback.
Definition backspace : vgaM unit :=
  v ← get;
  (if decide (0 < col v) then
     modify (set_col (col v - 1));; put_cell (row v) (col v - 1) 32 (color v)
   else if decide (0 < row v) then
     modify (set_row (row v - 1));; modify (set_col (WIDTH - 1));;
     put_cell (row v - 1) (WIDTH - 1) 32 (color v)
   else mret tt);;
  v ← get; update_hardware_cursor (row v) (col v);; commit_scrollback.

(** [redraw_from_scrollback]: the visible lines are copied over the screen. *)
Definition redraw_from_scrollback (sb : ScrollbackBuffer) : vgaM unit :=
  if decide (scroll_offset sb = 0) then mret tt
  else
    for_each (seqZ 0 CONTENT_ROWS) (λ r,
      l ← lift (get_line r sb);
      match l with
      | None => mret tt
      | Some line_data => for_each (seqZ 0 (WIDTH * 2)) (λ i,
          b ← lift (index (Z.to_nat i) line_data); poke (r * WIDTH * 2 + i) b)
      end);;
    modify (set_row 0);; modify (set_col 0);; write_crtc 0x0E 0;; write_crtc 0x0F 0.

Definition scrollback_status (offset : Z) : list Z :=
  ascii_bytes "  SCROLLBACK: -" ++ decimal 20 offset ++ ascii_bytes " lines (scroll down to return)".

Definition scroll_display_up (n : Z) : vgaM unit :=
  modify (λ v, set_scrollback (scroll_up n (scrollback v)) v);;
  sb ← gets scrollback; redraw_from_scrollback sb;;
  if decide (0 < scroll_offset sb) then status_line (scrollback_status (scroll_offset sb))
  else mret tt.
Definition scroll_display_down (n : Z) : vgaM unit :=
  modify (λ v, set_scrollback (scroll_down n (scrollback v)) v);;
  sb ← gets scrollback;
  if decide (scroll_offset sb = 0) then status_line []
  else redraw_from_scrollback sb;; status_line (scrollback_status (scroll_offset sb)).

(** The calls of the other parts of the kernel. *)
Inductive call :=
  | WriteFmt (pieces : list (list Z))
  | ClearScreen
  | SetColor (fg bg : Color)
  | SetCursor (r c : Z)
  | WriteAt (r c : Z) (s : list Z)
  | ClearLine (r : Z)
  | Backspace
  | StatusLine (text : list Z)
  | ScrollDisplayUp (n : Z)
  | ScrollDisplayDown (n : Z).
Definition run_call (c : call) : vgaM unit :=
  match c with
  | WriteFmt pieces => write_fmt pieces
  | ClearScreen => clear_screen
  | SetColor fg bg => set_color fg bg
  | SetCursor r c => set_cursor r c
  | WriteAt r c s => write_at r c s
  | ClearLine r => clear_line r
  | Backspace => backspace
  | StatusLine text => status_line text
  | ScrollDisplayUp n => scroll_display_up n
  | ScrollDisplayDown n => scroll_display_down n
  end.
(** Arguments are unsigned. *)
Definition call_ok (c : call) : Prop :=
  match c with
  | SetCursor r c | WriteAt r c _ => 0 ≤ r ∧ 0 ≤ c
  | ClearLine r => 0 ≤ r
  | ScrollDisplayUp n | ScrollDisplayDown n => 0 ≤ n
  | _ => True
  end.
Definition writes_status (c : call) : bool :=
  match c with StatusLine _ | ScrollDisplayUp _ | ScrollDisplayDown _ => true | _ => false end.
