(* ===== verification/VgaProps.v ===== *)
(** * The text screen: bounds, and printing as on an endless roll of paper

    [wf] is the invariant of the screen state; no public function writes
    outside the buffer, and only the status functions touch the last row.
    [Term] is the abstract terminal: rows above the cursor without a limit, the
    cursor's row, the rows below.  A call that scrolls at most once implements
    it, the rows that left the screen being in the scrollback ring. *)
From S2P Require Import Prelude Words Vga.
Local Open Scope Z_scope.

#[local] Arguments put_cell : simpl never.
#[local] Arguments wadd : simpl never.
#[local] Arguments wrap : simpl never.

(** Row [r] of the buffer: 80 cells of two bytes. *)
Definition row_of (buf : list Z) (r : nat) : list Z := take 160 (drop (160 * r) buf).
#[local] Arguments row_of : simpl never.

Lemma length_row_of buf r : length buf = 4000%nat → (r < 25)%nat → length (row_of buf r) = 160%nat.
Proof. intros H Hr. unfold row_of. rewrite length_take, length_drop. lia. Qed.

Lemma lookup_row_of buf r i : (i < 160)%nat → row_of buf r !! i = buf !! (160 * r + i)%nat.
Proof. intros. unfold row_of. by rewrite lookup_take_lt, lookup_drop. Qed.

Lemma row_of_ext buf buf' r r' : length buf = 4000%nat → length buf' = 4000%nat →
  (r < 25)%nat → (r' < 25)%nat →
  (∀ i, (i < 160)%nat → buf' !! (160 * r' + i)%nat = buf !! (160 * r + i)%nat) →
  row_of buf' r' = row_of buf r.
Proof.
  intros Hl Hl' Hr Hr' H. apply (list_eq_same_length _ _ 160);
    [by rewrite length_row_of|by rewrite length_row_of|].
  intros i x y Hi Hx Hy. rewrite lookup_row_of in Hx, Hy by done. rewrite H in Hx by done.
  congruence.
Qed.

(** A cell written into a row. *)
Definition set_cell (c : nat) (b clr : Z) (l : list Z) : list Z :=
  <[(2 * c + 1)%nat := clr]> (<[(2 * c)%nat := b]> l).

Lemma length_set_cell c b clr l : length (set_cell c b clr l) = length l.
Proof. unfold set_cell. by rewrite !length_insert. Qed.

(** [v'] is [v] with row [r] of the buffer replaced by [new]. *)
Record repaint (r : nat) (new : list Z) (v v' : Vga) : Prop := {
  rp_state : v' = set_buffer (buffer v') v;
  rp_length : length (buffer v') = 4000%nat;
  rp_row : row_of (buffer v') r = new;
  rp_other r' : r' ≠ r → (r' < 25)%nat → row_of (buffer v') r' = row_of (buffer v) r';
}.

Lemma wp_put_cell v (r c : nat) b clr (Q : unit → Vga → Prop) :
  length (buffer v) = 4000%nat → (r < 25)%nat → (c < 80)%nat →
  (∀ v', repaint r (set_cell c b clr (row_of (buffer v) r)) v v' → Q tt v') →
  wp (put_cell r c b clr) Q v.
Proof.
  intros Hl Hr Hc HQ. unfold put_cell, WIDTH.
  replace (Z.to_nat ((Z.of_nat r * 80 + Z.of_nat c) * 2)) with (160 * r + 2 * c)%nat by lia.
  set (buf1 := <[(160 * r + 2 * c)%nat := b]> (buffer v)).
  set (buf2 := <[(160 * r + 2 * c + 1)%nat := clr]> buf1).
  assert (put_cell r c b clr v = Done (tt, set_buffer buf2 v)) as E.
  { unfold put_cell, poke, WIDTH, mbind, st_bind, gets, lift, modify.
    replace (Z.to_nat ((Z.of_nat r * 80 + Z.of_nat c) * 2)) with (160 * r + 2 * c)%nat by lia.
    replace (Z.to_nat ((Z.of_nat r * 80 + Z.of_nat c) * 2 + 1))
      with (160 * r + 2 * c + 1)%nat by lia.
    rewrite store_done by lia. cbn [buffer set_buffer]. rewrite store_done; [done|].
    rewrite length_insert. lia. }
  unfold put_cell, WIDTH in E.
  eapply wp_done; [exact E|]. apply HQ. split; cbn [buffer set_buffer].
  - done.
  - unfold buf2, buf1. by rewrite !length_insert.
  - apply (list_eq_same_length _ _ 160); [by rewrite length_set_cell, length_row_of| |].
    { rewrite length_row_of; [done| |done]. unfold buf2, buf1. by rewrite !length_insert. }
    intros i y x Hi Hy Hx. rewrite lookup_row_of in Hy by done. unfold set_cell in Hx.
    unfold buf2, buf1 in Hy.
    rewrite list_lookup_insert, length_insert, list_lookup_insert, lookup_row_of in Hx by done.
    rewrite list_lookup_insert, length_insert, list_lookup_insert in Hy.
    rewrite length_row_of in Hx by done. rewrite Hl in Hy.
    repeat case_decide; try lia; congruence.
  - intros r' Hne Hr'. apply row_of_ext; try done.
    { unfold buf2, buf1. by rewrite !length_insert. }
    intros i Hi. unfold buf2, buf1. rewrite !list_lookup_insert_ne by lia. done.
Qed.

Lemma repaint_trans r x y v1 v2 v3 : repaint r x v1 v2 → repaint r y v2 v3 → repaint r y v1 v3.
Proof.
  intros [E1 L1 R1 O1] [E2 L2 R2 O2]. split; [|done..|].
  - rewrite E2 at 1. rewrite E1. done.
  - intros r' Hne Hr. by rewrite O2, O1.
Qed.

Lemma repaint_refl r v : length (buffer v) = 4000%nat → repaint r (row_of (buffer v) r) v v.
Proof. intros. split; try done. by destruct v. Qed.

Fixpoint cells (n : nat) (b clr : Z) : list Z :=
  match n with O => [] | S n => b :: clr :: cells n b clr end.

Lemma length_cells n b clr : length (cells n b clr) = (2 * n)%nat.
Proof. induction n; cbn in *; lia. Qed.

Lemma take_set_cell k b clr l : (2 * k + 2 ≤ length l)%nat →
  take (2 * (k + 1)) (set_cell k b clr l) = take (2 * k) l ++ [b; clr].
Proof.
  intros Hl. unfold set_cell.
  rewrite <- (take_drop (2 * k) l) at 1. pose proof (length_take_le l (2 * k) ltac:(lia)) as Ht.
  destruct (drop (2 * k) l) as [|x [|y d]] eqn:Ed;
    [apply (f_equal length) in Ed; rewrite length_drop in Ed; cbn in Ed; lia..|].
  rewrite !(insert_app_r_alt (take (2 * k) l)) by lia. rewrite Ht.
  rewrite Nat.sub_diag. replace (2 * k + 1 - 2 * k)%nat with 1%nat by lia. cbn [insert list_insert].
  rewrite (take_app_ge _ _ (2 * (k + 1))) by lia. rewrite Ht.
  by replace (2 * (k + 1) - 2 * k)%nat with 2%nat by lia.
Qed.

Lemma drop_set_cell k j b clr l : (2 * k + 2 ≤ j)%nat → drop j (set_cell k b clr l) = drop j l.
Proof. intros. unfold set_cell. by rewrite !drop_insert_lt by lia. Qed.

(** Filling part of a row with one cell. *)
Lemma wp_fill r b clr n k v (Q : unit → Vga → Prop) : length (buffer v) = 4000%nat →
  (r < 25)%nat → (k + n ≤ 80)%nat →
  (∀ v', repaint r (take (2 * k) (row_of (buffer v) r) ++ cells n b clr
                      ++ drop (2 * (k + n)) (row_of (buffer v) r)) v v' → Q tt v') →
  wp (for_each (seqZ k n) (λ c, put_cell r c b clr)) Q v.
Proof.
  intros Hl Hr. revert k v Hl. induction n as [|n IH]; intros k v Hl Hk HQ.
  - change (wp (mret tt) Q v). apply wp_ret, HQ. cbn [cells app]. rewrite Nat.add_0_r, take_drop.
    by apply repaint_refl.
  - rewrite seqZ_cons by lia. cbn [for_each].
    replace (Z.pred (S n)) with (Z.of_nat n) by lia.
    replace (Z.succ k) with (Z.of_nat (k + 1)) by lia.
    apply wp_bind, wp_put_cell; [done..|lia|]. intros v1 H1.
    apply IH; [apply H1|lia|]. intros v' H'. apply HQ.
    pose proof (length_row_of (buffer v) r Hl Hr) as Hlr.
    rewrite (rp_row _ _ _ _ H1) in H'.
    rewrite take_set_cell, drop_set_cell, <- app_assoc in H' by lia.
    replace (k + 1 + n)%nat with (k + S n)%nat in H' by lia.
    eapply repaint_trans; [exact H1|]. exact H'.
Qed.

(** ** The invariant *)

Record wf (v : Vga) : Prop := {
  wf_buffer : length (buffer v) = 4000%nat;
  wf_row : 0 ≤ row v < 24;
  wf_col : 0 ≤ col v ≤ 80;
  wf_deferred l : deferred v = Some l → length l = 160%nat;
  wf_lines : length (lines (scrollback v)) = 500%nat;
  wf_line : Forall (λ l, length l = 160%nat) (lines (scrollback v));
  wf_current : fits 64 (current_line (scrollback v));
  wf_offset : 0 ≤ scroll_offset (scrollback v);
}.

(** The calls keep [wf]; with [s = false] they also keep the status row. *)
Definition keeps (s : bool) (m : vgaM unit) : Prop :=
  ∀ v, wf v → wp m (λ _ v', wf v' ∧
    (s = false → row_of (buffer v') 24 = row_of (buffer v) 24)) v.

Lemma keeps_ret s : keeps s (mret tt).
Proof. intros v Hv. by apply wp_ret. Qed.

Lemma keeps_weaken s m : keeps s m → keeps true m.
Proof. intros Hm v Hv. eapply wp_mono; [by apply Hm|]. intros [] v' [? _]. done. Qed.

Lemma keeps_bind s m (f : unit → vgaM unit) : keeps s m → keeps s (f tt) → keeps s (m ≫= f).
Proof.
  intros Hm Hf v Hv. apply wp_bind. eapply wp_mono; [by apply Hm|]. intros [] v1 [H1 S1].
  eapply wp_mono; [by apply Hf|]. intros [] v2 [H2 S2]. split; [done|].
  intros Hs. by rewrite S2, S1.
Qed.

Lemma keeps_for_each s {A} (l : list A) f : (∀ x, x ∈ l → keeps s (f x)) → keeps s (for_each l f).
Proof.
  induction l as [|x l IH]; intros H; [apply keeps_ret|]. cbn.
  apply (keeps_bind s (f x)); [apply H; set_solver|]. apply IH. set_solver.
Qed.

(** Reading the state, then acting on it. *)
Lemma keeps_get s (f : Vga → vgaM unit) :
  (∀ v, wf v → wp (f v) (λ _ v', wf v' ∧
    (s = false → row_of (buffer v') 24 = row_of (buffer v) 24)) v) → keeps s (v ← get; f v).
Proof. intros H v Hv. by apply wp_bind, wp_get, H. Qed.
Lemma keeps_gets s {A} (g : Vga → A) (f : A → vgaM unit) :
  (∀ v, wf v → wp (f (g v)) (λ _ v', wf v' ∧
    (s = false → row_of (buffer v') 24 = row_of (buffer v) 24)) v) → keeps s (x ← gets g; f x).
Proof. intros H v Hv. by apply wp_bind, wp_gets, H. Qed.

Lemma keeps_modify s f : (∀ v, wf v → wf (f v) ∧ buffer (f v) = buffer v) → keeps s (modify f).
Proof. intros H v Hv. apply wp_modify. destruct (H v Hv) as [? ->]. done. Qed.

Lemma keeps_outb s p b : keeps s (outb p b).
Proof. apply keeps_modify. intros v []. split; [|done]. split; cbn; auto. Qed.

Lemma keeps_cursor s r c : keeps s (update_hardware_cursor r c).
Proof.
  unfold update_hardware_cursor, write_crtc.
  repeat (apply (keeps_bind s); [|]); apply keeps_outb.
Qed.

Lemma keeps_put_cell s (r c : Z) b clr : 0 ≤ r < 25 → 0 ≤ c < 80 → (s = false → r < 24) →
  keeps s (put_cell r c b clr).
Proof.
  intros Hr Hc Hs v Hv. rewrite <- (Z2Nat.id r), <- (Z2Nat.id c) by lia.
  apply wp_put_cell; [apply Hv|lia|lia|]. intros v' [E L R O].
  split; [|intros ?; apply O; lia]. rewrite E. destruct Hv. split; cbn; auto.
Qed.


Lemma keeps_deferred s l : length l = 160%nat → keeps s (modify (set_deferred (Some l))).
Proof. intros Hl. apply keeps_modify. intros v []. split; [|done]. split; cbn; auto. by intros ? [= <-]. Qed.

Lemma repaint_wf r x v v' : repaint r x v v' → wf v → wf v'.
Proof. intros [E L _ _] []. rewrite E. split; cbn; auto. Qed.

Lemma set_row_wf v r : wf v → 0 ≤ r < 24 → wf (set_row r v).
Proof. intros [] ?. split; cbn; auto. Qed.
Lemma set_col_wf v c : wf v → 0 ≤ c ≤ 80 → wf (set_col c v).
Proof. intros [] ?. split; cbn; auto. Qed.

(** Scrolling: every row moves up by one, the last one becomes blank, and the
    row that leaves the screen is deferred. *)
Definition blank_row : list Z := cells 80 32 7.

Lemma scroll_spec v : wf v → wp scroll (λ _ v',
  v' = set_buffer (buffer v') (set_deferred (Some (row_of (buffer v) 0)) v) ∧
  length (buffer v') = 4000%nat ∧
  (∀ r, (r < 23)%nat → row_of (buffer v') r = row_of (buffer v) (S r)) ∧
  row_of (buffer v') 23 = blank_row ∧ row_of (buffer v') 24 = row_of (buffer v) 24) v.
Proof.
  intros Hv. pose proof (wf_buffer v Hv) as Hl. unfold scroll.
  apply wp_bind, wp_gets. apply wp_bind, wp_lift.
  change (Z.to_nat (WIDTH * 2)) with 160%nat.
  change (Z.to_nat (CONTENT_ROWS * WIDTH * 2)) with 3840%nat.
  change (Z.to_nat ((CONTENT_ROWS - 1) * WIDTH * 2)) with 3680%nat.
  rewrite slice_done by lia. cbn [runs]. apply wp_bind, wp_lift.
  rewrite slice_done by lia. cbn [runs]. apply wp_bind, wp_lift.
  rewrite put_done by (rewrite ?length_take, ?length_drop; lia). cbn [runs].
  set (rest := take (3840 - 160) (drop 160 (buffer v))).
  set (buf' := take 0 (buffer v) ++ rest ++ drop 3680 (buffer v)).
  assert (length rest = 3680%nat) as Hlr by (unfold rest; rewrite length_take, length_drop; lia).
  assert (length buf' = 4000%nat) as Hlb.
  { unfold buf'. rewrite !length_app, length_take, length_drop. lia. }
  apply wp_bind, wp_modify. apply wp_bind, wp_modify. cbn [buffer set_buffer set_deferred].
  change (row_of (buffer v) 0) with (take 160 (drop 0 (buffer v))).
  change (seqZ 0 WIDTH) with (seqZ (Z.of_nat 0) (Z.of_nat 80)).
  change (CONTENT_ROWS - 1) with (Z.of_nat 23).
  apply wp_fill; [done|lia|lia|]. intros v' [E L R O]. cbn [buffer set_buffer set_deferred] in *.
  assert (∀ i, (i < 3680)%nat → buf' !! i = buffer v !! (160 + i)%nat) as Hlow.
  { intros i Hi. unfold buf', rest. rewrite lookup_app_r by (rewrite length_take; lia).
    rewrite length_take, lookup_app_l by (fold rest; lia).
    rewrite lookup_take_lt, lookup_drop by lia. f_equal. lia. }
  assert (∀ i, (3680 ≤ i)%nat → buf' !! i = buffer v !! i) as Hhigh.
  { intros i Hi. unfold buf'. rewrite lookup_app_r by (rewrite length_take; lia).
    rewrite length_take, lookup_app_r by (rewrite Hlr; lia).
    rewrite Hlr, lookup_drop. f_equal. lia. }
  split_and!; [exact E|done| | |].
  - intros r Hr. rewrite O by lia. apply row_of_ext; [done..|lia|lia|].
    intros i Hi. rewrite Hlow by lia. f_equal. lia.
  - rewrite R. change (2 * 0)%nat with 0%nat. change (2 * (0 + 80))%nat with 160%nat.
    cbn [take app].
    rewrite drop_ge by (rewrite length_row_of; [lia|done|lia]). by rewrite app_nil_r.
  - rewrite O by lia. apply row_of_ext; [done..|lia|lia|]. intros i Hi. apply Hhigh. lia.
Qed.

(** ** Printing one byte *)

Record newline_post (v v' : Vga) : Prop := {
  np_wf : wf v';
  np_row : row v' = Z.min (row v + 1) 23;
  np_col : col v' = 0;
  np_color : color v' = color v;
  np_scrollback : scrollback v' = scrollback v;
  np_deferred : deferred v'
    = if decide (row v = 23) then Some (row_of (buffer v) 0) else deferred v;
  np_rows r : (r < 24)%nat → row_of (buffer v') r
    = if decide (row v = 23)
      then if decide (r = 23%nat) then blank_row else row_of (buffer v) (S r)
      else row_of (buffer v) r;
  np_status : row_of (buffer v') 24 = row_of (buffer v) 24;
}.

Lemma wp_cursor r c v (Q : unit → Vga → Prop) :
  (∀ p, Q tt (set_ports p v)) → wp (update_hardware_cursor r c) Q v.
Proof. intros H. unfold update_hardware_cursor, write_crtc, outb. repeat first [apply wp_bind|apply wp_modify]. apply H. Qed.

Lemma set_ports_wf p v : wf v → wf (set_ports p v).
Proof. intros []. split; cbn; auto. Qed.

Lemma newline_spec v : wf (set_col 0 v) → wp newline (λ _ v', newline_post v v') v.
Proof.
  intros Hv0. pose proof (wf_buffer _ Hv0) as Hl. pose proof (wf_row _ Hv0) as Hr.
  cbn [buffer row set_col] in *.
  unfold newline, CONTENT_ROWS, HEIGHT.
  apply wp_bind, wp_modify. apply wp_bind, wp_gets. apply wp_bind. cbn [row set_col].
  destruct (decide (25 - 1 ≤ row v + 1)) as [Hs|Hs].
  - eapply wp_mono; [by apply scroll_spec|]. intros [] w (E & L & Hup & Hlast & Hst).
    cbn [buffer set_col] in *. apply wp_bind, wp_get, wp_cursor. intros p.
    assert (row v = 23) as Hrow by lia. rewrite E. split; cbn [row col color scrollback deferred buffer
      set_ports set_buffer set_deferred set_col]; try (rewrite decide_True by done); try done.
    + apply set_ports_wf. destruct Hv0. split; cbn; auto; [].
      intros l Hdef. injection Hdef as <-. exact (length_row_of _ 0 Hl ltac:(lia)).
    + lia.
    + intros r Hr'. rewrite (decide_True (P:=row v = 23)) by done.
      destruct (decide (r = 23%nat)) as [->|]; [done|]. apply Hup. lia.
  - apply wp_modify, wp_bind, wp_get, wp_cursor. intros p.
    split; cbn [row col color scrollback deferred buffer set_ports set_row set_col];
      try (rewrite decide_False by lia); try done; [| |].
    + apply set_ports_wf, (set_row_wf (set_col 0 v)); [done|lia].
    + lia.
    + intros. by rewrite decide_False by lia.
Qed.

Lemma tab_stop c : 0 ≤ c ≤ 80 → Z.land (c + 8) (wnot 64 7) = (c / 8 + 1) * 8.
Proof.
  intros Hc. assert (Forall (λ c, Z.land (c + 8) (wnot 64 7) = (c / 8 + 1) * 8) (seqZ 0 81)) as H.
  { refine (bool_decide_unpack _ _). by vm_compute. }
  rewrite Forall_forall in H. apply H, elem_of_seqZ. lia.
Qed.

(** The character that is shown for a byte. *)
Definition glyph (b : Z) : Z := if is_ascii b && negb (bool_decide (b = 0x7F)) then b else 63.

(** [write_byte] in terms of [newline] and of one cell. *)
Inductive byte_post (b : Z) (v : Vga) : Vga → Prop :=
  | post_newline v' : b = 10 → newline_post v v' → byte_post b v v'
  | post_return : b = 13 → byte_post b v (set_col 0 v)
  | post_tab : b = 9 → (col v / 8 + 1) * 8 < 80 → byte_post b v (set_col ((col v / 8 + 1) * 8) v)
  | post_tab_wrap v' : b = 9 → 80 ≤ (col v / 8 + 1) * 8 → newline_post v v' → byte_post b v v'
  | post_char w v' : b ≠ 10 → b ≠ 13 → b ≠ 9 →
      (if decide (col v = 80) then newline_post v w else w = v) → wf w → 0 ≤ col w < 80 →
      repaint (Z.to_nat (row w))
        (set_cell (Z.to_nat (col w)) (glyph b) (color w) (row_of (buffer w) (Z.to_nat (row w)))) w v' →
      byte_post b v (set_col (col w + 1) v').

Lemma newline_post_col v v' c : newline_post (set_col c v) v' → newline_post v v'.
Proof. intros []. by split. Qed.

Lemma write_byte_spec b v : wf v → wp (write_byte b) (λ _ v', byte_post b v v') v.
Proof.
  intros Hv. pose proof (wf_col v Hv) as Hc. unfold write_byte, WIDTH.
  case_decide as H10.
  { eapply wp_mono; [by apply newline_spec, set_col_wf|]. intros [] v' H. by constructor 1. }
  case_decide as H13; [by apply wp_modify; constructor 2|]. case_decide as H9.
  { apply wp_bind, wp_gets. apply wp_bind, wp_modify. apply wp_bind, wp_gets.
    cbn [col set_col]. rewrite tab_stop by done. case_decide as Hw.
    - eapply wp_mono; [apply newline_spec; by apply (set_col_wf v 0)|]. intros [] v' H.
      constructor 4; [done|lia|]. by apply newline_post_col in H.
    - apply wp_ret. constructor 3; [done|lia]. }
  fold (glyph b). apply wp_bind, wp_gets. apply wp_bind.
  assert (wp (if decide (80 ≤ col v) then newline else mret tt) (λ _ w,
    (if decide (col v = 80) then newline_post v w else w = v) ∧ wf w ∧ 0 ≤ col w < 80) v) as Hnl.
  { destruct (decide (80 ≤ col v)).
    - eapply wp_mono; [by apply newline_spec, set_col_wf|]. intros [] w H.
      rewrite decide_True by lia. split; [done|]. split; [apply H|]. rewrite (np_col _ _ H). lia.
    - apply wp_ret. rewrite decide_False by lia. split; [done|]. split; [done|lia]. }
  eapply wp_mono; [exact Hnl|]. intros [] w (Hw & Hwf & Hcol). apply wp_bind, wp_get. apply wp_bind.
  pose proof (wf_row w Hwf) as Hr.
  rewrite <- (Z2Nat.id (row w)) at 1 by lia. rewrite <- (Z2Nat.id (col w)) at 1 by lia.
  apply wp_put_cell; [apply Hwf|lia|lia|]. intros v' H'. apply wp_modify.
  by apply (post_char b v w).
Qed.

(** ** Every call stays inside the buffer *)

Lemma byte_post_wf b v v' : wf v → byte_post b v v' →
  wf v' ∧ row_of (buffer v') 24 = row_of (buffer v) 24.
Proof.
  intros Hv [v1 _ H|_|_ ?|v1 _ _ H|w v1 _ _ _ Hw Hwf Hc H].
  - by destruct H.
  - split; [by apply set_col_wf|done].
  - split; [|done]. apply set_col_wf; [done|]. destruct Hv.
    pose proof (Z.div_pos (col v) 8). lia.
  - by destruct H.
  - split.
    + apply set_col_wf; [|lia]. by eapply repaint_wf.
    + cbn [buffer set_col]. rewrite (rp_other _ _ _ _ H); [|destruct Hwf; lia|lia].
      case_decide; [by destruct Hw|by subst].
Qed.

Lemma keeps_write_byte s b : keeps s (write_byte b).
Proof.
  intros v Hv. eapply wp_mono; [by apply write_byte_spec|]. intros [] v' H.
  destruct (byte_post_wf b v v' Hv H). done.
Qed.

Lemma keeps_write_str s l : keeps s (write_str l).
Proof.
  unfold write_str. apply (keeps_bind s).
  - apply keeps_for_each. intros. apply keeps_write_byte.
  - apply keeps_get. intros v Hv. by apply keeps_cursor.
Qed.

Lemma add_line_ok l sb : length (lines sb) = 500%nat →
  add_line l sb = Done (mkScrollback
    (<[Z.to_nat (current_line sb `mod` SCROLLBACK_LINES) := l]> (lines sb))
    (wadd 64 (current_line sb) 1) (if decide (0 < scroll_offset sb) then 0 else scroll_offset sb)).
Proof.
  intros Hl. unfold add_line, SCROLLBACK_LINES.
  pose proof (Z.mod_pos_bound (current_line sb) 500). by rewrite store_done by lia.
Qed.

Lemma commit_wf v l sb : wf v → length l = 160%nat → add_line l (scrollback v) = Done sb →
  wf (set_scrollback sb (set_deferred None v)).
Proof.
  intros [] Hl. rewrite add_line_ok by done. intros H. injection H as <-.
  split; cbn [buffer row col deferred scrollback lines current_line scroll_offset
    set_scrollback set_deferred]; try done.
  - by rewrite length_insert.
  - by apply Forall_insert.
  - by apply wadd_fits.
  - case_decide; lia.
Qed.

Lemma wp_commit v : wf v → wp commit_scrollback (λ _ v', wf v' ∧ buffer v' = buffer v ∧
  row v' = row v ∧ col v' = col v ∧ color v' = color v ∧ deferred v' = None ∧
  match deferred v with
  | None => scrollback v' = scrollback v
  | Some l => add_line l (scrollback v) = Done (scrollback v')
  end) v.
Proof.
  intros Hv. unfold commit_scrollback. apply wp_bind, wp_get. apply wp_bind, wp_modify.
  destruct (deferred v) as [l|] eqn:Ed.
  - apply wp_bind, wp_lift. pose proof (add_line_ok l _ (wf_lines v Hv)) as E.
    rewrite E. cbn [runs]. apply wp_modify.
    split; [by eapply commit_wf; [|by eapply wf_deferred|exact E]|]. by split_and!.
  - apply wp_ret. split; [|by split_and!]. destruct Hv. by split.
Qed.

Lemma keeps_commit s : keeps s commit_scrollback.
Proof.
  intros v Hv. eapply wp_mono; [by apply wp_commit|]. intros [] v' (H & E & _).
  split; [done|]. by rewrite E.
Qed.

Lemma keeps_clear s : keeps s Writer_clear.
Proof.
  unfold Writer_clear. apply keeps_gets. intros v Hv. apply (keeps_bind s); [| |done].
  - apply keeps_for_each. intros r Hr%elem_of_seqZ. apply keeps_for_each. intros c Hc%elem_of_seqZ.
    unfold CONTENT_ROWS, HEIGHT, WIDTH in *. apply keeps_put_cell; lia.
  - apply (keeps_bind s); apply keeps_modify; intros w Hw; (split; [|done]);
      [apply set_row_wf|apply set_col_wf]; done || lia.
Qed.

Lemma keeps_set_color s x : keeps s (modify (put_color x)).
Proof. apply keeps_modify. intros v []. split; [|done]. split; cbn; auto. Qed.

Lemma keeps_gets_any s {A} (g : Vga → A) (f : A → vgaM unit) :
  (∀ x, keeps s (f x)) → keeps s (x ← gets g; f x).
Proof. intros H v Hv. by apply wp_bind, wp_gets, H. Qed.
Lemma keeps_get_any s (f : Vga → vgaM unit) : (∀ v, keeps s (f v)) → keeps s (v ← get; f v).
Proof. intros H v Hv. by apply wp_bind, wp_get, H. Qed.

Lemma keeps_status_line t : keeps true (status_line t).
Proof.
  unfold status_line, WIDTH, HEIGHT. apply keeps_gets_any. intros clr.
  apply (keeps_bind true); [apply keeps_set_color|].
  apply (keeps_bind true).
  { apply keeps_for_each. intros c Hc%elem_of_seqZ. apply keeps_put_cell; lia || done. }
  apply (keeps_bind true).
  { apply keeps_for_each. intros [i b] Hib. apply elem_of_zip_l in Hib as Hi%elem_of_seqZ.
    case_decide; [apply keeps_put_cell; lia || done|apply keeps_ret]. }
  apply (keeps_bind true); [apply keeps_set_color|apply keeps_commit].
Qed.

Lemma get_line_ok r sb : length (lines sb) = 500%nat → Forall (λ l, length l = 160%nat) (lines sb) →
  runs (get_line r sb) (λ l, match l with Some l => length l = 160%nat | None => True end).
Proof.
  intros Hl Hf. unfold get_line. case_decide; [done|]. case_decide; [done|].
  set (k := wadd _ _ _). destruct (index_lt (Z.to_nat (k `mod` SCROLLBACK_LINES)) (lines sb))
    as (l & Hk & ->).
  { unfold SCROLLBACK_LINES. pose proof (Z.mod_pos_bound k 500). lia. }
  cbn. rewrite Forall_forall in Hf. apply Hf. by eapply list_elem_of_lookup_2.
Qed.

Lemma keeps_redraw sb : length (lines sb) = 500%nat → Forall (λ l, length l = 160%nat) (lines sb) →
  keeps true (redraw_from_scrollback sb).
Proof.
  intros Hl Hf. unfold redraw_from_scrollback. case_decide; [apply keeps_ret|].
  apply (keeps_bind true).
  { apply keeps_for_each. intros r Hr%elem_of_seqZ. intros v Hv. apply wp_bind, wp_lift.
    eapply runs_mono; [by apply get_line_ok|]. intros [l|] Hlen; [|by apply keeps_ret].
    revert v Hv. apply keeps_for_each. intros i Hi%elem_of_seqZ.
    destruct (index_lt (Z.to_nat i) l) as (b & _ & Hb); [unfold WIDTH in Hi; lia|].
    intros v Hv. apply wp_bind, wp_lift. rewrite Hb. cbn [runs].
    unfold poke. apply wp_bind, wp_gets. apply wp_bind, wp_lift.
    unfold CONTENT_ROWS, HEIGHT, WIDTH in *.
    rewrite store_done by (rewrite (wf_buffer v Hv); lia). cbn [runs].
    apply wp_modify. split; [|done]. destruct Hv. split; cbn; auto. by rewrite length_insert. }
  apply (keeps_bind true).
  { apply keeps_modify. intros v Hv. split; [by apply set_row_wf|done]. }
  apply (keeps_bind true).
  { apply keeps_modify. intros v Hv. split; [by apply set_col_wf|done]. }
  unfold write_crtc. repeat (apply (keeps_bind true); [|]); apply keeps_outb.
Qed.

Lemma keeps_scroll_view s f : (∀ sb, lines (f sb) = lines sb ∧ current_line (f sb) = current_line sb ∧
    (0 ≤ scroll_offset sb → 0 ≤ scroll_offset (f sb))) →
  keeps s (modify (λ v, set_scrollback (f (scrollback v)) v)).
Proof.
  intros H. apply keeps_modify. intros v []. destruct (H (scrollback v)) as (El & Ec & Eo).
  split; [|done]. split; cbn [buffer row col deferred scrollback set_scrollback]; rewrite ?El, ?Ec; auto.
Qed.

Lemma keeps_call c : call_ok c → keeps (writes_status c) (run_call c).
Proof.
  unfold CONTENT_ROWS, HEIGHT, WIDTH.
  destruct c as [ps| |fg bg|r c|r c l|r| |t|n|n]; cbn [run_call writes_status call_ok]; intros Hok.
  - apply (keeps_bind false); [|apply keeps_commit]. apply keeps_for_each. intros. apply keeps_write_str.
  - apply (keeps_bind false); [apply keeps_clear|apply keeps_commit].
  - apply (keeps_bind false); [apply keeps_set_color|apply keeps_commit].
  - unfold set_cursor, CONTENT_ROWS, HEIGHT, WIDTH. destruct Hok as [? ?].
    apply (keeps_bind false).
    { apply keeps_modify. intros v Hv. split; [apply set_row_wf; [done|lia]|done]. }
    apply (keeps_bind false).
    { apply keeps_modify. intros v Hv. split; [apply set_col_wf; [done|lia]|done]. }
    apply keeps_get_any. intros v. apply (keeps_bind false); [apply keeps_cursor|apply keeps_commit].
  - unfold write_at, CONTENT_ROWS, HEIGHT, WIDTH. destruct Hok as [? ?].
    apply keeps_gets_any. intros clr. apply (keeps_bind false); [|apply keeps_commit].
    apply keeps_for_each. intros [i b] Hib. case_decide; [|apply keeps_ret].
    pose proof (wadd_fits 64 c i ltac:(lia)) as [? _]. apply keeps_put_cell; lia.
  - unfold clear_line, CONTENT_ROWS, HEIGHT, WIDTH.
    apply keeps_gets_any. intros clr. apply (keeps_bind false); [|apply keeps_commit].
    apply keeps_for_each. intros c Hc%elem_of_seqZ. apply keeps_put_cell; lia.
  - unfold backspace, WIDTH. apply keeps_get. intros v Hv.
    pose proof (wf_row v Hv). pose proof (wf_col v Hv). revert Hv. 
    match goal with |- _ → wp ?m _ _ => enough (keeps false m) as H' by exact (H' v) end.
    apply (keeps_bind false (if decide _ then _ else _)).
    + case_decide; [|case_decide; [|apply keeps_ret]].
      * apply (keeps_bind false); [|apply keeps_put_cell; lia].
        apply keeps_modify. intros w Hw. split; [apply set_col_wf; [done|lia]|done].
      * apply (keeps_bind false).
        { apply keeps_modify. intros w Hw. split; [apply set_row_wf; [done|lia]|done]. }
        apply (keeps_bind false).
        { apply keeps_modify. intros w Hw. split; [apply set_col_wf; [done|lia]|done]. }
        apply keeps_put_cell; lia.
    + apply keeps_get_any. intros w. apply (keeps_bind false); [apply keeps_cursor|apply keeps_commit].
  - apply keeps_status_line.
  - unfold scroll_display_up. apply (keeps_bind true).
    { apply keeps_scroll_view. intros sb. cbn. split_and!; try done. intros.
      pose proof (wadd_fits 64 (scroll_offset sb) n ltac:(lia)) as [? _].
      unfold saturating_sub. lia. }
    apply keeps_gets. intros v Hv. revert v Hv. intros v Hv.
    apply (keeps_bind true (redraw_from_scrollback (scrollback v))); [| |done].
    + apply keeps_redraw; apply Hv.
    + case_decide; [apply keeps_status_line|apply keeps_ret].
  - unfold scroll_display_down. apply (keeps_bind true).
    { apply keeps_scroll_view. intros sb. cbn. split_and!; try done. unfold saturating_sub. lia. }
    apply keeps_gets. intros v Hv. case_decide; [by apply keeps_status_line|].
    apply (keeps_bind true (redraw_from_scrollback (scrollback v))); [| |done].
    + apply keeps_redraw; apply Hv.
    + apply keeps_status_line.
Qed.

Lemma keeps_set_cursor r c : 0 ≤ r → 0 ≤ c → keeps false (set_cursor r c).
Proof. intros. exact (keeps_call (SetCursor r c) (conj H H0)). Qed.
Lemma keeps_clear_line r : 0 ≤ r → keeps false (clear_line r).
Proof. intros. exact (keeps_call (ClearLine r) H). Qed.
Lemma keeps_write_at r c l : 0 ≤ r → 0 ≤ c → keeps false (write_at r c l).
Proof. intros. exact (keeps_call (WriteAt r c l) (conj H H0)). Qed.

(** ** The abstract terminal *)

Record Term := mkTerm {
  above : list (list Z);   (* all rows before the cursor's, the oldest first *)
  current : list Z;
  below : list (list Z);
  column : Z;
}.

Definition t_newline (t : Term) : Term :=
  match below t with
  | [] => mkTerm (above t ++ [current t]) blank_row [] 0
  | r :: rs => mkTerm (above t ++ [current t]) r rs 0
  end.
(** Does this byte move to the next row? *)
Definition t_wraps (b : Z) (t : Term) : bool :=
  bool_decide (b = 10 ∨ (b = 9 ∧ 80 ≤ (column t / 8 + 1) * 8) ∨
    (b ≠ 13 ∧ b ≠ 9 ∧ column t = 80)).
Definition t_byte (clr : Z) (t : Term) (b : Z) : Term :=
  let t1 := if t_wraps b t then t_newline t else t in
  if decide (b = 10) then t1
  else if decide (b = 13) then mkTerm (above t1) (current t1) (below t1) 0
  else if decide (b = 9) then
    if t_wraps b t then t1
    else mkTerm (above t) (current t) (below t) ((column t / 8 + 1) * 8)
  else mkTerm (above t1)
         (set_cell (Z.to_nat (column t1)) (glyph b) clr (current t1)) (below t1) (column t1 + 1).
(** A text, and how often it makes the 24 rows scroll. *)
Definition t_text (clr : Z) (s : list Z) (t : Term) : Term := foldl (t_byte clr) t s.
Definition t_scroll (b : Z) (t : Term) : nat :=
  if t_wraps b t then match below t with [] => 1 | _ => 0 end else 0.
Fixpoint t_scrolls (clr : Z) (s : list Z) (t : Term) : nat :=
  match s with [] => 0 | b :: s => t_scroll b t + t_scrolls clr s (t_byte clr t b) end.

(** The scrollback ring holds the last 500 of the lines added to it. *)
Definition history (sb : ScrollbackBuffer) : list (list Z) :=
  let n := Z.to_nat (current_line sb) in
  (λ k, lines sb !!! (k mod 500)%nat) <$> seq (n - n `min` 500) (n `min` 500).
Definition screen_rows (buf : list Z) (a n : nat) : list (list Z) := row_of buf <$> seq a n.

(** The screen shows the terminal: every row above the cursor is on the screen
    or in the scrollback (or deferred), unless 500 later rows are. *)
Definition represents (t : Term) (v : Vga) : Prop :=
  let r := Z.to_nat (row v) in
  ∃ older, above t = older ++ history (scrollback v) ++ option_list (deferred v)
                       ++ screen_rows (buffer v) 0 r ∧
    (older = [] ∨ 500 ≤ current_line (scrollback v)) ∧
    current t = row_of (buffer v) r ∧
    below t = screen_rows (buffer v) (S r) (23 - r) ∧
    column t = col v.

#[local] Ltac Zify.zify_post_hook ::= Z.to_euclidean_division_equations.

Lemma history_add l sb : length (lines sb) = 500%nat → 0 ≤ current_line sb →
  let n := Z.to_nat (current_line sb) in
  history (mkScrollback (<[(n mod 500)%nat := l]> (lines sb)) (current_line sb + 1) 0)
  = drop (if decide (n < 500)%nat then 0 else 1) (history sb) ++ [l].
Proof.
  intros Hl Hc n. unfold history. cbn [lines current_line].
  replace (Z.to_nat (current_line sb + 1)) with (S n) by (unfold n; lia). fold n.
  assert (∀ k, (k < n)%nat → (n < k + 500)%nat →
    <[(n mod 500)%nat := l]> (lines sb) !!! (k mod 500)%nat = lines sb !!! (k mod 500)%nat) as Hne.
  { intros k ? ?. apply list_lookup_total_insert_ne. lia. }
  assert (<[(n mod 500)%nat := l]> (lines sb) !!! (n mod 500)%nat = l) as Heq.
  { apply list_lookup_total_insert_eq. lia. }
  case_decide as Hn.
  - rewrite drop_0, !Nat.min_l by lia. rewrite !Nat.sub_diag, seq_S, fmap_app. f_equal.
    + apply list_fmap_ext. intros i k [-> ?]%lookup_seq. apply Hne; lia.
    + cbn. by rewrite Heq.
  - rewrite !Nat.min_r by lia. rewrite <- fmap_drop, drop_seq. change 500%nat with (S 499) at 6.
    replace (S n - 500)%nat with (n - 500 + 1)%nat by lia.
    rewrite seq_S, fmap_app. replace (500 - 1)%nat with 499%nat by lia. f_equal.
    + apply list_fmap_ext. intros i k [-> ?]%lookup_seq. apply Hne; lia.
    + cbn [fmap list_fmap]. replace (n - 500 + 1 + 499)%nat with n by lia. by rewrite Heq.
Qed.

Lemma screen_rows_ext buf buf' a n : (∀ r, (a ≤ r < a + n)%nat → row_of buf' r = row_of buf r) →
  screen_rows buf' a n = screen_rows buf a n.
Proof. intros H. apply list_fmap_ext. intros i r [-> ?]%lookup_seq. apply H. lia. Qed.

Lemma screen_rows_S buf a n : screen_rows buf a (S n) = row_of buf a :: screen_rows buf (S a) n.
Proof. done. Qed.
Lemma screen_rows_snoc buf a n :
  screen_rows buf a (S n) = screen_rows buf a n ++ [row_of buf (a + n)].
Proof. unfold screen_rows. by rewrite seq_S, fmap_app. Qed.

(** Moving to the next row, scrolling if need be. *)
Lemma newline_represents t v v' : wf v → represents t v → newline_post v v' →
  (below t = [] → deferred v = None) →
  represents (t_newline t) v' ∧
  length (option_list (deferred v'))
    = (length (option_list (deferred v)) + match below t with [] => 1 | _ => 0 end)%nat.
Proof.
  intros Hv (older & Ha & Hold & Hc & Hb & Hcol) [Hwf Hr Hc0 _ Hsb Hd Hrows _] Hdef.
  pose proof (wf_row v Hv) as Hrow. unfold represents. rewrite Hsb, Hc0.
  destruct (decide (row v = 23)) as [H23|H23].
  - rewrite Hr, H23 in *. change (Z.to_nat 23) with 23%nat in *. cbn [Nat.sub screen_rows seq fmap list_fmap] in Hb.
    specialize (Hdef Hb). rewrite Hdef in *. rewrite Hd. unfold t_newline. rewrite Hb.
    cbn [above current below column option_list length].
    change (Z.to_nat (Z.min (23 + 1) 23)) with 23%nat. split; [|done].
    exists older. split_and!; try done.
    + rewrite Ha, Hc. unfold option_list. cbn [option_rect app]. rewrite <- !app_assoc. do 2 f_equal.
      rewrite (screen_rows_snoc (buffer v') 0 22).
      rewrite (screen_rows_S (buffer v) 0 22). cbn [app]. f_equal.
      assert (screen_rows (buffer v') 0 22 = screen_rows (buffer v) 1 22) as ->.
      { unfold screen_rows. rewrite <- (fmap_S_seq 0 22), <- list_fmap_compose.
        apply list_fmap_ext. intros i r [-> ?]%lookup_seq. cbn.
        rewrite Hrows by lia. rewrite decide_False by lia. done. }
      f_equal. rewrite Hrows by lia. rewrite decide_False by lia. done.
    + rewrite Hrows by lia. by rewrite decide_True.
  - set (r := Z.to_nat (row v)) in *.
    replace (23 - r)%nat with (S (22 - r)) in Hb by lia. rewrite screen_rows_S in Hb.
    rewrite Hd. unfold t_newline. rewrite Hb. cbn [above current below column].
    replace (Z.to_nat (row v')) with (S r) by lia. split; [|lia].
    exists older. split_and!; try done.
    + rewrite Ha, Hc. rewrite <- !app_assoc. do 3 f_equal. rewrite screen_rows_snoc. f_equal.
      * symmetry. apply screen_rows_ext. intros x Hx. by apply Hrows; lia.
      * f_equal. symmetry. by apply Hrows; lia.
    + symmetry. apply Hrows. lia.
    + replace (23 - S r)%nat with (22 - r)%nat by lia. symmetry. apply screen_rows_ext.
      intros x Hx. by apply Hrows; lia.
Qed.

Lemma represents_col t v c : represents t v →
  represents (mkTerm (above t) (current t) (below t) c) (set_col c v).
Proof. intros (older & ? & ? & ? & ? & ?). by exists older. Qed.

Lemma byte_represents b t v v' : wf v → represents t v → byte_post b v v' →
  (length (option_list (deferred v)) + t_scroll b t ≤ 1)%nat →
  represents (t_byte (color v) t b) v' ∧ color v' = color v ∧
  scrollback v' = scrollback v ∧
  length (option_list (deferred v')) = (length (option_list (deferred v)) + t_scroll b t)%nat.
Proof.
  intros Hv Hrep Hpost Hscroll. assert (column t = col v) as Hcol by (by destruct Hrep as (? & ? & ? & ? & ? & ?)).
  pose proof (wf_col v Hv) as Hc.
  assert (t_wraps b t = true → below t = [] → deferred v = None) as Hdef.
  { intros Hw Hb. unfold t_scroll in Hscroll. rewrite Hw, Hb in Hscroll.
    destruct (deferred v); [cbn in Hscroll; lia|done]. }
  unfold t_byte, t_scroll.
  destruct Hpost as [v1 -> H| -> | -> Hs | v1 -> Hs H|w v1 H10 H13 H9 Hw Hwf Hcw H].
  - assert (t_wraps 10 t = true) as E by (apply bool_decide_eq_true; tauto). rewrite E in *.
    rewrite decide_True by done.
    destruct (newline_represents t v v1 Hv Hrep H) as [H1 H2]; [by apply Hdef|].
    split; [done|]. split; [by destruct H|]. split; [by destruct H|done].
  - assert (t_wraps 13 t = false) as E by (apply bool_decide_eq_false; lia). rewrite E in *.
    rewrite decide_False, decide_True by done.
    split; [by apply represents_col|]. by rewrite Nat.add_0_r.
  - assert (t_wraps 9 t = false) as E by (apply bool_decide_eq_false; lia). rewrite E in *.
    rewrite !decide_False, decide_True by lia. rewrite Hcol.
    split; [by apply represents_col|]. by rewrite Nat.add_0_r.
  - assert (t_wraps 9 t = true) as E by (apply bool_decide_eq_true; right; left; split; [done|by rewrite Hcol]).
    rewrite E in *. rewrite !decide_False, decide_True by lia.
    destruct (newline_represents t v v1 Hv Hrep H) as [H1 H2]; [by apply Hdef|].
    split; [done|]. split; [by destruct H|]. split; [by destruct H|done].
  - rewrite !decide_False by done.
    set (t1 := if t_wraps b t then t_newline t else t).
    assert (represents t1 w ∧ color w = color v ∧ scrollback w = scrollback v ∧
      length (option_list (deferred w)) = (length (option_list (deferred v)) +
        (if t_wraps b t then match below t with [] => 1 | _ => 0 end else 0))%nat)
      as (Hrw & Hclr & Hsb & Hdl).
    { unfold t1. destruct (decide (col v = 80)) as [H80|H80].
      - assert (t_wraps b t = true) as E by (apply bool_decide_eq_true; rewrite Hcol; tauto).
        rewrite E in *. destruct (newline_represents t v w Hv Hrep Hw) as [H1 H2]; [by apply Hdef|].
        split; [done|]. split; [by destruct Hw|]. split; [by destruct Hw|done].
      - assert (t_wraps b t = false) as E by (apply bool_decide_eq_false; rewrite Hcol; tauto).
        rewrite E. subst w. by rewrite Nat.add_0_r. }
    destruct Hrw as (older & Ha & Hold & Hcur & Hb & Hcol1).
    destruct H as [E L R O]. rewrite E. cbn [color set_col set_buffer scrollback deferred].
    split; [|done]. rewrite Hcol1, Hcur. pose proof (wf_row w Hwf) as Hrow.
    exists older. cbn [above current below column scrollback deferred buffer row col
      set_col set_buffer]. split_and!; try done.
    + rewrite Ha. do 3 f_equal. symmetry. apply screen_rows_ext. intros x Hx. apply O; lia.
    + rewrite R. by rewrite Hclr.
    + rewrite Hb. symmetry. apply screen_rows_ext. intros x Hx. apply O; lia.
Qed.

Lemma text_represents s t v : wf v → represents t v →
  (length (option_list (deferred v)) + t_scrolls (color v) s t ≤ 1)%nat →
  wp (for_each s write_byte) (λ _ v', wf v' ∧ represents (t_text (color v) s t) v' ∧
    color v' = color v ∧ scrollback v' = scrollback v ∧
    length (option_list (deferred v'))
      = (length (option_list (deferred v)) + t_scrolls (color v) s t)%nat) v.
Proof.
  revert t v. induction s as [|b s IH]; intros t v Hv Hrep Hs.
  { apply wp_ret. split_and!; try done; cbn; lia. }
  cbn [for_each t_scrolls] in *. apply wp_bind. eapply wp_mono; [by apply write_byte_spec|].
  intros [] w Hpost. destruct (byte_post_wf _ _ _ Hv Hpost) as [Hw _].
  destruct (byte_represents _ _ _ _ Hv Hrep Hpost) as (Hr & Hc & Hsb & Hd); [lia|].
  rewrite <- Hc in *. eapply wp_mono; [apply (IH (t_byte (color w) t b)); try done|].
  - rewrite Hd. lia.
  - intros [] v' (H1 & H2 & H3 & H4 & H5). split_and!; try done; [congruence|]. rewrite H5, Hd. lia.
Qed.

Lemma set_ports_represents t v p : represents t v → represents t (set_ports p v).
Proof. done. Qed.

Lemma str_represents s t v : wf v → represents t v →
  (length (option_list (deferred v)) + t_scrolls (color v) s t ≤ 1)%nat →
  wp (write_str s) (λ _ v', wf v' ∧ represents (t_text (color v) s t) v' ∧
    color v' = color v ∧ scrollback v' = scrollback v ∧
    length (option_list (deferred v'))
      = (length (option_list (deferred v)) + t_scrolls (color v) s t)%nat) v.
Proof.
  intros Hv Hrep Hs. unfold write_str. apply wp_bind. eapply wp_mono; [by apply text_represents|].
  intros [] w (H1 & H2 & H3 & H4 & H5). apply wp_bind, wp_get, wp_cursor. intros p.
  split; [by apply set_ports_wf|]. done.
Qed.

Lemma t_scrolls_app clr s s' t :
  t_scrolls clr (s ++ s') t = (t_scrolls clr s t + t_scrolls clr s' (t_text clr s t))%nat.
Proof. revert t. induction s as [|b s IH]; intros t; cbn; [done|]. rewrite IH. unfold t_text. lia. Qed.

Lemma pieces_represent ps t v : wf v → represents t v →
  (length (option_list (deferred v)) + t_scrolls (color v) (mjoin ps) t ≤ 1)%nat →
  wp (for_each ps write_str) (λ _ v', wf v' ∧ represents (t_text (color v) (mjoin ps) t) v' ∧
    color v' = color v ∧ scrollback v' = scrollback v) v.
Proof.
  revert t v. induction ps as [|s ps IH]; intros t v Hv Hrep Hs; [by apply wp_ret|].
  change (mjoin (s :: ps)) with (s ++ mjoin ps) in *. rewrite t_scrolls_app in Hs.
  cbn [for_each]. apply wp_bind. eapply wp_mono; [apply str_represents; try done; lia|].
  intros [] w (H1 & H2 & H3 & H4 & H5). unfold t_text in *. rewrite foldl_app. rewrite <- H3 in *.
  eapply wp_mono; [apply (IH _ w H1 H2); rewrite H5; lia|].
  intros [] v' (? & ? & ? & ?). split_and!; congruence.
Qed.

Lemma commit_represents t v v' : wf v → represents t v →
  (deferred v ≠ None → current_line (scrollback v) + 1 < 2 ^ 64) →
  buffer v' = buffer v → row v' = row v → col v' = col v → deferred v' = None →
  match deferred v with
  | None => scrollback v' = scrollback v
  | Some l => add_line l (scrollback v) = Done (scrollback v')
  end → represents t v'.
Proof.
  intros Hv (older & Ha & Hold & Hc & Hb & Hcol) Hcl Eb Er Ec Ed Hsb. unfold represents.
  rewrite Eb, Er, Ec, Ed. destruct (deferred v) as [l|] eqn:Hd.
  - specialize (Hcl ltac:(done)). rewrite add_line_ok in Hsb by apply Hv. injection Hsb as <-.
    pose proof (wf_current v Hv) as [Hc0 _].
    set (n := Z.to_nat (current_line (scrollback v))).
    replace (Z.to_nat (current_line (scrollback v) `mod` SCROLLBACK_LINES)) with (n mod 500)%nat
      by (unfold n, SCROLLBACK_LINES; lia).
    assert (wadd 64 (current_line (scrollback v)) 1 = current_line (scrollback v) + 1) as ->
      by (apply wrap_id; unfold fits; lia).
    pose proof (history_add l (scrollback v) (wf_lines v Hv) Hc0) as Hh. cbn zeta in Hh. fold n in Hh.
    assert (∀ o, history (mkScrollback (<[(n mod 500)%nat := l]> (lines (scrollback v)))
      (current_line (scrollback v) + 1) o)
      = drop (if decide (n < 500)%nat then 0 else 1) (history (scrollback v)) ++ [l]) as Hh'
      by (intros o; exact Hh).
    cbn [current_line scrollback option_list] in *.
    exists (older ++ take (if decide (n < 500)%nat then 0 else 1) (history (scrollback v))).
    rewrite Hh'. split_and!; try done.
    + rewrite Ha. rewrite <- !app_assoc. f_equal.
      rewrite (app_assoc (take _ _) (drop _ _)), take_drop. done.
    + case_decide; [|right; lia]. destruct Hold as [->|?]; [by left|right; lia].
  - exists older. rewrite Hsb. by split_and!.
Qed.


(** C27: No call of the screen's public functions panics or writes outside the
    4000 bytes of the text buffer, whatever its arguments, in any order; the
    cursor stays on the 24 content rows, and only the status and scrollback
    calls change the status row. *)
Theorem vga_calls_safe calls v : wf v → Forall call_ok calls →
  wp (for_each calls run_call) (λ _ v', wf v' ∧
    (existsb writes_status calls = false → row_of (buffer v') 24 = row_of (buffer v) 24)) v.
Proof.
  intros Hv Hok. revert v Hv. induction Hok as [|c calls Hc Hok IH]; intros v Hv; [by apply wp_ret|].
  cbn [for_each existsb]. apply wp_bind. eapply wp_mono; [by apply keeps_call|].
  intros [] w [Hw Hsw]. eapply wp_mono; [by apply IH|]. intros [] v' [Hv' Hsv]. split; [done|].
  intros [H1 H2]%orb_false_iff. by rewrite Hsv, Hsw.
Qed.

(** Only the last row that scrolls off during one call reaches the
    scrollback: after two newlines on the last row, one line was added, the
    second row of the old screen; the first row is lost. *)
Theorem scrolled_lines_lost v : wf v → row v = 23 → deferred v = None →
  wp (write_fmt [[10; 10]]) (λ _ v',
    add_line (row_of (buffer v) 1) (scrollback v) = Done (scrollback v')) v.
Proof.
  intros Hv H23 Hd. unfold write_fmt. apply wp_bind. cbn [for_each]. apply wp_bind.
  assert (wp (write_str [10; 10]) (λ _ w, wf w ∧ deferred w = Some (row_of (buffer v) 1) ∧
    scrollback w = scrollback v) v) as Hstr.
  { unfold write_str. apply wp_bind. cbn [for_each]. change (write_byte 10) with newline.
    apply wp_bind. eapply wp_mono; [by apply newline_spec, set_col_wf|]. intros [] w1 H1.
    apply wp_bind. eapply wp_mono; [apply newline_spec, set_col_wf; [apply H1|lia]|]. intros [] w2 H2.
    apply wp_ret, wp_bind, wp_get, wp_cursor. intros p.
    assert (row w1 = 23) as Hr1 by (rewrite (np_row _ _ H1); lia).
    split; [by apply set_ports_wf; destruct H2|]. cbn [deferred scrollback set_ports].
    rewrite (np_deferred _ _ H2), decide_True by done. rewrite (np_scrollback _ _ H2).
    split; [|by destruct H1]. f_equal. rewrite (np_rows _ _ H1) by lia.
    by rewrite decide_True by done. }
  eapply wp_mono; [exact Hstr|]. intros [] w (Hw & Hdw & Hsw). apply wp_ret.
  eapply wp_mono; [by apply wp_commit|]. intros [] v' (_ & _ & _ & _ & _ & _ & Hsb).
  by rewrite Hdw, Hsw in Hsb.
Qed.

(** ** A concrete screen *)

Definition boot_screen : Vga :=
  mkVga (replicate 4000 0) 0 0 7 None ScrollbackBuffer_new [].
Definition boot_terminal : Term :=
  mkTerm [] (replicate 160 0) (replicate 23 (replicate 160 0)) 0.

Lemma screen_wf r : 0 ≤ r < 24 → wf (set_row r boot_screen).
Proof.
  intros Hr. split; try done. by apply Forall_replicate.
Qed.

Lemma boot_represents : represents boot_terminal boot_screen.
Proof.
  assert (∀ r, (r < 25)%nat → row_of (replicate 4000 0) r = replicate 160 0) as Hrow.
  { intros r Hr. unfold row_of. rewrite drop_replicate, take_replicate. f_equal. lia. }
  exists []. split; [done|]. split; [by left|]. split; [exact (eq_sym (Hrow 0%nat ltac:(lia)))|]. split; [|done].
  change (replicate 23 (replicate 160 0) = screen_rows (replicate 4000 0) 1 23).
  apply (list_eq_same_length _ _ 23); [by unfold screen_rows; rewrite length_fmap, length_seq|
    by rewrite length_replicate|].
  intros i x y Hi Hx Hy. apply lookup_replicate in Hx as [-> _].
  unfold screen_rows in Hy. apply list_lookup_fmap_Some in Hy as (k & -> & [-> ?]%lookup_seq).
  symmetry. apply Hrow. lia.
Qed.


Lemma vga_calls_safe_witness :
  wp (for_each [SetCursor 100 100; WriteFmt [[9; 65; 10]]; Backspace] run_call)
    (λ _ v', wf v' ∧ row_of (buffer v') 24 = row_of (buffer boot_screen) 24) boot_screen.
Proof.
  eapply wp_mono; [apply (vga_calls_safe [SetCursor 100 100; WriteFmt [[9; 65; 10]]; Backspace])|].
  - by apply (screen_wf 0).
  - by repeat constructor.
  - intros [] v' [H1 H2]. split; [done|]. by apply H2.
Defined.

Lemma scrolled_lines_lost_witness :
  wp (write_fmt [[10; 10]]) (λ _ v',
    add_line (row_of (buffer boot_screen) 1) ScrollbackBuffer_new = Done (scrollback v'))
    (set_row 23 boot_screen).
Proof. apply (scrolled_lines_lost (set_row 23 boot_screen)); [by apply screen_wf|done|done]. Defined.
