(* ===== verification/Ext3.v ===== *)
(** * The ext2/ext3 file system (src/src/fs/ext3.rs)

    Disk structures are decoded from and encoded to bytes at the offsets the
    packed Rust structs have; [Ext3Fs] is the mounted file system and the
    operations are methods over a [BlockDevice].  A cast of a buffer's pointer
    to a struct reference reads at that offset without a check; outside the
    buffer that is undefined, in the model [Panic].  A [&mut] argument comes
    back with the result, unless the caller drops it: after an error, or a
    scratch buffer. *)
From stdpp Require Import strings.
From S2P Require Import Prelude Words Disk Str.
Local Open Scope Z_scope.
Local Open Scope list_scope.

Definition EXT_MAGIC : Z := 0xEF53.
Definition S_IFDIR : Z := 0x4000.
Definition S_IFREG : Z := 0x8000.
Definition INDIRECT_BLOCK : nat := 12.
Definition FT_REG : Z := 1.
Definition FT_DIR : Z := 2.

(** ** On-disk structures *)

Definition le_at (off n : nat) (l : list Z) : Z := from_le (take n (drop off l)).
(** The bytes of a struct of [n] bytes at [off]. *)
Definition peek (off n : nat) (buf : list Z) : outcome (list Z) := slice off (off + n) buf.
(** [copy_nonoverlapping] of a struct's bytes. *)
Definition poke (off : nat) (src buf : list Z) : outcome (list Z) :=
  put off (off + length src) src buf.

Record Superblock := mkSuperblock {
  inodes_count : Z; blocks_count : Z; r_blocks_count : Z; sb_free_blocks_count : Z;
  sb_free_inodes_count : Z; first_data_block : Z; log_block_size : Z; log_frag_size : Z;
  sb_blocks_per_group : Z; frags_per_group : Z; sb_inodes_per_group : Z; sb_mtime : Z;
  wtime : Z; mnt_count : Z; max_mnt_count : Z; magic : Z; state : Z; errors : Z;
  minor_rev_level : Z; lastcheck : Z; checkinterval : Z; creator_os : Z; rev_level : Z;
  def_resuid : Z; def_resgid : Z }.
Definition decode_superblock (l : list Z) : Superblock :=
  mkSuperblock (le_at 0x00 4 l) (le_at 0x04 4 l) (le_at 0x08 4 l) (le_at 0x0C 4 l)
    (le_at 0x10 4 l) (le_at 0x14 4 l) (le_at 0x18 4 l) (le_at 0x1C 4 l)
    (le_at 0x20 4 l) (le_at 0x24 4 l) (le_at 0x28 4 l) (le_at 0x2C 4 l)
    (le_at 0x30 4 l) (le_at 0x34 2 l) (le_at 0x36 2 l) (le_at 0x38 2 l) (le_at 0x3A 2 l)
    (le_at 0x3C 2 l) (le_at 0x3E 2 l) (le_at 0x40 4 l) (le_at 0x44 4 l) (le_at 0x48 4 l)
    (le_at 0x4C 4 l) (le_at 0x50 2 l) (le_at 0x52 2 l).
Definition SUPERBLOCK_SIZE : nat := 84.

Record BgDescriptor := mkBgDescriptor {
  block_bitmap : Z; inode_bitmap : Z; inode_table : Z; free_blocks_count : Z;
  free_inodes_count : Z; used_dirs_count : Z; _pad : Z; _reserved : list Z }.
Definition decode_bg (l : list Z) : BgDescriptor :=
  mkBgDescriptor (le_at 0 4 l) (le_at 4 4 l) (le_at 8 4 l) (le_at 12 2 l) (le_at 14 2 l)
    (le_at 16 2 l) (le_at 18 2 l) (take 12 (drop 20 l)).
Definition BG_SIZE : nat := 32.

Record Inode := mkInode {
  mode : Z; uid : Z; isize : Z; atime : Z; ctime : Z; mtime : Z; dtime : Z; gid : Z;
  links_count : Z; sectors : Z; flags : Z; _osd1 : Z; block : list Z; generation : Z;
  file_acl : Z; size_high : Z; _faddr : Z }.
Definition decode_inode (l : list Z) : Inode :=
  mkInode (le_at 0 2 l) (le_at 2 2 l) (le_at 4 4 l) (le_at 8 4 l) (le_at 12 4 l) (le_at 16 4 l)
    (le_at 20 4 l) (le_at 24 2 l) (le_at 26 2 l) (le_at 28 4 l) (le_at 32 4 l) (le_at 36 4 l)
    ((λ i, le_at (40 + 4 * i) 4 l) <$> seq 0 15) (le_at 100 4 l) (le_at 104 4 l) (le_at 108 4 l)
    (le_at 112 4 l).
Definition encode_inode (i : Inode) : list Z :=
  to_le 2 (mode i) ++ to_le 2 (uid i) ++ to_le 4 (isize i) ++ to_le 4 (atime i) ++
  to_le 4 (ctime i) ++ to_le 4 (mtime i) ++ to_le 4 (dtime i) ++ to_le 2 (gid i) ++
  to_le 2 (links_count i) ++ to_le 4 (sectors i) ++ to_le 4 (flags i) ++ to_le 4 (_osd1 i) ++
  concat (to_le 4 <$> block i) ++ to_le 4 (generation i) ++ to_le 4 (file_acl i) ++
  to_le 4 (size_high i) ++ to_le 4 (_faddr i).
(** [size_of::<Inode>()]: the packed struct ends with [_faddr]. *)
Definition INODE_SIZE : nat := 116.
Definition set_size (n : Z) (i : Inode) : Inode :=
  mkInode (mode i) (uid i) n (atime i) (ctime i) (mtime i) (dtime i) (gid i) (links_count i)
    (sectors i) (flags i) (_osd1 i) (block i) (generation i) (file_acl i) (size_high i) (_faddr i).
Definition set_block (k : nat) (b : Z) (i : Inode) : Inode :=
  mkInode (mode i) (uid i) (isize i) (atime i) (ctime i) (mtime i) (dtime i) (gid i)
    (links_count i) (sectors i) (flags i) (_osd1 i) (<[k := b]> (block i)) (generation i)
    (file_acl i) (size_high i) (_faddr i).

Record DirEntry := mkDirEntry { inode : Z; rec_len : Z; name_len : Z; file_type : Z }.
Definition decode_dirent (l : list Z) : DirEntry :=
  mkDirEntry (le_at 0 4 l) (le_at 4 2 l) (le_at 6 1 l) (le_at 7 1 l).
Definition encode_dirent (d : DirEntry) : list Z :=
  to_le 4 (inode d) ++ to_le 2 (rec_len d) ++ to_le 1 (name_len d) ++ to_le 1 (file_type d).

Record Ext3Fs := mkExt3Fs {
  block_size : nat; inodes_per_group : Z; blocks_per_group : Z;
  bg_desc_table_block : Z; bg_count : Z }.

(** ** Unsigned arithmetic of release builds; division by zero panics. *)
Definition wmul (w a b : Z) : Z := wrap w (a * b).
Definition udiv (a b : Z) : outcome Z := if decide (b = 0) then Panic else Done (a / b).
Definition urem (a b : Z) : outcome Z := if decide (b = 0) then Panic else Done (a mod b).
Definition ndiv (a b : nat) : outcome nat :=
  if decide (b = O) then Panic else Done (a / b)%nat.

Section ext3.
Context {D : Type} `{BlockDevice D}.
Abbreviation E A := (ST D (result A string)).

Definition mount : E Ext3Fs :=
  '(r, sb_buf) ← ata_read 2 2 (replicate 1024 0);
  match r with
  | Err _ => err "ATA read error"%string
  | Ok _ =>
      l ← lift (peek 0 SUPERBLOCK_SIZE sb_buf);
      let sb := decode_superblock l in
      if negb (magic sb =? EXT_MAGIC) then err "not an ext2/3/4 filesystem"%string else
      let block_size := Z.to_nat (wrap 64 (Z.shiftl 1024 (log_block_size sb mod 64))) in
      let bg_desc_table_block := if decide (block_size = 1024)%nat then 2 else 1 in
      bg_count ← lift (udiv (wsub 32 (wadd 32 (blocks_count sb) (sb_blocks_per_group sb)) 1)
                            (sb_blocks_per_group sb));
      ok (mkExt3Fs block_size (sb_inodes_per_group sb) (sb_blocks_per_group sb)
            bg_desc_table_block bg_count)
  end.

Context (fs : Ext3Fs).

(** ** Blocks, descriptors, inodes *)

Definition zeroed : list Z := replicate (block_size fs) 0.

Definition read_block (blk : Z) (buf : list Z) : E (list Z) :=
  let sectors_per_block := wrap 8 (block_size fs / 512)%nat in
  let lba := wmul 32 blk sectors_per_block in
  '(r, buf) ← ata_read lba sectors_per_block buf;
  match r with Ok _ => ok buf | Err _ => err "ATA read error"%string end.

Definition write_block (blk : Z) (buf : list Z) : E unit :=
  let sectors_per_block := wrap 8 (block_size fs / 512)%nat in
  let lba := wmul 32 blk sectors_per_block in
  map_err (λ _, "ATA write error"%string) (ata_write lba sectors_per_block buf).

Definition read_bg_desc (group : Z) (buf : list Z) : E (BgDescriptor * list Z) :=
  gd_per_block ← lift (ndiv (block_size fs) BG_SIZE);
  q ← lift (udiv group (wrap 32 (Z.of_nat gd_per_block)));
  let gd_block := wadd 32 (bg_desc_table_block fs) q in
  buf ←? read_block gd_block buf;
  idx ← lift (urem group (wrap 32 (Z.of_nat gd_per_block)));
  gd ← lift (peek (Z.to_nat idx * BG_SIZE) BG_SIZE buf);
  ok (decode_bg gd, buf).

(** Where inode [inode_num] is: the block of the table and the offset there,
    given the number of inodes of a block. *)
Definition inode_position (inode_num : Z) (buf : list Z) : E (Z * nat * list Z) :=
  group ← lift (udiv (wsub 32 inode_num 1) (inodes_per_group fs));
  idx ← lift (urem (wsub 32 inode_num 1) (inodes_per_group fs));
  '(bg, buf) ←? read_bg_desc group buf;
  inodes_per_block ← lift (ndiv (block_size fs) INODE_SIZE);
  q ← lift (udiv idx (wrap 32 (Z.of_nat inodes_per_block)));
  r ← lift (urem idx (wrap 32 (Z.of_nat inodes_per_block)));
  ok (wadd 32 (inode_table bg) q, (Z.to_nat r * INODE_SIZE)%nat, buf).

Definition read_inode (inode_num : Z) (buf : list Z) : E (Inode * list Z) :=
  '(blk, offset, buf) ←? inode_position inode_num buf;
  buf ←? read_block blk buf;
  i ← lift (peek offset INODE_SIZE buf);
  ok (decode_inode i, buf).

Definition write_inode (inode_num : Z) (i : Inode) : E unit :=
  '(blk, offset, _) ←? inode_position inode_num zeroed;
  buf ←? read_block blk zeroed;
  buf ← lift (poke offset (encode_inode i) buf);
  write_block blk buf.

(** ** Bitmaps *)

Definition bitmap_set (bitmap_block bit : Z) (value : bool) : E unit :=
  buf ←? read_block bitmap_block zeroed;
  let byte_idx := Z.to_nat (bit / 8) in
  let bit_mask := wrap 8 (Z.shiftl 1 (bit mod 8)) in
  b ← lift (index byte_idx buf);
  buf ← lift (store byte_idx (if value then Z.lor b bit_mask else Z.land b (wnot 8 bit_mask)) buf);
  write_block bitmap_block buf.

(** [for bit in 0..8], from [bit] on. *)
Fixpoint scan_bits (n : nat) (bit byte_idx max_bits byte : Z) : option Z :=
  match n with
  | O => None
  | S n =>
      if decide (max_bits ≤ wadd 32 (wmul 32 byte_idx 8) bit) then None
      else if decide (Z.land byte (Z.shiftl 1 bit) = 0) then Some bit
      else scan_bits n (bit + 1) byte_idx max_bits byte
  end.
(** [for byte_idx in 0..block_size]: the byte, its value and the bit found. *)
Fixpoint scan_bytes (n byte_idx : nat) (max_bits : Z) (buf : list Z) :
    outcome (option (nat * Z * Z)) :=
  match n with
  | O => mret None
  | S n =>
      byte ← index byte_idx buf;
      match (if decide (byte = 0xFF) then None
             else scan_bits 8 0 (wrap 32 (Z.of_nat byte_idx)) max_bits byte) with
      | Some bit => mret (Some (byte_idx, byte, bit))
      | None => scan_bytes n (S byte_idx) max_bits buf
      end
  end.
Definition bitmap_alloc (bitmap_block max_bits : Z) : E Z :=
  buf ←? read_block bitmap_block zeroed;
  found ← lift (scan_bytes (block_size fs) 0 max_bits buf);
  match found with
  | Some (byte_idx, byte, bit) =>
      buf ← lift (store byte_idx (Z.lor byte (Z.shiftl 1 bit)) buf);
      write_block bitmap_block buf ?;;
      ok (wadd 32 (wmul 32 (wrap 32 (Z.of_nat byte_idx)) 8) bit)
  | None => err "no free bits in bitmap"%string
  end.

Definition alloc_block : E Z :=
  '(bg, _) ←? read_bg_desc 0 zeroed;
  bitmap_alloc (block_bitmap bg) (blocks_per_group fs).
Definition free_block (blk : Z) : E unit :=
  '(bg, _) ←? read_bg_desc 0 zeroed;
  bitmap_set (block_bitmap bg) blk false.
Definition alloc_inode : E Z :=
  '(bg, _) ←? read_bg_desc 0 zeroed;
  ino ←? bitmap_alloc (inode_bitmap bg) (inodes_per_group fs);
  ok (wadd 32 ino 1).
Definition free_inode (inode_num : Z) : E unit :=
  group ← lift (udiv (wsub 32 inode_num 1) (inodes_per_group fs));
  idx ← lift (urem (wsub 32 inode_num 1) (inodes_per_group fs));
  '(bg, _) ←? read_bg_desc group zeroed;
  bitmap_set (inode_bitmap bg) idx false.

(** ** File data *)

Definition inode_block (i : Inode) (blk_idx : Z) (buf : list Z) : E (Z * list Z) :=
  if decide (Z.to_nat blk_idx < 12)%nat then b ← lift (index (Z.to_nat blk_idx) (block i)); ok (b, buf)
  else if decide (Z.to_nat blk_idx < 12 + block_size fs / 4)%nat then
    indirect_blk ← lift (index INDIRECT_BLOCK (block i));
    if decide (indirect_blk = 0) then err "hole in file"%string else
    buf ←? read_block indirect_blk buf;
    b ← lift (peek ((Z.to_nat blk_idx - 12) * 4) 4 buf);
    ok (from_le b, buf)
  else err "double indirect not supported"%string.

(** The loop of [read_file_inode], [n] blocks from [blk_idx] on. *)
Fixpoint read_blocks (n : nat) (blk_idx : nat) (i : Inode) (buf block_buf : list Z) : E (list Z) :=
  match n with
  | O => ok buf
  | S n =>
      '(disk_block, block_buf) ←? inode_block i blk_idx block_buf;
      if decide (disk_block = 0) then read_blocks n (S blk_idx) i buf block_buf else
      block_buf ←? read_block disk_block block_buf;
      let offset := (blk_idx * block_size fs)%nat in
      let copy := ((Z.to_nat (isize i) - offset) `min` block_size fs)%nat in
      src ← lift (slice 0 copy block_buf);
      buf ← lift (put offset (offset + copy) src buf);
      read_blocks n (S blk_idx) i buf block_buf
  end.

(** [(size + bs - 1) / bs] *)
Definition blocks_of (n : nat) : outcome nat := ndiv (n + block_size fs - 1) (block_size fs).

(** Both callers that look at the buffer pass an empty one. *)
Definition read_file_inode (i : Inode) : E (list Z) :=
  let size := Z.to_nat (isize i) in
  blocks ← lift (blocks_of size);
  read_blocks (Z.to_nat (wrap 32 (Z.of_nat blocks))) 0 i (replicate size 0) zeroed.

(** The three loops of [write_file_data]. *)
Fixpoint grow (n : nat) (blk_idx : nat) (i : Inode) : E Inode :=
  match n with
  | O => ok i
  | S n =>
      existing ← (if decide (blk_idx < 12)%nat then lift (index blk_idx (block i)) else mret 0);
      if decide (existing = 0) then
        new_block ←? alloc_block;
        let disk_block := wadd 32 new_block 1 in
        if decide (blk_idx < 12)%nat then
          _ ← lift (store blk_idx disk_block (block i));
          grow n (S blk_idx) (set_block blk_idx disk_block i)
        else err "no indirect block write support"%string
      else grow n (S blk_idx) i
  end.

Fixpoint write_data (n : nat) (blk_idx : nat) (i : Inode) (data block_buf : list Z) : E (list Z) :=
  match n with
  | O => ok block_buf
  | S n =>
      if decide (blk_idx < 12)%nat then
        disk_block ← lift (index blk_idx (block i));
        let bs := block_size fs in
        let offset := (blk_idx * bs)%nat in
        let copy := ((length data - offset) `min` bs)%nat in
        block_buf ← lift (put 0 bs (replicate bs 0) block_buf);
        src ← lift (slice offset (offset + copy) data);
        block_buf ← lift (put 0 copy src block_buf);
        out ← lift (slice 0 bs block_buf);
        write_block disk_block out ?;;
        write_data n (S blk_idx) i data block_buf
      else err "indirect not writable"%string
  end.

Fixpoint shrink (n : nat) (blk_idx : nat) (i : Inode) : E Inode :=
  match n with
  | O => ok i
  | S n =>
      if decide (blk_idx < 12)%nat then
        b ← lift (index blk_idx (block i));
        if decide (b = 0) then shrink n (S blk_idx) i
        else free_block b ?;; shrink n (S blk_idx) (set_block blk_idx 0 i)
      else shrink n (S blk_idx) i
  end.

Definition write_file_data (i : Inode) (data block_buf : list Z) : E Inode :=
  blocks_needed ← lift (blocks_of (length data));
  let n := Z.to_nat (wrap 32 (Z.of_nat blocks_needed)) in
  i ←? grow n 0 i;
  _ ←? write_data n 0 i data block_buf;
  old_blocks ← lift (blocks_of (Z.to_nat (isize i)));
  i ←? shrink (old_blocks - blocks_needed) blocks_needed i;
  ok (set_size (wrap 32 (length data)) i).

(** ** Directories *)

Definition dirent_at (off : nat) (raw : list Z) : outcome DirEntry :=
  l ← peek off 8 raw; mret (decode_dirent l).
Definition DOT : str := [46].
Definition DOTDOT : str := [46; 46].
Definition INVALID : str := [60; 105; 110; 118; 97; 108; 105; 100; 62].

(** The loop over the entries: fuel is the number of bytes left, since an entry
    with [rec_len] 0 ends it. *)
Fixpoint dir_entries (fuel : nat) (offset len : nat) (raw : list Z) : outcome (list (str * Z * Z)) :=
  if negb (bool_decide (offset < len ∧ offset + 8 ≤ len)%nat) then mret [] else
  match fuel with
  | O => Diverge
  | S fuel =>
      de ← dirent_at offset raw;
      if (inode de =? 0) || (rec_len de =? 0) then mret [] else
      let name_start := (offset + 8)%nat in
      let name_end := (name_start + Z.to_nat (name_len de))%nat in
      here ← (if decide (name_end ≤ length raw)%nat then
                name ← slice name_start name_end raw;
                let name := if valid_utf8 name then name else INVALID in
                mret (if bool_decide (name = DOT) || bool_decide (name = DOTDOT) then []
                      else [(name, inode de, file_type de)])
              else mret []);
      rest ← dir_entries fuel (offset + Z.to_nat (rec_len de)) len raw;
      mret (here ++ rest)
  end.
Definition read_dir_inode (i : Inode) : E (list (str * Z * Z)) :=
  raw ←? read_file_inode i;
  let len := Z.to_nat (isize i) in
  es ← lift (dir_entries len 0 len raw);
  ok es.

(** The loop of [dir_add_entry] over the old entries; it sets the [rec_len] of
    the one that ends at [new_offset]. *)
Fixpoint adjust_last (fuel : nat) (prev_offset new_offset : nat) (raw : list Z) :
    outcome (list Z) :=
  match fuel with
  | O => Diverge
  | S fuel =>
      de ← dirent_at prev_offset raw;
      if decide (rec_len de = 0) then mret raw else
      let next := (prev_offset + Z.to_nat (rec_len de))%nat in
      if decide (next = new_offset) then
        poke (prev_offset + 4) (to_le 2 (wrap 16 (Z.of_nat (new_offset - prev_offset)))) raw
      else if decide (new_offset < next)%nat then mret raw
      else adjust_last fuel next new_offset raw
  end.

Definition dir_add_entry (dir_inode : Inode) (name : str) (inode_num file_type : Z) : E Inode :=
  raw ←? read_file_inode dir_inode;
  let entry_size := (8 + length name)%nat in
  let rec_len := wrap 16 (Z.land (Z.of_nat (entry_size + 3)) (wnot 64 3)) in
  if decide (rec_len < 12) then err "entry too small"%string else
  let new_offset := length raw in
  let raw := raw ++ replicate (Z.to_nat rec_len) 0 in
  let de := mkDirEntry inode_num rec_len (wrap 8 (Z.of_nat (length name))) file_type in
  raw ← lift (poke new_offset (encode_dirent de) raw);
  raw ← lift (put (new_offset + 8) (new_offset + 8 + length name) name raw);
  raw ← (if decide (0 < new_offset)%nat then lift (adjust_last (S new_offset) 0 new_offset raw)
         else mret raw);
  write_file_data dir_inode raw zeroed.

(** The first loop of [dir_remove_entry]: offset and inode of the entry. *)
Fixpoint find_entry (fuel : nat) (prev_offset len : nat) (raw : list Z) (name : str) :
    outcome (option (nat * Z)) :=
  if decide (len < prev_offset + 8)%nat then mret None else
  match fuel with
  | O => Diverge
  | S fuel =>
      de ← dirent_at prev_offset raw;
      if (inode de =? 0) || (rec_len de =? 0) then mret None else
      let name_off := (prev_offset + 8)%nat in
      let name_end := (name_off + Z.to_nat (name_len de))%nat in
      same ← (if decide (name_end ≤ length raw)%nat then
                entry_name ← slice name_off name_end raw;
                mret (bool_decide ((if valid_utf8 entry_name then entry_name else []) = name))
              else mret false);
      if same : bool then mret (Some (prev_offset, inode de))
      else find_entry fuel (prev_offset + Z.to_nat (rec_len de)) len raw name
  end.
(** The second: the entry before [found_at] takes its space. *)
Fixpoint merge_before (fuel : nat) (scan found_at : nat) (de_rec_len : Z) (raw : list Z) :
    outcome (list Z) :=
  match fuel with
  | O => Diverge
  | S fuel =>
      sde ← dirent_at scan raw;
      if decide (rec_len sde = 0) then mret raw else
      let nxt := (scan + Z.to_nat (rec_len sde))%nat in
      if decide (nxt = found_at) then
        poke (scan + 4) (to_le 2 (wadd 16 (rec_len sde) de_rec_len)) raw
      else if decide (found_at < nxt)%nat then mret raw
      else merge_before fuel nxt found_at de_rec_len raw
  end.
Definition dir_remove_entry (dir_inode : Inode) (name : str) : E (Z * Inode) :=
  raw ←? read_file_inode dir_inode;
  let len := Z.to_nat (isize dir_inode) in
  found_offset ← lift (find_entry len 0 len raw name);
  match found_offset with
  | None => err "file not found in directory"%string
  | Some (found_at, ino) =>
      de ← lift (dirent_at found_at raw);
      let next_offset := (found_at + Z.to_nat (rec_len de))%nat in
      raw ← (if decide (next_offset < len)%nat
             then lift (merge_before (S found_at) 0 found_at (rec_len de) raw) else mret raw);
      raw ← lift (poke found_at (to_le 4 0) raw);
      i ←? write_file_data dir_inode raw zeroed;
      ok (ino, i)
  end.

(** ** Paths *)

Definition is_dir (i : Inode) : bool := bool_decide (Z.land (mode i) S_IFDIR ≠ 0).
Definition type_of (i : Inode) : Z := if is_dir i then FT_DIR else FT_REG.

Definition lookup_name (component : str) (entries : list (str * Z * Z)) : option Z :=
  snd ∘ fst <$> find (λ e, bool_decide (e.1.1 = component)) entries.

Fixpoint walk_from (components : list str) (current_inode : Z) (current : Inode) (buf : list Z) :
    E (Z * Inode * Z * list Z) :=
  match components with
  | [] => ok (current_inode, current, type_of current, buf)
  | component :: components =>
      if decide (component = []) then walk_from components current_inode current buf
      else if negb (is_dir current) then err "not a directory"%string
      else
        entries ←? read_dir_inode current;
        match lookup_name component entries with
        | Some ino =>
            '(current, buf) ←? read_inode ino buf;
            walk_from components ino current buf
        | None => err "file not found"%string
        end
  end.
Definition SLASH : str := [47].
Definition walk (start : Z) (path : str) (buf : list Z) : E (Z * Inode * Z * list Z) :=
  '(current, buf) ←? read_inode start buf;
  if decide (path = [] ∨ path = SLASH) then ok (start, current, type_of current, buf)
  else walk_from (split 47 path) start current buf.

(** ** The public operations *)

Definition list_dir (path : str) : E (list (str * Z * Z)) :=
  '(_, i, _, _) ←? walk 2 path zeroed;
  if negb (is_dir i) then err "not a directory"%string else read_dir_inode i.

Definition read_file (path : str) : E (list Z) :=
  '(_, i, ft, _) ←? walk 2 path zeroed;
  if decide (ft = FT_DIR) then err "is a directory"%string else read_file_inode i.

(** The split of a path at its last slash, with the checks both users make. *)
Definition parent_and_name (path : str) : result (str * str) string :=
  match rfind 47 path with
  | Some pos =>
      let parent_path := take pos path in
      if decide (parent_path = []) then Err "need absolute path"%string
      else Ok (parent_path, drop (pos + 1) path)
  | None => Err "need absolute path"%string
  end.

Definition new_inode : Inode :=
  mkInode (Z.lor S_IFREG 0x1A4) 0 0 0 0 0 0 0 1 0 0 0 (replicate 15 0) 0 0 0 0.

Definition create_file (path : str) : E unit :=
  '(parent, name) ←? mret (parent_and_name path);
  if decide (name = [] ∨ 255 < length name)%nat then err "invalid name"%string else
  '(parent_ino, parent_inode, _, _) ←? walk 2 parent zeroed;
  if negb (is_dir parent_inode) then err "parent not a directory"%string else
  entries ←? read_dir_inode parent_inode;
  if existsb (λ e, bool_decide (e.1.1 = name)) entries then err "file exists"%string else
  ino ←? alloc_inode;
  write_inode ino new_inode ?;;
  parent_inode ←? dir_add_entry parent_inode name ino FT_REG;
  write_inode parent_ino parent_inode.

(** [write_file] calls itself after it has created the file: [fuel] bounds the
    number of these calls. *)
Fixpoint write_file (fuel : nat) (path : str) (data : list Z) : E unit :=
  match fuel with
  | O => diverge
  | S fuel =>
      r ← walk 2 path zeroed;
      match r with
      | Ok (ino, i, ft, buf) =>
          if decide (ft = FT_DIR) then err "cannot write to directory"%string else
          i ←? write_file_data i data buf;
          write_inode ino i
      | Err _ => create_file path ?;; write_file fuel path data
      end
  end.

(** The loop of [delete_file] that frees the data blocks. *)
Fixpoint free_blocks (n blk_idx : nat) (i : Inode) : E unit :=
  match n with
  | O => ok tt
  | S n =>
      if decide (blk_idx < 12)%nat then
        blk ← lift (index blk_idx (block i));
        (if decide (blk ≠ 0) then free_block blk else ok tt) ?;;
        free_blocks n (S blk_idx) i
      else free_blocks n (S blk_idx) i
  end.

Definition delete_file (path : str) : E unit :=
  '(parent, name) ←? mret (parent_and_name path);
  '(parent_ino, parent_inode, _, buf) ←? walk 2 parent zeroed;
  '(ino, file_inode, _, _) ←? walk 2 path buf;
  if is_dir file_inode then err "cannot delete directory (not implemented)"%string else
  blocks ← lift (blocks_of (Z.to_nat (isize file_inode)));
  free_blocks blocks 0 file_inode ?;;
  free_inode ino ?;;
  '(_, parent_inode) ←? dir_remove_entry parent_inode name;
  write_inode parent_ino parent_inode.
End ext3.
