(* ===== verification/Ext3Read.v ===== *)
(** * The ext2/ext3 file system: reading

    [reads F d m P]: on every disk with the contents of [d] the code [m]
    returns without changing the disk, with a value satisfying [P] or, if [F],
    with an error.  The read path is shown to be safe on every disk, however
    corrupt. *)
From stdpp Require Import strings.
From S2P Require Import Prelude Words Disk Str Ext3.
Local Open Scope Z_scope.
Local Open Scope list_scope.

(** What [mount] has to find for the other operations to be safe. *)
Record wf_fs (fs : Ext3Fs) : Prop := {
  wf_bs : (1024 ≤ block_size fs)%nat;
  wf_bs_max : block_size fs < 2 ^ 37;
  wf_ipg : 0 < inodes_per_group fs;
  wf_bg : 0 ≤ bg_desc_table_block fs;
}.

Definition wf_inode (i : Inode) : Prop := length (block i) = 15%nat ∧ 0 ≤ isize i.

(** ** Decoding *)

Lemma le_at_bytes off n l : bytes l → bytes (take n (drop off l)).
Proof. intros. by apply Forall_take, Forall_drop. Qed.

Lemma le_at_fits off (n : nat) l : bytes l → fits (8 * n) (le_at off n l).
Proof.
  intros Hb. eapply fits_weaken; [|by apply from_le_fits, le_at_bytes].
  rewrite length_take. lia.
Qed.

Lemma le_at_nonneg off n l : bytes l → 0 ≤ le_at off n l.
Proof. intros. by apply le_at_fits. Qed.

Lemma decode_inode_wf l : bytes l → wf_inode (decode_inode l).
Proof.
  intros Hb. split; [cbn [block decode_inode]; by rewrite length_fmap, length_seq|].
  by apply le_at_nonneg.
Qed.

Lemma peek_done off (n : nat) buf : (off + n ≤ length buf)%nat →
  peek off n buf = Done (take n (drop off buf)).
Proof. intros. unfold peek. rewrite slice_done by lia. do 2 f_equal. lia. Qed.

Section reads.
Context {D : Type} `{BlockDeviceOk D}.
Implicit Types (d : D) (F : Prop).
Abbreviation E A := (ST D (result A string)).

Definition same (d d' : D) : Prop :=
  (∀ l, sector d' l = sector d l) ∧ capacity d' = capacity d.

#[global] Instance same_preorder : PreOrder same.
Proof.
  split; [by intros d|]. intros d1 d2 d3 (S1 & C1) (S2 & C2).
  split; [|congruence]. intros l. by rewrite S2.
Qed.

Definition reads F d {A} (m : E A) (P : A → Prop) : Prop := ∀ d1, same d d1 →
  wpe m (λ a d', same d d' ∧ P a) (λ d', same d d' ∧ F) d1.

Lemma reads_ok F d {A} (a : A) (P : A → Prop) : P a → reads F d (ok a) P.
Proof. intros Ha d1 Hd1. by apply wpe_ok. Qed.

Lemma reads_err F d {A} e (P : A → Prop) : F → reads F d (err e) P.
Proof. intros Ha d1 Hd1. by apply wpe_err. Qed.

Lemma reads_try F d {A B} (m : E A) (f : A → E B) P Q :
  reads F d m P → (∀ a, P a → reads F d (f a) Q) → reads F d (try_bind m f) Q.
Proof.
  intros Hm Hf d1 Hd1. apply wpe_try. eapply wpe_mono; [by apply Hm| |done].
  intros a d2 [Hd2 Ha]. by apply Hf.
Qed.

Lemma reads_lift F d {A B} (m : outcome A) (f : A → E B) P Q :
  runs m P → (∀ a, P a → reads F d (f a) Q) → reads F d (lift m ≫= f) Q.
Proof.
  intros Hm Hf d1 Hd1. apply wpe_lift. eapply runs_mono; [exact Hm|].
  intros a Ha. by apply Hf.
Qed.

Lemma reads_done F d {A B} (m : outcome A) (f : A → E B) a Q :
  m = Done a → reads F d (f a) Q → reads F d (lift m ≫= f) Q.
Proof. intros -> Hf d1 Hd1. by apply Hf. Qed.

Lemma reads_mono F d {A} (m : E A) (P Q : A → Prop) :
  reads F d m P → (∀ a, P a → Q a) → reads F d m Q.
Proof.
  intros Hm HPQ d1 Hd1. eapply wpe_mono; [by apply Hm| |done]. intros a d2 []; auto.
Qed.

Lemma reads_wp F d {A} (m : E A) (P : A → Prop) : reads F d m P →
  wp m (λ r d', same d d' ∧ match r with Ok a => P a | Err _ => F end) d.
Proof.
  intros Hm. eapply wp_mono; [by apply (Hm d)|]. intros [a|e] d' []; done.
Qed.

Context (fs : Ext3Fs) (WF : wf_fs fs).

Let read_buf (buf : list Z) := length buf = block_size fs ∧ bytes buf.

Lemma zeroed_ok : read_buf (zeroed fs).
Proof. split; [apply length_replicate|]. by apply Forall_replicate. Qed.

Lemma read_block_reads d blk buf : read_buf buf → reads True d (read_block fs blk buf) read_buf.
Proof.
  intros [Hl Hb] d1 Hd1. unfold read_block. apply wp_bind.
  eapply wp_mono; [apply ata_read_ok; by apply wrap_fits|].
  intros [[[]|e] buf'] d' (HS & HC & Hl' & Hb' & _); cbn.
  - split; [etrans; [exact Hd1|done]|]. split; [congruence|auto].
  - split; [etrans; [exact Hd1|done]|done].
Qed.

Lemma udiv_done a b : b ≠ 0 → udiv a b = Done (a / b).
Proof. intros. unfold udiv. by rewrite decide_False. Qed.
Lemma urem_done a b : b ≠ 0 → urem a b = Done (a mod b).
Proof. intros. unfold urem. by rewrite decide_False. Qed.
Lemma ndiv_done a b : b ≠ O → ndiv a b = Done (a / b)%nat.
Proof. intros. unfold ndiv. by rewrite decide_False. Qed.

(** The number of structs of [n] bytes in a block, as the code computes it. *)
Lemma per_block n : (32 ≤ n)%nat → (n ≤ 1024)%nat →
  wrap 32 (Z.of_nat (block_size fs / n)) = (block_size fs / n)%nat ∧
  (0 < block_size fs / n)%nat ∧ (block_size fs / n * n ≤ block_size fs)%nat.
Proof.
  intros Hn Hn'. pose proof (wf_bs _ WF). pose proof (wf_bs_max _ WF) as Hmax.
  assert (0 < block_size fs / n)%nat by (apply Nat.div_str_pos; lia).
  assert (block_size fs / n * n ≤ block_size fs)%nat
    by (rewrite Nat.mul_comm; apply Nat.Div0.mul_div_le).
  split; [|done]. apply wrap_id. pow2. nia.
Qed.

Lemma read_bg_reads d group buf : 0 ≤ group → read_buf buf →
  reads True d (read_bg_desc fs group buf) (λ r, read_buf r.2).
Proof.
  intros Hg Hbuf. destruct (per_block BG_SIZE) as (E & Hpos & Hle); [unfold BG_SIZE; lia..|].
  unfold read_bg_desc.
  eapply reads_done; [apply ndiv_done; unfold BG_SIZE in *; lia|]. rewrite E.
  eapply reads_done; [apply udiv_done; lia|].
  eapply reads_try; [by apply read_block_reads|]. intros buf' [Hl Hb].
  eapply reads_done; [apply urem_done; lia|].
  pose proof (Z.mod_pos_bound group (block_size fs / BG_SIZE)%nat ltac:(lia)).
  eapply reads_done; [apply peek_done; nia|].
  by apply reads_ok.
Qed.

Lemma inode_position_reads d n buf : read_buf buf →
  reads True d (inode_position fs n buf)
    (λ '(_, offset, buf), (offset + INODE_SIZE ≤ block_size fs)%nat ∧ read_buf buf).
Proof.
  intros Hbuf. destruct (per_block INODE_SIZE) as (E & Hpos & Hle); [unfold INODE_SIZE; lia..|].
  pose proof (wf_ipg _ WF). pose proof (wrap_fits 32 (n - 1) ltac:(lia)) as [? _].
  unfold inode_position, wsub.
  eapply reads_done; [apply udiv_done; lia|]. eapply reads_done; [apply urem_done; lia|].
  eapply reads_try; [apply read_bg_reads; [by apply Z.div_pos; lia|done]|].
  intros [bg buf'] Hbuf'. pose proof (Z.mod_pos_bound (wrap 32 (n - 1)) (inodes_per_group fs)).
  eapply reads_done; [apply ndiv_done; unfold INODE_SIZE in *; lia|]. rewrite E.
  eapply reads_done; [apply udiv_done; lia|]. eapply reads_done; [apply urem_done; lia|].
  set (r := wrap 32 (n - 1) mod inodes_per_group fs) in *.
  pose proof (Z.mod_pos_bound r (block_size fs / INODE_SIZE)%nat ltac:(lia)).
  apply reads_ok. split; [nia|done].
Qed.

Lemma read_inode_reads d n buf : read_buf buf →
  reads True d (read_inode fs n buf) (λ '(i, buf), wf_inode i ∧ read_buf buf).
Proof.
  intros Hbuf. unfold read_inode.
  eapply reads_try; [by apply inode_position_reads|]. intros [[blk offset] buf1] [Ho Hbuf1].
  eapply reads_try; [by apply read_block_reads|]. intros buf2 [Hl Hb].
  eapply reads_done; [apply peek_done; lia|].
  apply reads_ok. split; [|done]. apply decode_inode_wf. by apply le_at_bytes.
Qed.

(** ** File data *)

Lemma inode_block_reads d i k buf : wf_inode i → read_buf buf →
  reads True d (inode_block fs i k buf) (λ '(b, buf), read_buf buf).
Proof.
  intros [Hlen _] Hbuf. unfold inode_block. case_decide as Hk.
  { destruct (index_lt (Z.to_nat k) (block i)) as (b & _ & E); [lia|].
    eapply reads_done; [exact E|]. by apply reads_ok. }
  case_decide as Hk'; [|by apply reads_err].
  destruct (index_lt INDIRECT_BLOCK (block i)) as (b & _ & E); [unfold INDIRECT_BLOCK; lia|].
  eapply reads_done; [exact E|]. case_decide; [by apply reads_err|].
  eapply reads_try; [by apply read_block_reads|]. intros buf' [Hl Hb].
  eapply reads_done; [apply peek_done|by apply reads_ok].
  pose proof (Nat.Div0.mul_div_le (block_size fs) 4). lia.
Qed.

Lemma bytes_put a b src buf buf' : bytes src → bytes buf → put a b src buf = Done buf' → bytes buf'.
Proof.
  intros ? ?. unfold put. case_decide; [|done]. intros [= <-].
  apply Forall_app; split; [by apply Forall_take|].
  apply Forall_app; split; [done|by apply Forall_drop].
Qed.

Lemma read_blocks_reads d n k i buf block_buf : wf_inode i →
  length buf = Z.to_nat (isize i) → bytes buf → read_buf block_buf →
  n = O ∨ ((k + n - 1) * block_size fs ≤ Z.to_nat (isize i))%nat →
  reads True d (read_blocks fs n k i buf block_buf)
    (λ buf, length buf = Z.to_nat (isize i) ∧ bytes buf).
Proof.
  intros Hi. revert k buf block_buf. induction n as [|n IH]; intros k buf block_buf Hl Hb Hbb Hn;
    [by apply reads_ok|].
  destruct Hn as [?|Hn]; [done|].
  cbn [read_blocks]. eapply reads_try; [by apply inode_block_reads|].
  intros [b bb1] Hbb1. case_decide; [apply IH; [done..|]; nia|].
  eapply reads_try; [by apply read_block_reads|]. intros bb2 [Hbl Hbb2].
  set (copy := ((_ - _) `min` _)%nat).
  eapply reads_done; [apply slice_take; lia|].
  assert (k * block_size fs + copy ≤ length buf)%nat by (subst copy; nia).
  destruct (put (k * block_size fs) (k * block_size fs + copy) (take copy bb2) buf) as [buf'| |] eqn:E;
    rewrite put_done in E by (rewrite ?length_take; lia); try done.
  rewrite <- put_done in E by (rewrite ?length_take; lia).
  eapply reads_done; [done|]. apply IH; [|apply (bytes_put _ _ _ _ _ (Forall_take _ _ _ Hbb2) Hb E)|done|nia].
  by rewrite (put_length _ _ _ _ _ E).
Qed.

Lemma blocks_of_bound n b : blocks_of fs n = Done b →
  b = O ∨ ((b - 1) * block_size fs ≤ n)%nat ∧ (n ≤ b * block_size fs)%nat.
Proof.
  pose proof (wf_bs _ WF). unfold blocks_of. rewrite ndiv_done by lia. intros [= <-].
  pose proof (Nat.div_mod_eq (n + block_size fs - 1) (block_size fs)).
  pose proof (Nat.mod_upper_bound (n + block_size fs - 1) (block_size fs)).
  set (q := ((n + block_size fs - 1) / block_size fs)%nat) in *.
  destruct q; [auto|]. right. nia.
Qed.

Lemma read_file_reads d i : wf_inode i →
  reads True d (read_file_inode fs i) (λ buf, length buf = Z.to_nat (isize i) ∧ bytes buf).
Proof.
  intros Hi. unfold read_file_inode. pose proof (wf_bs _ WF).
  destruct (blocks_of fs (Z.to_nat (isize i))) as [b| |] eqn:E;
    [|unfold blocks_of in E; by rewrite ndiv_done in E by lia..].
  eapply reads_done; [done|].
  apply read_blocks_reads; [done|apply length_replicate|by apply Forall_replicate|apply zeroed_ok|].
  assert (Z.to_nat (wrap 32 b) ≤ b)%nat.
  { pose proof (Z.mod_le b (2 ^ 32)). unfold wrap. pow2. lia. }
  destruct (Z.to_nat (wrap 32 b)) as [|n] eqn:En; [by left|]. right.
  apply blocks_of_bound in E as [?|[? _]]; nia.
Qed.

(** ** Directories *)

Lemma dirent_done off raw : (off + 8 ≤ length raw)%nat →
  dirent_at off raw = Done (decode_dirent (take 8 (drop off raw))).
Proof. intros. unfold dirent_at. by rewrite peek_done. Qed.

Lemma dir_entries_runs fuel off raw : bytes raw → (length raw ≤ off + fuel)%nat →
  runs (dir_entries fuel off (length raw) raw) (λ _, True).
Proof.
  intros Hb. revert off. induction fuel as [|fuel IH]; intros off Hf; cbn [dir_entries].
  { rewrite bool_decide_eq_false_2; [done|lia]. }
  case_bool_decide as Ho; [|done]. cbn [negb]. rewrite dirent_done by lia. cbn [mbind outcome_bind].
  set (de := decode_dirent _). destruct ((inode de =? 0) || (rec_len de =? 0)) eqn:Hz; [done|].
  apply runs_bind. eapply (runs_mono _ (λ _, True)).
  - case_decide; [|done]. rewrite slice_done by lia. done.
  - intros here _. apply runs_bind. eapply runs_mono; [apply IH|done].
    apply orb_false_iff in Hz as [_ Hz%Z.eqb_neq].
    assert (0 ≤ rec_len de) by (apply le_at_nonneg; by apply le_at_bytes). lia.
Qed.

Lemma read_dir_reads d i : wf_inode i → reads True d (read_dir_inode fs i) (λ _, True).
Proof.
  intros Hi. unfold read_dir_inode. eapply reads_try; [by apply read_file_reads|].
  intros raw [Hl Hb]. eapply reads_lift; [|intros es _; by apply reads_ok].
  rewrite <- Hl. apply dir_entries_runs; [done|lia].
Qed.

(** ** Paths *)

Lemma walk_from_reads d cs ino i buf : wf_inode i → read_buf buf →
  reads True d (walk_from fs cs ino i buf) (λ '(_, i, _, buf), wf_inode i ∧ read_buf buf).
Proof.
  revert ino i buf. induction cs as [|c cs IH]; intros ino i buf Hi Hbuf; cbn [walk_from];
    [by apply reads_ok|].
  case_decide; [by apply IH|]. destruct (negb (is_dir i)); [by apply reads_err|].
  eapply reads_try; [by apply read_dir_reads|]. intros es _.
  destruct (lookup_name c es) as [ino'|]; [|by apply reads_err].
  eapply reads_try; [by apply read_inode_reads|]. intros [i' buf'] []. by apply IH.
Qed.

Lemma walk_reads d start path buf : read_buf buf →
  reads True d (walk fs start path buf) (λ '(_, i, _, buf), wf_inode i ∧ read_buf buf).
Proof.
  intros Hbuf. unfold walk. eapply reads_try; [by apply read_inode_reads|].
  intros [i buf'] []. case_decide; [by apply reads_ok|]. by apply walk_from_reads.
Qed.

Lemma list_dir_reads d path : reads True d (list_dir fs path) (λ _, True).
Proof.
  unfold list_dir. eapply reads_try; [apply walk_reads, zeroed_ok|].
  intros [[[ino i] ft] buf] []. destruct (negb (is_dir i)); [by apply reads_err|].
  by apply read_dir_reads.
Qed.

Lemma read_file_path_reads d path : reads True d (read_file fs path) bytes.
Proof.
  unfold read_file. eapply reads_try; [apply walk_reads, zeroed_ok|].
  intros [[[ino i] ft] buf] []. case_decide; [by apply reads_err|].
  eapply reads_mono; [by apply read_file_reads|]. by intros ? [].
Qed.
End reads.
