(* ===== verification/Ext3Write.v ===== *)
(** * The ext2/ext3 file system: writing

    [view g d]: the disk [d] is reliable and its block [b] has the bytes [g b].
    Each writing operation is described by what it does to [g]. *)
From stdpp Require Import strings functions.
From S2P Require Import Prelude Words Disk Str Ext3 Ext3Read.
Local Open Scope Z_scope.
Local Open Scope list_scope.

(** ** Bitmaps *)

Definition bit_at (l : list Z) (k : Z) : bool := Z.testbit (l !!! Z.to_nat (k / 8)) (k mod 8).
Definition set_bit_at (k : Z) (l : list Z) : list Z :=
  <[Z.to_nat (k / 8) := Z.lor (l !!! Z.to_nat (k / 8)) (Z.shiftl 1 (k mod 8))]> l.
Definition clear_bit_at (k : Z) (l : list Z) : list Z :=
  <[Z.to_nat (k / 8) := Z.land (l !!! Z.to_nat (k / 8)) (wnot 8 (Z.shiftl 1 (k mod 8)))]> l.

Lemma bit_split (k : Z) : 0 ≤ k → k = 8 * Z.to_nat (k / 8) + k mod 8 ∧ 0 ≤ k mod 8 < 8.
Proof.
  intros Hk. pose proof (Z.div_mod k 8 ltac:(lia)). pose proof (Z.mod_pos_bound k 8 ltac:(lia)).
  pose proof (Z.div_pos k 8 Hk ltac:(lia)). lia.
Qed.

Lemma bit_join (i : nat) b : 0 ≤ b < 8 → (8 * i + b) / 8 = i ∧ (8 * i + b) mod 8 = b.
Proof.
  intros Hb. rewrite (Z.mul_comm 8), Z.div_add_l, Z.div_small by lia. split; [lia|].
  rewrite Z.add_comm, Z_mod_plus_full. by apply Z.mod_small.
Qed.

(** Replacing the byte of bit [k] by one that differs in that bit alone. *)
Lemma bit_at_insert (l : list Z) k j v (b : bool) : 0 ≤ k → 0 ≤ j → k < 8 * length l →
  (∀ i, 0 ≤ i < 8 → Z.testbit v i =
    if decide (i = k mod 8) then b else Z.testbit (l !!! Z.to_nat (k / 8)) i) →
  bit_at (<[Z.to_nat (k / 8) := v]> l) j = if decide (j = k) then b else bit_at l j.
Proof.
  intros Hk Hj Hlt Hv. unfold bit_at.
  destruct (bit_split k Hk) as [Ek Hmk]. destruct (bit_split j Hj) as [Ej Hmj].
  destruct (decide (Z.to_nat (j / 8) = Z.to_nat (k / 8))) as [E|E].
  - rewrite E, list_lookup_total_insert_eq by lia. rewrite Hv by done.
    do 2 case_decide; done || lia.
  - rewrite list_lookup_total_insert_ne by done. rewrite decide_False by (intros ->; done). done.
Qed.

Lemma bit_at_set l k j : 0 ≤ k → 0 ≤ j → k < 8 * length l →
  bit_at (set_bit_at k l) j = if decide (j = k) then true else bit_at l j.
Proof.
  intros Hk Hj Hlt. destruct (bit_split k Hk) as [_ Hmk].
  apply bit_at_insert; [done..|]. intros i Hi.
  rewrite Z.lor_spec, testbit_one_shift by lia.
  case_decide as E; [rewrite E, Z.eqb_refl; apply orb_true_r|].
  by rewrite (proj2 (Z.eqb_neq _ _) E), orb_false_r.
Qed.

Lemma bit_at_clear l k j : 0 ≤ k → 0 ≤ j → k < 8 * length l →
  bit_at (clear_bit_at k l) j = if decide (j = k) then false else bit_at l j.
Proof.
  intros Hk Hj Hlt. destruct (bit_split k Hk) as [_ Hmk].
  apply bit_at_insert; [done..|]. intros i Hi.
  rewrite Z.land_spec, testbit_wnot, testbit_one_shift by lia.
  case_decide as E; [by rewrite E, Z.eqb_refl, andb_false_r|].
  by rewrite (proj2 (Z.eqb_neq _ _) E), andb_true_r.
Qed.

Lemma land_bit_zero x b : 0 ≤ b → Z.land x (Z.shiftl 1 b) = 0 ↔ Z.testbit x b = false.
Proof.
  intros Hb. pose proof (land_one_shift x b Hb) as E.
  destruct (Z.eqb_spec (Z.land x (Z.shiftl 1 b)) 0); cbn in E; rewrite <- E; done.
Qed.

Lemma scan_bits_spec (n : nat) bit (i : nat) max byte : Z.of_nat n + bit = 8 → 0 ≤ bit →
  Z.of_nat i < 2 ^ 28 →
  match scan_bits n bit i max byte with
  | Some b => bit ≤ b < 8 ∧ 8 * i + b < max ∧ Z.testbit byte b = false ∧
      (∀ j, bit ≤ j < b → Z.testbit byte j = true)
  | None => ∀ j, bit ≤ j < 8 → 8 * i + j < max → Z.testbit byte j = true
  end.
Proof.
  revert bit. induction n as [|n IH]; intros bit Hn Hb Hi; cbn [scan_bits]; [intros; lia|].
  assert (wadd 32 (wmul 32 i 8) bit = 8 * i + bit) as ->.
  { unfold wadd, wmul. rewrite (wrap_id 32 (i * 8)); [|pow2; lia]. rewrite wrap_id; [lia|pow2; lia]. }
  case_decide as Hm; [intros; lia|].
  case_decide as Hz.
  - apply land_bit_zero in Hz; [|done]. split_and!; [lia..|done|intros; lia].
  - assert (Z.testbit byte bit = true) as Ht.
    { destruct (Z.testbit byte bit) eqn:Ht; [done|]. destruct Hz. by apply land_bit_zero. }
    specialize (IH (bit + 1) ltac:(lia) ltac:(lia) Hi).
    destruct (scan_bits n (bit + 1) i max byte) as [b|].
    + destruct IH as (? & ? & ? & Hj). split_and!; [lia..|done|].
      intros j Hbj. destruct (decide (j = bit)) as [->|]; [done|]. apply Hj. lia.
    + intros j Hbj. destruct (decide (j = bit)) as [->|]; [done|]. apply IH. lia.
Qed.

(** The search of [bitmap_alloc] finds the first clear bit below [max]. *)
Definition first_clear (l : list Z) (max k : Z) : Prop :=
  0 ≤ k < max ∧ k < 8 * length l ∧ bit_at l k = false ∧ ∀ j, 0 ≤ j < k → bit_at l j = true.
Definition all_set (l : list Z) (max : Z) : Prop :=
  ∀ j, 0 ≤ j < max → j < 8 * length l → bit_at l j = true.

Lemma scan_bytes_spec (n i : nat) max l : (i + n = length l)%nat → Z.of_nat (length l) < 2 ^ 28 →
  (∀ j, 0 ≤ j < max → j < 8 * i → bit_at l j = true) →
  (∃ b k, scan_bytes n i max l = Done (Some (k, l !!! k, b)) ∧ 0 ≤ b < 8 ∧
     (k < length l)%nat ∧ first_clear l max (8 * k + b)) ∨
  (scan_bytes n i max l = Done None ∧ all_set l max).
Proof.
  revert i. induction n as [|n IH]; intros i Hn Hmax Hset; cbn [scan_bytes].
  { right. split; [done|]. intros j ? ?. apply Hset; [done|lia]. }
  assert (i < length l)%nat as Hi by lia.
  destruct (index_lt i l Hi) as (byte & Hbyte & ->). cbn [mbind outcome_bind].
  rewrite wrap_id by (pow2; lia).
  assert (l !!! i = byte) as El by by apply list_lookup_total_correct.
  assert (∀ b, 0 ≤ b < 8 → bit_at l (8 * i + b) = Z.testbit byte b) as Hat.
  { intros b Hb. unfold bit_at. destruct (bit_join i b Hb) as [-> ->].
    by rewrite Nat2Z.id, El. }
  pose proof (scan_bits_spec 8 0 i max byte ltac:(lia) ltac:(lia) ltac:(lia)) as Hs.
  set (r := if decide (byte = 0xFF) then None else scan_bits 8 0 i max byte).
  assert (match r with
    | Some b => 0 ≤ b < 8 ∧ 8 * i + b < max ∧ Z.testbit byte b = false ∧
        (∀ j, 0 ≤ j < b → Z.testbit byte j = true)
    | None => ∀ j, 0 ≤ j < 8 → 8 * i + j < max → Z.testbit byte j = true end) as Hr.
  { subst r. case_decide as Hff; [|done]. intros j Hj _. rewrite Hff.
    change 0xFF with (Z.ones 8). apply Z.ones_spec_low. lia. }
  clear Hs. destruct r as [b|].
  - left. exists b, i. rewrite El. destruct Hr as (Hb & Hm & Hclear & Hbelow).
    split_and!; [done|lia..|]. split_and!; [lia..|by rewrite Hat|].
    intros j Hj. destruct (decide (j < 8 * i)); [apply Hset; lia|].
    replace j with (8 * i + (j - 8 * i)) by lia. rewrite Hat by lia. apply Hbelow. lia.
  - apply IH; [lia|done|]. intros j Hj Hlt. destruct (decide (j < 8 * i)); [by apply Hset|].
    replace j with (8 * i + (j - 8 * i)) by lia. rewrite Hat by lia. apply Hr; lia.
Qed.

(** ** The disk as a function from block numbers to bytes *)

(** [N] blocks of [spb] sectors. *)
Record geometry (fs : Ext3Fs) (spb : nat) (N : Z) : Prop := {
  geo_spb : (2 ≤ spb ≤ 128)%nat;
  geo_bs : block_size fs = (spb * SECTOR)%nat;
  geo_N : N * spb ≤ 2 ^ 28;
}.

Section view.
Context {D : Type} `{BlockDeviceOk D} (fs : Ext3Fs) (spb : nat) (N : Z).
Context (G : geometry fs spb N).
Implicit Types (d : D) (g : Z → list Z) (b : Z).

Definition content d b : list Z := sectors_from (sector d) (b * spb) spb.
Definition view g d : Prop :=
  reliable d ∧ N * spb ≤ capacity d ∧ ∀ b, 0 ≤ b < N → content d b = g b.

Lemma geo_bounds : 1024 ≤ block_size fs ≤ 65536.
Proof. pose proof (geo_spb _ _ _ G). rewrite (geo_bs _ _ _ G). unfold SECTOR. lia. Qed.

Lemma view_block g d b : view g d → 0 ≤ b < N → length (g b) = block_size fs ∧ bytes (g b).
Proof.
  intros (_ & _ & Hg) Hb. rewrite <- Hg by done. unfold content.
  rewrite length_sectors_from by apply sector_ok. split; [symmetry; apply (geo_bs _ _ _ G)|].
  apply bytes_sectors_from, sector_ok.
Qed.

Lemma sectors_per_block : wrap 8 (block_size fs / 512)%nat = spb.
Proof.
  pose proof (geo_spb _ _ _ G). rewrite (geo_bs _ _ _ G). unfold SECTOR.
  rewrite Nat.div_mul by done. apply wrap_id. pow2. lia.
Qed.

Lemma block_lba b : 0 ≤ b < N →
  wmul 32 b spb = b * spb ∧ wrap 28 (b * spb) = b * spb ∧ b * spb + spb ≤ N * spb.
Proof.
  intros Hb. pose proof (geo_spb _ _ _ G). pose proof (geo_N _ _ _ G) as HN. pow2.
  assert (b * spb + spb ≤ N * spb) by nia. unfold wmul.
  rewrite (wrap_id 32), (wrap_id 28) by (pow2; nia). done.
Qed.

Lemma transfer_valid d b (buf : list Z) : 0 ≤ b < N → length buf = block_size fs →
  N * spb ≤ capacity d → valid_transfer d (b * spb) spb (length buf).
Proof.
  intros Hb Hl Hc. destruct (block_lba b Hb) as (_ & E & ?). pose proof (geo_spb _ _ _ G).
  unfold valid_transfer. rewrite E, Hl, (geo_bs _ _ _ G), Nat2Z.id. lia.
Qed.

Lemma wpe_read_block g d b buf (Q : list Z → D → Prop) R :
  view g d → 0 ≤ b < N → length buf = block_size fs →
  (∀ d', view g d' → Q (g b) d') → wpe (read_block fs b buf) Q R d.
Proof.
  intros (Hr & Hc & Hg) Hb Hl HQ. unfold read_block. rewrite sectors_per_block.
  destruct (block_lba b Hb) as (E1 & E2 & E3). rewrite E1. pose proof (geo_spb _ _ _ G).
  apply wp_bind. eapply wp_mono.
  { apply ata_read_ok; [rewrite <- E1; by apply wrap_fits|pow2; lia]. }
  intros [r buf'] d' (HS & HC & _ & _ & Hok & Hread).
  destruct (Hok (transfer_valid d b buf Hb Hl Hc) Hr) as [-> Hr'].
  destruct Hread as [_ ->]; [done|]. rewrite E2, Nat2Z.id, drop_ge, app_nil_r
    by (rewrite Hl, (geo_bs _ _ _ G); lia).
  change (sectors_from (sector d) (b * spb) spb) with (content d b). rewrite Hg by done.
  apply wp_ret, HQ. split; [auto|]. split; [lia|]. intros b' Hb'. rewrite <- Hg by done.
  apply sectors_from_ext. intros. apply HS.
Qed.

Lemma wpe_write_block g d b buf (Q : unit → D → Prop) R :
  view g d → 0 ≤ b < N → length buf = block_size fs → bytes buf →
  (∀ d', view (<[b := buf]> g) d' → Q tt d') → wpe (write_block fs b buf) Q R d.
Proof.
  intros (Hr & Hc & Hg) Hb Hl Hbytes HQ. unfold write_block. rewrite sectors_per_block.
  destruct (block_lba b Hb) as (E1 & E2 & E3). rewrite E1. pose proof (geo_spb _ _ _ G).
  apply wp_bind. eapply wp_mono.
  { apply ata_write_ok; [rewrite <- E1; by apply wrap_fits|pow2; lia|done]. }
  intros r d' (HS & HC & Hok & Hwrite).
  destruct (Hok (transfer_valid d b buf Hb Hl Hc) Hr) as [-> Hr'].
  destruct Hwrite as [_ Hw]; [done|]. rewrite E2, Nat2Z.id, take_ge in Hw
    by (rewrite Hl, (geo_bs _ _ _ G); lia).
  apply wp_ret, HQ. split; [auto|]. split; [lia|]. intros b' Hb'.
  destruct (decide (b' = b)) as [->|Hne]; [by rewrite fn_lookup_insert|].
  rewrite fn_lookup_insert_ne, <- Hg by done. apply sectors_from_ext. intros l Hl'. apply HS.
  rewrite E2. nia.
Qed.

Context (WF : wf_fs fs).
Abbreviation T := (bg_desc_table_block fs).

(** The block bitmap of group 0, as the descriptor says. *)
Definition bitmap_of g : Z := block_bitmap (decode_bg (take BG_SIZE (g T))).

Lemma wpe_read_bg g d buf Q R : view g d → 0 ≤ T < N → length buf = block_size fs →
  (∀ d', view g d' → Q (decode_bg (take BG_SIZE (g T)), g T) d') →
  wpe (read_bg_desc fs 0 buf) Q R d.
Proof.
  intros Hv HT Hl HQ. pose proof geo_bounds. pose proof (geo_N _ _ _ G) as HN.
  pose proof (geo_spb _ _ _ G).
  destruct (per_block fs WF BG_SIZE) as (E & Hpos & Hle); [unfold BG_SIZE; lia..|].
  unfold read_bg_desc. apply wpe_lift. rewrite ndiv_done by (unfold BG_SIZE; lia). cbn [runs].
  rewrite E. apply wpe_lift. rewrite udiv_done by lia. cbn [runs]. rewrite Z.div_0_l by lia.
  unfold wadd. rewrite Z.add_0_r, (wrap_id 32) by (pow2; nia).
  apply wpe_try. eapply wpe_read_block; [done..|]. intros d' Hv'.
  apply wpe_lift. rewrite urem_done by lia. cbn [runs]. rewrite Z.mod_0_l by lia.
  apply wpe_lift. destruct (view_block _ _ _ Hv HT) as [HlT _].
  rewrite peek_done by (rewrite HlT; unfold BG_SIZE; lia). cbn [runs]. by apply wpe_ok, HQ.
Qed.

Lemma bytes_insert l (k : nat) v : bytes l → fits 8 v → bytes (<[k := v]> l).
Proof. intros. by apply Forall_insert. Qed.

Lemma wpe_bitmap_alloc g d B max Q R : view g d → 0 ≤ B < N →
  (∀ k d', first_clear (g B) max k → view (<[B := set_bit_at k (g B)]> g) d' → Q k d') →
  (∀ d', all_set (g B) max → view g d' → R d') → wpe (bitmap_alloc fs B max) Q R d.
Proof.
  intros Hv HB HQ HR. pose proof geo_bounds. destruct (view_block _ _ _ Hv HB) as [Hl Hb].
  unfold bitmap_alloc. apply wpe_try. eapply wpe_read_block; [done|done|apply length_replicate|].
  clear d Hv. intros d Hv. apply wpe_lift.
  destruct (scan_bytes_spec (block_size fs) 0 max (g B) ltac:(lia) ltac:(pow2; lia) ltac:(intros; lia))
    as [(b & k & -> & Hbb & Hk & Hf)|[-> Hall]].
  - cbn [runs]. apply wpe_lift. rewrite store_done by done. cbn [runs].
    destruct (bit_join k b Hbb) as [E1 E2].
    assert (<[k := Z.lor (g B !!! k) (Z.shiftl 1 b)]> (g B) = set_bit_at (8 * k + b) (g B)) as ->
      by (unfold set_bit_at; by rewrite E1, E2, Nat2Z.id).
    apply wpe_try. eapply wpe_write_block; [done|done| | |].
    + unfold set_bit_at. by rewrite length_insert.
    + apply bytes_insert; [done|]. apply fits_lor; [done| |apply fits_one_shift; lia].
      rewrite E1, Nat2Z.id. rewrite Forall_lookup in Hb. apply (Hb k).
      apply list_lookup_lookup_total_lt. done.
    + intros d' Hv'. assert (wadd 32 (wmul 32 (wrap 32 k) 8) b = 8 * k + b) as ->.
      { unfold wadd, wmul. rewrite (wrap_id 32 k), (wrap_id 32 (k * 8)), wrap_id by (pow2; lia). lia. }
      by apply wpe_ok, HQ.
  - by apply wpe_err, HR.
Qed.

Lemma wpe_bitmap_clear g d B k Q R : view g d → 0 ≤ B < N → 0 ≤ k < 8 * block_size fs →
  (∀ d', view (<[B := clear_bit_at k (g B)]> g) d' → Q tt d') →
  wpe (bitmap_set fs B k false) Q R d.
Proof.
  intros Hv HB Hk HQ. destruct (view_block _ _ _ Hv HB) as [Hl Hb].
  destruct (bit_split k ltac:(lia)) as [Ek Hm].
  unfold bitmap_set. apply wpe_try. eapply wpe_read_block; [done|done|apply length_replicate|].
  clear d Hv. intros d Hv. apply wpe_lift.
  destruct (index_lt (Z.to_nat (k / 8)) (g B)) as (x & Hx & ->); [lia|]. cbn [runs].
  apply list_lookup_total_correct in Hx as Hx'.
  apply wpe_lift. rewrite store_done by lia. cbn [runs].
  rewrite (wrap_id 8 (Z.shiftl 1 _)) by (apply fits_one_shift; lia). rewrite <- Hx'.
  eapply wpe_write_block; [done|done|by rewrite length_insert| |exact HQ].
  apply bytes_insert; [done|]. apply fits_land; [done|]. rewrite Hx'.
  rewrite Forall_lookup in Hb. by eapply Hb.
Qed.

(** ** Files *)

Definition pointer (i : Inode) (k : nat) : Z := block i !!! k.

Section with_bitmap.
Context (B : Z).

Definition data_block g (p : Z) : Prop :=
  1 ≤ p < N ∧ p ≠ B ∧ p ≠ T ∧ bit_at (g B) (p - 1) = true.

(** One block group; the descriptor and the bitmap are blocks of their own. *)
Record fs_meta g : Prop := {
  fs_T : 0 ≤ T < N;
  fs_B : 0 ≤ B < N;
  fs_TB : T ≠ B;
  fs_bitmap : bitmap_of g = B;
  fs_one_group : N ≤ 8 * block_size fs;
}.
(** Free bits stand for blocks of the disk other than these two. *)
Record fs_ok g : Prop := {
  fs_has_meta : fs_meta g;
  fs_free : ∀ k, 0 ≤ k < blocks_per_group fs → k < 8 * block_size fs →
    bit_at (g B) k = false → k + 1 < N ∧ k + 1 ≠ B ∧ k + 1 ≠ T;
}.
Record file_ok g (i : Inode) : Prop := {
  fo_len : length (block i) = 15%nat;
  fo_ptr : ∀ k, (k < 12)%nat → pointer i k ≠ 0 → data_block g (pointer i k);
  fo_inj : ∀ j k, (j < 12)%nat → (k < 12)%nat →
    pointer i j ≠ 0 → pointer i j = pointer i k → j = k;
}.

Lemma wpe_alloc_block g d Q R : view g d → fs_ok g →
  (∀ k d', first_clear (g B) (blocks_per_group fs) k →
    view (<[B := set_bit_at k (g B)]> g) d' → Q k d') →
  (∀ d', all_set (g B) (blocks_per_group fs) → view g d' → R d') →
  wpe (alloc_block fs) Q R d.
Proof.
  intros Hv F HQ HR. unfold alloc_block. apply wpe_try.
  eapply wpe_read_bg; [done|apply F|apply length_replicate|]. clear d Hv. intros d Hv.
  rewrite (fs_bitmap _ (fs_has_meta _ F) : block_bitmap _ = B).
  eapply wpe_bitmap_alloc; [done|apply F|done..].
Qed.

(** [free_block] clears the bit of the next block. *)
Lemma wpe_free_block g d p Q R : view g d → fs_meta g → 0 ≤ p < N →
  (∀ d', view (<[B := clear_bit_at p (g B)]> g) d' → Q tt d') →
  wpe (free_block fs p) Q R d.
Proof.
  intros Hv F Hp HQ. unfold free_block. apply wpe_try. pose proof (fs_one_group _ F).
  eapply wpe_read_bg; [done|apply F|apply length_replicate|]. clear d Hv. intros d Hv.
  rewrite (fs_bitmap _ F : block_bitmap _ = B).
  eapply wpe_bitmap_clear; [done|apply F|lia|done].
Qed.

Lemma fs_meta_bitmap g l : fs_meta g → fs_meta (<[B := l]> g).
Proof. intros []. split; try done. unfold bitmap_of. by rewrite fn_lookup_insert_ne. Qed.

Lemma fs_ok_bitmap g l : fs_ok g →
  (∀ k, 0 ≤ k → bit_at l k = false → bit_at (g B) k = false) → fs_ok (<[B := l]> g).
Proof.
  intros [Hm Hf] Hle. split; [by apply fs_meta_bitmap|].
  intros k Hk Hk'. rewrite fn_lookup_insert. intros Hbit. apply Hf; [done..|].
  by apply Hle; [lia|].
Qed.
End with_bitmap.
End view.
