(* ===== verification/Ext3Files.v ===== *)
(** * The ext2/ext3 file system: file contents

    What the loops of [write_file_data] and [read_file_inode] do to the blocks
    of a file: data written to a well-formed file is read back, and the blocks
    of other files keep their contents. *)
From stdpp Require Import strings functions.
From S2P Require Import Prelude Words Disk Str Ext3 Ext3Read Ext3Write.
Local Open Scope Z_scope.
Local Open Scope list_scope.

Section files.
Context {D : Type} `{BlockDeviceOk D} (fs : Ext3Fs) (spb : nat) (N : Z).
Context (G : geometry fs spb N) (WF : wf_fs fs) (B : Z).
Implicit Types (d : D) (g : Z → list Z) (i : Inode).
Abbreviation bs := (block_size fs).
Abbreviation T := (bg_desc_table_block fs).
Abbreviation view := (view spb N).
Abbreviation fs_ok := (fs_ok fs N B).
Abbreviation fs_meta := (fs_meta fs N B).
Abbreviation file_ok := (file_ok fs N B).
Abbreviation data_block := (data_block fs N B).

Lemma pointer_index i (k : nat) : length (block i) = 15%nat → (k < 15)%nat →
  index k (block i) = Done (pointer i k).
Proof.
  intros Hl Hk. apply index_done, list_lookup_lookup_total_lt. lia.
Qed.

Lemma pointer_set_eq i k b : length (block i) = 15%nat → (k < 15)%nat → pointer (set_block k b i) k = b.
Proof. intros. unfold pointer. cbn. apply list_lookup_total_insert_eq. lia. Qed.

Lemma pointer_set_ne i j k b : j ≠ k → pointer (set_block k b i) j = pointer i j.
Proof. intros. unfold pointer. cbn. by apply list_lookup_total_insert_ne. Qed.

(** ** Allocation *)

(** What [grow] may do: allocate blocks that were free for pointers that were
    zero, in the positions [k] to [m - 1]. *)
Record grown g i (k m : nat) g' i' : Prop := {
  gr_fs : fs_ok g';
  gr_file : file_ok g' i';
  gr_size : isize i' = isize i;
  gr_blocks : ∀ b, b ≠ B → g' b = g b;
  gr_bits : ∀ j, 0 ≤ j → bit_at (g B) j = true → bit_at (g' B) j = true;
  gr_nonzero : ∀ j, (k ≤ j < m)%nat → pointer i' j ≠ 0;
  gr_old : ∀ j, ¬ (k ≤ j < m)%nat ∨ pointer i j ≠ 0 → pointer i' j = pointer i j;
  gr_new : ∀ j, pointer i' j ≠ pointer i j → bit_at (g B) (pointer i' j - 1) = false;
}.

Lemma grown_refl g i k : fs_ok g → file_ok g i → grown g i k k g i.
Proof. intros F Fi. split; auto; intros; lia || done. Qed.

(** One more block. *)
Lemma grown_alloc g i (k : nat) x : fs_ok g → file_ok g i → length (g B) = bs → (k < 12)%nat →
  pointer i k = 0 → first_clear (g B) (blocks_per_group fs) x →
  grown g i k (S k) (<[B := set_bit_at x (g B)]> g) (set_block k (x + 1) i).
Proof.
  intros F Fi Hlen Hk Hzero (Hx & Hlt & Hclear & _).
  assert (∀ j, 0 ≤ j → bit_at (set_bit_at x (g B)) j = if decide (j = x) then true else bit_at (g B) j)
    as Hset by (intros; apply bit_at_set; lia).
  destruct (fs_free _ _ _ _ F x Hx ltac:(lia) Hclear) as (HxN & HxB & HxT).
  pose proof (fo_len _ _ _ _ _ Fi) as Hl.
  assert (∀ p, data_block g p → p ≠ x + 1) as Hfresh.
  { intros p (_ & _ & _ & Hbit) ->. by rewrite Z.add_simpl_r, Hclear in Hbit. }
  assert (∀ p, data_block g p → data_block (<[B := set_bit_at x (g B)]> g) p) as Hmono.
  { intros p (Hp & ? & ? & Hbit). split_and!; [lia..|done|done|].
    rewrite fn_lookup_insert, Hset by lia. by case_decide. }
  split.
  - apply fs_ok_bitmap; [done|].
    intros j Hj. rewrite Hset by done. by case_decide.
  - split.
    + cbn. by rewrite length_insert.
    + intros j Hj Hnz. destruct (decide (j = k)) as [->|Hne].
      * rewrite pointer_set_eq by lia. split_and!; [lia..|].
        rewrite fn_lookup_insert, Hset, Z.add_simpl_r by lia. by rewrite decide_True.
      * rewrite pointer_set_ne in Hnz |- * by done. by apply Hmono, Fi.
    + intros j1 j2 Hj1 Hj2. destruct (decide (j1 = k)) as [->|H1], (decide (j2 = k)) as [->|H2];
        rewrite ?pointer_set_eq, ?pointer_set_ne by lia; [done| | |by apply Fi].
      * intros _ E. exfalso. eapply Hfresh; [apply (fo_ptr _ _ _ _ _ Fi j2 Hj2)|by rewrite E]. lia.
      * intros Hnz E. exfalso. eapply Hfresh; [by apply (fo_ptr _ _ _ _ _ Fi j1 Hj1)|done].
  - done.
  - intros b Hb. by rewrite fn_lookup_insert_ne.
  - intros j Hj Hbit. rewrite fn_lookup_insert, Hset by done. by case_decide.
  - intros j Hj. replace j with k by lia. rewrite pointer_set_eq by lia. lia.
  - intros j Hj. destruct (decide (j = k)) as [->|]; [|by rewrite pointer_set_ne].
    destruct Hj as [?|?]; [lia|done].
  - intros j Hne. destruct (decide (j = k)) as [->|]; [|by rewrite pointer_set_ne in Hne].
    by rewrite pointer_set_eq, Z.add_simpl_r by lia.
Qed.

Lemma grown_trans g1 i1 k m n g2 i2 g3 i3 : (k ≤ m ≤ n)%nat → (n ≤ 12)%nat →
  grown g1 i1 k m g2 i2 → grown g2 i2 m n g3 i3 → grown g1 i1 k n g3 i3.
Proof.
  intros Hkm Hn H1 H2. destruct H1, H2. split; try done.
  - congruence.
  - intros b Hb. rewrite gr_blocks1, gr_blocks0; done.
  - intros j Hj Hbit. apply gr_bits1, gr_bits0; done.
  - intros j Hj. destruct (decide (m ≤ j)%nat); [apply gr_nonzero1; lia|].
    rewrite gr_old1 by lia. apply gr_nonzero0. lia.
  - intros j Hj. assert (pointer i2 j = pointer i1 j) as E.
    { apply gr_old0. destruct Hj; [left; lia|by right]. }
    rewrite <- E. apply gr_old1. rewrite E. destruct Hj; [left; lia|by right].
  - intros j Hne. destruct (decide (pointer i3 j = pointer i2 j)) as [E|E].
    + rewrite E in Hne |- *. by apply gr_new0.
    + specialize (gr_new1 j E). destruct (decide (bit_at (g1 B) (pointer i3 j - 1) = false)); [done|].
      apply not_false_is_true in n0.
      assert (0 ≤ pointer i3 j - 1).
      { destruct (decide (j < 12)%nat) as [Hj|Hj].
        - assert (pointer i3 j ≠ 0) as Hnz.
          { apply gr_nonzero1. destruct (decide (m ≤ j < n)%nat); [done|].
            destruct E. apply gr_old1. by left. }
          pose proof (fo_ptr _ _ _ _ _ gr_file1 j Hj Hnz) as (? & _). lia.
        - destruct E. apply gr_old1. left. lia. }
      rewrite gr_bits0 in gr_new1 by done. done.
Qed.

Lemma grow_spec (n k : nat) i g d : (k + n ≤ 12)%nat → view g d → fs_ok g → file_ok g i →
  wpe (grow fs n k i)
    (λ i' d', ∃ g', view g' d' ∧ grown g i k (k + n) g' i')
    (λ d', ∃ g', view g' d' ∧ all_set (g' B) (blocks_per_group fs)) d.
Proof.
  revert k i g d. induction n as [|n IH]; intros k i g d Hkn Hv F Fi; cbn [grow].
  { apply wpe_ok. exists g. rewrite Nat.add_0_r. split; [done|by apply grown_refl]. }
  rewrite decide_True by lia. apply wp_bind, wp_lift.
  rewrite pointer_index by (apply Fi || lia). cbn [runs].
  replace (k + S n)%nat with (S k + n)%nat by lia.
  case_decide as Hz.
  - apply wpe_try. eapply (wpe_alloc_block fs spb N G WF B g); [done..| |by eauto].
    intros x d' Hx Hv'. rewrite decide_True by lia.
    destruct (view_block fs spb N G _ _ B Hv) as [Hlen _]; [apply F|].
    pose proof (grown_alloc g i k x F Fi Hlen ltac:(lia) Hz Hx) as Hgr.
    assert (wadd 32 x 1 = x + 1) as ->.
    { destruct Hx as (? & ? & _). pose proof (geo_bounds fs spb N G). apply wrap_id. pow2. lia. }
    apply wp_bind, wp_lift. rewrite store_done by (rewrite (fo_len _ _ _ _ _ Fi); lia). cbn [runs].
    eapply wpe_mono; [apply IH; [lia|exact Hv'|apply Hgr..]| |done].
    intros i' d'' (g' & Hv'' & Hgr'). exists g'. split; [done|].
    eapply grown_trans; [..|exact Hgr|exact Hgr']; lia.
  - eapply wpe_mono; [apply IH; [lia|done..]| |done].
    intros i' d'' (g' & Hv'' & Hgr'). exists g'. split; [done|].
    eapply (grown_trans g i k (S k)); [..|exact Hgr']; [lia..|].
    split; auto.
    + intros j Hj. by replace j with k by lia.
    + done.
Qed.

(** ** Writing the data *)

(** Block [k] of the data, padded with zeros. *)
Definition chunk (k : nat) (data : list Z) : list Z :=
  let c := take bs (drop (k * bs) data) in c ++ replicate (bs - length c) 0.

Lemma length_chunk k data : length (chunk k data) = bs.
Proof. unfold chunk. rewrite length_app, length_replicate, length_take. lia. Qed.

Lemma bytes_chunk k data : bytes data → bytes (chunk k data).
Proof.
  intros. apply Forall_app. split; [by apply Forall_take, Forall_drop|by apply Forall_replicate].
Qed.

(** [g'] is [g] but for the blocks of [i] from number [k] to [m - 1], which hold
    the data. *)
Definition holds_data g i (k m : nat) (data : list Z) g' : Prop :=
  (∀ j, (k ≤ j < m)%nat → g' (pointer i j) = chunk j data) ∧
  (∀ b, (∀ j, (k ≤ j < m)%nat → b ≠ pointer i j) → g' b = g b).

Lemma write_chunk (k : nat) (data buf : list Z) : (k * bs ≤ length data)%nat → length buf = bs →
  ∃ src, slice (k * bs) (k * bs + (length data - k * bs) `min` bs) data = Done src ∧
    put 0 ((length data - k * bs) `min` bs) src (replicate bs 0) = Done (chunk k data).
Proof.
  intros Hk Hl. eexists. split; [apply slice_done; lia|].
  rewrite put_done by (rewrite ?length_take, ?length_drop, ?length_replicate; lia).
  f_equal. rewrite take_0. cbn [app]. unfold chunk. rewrite drop_replicate, !length_take, length_drop.
  replace (k * bs + (length data - k * bs) `min` bs - k * bs)%nat
    with ((length data - k * bs) `min` bs)%nat by lia.
  f_equal; [|f_equal; lia].
  destruct (decide (length data - k * bs ≤ bs)%nat).
  - rewrite !take_ge; [done|rewrite length_drop; lia..].
  - f_equal. lia.
Qed.

Lemma write_data_spec (n k : nat) i data buf g d : (k + n ≤ 12)%nat →
  (n = O ∨ (k + n - 1) * bs ≤ length data)%nat → bytes data → length buf = bs →
  view g d → file_ok g i → (∀ j, (k ≤ j < k + n)%nat → pointer i j ≠ 0) →
  wpe (write_data fs n k i data buf)
    (λ _ d', ∃ g', view g' d' ∧ holds_data g i k (k + n) data g') (λ _, False) d.
Proof.
  intros Hkn Hdata Hbytes Hbuf Hv Fi Hnz. pose proof (fo_len _ _ _ _ _ Fi) as Hl15.
  pose proof (fo_inj _ _ _ _ _ Fi) as Hinj.
  assert (∀ j, (k ≤ j < k + n)%nat → 0 ≤ pointer i j < N) as Hrange.
  { intros j Hj. pose proof (fo_ptr _ _ _ _ _ Fi j ltac:(lia) (Hnz j Hj)) as (? & _). lia. }
  clear Fi. revert k buf g d Hkn Hdata Hbuf Hv Hnz Hrange.
  induction n as [|n IH]; intros k buf g d Hkn Hdata Hbuf Hv Hnz Hrange; cbn [write_data].
  { apply wpe_ok. exists g. split; [done|]. split; [intros; lia|done]. }
  destruct Hdata as [?|Hdata]; [done|].
  rewrite decide_True by lia. apply wpe_lift. rewrite pointer_index by lia. cbn [runs].
  apply wpe_lift. rewrite put_done by (rewrite ?length_replicate; lia). cbn [runs].
  rewrite take_0, drop_ge, app_nil_r by lia. cbn [app].
  destruct (write_chunk k data buf) as (src & -> & E); [nia|done|].
  apply wpe_lift. cbn [runs]. apply wpe_lift. rewrite E. cbn [runs].
  apply wpe_lift. rewrite slice_done by (rewrite ?length_chunk; lia). cbn [runs].
  rewrite drop_0, take_ge by (rewrite length_chunk; lia).
  apply wpe_try. eapply (wpe_write_block fs spb N G); [done|apply Hrange; lia|apply length_chunk|
    by apply bytes_chunk|].
  intros d' Hv'. eapply wpe_mono; [apply (IH (S k)); [lia| |apply length_chunk|exact Hv'|..]| |done].
  - destruct n; [by left|right]. nia.
  - intros j Hj. apply Hnz. lia.
  - intros j Hj. apply Hrange. lia.
  - intros _ d'' (g' & Hv'' & Hin & Hout). exists g'. split; [done|]. split.
    + intros j Hj. destruct (decide (j = k)) as [->|]; [|apply Hin; lia].
      rewrite Hout, fn_lookup_insert; [done|]. intros j Hj' Heq.
      apply (Hinj k j) in Heq; [lia|lia|lia|apply Hnz; lia].
    + intros b Hb. rewrite Hout by (intros; apply Hb; lia).
      apply fn_lookup_insert_ne. intros E'. apply (Hb k); [lia|done].
Qed.

(** ** Releasing blocks *)

Lemma shrink_spec (n k : nat) i g d : view g d → fs_meta g → length (block i) = 15%nat →
  (∀ j, (k ≤ j < 12)%nat → 0 ≤ pointer i j < N) →
  wpe (shrink fs n k i)
    (λ i' d', ∃ g', view g' d' ∧ (∀ b, b ≠ B → g' b = g b) ∧ length (block i') = 15%nat ∧
       ∀ j, (j < k)%nat → pointer i' j = pointer i j)
    (λ _, False) d.
Proof.
  revert k i g d. induction n as [|n IH]; intros k i g d Hv F Hl Hp; cbn [shrink].
  { apply wpe_ok. by exists g. }
  assert (wpe (shrink fs n (S k) i)
    (λ i' d', ∃ g', view g' d' ∧ (∀ b, b ≠ B → g' b = g b) ∧ length (block i') = 15%nat ∧
       ∀ j, (j < k)%nat → pointer i' j = pointer i j) (λ _, False) d) as Hskip.
  { eapply wpe_mono; [apply (IH (S k) i g); [done..|intros; apply Hp; lia]| |done].
    intros i' d' (g' & ? & ? & ? & Hj). exists g'. split_and!; [done..|]. intros j ?. apply Hj. lia. }
  case_decide as Hk; [|done].
  apply wpe_lift. rewrite pointer_index by lia. cbn [runs]. case_decide as Hz; [done|].
  apply wpe_try. eapply (wpe_free_block fs spb N G WF B g); [done..|apply Hp; lia|].
  intros d' Hv'. eapply wpe_mono; [apply (IH (S k)); [exact Hv'|by apply fs_meta_bitmap|..]| |done].
  - cbn. by rewrite length_insert.
  - intros j Hj. rewrite pointer_set_ne by lia. apply Hp. lia.
  - intros i' d'' (g' & Hv'' & Hb & Hl' & Hj). exists g'. split_and!; [done| |done|].
    + intros b Hne. rewrite Hb by done. by apply fn_lookup_insert_ne.
    + intros j ?. rewrite Hj by lia. apply pointer_set_ne. lia.
Qed.

(** ** Writing a file *)

Lemma blocks_of_spec n : ∃ b, blocks_of fs n = Done b ∧ (n ≤ b * bs)%nat ∧
  (b = O ∨ (b - 1) * bs < n)%nat.
Proof.
  pose proof (geo_bounds fs spb N G). unfold blocks_of. rewrite ndiv_done by lia.
  eexists. split; [done|].
  pose proof (Nat.div_mod_eq (n + bs - 1) bs). pose proof (Nat.mod_upper_bound (n + bs - 1) bs).
  set (q := ((n + bs - 1) / bs)%nat) in *. destruct q; nia.
Qed.

(** [i] on a disk [g] has the contents [data]. *)
Definition has_data g i (data : list Z) : Prop :=
  isize i = length data ∧ length (block i) = 15%nat ∧
  ∀ k, (k * bs < length data)%nat →
    1 ≤ pointer i k < N ∧ g (pointer i k) = chunk k data.

(** [write_file_data] stores the data; nothing changes but the bitmap, the
    blocks of the file, and blocks that were free. *)
Lemma write_file_data_spec i data buf g d : view g d → fs_ok g → file_ok g i →
  (length data ≤ 12 * bs)%nat → bytes data → length buf = bs →
  wpe (write_file_data fs i data buf)
    (λ i' d', ∃ g', view g' d' ∧ has_data g' i' data ∧
       ∀ b, b ≠ B → (∀ k, (k < 12)%nat → b ≠ pointer i k) → bit_at (g B) (b - 1) = true →
         g' b = g b)
    (λ d', ∃ g', view g' d' ∧ all_set (g' B) (blocks_per_group fs)) d.
Proof.
  intros Hv F Fi Hlen Hbytes Hbuf. pose proof (geo_bounds fs spb N G).
  destruct (blocks_of_spec (length data)) as (nb & Enb & Hnb1 & Hnb2).
  assert (nb ≤ 12)%nat by nia.
  unfold write_file_data. apply wpe_lift. rewrite Enb. cbn [runs].
  rewrite wrap_id, Nat2Z.id by (pow2; lia). apply wpe_try.
  eapply wpe_mono; [apply (grow_spec nb 0 i g d); [lia|done..]| |done]. cbn [Nat.add].
  intros i1 d1 (g1 & Hv1 & Hgr). apply wpe_try.
  pose proof (gr_file _ _ _ _ _ _ Hgr) as Fi1.
  eapply wpe_mono; [apply (write_data_spec nb 0 i1 data buf g1 d1); try done| |done].
  { nia. }
  { apply (gr_nonzero _ _ _ _ _ _ Hgr). }
  intros _ d2 (g2 & Hv2 & Hin & Hout). cbn [Nat.add] in *.
  rewrite (gr_size _ _ _ _ _ _ Hgr).
  destruct (blocks_of_spec (Z.to_nat (isize i))) as (ob & Eob & _ & _).
  apply wpe_lift. rewrite Eob. cbn [runs]. apply wpe_try.
  assert (∀ j, (j < 12)%nat → pointer i1 j ≠ 0 → pointer i1 j ≠ B ∧ pointer i1 j ≠ T ∧
    1 ≤ pointer i1 j < N) as Hp.
  { intros j Hj Hz. pose proof (fo_ptr _ _ _ _ _ Fi1 j Hj Hz) as (? & ? & ? & _). done. }
  pose proof (gr_fs _ _ _ _ _ _ Hgr) as F1. destruct (fs_has_meta _ _ _ _ F1) as [HT HB HTB Hbm Hone].
  assert (fs_meta g2) as F2.
  { split; try done. unfold bitmap_of. rewrite Hout; [done|].
    intros j Hj E. pose proof (gr_nonzero _ _ _ _ _ _ Hgr j ltac:(lia)).
    destruct (Hp j ltac:(lia) ltac:(done)) as (_ & ? & _). done. }
  eapply wpe_mono; [apply (shrink_spec _ _ i1 g2 d2 Hv2 F2 (fo_len _ _ _ _ _ Fi1))| |done].
  { intros j Hj. destruct (decide (pointer i1 j = 0)) as [->|Hz]; [lia|].
    destruct (Hp j ltac:(lia) Hz). lia. }
  intros i2 d3 (g3 & Hv3 & Hb3 & Hl3 & Hj3). apply wpe_ok. exists g3. split_and!; [done| |].
  - split_and!; [cbn; by rewrite wrap_id by (pow2; lia)|done|].
    intros k Hk. assert (k < nb)%nat by nia.
    pose proof (gr_nonzero _ _ _ _ _ _ Hgr k ltac:(lia)) as Hz.
    destruct (Hp k ltac:(lia) Hz) as (HnB & _ & Hr).
    change (pointer (set_size _ i2) k) with (pointer i2 k). rewrite Hj3 by lia.
    split; [lia|]. rewrite Hb3 by done. apply Hin. lia.
  - intros b HbB Hbi Hbit. rewrite Hb3 by done. rewrite Hout; [by apply (gr_blocks _ _ _ _ _ _ Hgr)|].
    intros j Hj ->. pose proof (gr_new _ _ _ _ _ _ Hgr j) as Hnew.
    rewrite Hnew in Hbit; [done|]. apply Hbi. lia.
Qed.

(** ** Reading *)

Definition chunks (n : nat) (data : list Z) : list Z := concat ((λ k, chunk k data) <$> seq 0 n).

Lemma length_chunks n data : length (chunks n data) = (n * bs)%nat.
Proof.
  unfold chunks. induction n as [|n IH]; [done|].
  rewrite seq_S, fmap_app, concat_app, length_app, IH. cbn.
  rewrite app_nil_r, length_chunk. lia.
Qed.

Lemma chunks_S n data : chunks (S n) data = chunks n data ++ chunk n data.
Proof. unfold chunks. rewrite seq_S, fmap_app, concat_app. cbn. by rewrite app_nil_r. Qed.

(** The first blocks hold the data up to their end. *)
Lemma take_chunks n data : take (length data) (chunks n data) = take (n * bs) data.
Proof.
  induction n as [|n IH]; [unfold chunks; cbn; by rewrite take_nil|].
  rewrite chunks_S, take_app, IH, length_chunks.
  replace (S n * bs)%nat with (n * bs + bs)%nat by lia. rewrite <- take_take_drop. f_equal.
  unfold chunk. rewrite take_app, length_take, length_drop.
  destruct (decide (length data - n * bs ≤ bs)%nat).
  - rewrite (take_ge (take bs _)) by (rewrite length_take, length_drop; lia).
    replace (_ - _)%nat with 0%nat by lia. by rewrite take_0, app_nil_r.
  - rewrite (take_ge (take bs _)) by (rewrite length_take, length_drop; lia).
    replace (bs - _)%nat with 0%nat by lia. cbn [replicate]. by rewrite take_nil, app_nil_r.
Qed.

(** The buffer after [k] blocks of the loop: the first [k * bs] bytes of the
    data and zeros. *)
Definition partial (k : nat) (data : list Z) : list Z :=
  take (k * bs) data ++ replicate (length data - k * bs) 0.

Lemma partial_put k data : (k * bs ≤ length data)%nat →
  put (k * bs) (k * bs + (length data - k * bs) `min` bs)
    (take ((length data - k * bs) `min` bs) (chunk k data)) (partial k data)
  = Done (partial (S k) data).
Proof.
  intros Hk. set (c := ((length data - k * bs) `min` bs)%nat). unfold partial.
  rewrite put_done; [|lia| |rewrite length_take, length_chunk; lia];
    [|rewrite length_app, length_take, length_replicate; lia].
  f_equal. rewrite take_app_le, take_ge by (rewrite ?length_take; lia).
  rewrite drop_app_ge, drop_replicate, length_take by (rewrite length_take; lia).
  replace (S k * bs)%nat with (k * bs + bs)%nat by lia. rewrite <- take_take_drop, <- app_assoc.
  f_equal. f_equal; [|f_equal; lia].
  unfold chunk. rewrite take_app_le by (rewrite length_take, length_drop; lia).
  rewrite take_take. destruct (decide (length data - k * bs ≤ bs)%nat).
  - rewrite !take_ge by (rewrite length_drop; lia). done.
  - f_equal. lia.
Qed.

Lemma read_blocks_spec n k i data bb g d : view g d → has_data g i data →
  length bb = bs → (k + n ≤ 12)%nat →
  (n = O ∨ (k + n - 1) * bs < length data)%nat →
  wpe (read_blocks fs n k i (partial k data) bb)
    (λ buf d', view g d' ∧ buf = partial (k + n) data) (λ _, False) d.
Proof.
  intros Hv (Hsz & Hl15 & Hdata). revert k bb d Hv.
  induction n as [|n IH]; intros k bb d Hv Hbb Hkn Hn; cbn [read_blocks].
  { apply wpe_ok. by rewrite Nat.add_0_r. }
  destruct Hn as [?|Hn]; [done|].
  destruct (Hdata k) as [Hr Hg]; [nia|].
  apply wpe_try. unfold inode_block. rewrite decide_True by lia. apply wpe_lift.
  rewrite Nat2Z.id, pointer_index by lia. cbn [runs]. apply wpe_ok.
  rewrite decide_False by lia. apply wpe_try.
  eapply (wpe_read_block fs spb N G); [done|lia|done|]. intros d' Hv'. rewrite Hg.
  rewrite Hsz, Nat2Z.id. apply wpe_lift. rewrite slice_take by (rewrite length_chunk; lia). cbn [runs].
  apply wpe_lift. rewrite partial_put by nia. cbn [runs].
  replace (k + S n)%nat with (S k + n)%nat by lia.
  apply IH; [done|apply length_chunk|lia|]. destruct n; [by left|right; nia].
Qed.

Lemma read_file_spec i data g d : view g d → has_data g i data → (length data ≤ 12 * bs)%nat →
  wpe (read_file_inode fs i) (λ buf d', view g d' ∧ buf = data) (λ _, False) d.
Proof.
  intros Hv Hd Hlen. pose proof (geo_bounds fs spb N G).
  destruct (blocks_of_spec (length data)) as (nb & Enb & Hnb1 & Hnb2).
  assert (nb ≤ 12)%nat by nia. unfold read_file_inode. destruct Hd as (Hsz & Hrest). rewrite Hsz, Nat2Z.id.
  apply wpe_lift. rewrite Enb. cbn [runs].
  rewrite wrap_id, Nat2Z.id by (pow2; lia).
  replace (replicate (length data) 0) with (partial 0 data)
    by (unfold partial; by rewrite Nat.mul_0_l, take_0, Nat.sub_0_r).
  eapply wpe_mono; [apply (read_blocks_spec nb 0 i data _ g d Hv); [by split|apply length_replicate|lia|]| |done].
  - destruct Hnb2 as [?|?]; [by left|by right].
  - intros buf d' [Hv' ->]. split; [done|]. unfold partial. cbn [Nat.add].
    rewrite take_ge by lia. replace (_ - _)%nat with 0%nat by lia. apply app_nil_r.
Qed.
End files.
