(* ===== verification/Ext3Dirs.v ===== *)
(** * The ext2/ext3 file system: directories

    A directory's bytes are a chain of entries; [listing] is what
    [read_dir_inode] shows of it.  Adding an entry appends to the listing and
    removing takes the entry out of it, except behind a deleted last entry,
    where the listing ends. *)
From stdpp Require Import strings functions.
From S2P Require Import Prelude Words Disk Str Ext3 Ext3Read Ext3Write Ext3Files.
Local Open Scope Z_scope.
Local Open Scope list_scope.

(** ** Chains of entries *)

Record entry := mkEntry { e_ino : Z; e_type : Z; e_name : str; e_pad : list Z }.
Definition e_len (e : entry) : nat := 8 + length (e_name e) + length (e_pad e).
Definition dirent_of (e : entry) : DirEntry :=
  mkDirEntry (e_ino e) (e_len e) (length (e_name e)) (e_type e).
Definition encode_entry (e : entry) : list Z := encode_dirent (dirent_of e) ++ e_name e ++ e_pad e.
Definition encode_dir (es : list entry) : list Z := concat (encode_entry <$> es).

Record wf_entry (e : entry) : Prop := {
  we_ino : fits 32 (e_ino e);
  we_type : fits 8 (e_type e);
  we_name : (length (e_name e) ≤ 255)%nat;
  we_bytes : bytes (e_name e ++ e_pad e);
  we_len : Z.of_nat (e_len e) < 2 ^ 16;
}.
Definition live (e : entry) : Prop := wf_entry e ∧ e_ino e ≠ 0.

(** What is listed of an entry. *)
Definition shown (e : entry) : list (str * Z * Z) :=
  let name := if valid_utf8 (e_name e) then e_name e else INVALID in
  if bool_decide (name = DOT) || bool_decide (name = DOTDOT) then []
  else [(name, e_ino e, e_type e)].
Definition listing (es : list entry) : list (str * Z * Z) := es ≫= shown.

Lemma length_encode_entry e : length (encode_entry e) = e_len e.
Proof.
  unfold encode_entry, encode_dirent, e_len. rewrite !length_app, !length_to_le. lia.
Qed.

Lemma encode_dir_app es1 es2 : encode_dir (es1 ++ es2) = encode_dir es1 ++ encode_dir es2.
Proof. unfold encode_dir. by rewrite fmap_app, concat_app. Qed.
Lemma encode_dir_cons e es : encode_dir (e :: es) = encode_entry e ++ encode_dir es.
Proof. done. Qed.
Lemma encode_dir_one e : encode_dir [e] = encode_entry e.
Proof. rewrite encode_dir_cons. apply app_nil_r. Qed.

Lemma bytes_encode_entry e : wf_entry e → bytes (encode_entry e).
Proof.
  intros []. unfold encode_entry, encode_dirent. rewrite !Forall_app. split_and!; auto using bytes_to_le.
  - apply Forall_app in we_bytes0. apply we_bytes0.
  - apply Forall_app in we_bytes0. apply we_bytes0.
Qed.

Lemma bytes_encode_dir es : Forall wf_entry es → bytes (encode_dir es).
Proof.
  intros Hes. apply Forall_concat, Forall_fmap. eapply Forall_impl; [exact Hes|].
  intros e He. by apply bytes_encode_entry.
Qed.

(** A little-endian field in the middle. *)
Lemma le_at_field (off n : nat) pre v post : length pre = off → fits (8 * n) v →
  le_at off n (pre ++ to_le n v ++ post) = v.
Proof.
  intros <- Hv. unfold le_at. rewrite drop_app_length, take_app_length' by (by rewrite length_to_le).
  by rewrite from_to_le, wrap_id.
Qed.

Lemma encode_dirent_fields d l : fits 32 (inode d) → fits 16 (rec_len d) →
  fits 8 (name_len d) → fits 8 (file_type d) → decode_dirent (encode_dirent d ++ l) = d.
Proof.
  intros H1 H2 H3 H4. unfold decode_dirent, encode_dirent. rewrite <- !app_assoc.
  destruct d as [i r n t]. cbn [inode rec_len name_len file_type] in *. f_equal.
  - by apply (le_at_field 0 4 []).
  - by apply (le_at_field 4 2 (to_le 4 i)).
  - rewrite (app_assoc (to_le 4 i)). by apply (le_at_field 6 1).
  - rewrite (app_assoc (to_le 4 i)), (app_assoc (_ ++ _)). by apply (le_at_field 7 1).
Qed.

Lemma dirent_at_entry pre e post : wf_entry e →
  dirent_at (length pre) (pre ++ encode_entry e ++ post) = Done (dirent_of e).
Proof.
  intros [Hi Ht Hn Hb Hl]. rewrite dirent_done.
  - f_equal. rewrite drop_app_length. unfold encode_entry. rewrite <- app_assoc.
    rewrite take_app_length' by done.
    pose proof (encode_dirent_fields (dirent_of e) []) as E. rewrite app_nil_r in E.
    apply E; cbn [inode rec_len name_len file_type dirent_of];
      [done|split; [lia|exact Hl]|pow2; lia|done].
  - rewrite !length_app, length_encode_entry. unfold e_len. lia.
Qed.

(** ** Listing *)

(** The bytes after the live entries: too few for an entry, or a deleted one. *)
Definition dead (tail : list Z) : Prop := (length tail < 8)%nat ∨ le_at 0 4 tail = 0.

Lemma dir_entries_dead fuel pre tail : dead tail → tail = [] ∨ (0 < fuel)%nat →
  dir_entries fuel (length pre) (length (pre ++ tail)) (pre ++ tail) = Done [].
Proof.
  intros Hd Hf.
  destruct (decide (8 ≤ length tail)%nat) as [Hl|Hl].
  - destruct Hf as [->|Hf]; [cbn in Hl; lia|]. destruct fuel as [|fuel]; [lia|]. cbn [dir_entries].
    rewrite length_app, bool_decide_eq_true_2 by lia. cbn [negb].
    rewrite dirent_done by (rewrite length_app; lia). cbn [mbind outcome_bind].
    rewrite drop_app_length. destruct Hd as [?|Hd]; [lia|].
    assert (inode (decode_dirent (take 8 tail)) = 0) as ->; [|done].
    unfold decode_dirent. cbn [inode]. unfold le_at in *. rewrite drop_0 in *.
    by rewrite take_take.
  - destruct fuel; cbn [dir_entries]; rewrite length_app, bool_decide_eq_false_2 by lia; done.
Qed.

Lemma dir_entries_chain fuel pre es tail : Forall live es → dead tail →
  (length (encode_dir es ++ tail) ≤ fuel)%nat →
  dir_entries fuel (length pre) (length (pre ++ encode_dir es ++ tail)) (pre ++ encode_dir es ++ tail)
  = Done (listing es).
Proof.
  intros Hes Hd. revert pre fuel. induction Hes as [|e es [He Hi] Hes IH]; intros pre fuel Hf.
  { cbn [encode_dir]. apply dir_entries_dead; [done|]. cbn in Hf. destruct tail; [auto|].
    right. cbn in Hf. lia. }
  assert (1 ≤ e_len e)%nat by (unfold e_len; lia).
  rewrite encode_dir_cons, <- app_assoc in Hf |- *.
  rewrite length_app, length_encode_entry in Hf. destruct fuel as [|fuel]; [lia|].
  cbn [dir_entries]. rewrite bool_decide_eq_true_2
    by (rewrite !length_app, length_encode_entry; unfold e_len; lia). cbn [negb].
  rewrite dirent_at_entry by done. cbn [mbind outcome_bind].
  rewrite (proj2 (Z.eqb_neq _ _) Hi : (inode (dirent_of e) =? 0) = false).
  rewrite (proj2 (Z.eqb_neq (rec_len (dirent_of e)) 0)) by (cbn; lia). cbn [orb].
  cbn [name_len dirent_of rec_len]. rewrite !Nat2Z.id.
  rewrite decide_True by (rewrite !length_app, length_encode_entry; unfold e_len; lia).
  assert (slice (length pre + 8) (length pre + 8 + length (e_name e))
    (pre ++ encode_entry e ++ encode_dir es ++ tail) = Done (e_name e)) as ->.
  { unfold encode_entry. rewrite <- !app_assoc, (app_assoc pre). apply slice_mid; [|lia..].
    rewrite length_app. done. }
  cbn [mbind outcome_bind].
  rewrite app_assoc, <- (length_encode_entry e), <- length_app.
  rewrite IH by lia. cbn [mbind outcome_bind listing]. done.
Qed.

(** ** Changing entries in place *)

Lemma poke_mid (off : nat) pre old post src : length pre = off → length src = length old →
  poke off src (pre ++ old ++ post) = Done (pre ++ src ++ post).
Proof. intros ? E. unfold poke. apply put_mid; lia. Qed.

Lemma poke_rec_len pre e post v :
  poke (length pre + 4) (to_le 2 v) (pre ++ encode_entry e ++ post) =
  Done (pre ++ (to_le 4 (e_ino e) ++ to_le 2 v ++ to_le 1 (length (e_name e)) ++
    to_le 1 (e_type e) ++ e_name e ++ e_pad e) ++ post).
Proof.
  unfold encode_entry, encode_dirent. cbn [inode rec_len name_len file_type dirent_of].
  rewrite <- !app_assoc, (app_assoc pre), (app_assoc pre).
  apply poke_mid; [by rewrite length_app, length_to_le|by rewrite !length_to_le].
Qed.

Lemma poke_inode pre e post v :
  poke (length pre) (to_le 4 v) (pre ++ encode_entry e ++ post) =
  Done (pre ++ encode_entry (mkEntry v (e_type e) (e_name e) (e_pad e)) ++ post).
Proof.
  unfold encode_entry, encode_dirent. cbn [inode rec_len name_len file_type dirent_of e_ino e_name e_pad e_type].
  rewrite <- !app_assoc. apply poke_mid; [done|by rewrite !length_to_le].
Qed.

(** [dir_add_entry] finds the length of the last entry already right. *)
Lemma adjust_last_chain fuel pre es post : Forall wf_entry es → es ≠ [] →
  (length (encode_dir es) < fuel)%nat →
  adjust_last fuel (length pre) (length (pre ++ encode_dir es)) (pre ++ encode_dir es ++ post)
  = Done (pre ++ encode_dir es ++ post).
Proof.
  intros Hes. revert pre fuel. induction Hes as [|e es He Hes IH]; intros pre fuel Hne Hf; [done|].
  assert (8 ≤ e_len e)%nat by (unfold e_len; lia).
  rewrite encode_dir_cons, length_app, length_encode_entry in Hf.
  destruct fuel as [|fuel]; [lia|]. cbn [adjust_last]. rewrite encode_dir_cons, <- app_assoc.
  rewrite dirent_at_entry by done. cbn [mbind outcome_bind rec_len dirent_of].
  rewrite decide_False by lia. rewrite Nat2Z.id, !length_app, length_encode_entry.
  destruct es as [|e' es].
  - change (encode_dir []) with (@nil Z). cbn [length]. rewrite decide_True by lia.
    replace (length pre + (e_len e + 0) - length pre)%nat with (e_len e) by lia.
    rewrite poke_rec_len, wrap_id; [|split; [lia|apply He]].
    done.
  - rewrite decide_False, decide_False; cycle 1.
    { lia. }
    { rewrite encode_dir_cons, length_app, length_encode_entry. inv Hes. unfold e_len. lia. }
    specialize (IH (pre ++ encode_entry e) fuel ltac:(done) ltac:(lia)).
    rewrite <- !app_assoc, !length_app, length_encode_entry in IH.
    exact IH.
Qed.

(** The name [find_entry] compares. *)
Definition compared (e : entry) : str := if valid_utf8 (e_name e) then e_name e else [].

Lemma find_entry_chain fuel pre es1 e post name : Forall live es1 → live e →
  Forall (λ e, compared e ≠ name) es1 → compared e = name →
  (length (encode_dir es1) < fuel)%nat →
  let raw := pre ++ encode_dir es1 ++ encode_entry e ++ post in
  find_entry fuel (length pre) (length raw) raw name
  = Done (Some (length (pre ++ encode_dir es1), e_ino e)).
Proof.
  intros Hes He Hne Hname. revert pre fuel.
  induction Hes as [|x es1 Hx Hes IH]; intros pre fuel Hf; cbn [encode_dir] in *.
  - cbn in Hf. destruct fuel as [|fuel]; [lia|].
    change (encode_dir []) with (@nil Z). cbn [app]. rewrite app_nil_r. cbn [find_entry].
    rewrite decide_False by (rewrite !length_app, length_encode_entry; unfold e_len; lia).
    rewrite dirent_at_entry by apply He. cbn [mbind outcome_bind dirent_of inode rec_len name_len].
    rewrite (proj2 (Z.eqb_neq (e_ino e) 0)) by apply He.
    rewrite (proj2 (Z.eqb_neq (e_len e) 0)) by (unfold e_len; lia). cbn [orb].
    rewrite !Nat2Z.id, decide_True by (rewrite !length_app, length_encode_entry; unfold e_len; lia).
    assert (slice (length pre + 8) (length pre + 8 + length (e_name e))
      (pre ++ encode_entry e ++ post) = Done (e_name e)) as ->.
    { unfold encode_entry. rewrite <- !app_assoc, (app_assoc pre). apply slice_mid; [|lia..].
      rewrite length_app. done. }
    cbn [mbind outcome_bind mret outcome_ret]. fold (compared e).
    by rewrite Hname, bool_decide_eq_true_2.
  - inv Hne. assert (8 ≤ e_len x)%nat by (unfold e_len; lia).
    rewrite encode_dir_cons, length_app, length_encode_entry in Hf.
    destruct fuel as [|fuel]; [lia|]. rewrite encode_dir_cons, <- app_assoc. cbn [find_entry].
    rewrite decide_False by (rewrite !length_app, !length_encode_entry; unfold e_len; lia).
    rewrite dirent_at_entry by apply Hx. cbn [mbind outcome_bind dirent_of inode rec_len name_len].
    rewrite (proj2 (Z.eqb_neq (e_ino x) 0)) by apply Hx.
    rewrite (proj2 (Z.eqb_neq (e_len x) 0)) by lia. cbn [orb].
    rewrite !Nat2Z.id, decide_True by (rewrite !length_app, !length_encode_entry; unfold e_len; lia).
    assert (slice (length pre + 8) (length pre + 8 + length (e_name x))
      (pre ++ encode_entry x ++ encode_dir es1 ++ encode_entry e ++ post) = Done (e_name x)) as ->.
    { unfold encode_entry at 1. rewrite <- !app_assoc, (app_assoc pre). apply slice_mid; [|lia..].
      rewrite length_app. done. }
    cbn [mbind outcome_bind mret outcome_ret]. fold (compared x).
    rewrite bool_decide_eq_false_2 by done.
    specialize (IH ltac:(done) (pre ++ encode_entry x) fuel ltac:(lia)). cbn zeta in IH.
    rewrite <- !app_assoc in IH. rewrite (length_app pre (encode_entry x)), length_encode_entry in IH.
    rewrite IH. by rewrite app_assoc.
Qed.

(** The entry [p] with the space of the next [n] bytes. *)
Definition widened (p : entry) (n : nat) : list Z :=
  encode_dirent (mkDirEntry (e_ino p) (e_len p + n)%nat (length (e_name p)) (e_type p)) ++
  e_name p ++ e_pad p.
Definition absorb (p e : entry) : entry :=
  mkEntry (e_ino p) (e_type p) (e_name p) (e_pad p ++ encode_entry e).
Definition deleted (e : entry) : entry := mkEntry 0 (e_type e) (e_name e) (e_pad e).

Lemma length_widened p n : length (widened p n) = e_len p.
Proof.
  unfold widened, encode_dirent, e_len. rewrite !length_app, !length_to_le. lia.
Qed.

Lemma length_absorb p e : e_len (absorb p e) = (e_len p + e_len e)%nat.
Proof. unfold e_len at 1. cbn [absorb e_name e_pad]. rewrite length_app, length_encode_entry. unfold e_len. lia. Qed.

Lemma encode_absorb p e : encode_entry (absorb p e) = widened p (e_len e) ++ encode_entry e.
Proof.
  unfold widened. rewrite <- !app_assoc, <- length_absorb. done.
Qed.

Lemma live_absorb p e : live p → wf_entry e → Z.of_nat (e_len p + e_len e) < 2 ^ 16 →
  live (absorb p e).
Proof.
  intros [[] Hi] He Hl. split; [|done]. split; try done.
  - cbn. rewrite app_assoc. apply Forall_app. split; [done|by apply bytes_encode_entry].
  - by rewrite length_absorb.
Qed.

Lemma wf_deleted e : wf_entry e → wf_entry (deleted e).
Proof. intros []. by split. Qed.

Lemma dead_deleted e post : dead (encode_entry (deleted e) ++ post).
Proof.
  right. unfold encode_entry, encode_dirent. rewrite <- !app_assoc. by apply (le_at_field 0 4 []).
Qed.

Lemma merge_before_chain fuel pre es p e post : Forall wf_entry es → wf_entry p →
  Z.of_nat (e_len p + e_len e) < 2 ^ 16 → (length (encode_dir es) < fuel)%nat →
  merge_before fuel (length pre) (length (pre ++ encode_dir es ++ encode_entry p)) (e_len e)
    (pre ++ encode_dir es ++ encode_entry p ++ post)
  = Done (pre ++ encode_dir es ++ widened p (e_len e) ++ post).
Proof.
  intros Hes Hp Hl. revert pre fuel. induction Hes as [|x es Hx Hes IH]; intros pre fuel Hf.
  - destruct fuel as [|fuel]; [cbn in Hf; lia|]. change (encode_dir []) with (@nil Z).
    cbn [app merge_before]. rewrite dirent_at_entry by done.
    cbn [mbind outcome_bind rec_len dirent_of].
    rewrite decide_False by (unfold e_len; lia). rewrite Nat2Z.id, length_app, length_encode_entry.
    rewrite decide_True by done. unfold wadd. rewrite <- Nat2Z.inj_add, wrap_id by (pow2; lia).
    by rewrite poke_rec_len.
  - assert (8 ≤ e_len x)%nat by (unfold e_len; lia).
    assert (8 ≤ e_len p)%nat by (unfold e_len; lia).
    rewrite encode_dir_cons, length_app, length_encode_entry in Hf.
    destruct fuel as [|fuel]; [lia|]. rewrite encode_dir_cons, <- !app_assoc. cbn [merge_before].
    rewrite dirent_at_entry by done. cbn [mbind outcome_bind rec_len dirent_of].
    rewrite decide_False by lia. rewrite Nat2Z.id, !length_app, !length_encode_entry.
    rewrite !decide_False by lia.
    specialize (IH (pre ++ encode_entry x) fuel ltac:(lia)).
    rewrite <- !app_assoc, !length_app, !length_encode_entry in IH. exact IH.
Qed.

(** The bytes [dir_add_entry] appends. *)
Definition new_entry (name : str) (ino type : Z) : entry :=
  mkEntry ino type name (replicate (Z.to_nat (4 * ((length name + 11) / 4)) - 8 - length name) 0).

Lemma round_up_4 (n : nat) : (n ≤ 255)%nat →
  wrap 16 (Z.land (Z.of_nat (8 + n + 3)) (wnot 64 3)) = 4 * ((Z.of_nat n + 11) / 4).
Proof.
  intros Hn. assert (Forall (λ n, wrap 16 (Z.land (8 + n + 3) (wnot 64 3)) = 4 * ((n + 11) / 4))
    (seqZ 0 256)) as H by (refine (bool_decide_unpack _ _); by vm_compute).
  rewrite Forall_forall in H. specialize (H n). rewrite elem_of_seqZ in H.
  rewrite <- H by lia. do 2 f_equal. lia.
Qed.

Lemma length_new_entry name ino type : e_len (new_entry name ino type) = Z.to_nat (4 * ((length name + 11) / 4)).
Proof.
  unfold new_entry, e_len. cbn. rewrite length_replicate.
  pose proof (Z.div_mod (length name + 11) 4). pose proof (Z.mod_pos_bound (length name + 11) 4). lia.
Qed.

Lemma live_new_entry name ino type : (length name ≤ 255)%nat → bytes name → fits 32 ino → ino ≠ 0 →
  fits 8 type → live (new_entry name ino type).
Proof.
  intros Hn Hb Hi Hz Ht. split; [|done]. split; [done..| |].
  - apply Forall_app. split; [done|by apply Forall_replicate].
  - rewrite length_new_entry. pose proof (Z.div_le_upper_bound (length name + 11) 4 67). pow2. lia.
Qed.

(** ** Adding and removing *)

Section dirs.
Context {D : Type} `{BlockDeviceOk D} (fs : Ext3Fs) (spb : nat) (N : Z).
Context (G : geometry fs spb N) (WF : wf_fs fs) (B : Z).
Implicit Types (d : D) (g : Z → list Z) (i : Inode).
Abbreviation bs := (block_size fs).
Abbreviation view := (view spb N).
Abbreviation fs_ok := (fs_ok fs N B).
Abbreviation file_ok := (file_ok fs N B).
Abbreviation has_data := (has_data fs N).

(** The block bitmap has no free bit. *)
Definition disk_full d : Prop := ∃ g, view g d ∧ all_set (g B) (blocks_per_group fs).

(** A directory with the bytes [raw] that is going to be written. *)
Record dir_state g d i (raw : list Z) : Prop := {
  ds_view : view g d;
  ds_fs : fs_ok g;
  ds_file : file_ok g i;
  ds_data : has_data g i raw;
  ds_len : (length raw ≤ 12 * bs)%nat;
}.

Lemma read_dir_spec g d i es tail : view g d → has_data g i (encode_dir es ++ tail) →
  (length (encode_dir es ++ tail) ≤ 12 * bs)%nat → Forall live es → dead tail →
  wpe (read_dir_inode fs i) (λ r d', view g d' ∧ r = listing es) (λ _, False) d.
Proof.
  intros Hv Hd Hl Hes Ht. unfold read_dir_inode. apply wpe_try.
  eapply wpe_mono; [by eapply (read_file_spec fs spb N G)| |done].
  intros raw d' [Hv' ->]. destruct Hd as [Hsz _]. rewrite Hsz, Nat2Z.id.
  apply wpe_lift. rewrite (dir_entries_chain _ [] es tail) by done. cbn [runs]. by apply wpe_ok.
Qed.

Lemma add_bytes (raw : list Z) name ino type :
  poke (length raw) (encode_dirent (dirent_of (new_entry name ino type)))
    (raw ++ replicate (e_len (new_entry name ino type)) 0)
  ≫= put (length raw + 8) (length raw + 8 + length name) name
  = Done (raw ++ encode_entry (new_entry name ino type)).
Proof.
  set (e := new_entry name ino type).
  assert (e_len e = 8 + (length name + length (e_pad e)))%nat as -> by (unfold e_len; cbn; lia).
  rewrite replicate_add.
  assert (length (encode_dirent (dirent_of e)) = 8%nat) as E8 by done.
  rewrite poke_mid by (rewrite ?length_replicate; done). cbn [mbind outcome_bind].
  rewrite replicate_add, app_assoc. rewrite put_mid;
    [|rewrite length_app, E8; done|rewrite length_replicate; lia|lia|lia].
  rewrite <- app_assoc. unfold encode_entry. do 4 f_equal.
  subst e. unfold new_entry. cbn [e_pad]. by rewrite length_replicate.
Qed.

(** [dir_add_entry] appends the entry's bytes. *)
Lemma dir_add_bytes g d i es name ino type : dir_state g d i (encode_dir es) →
  Forall wf_entry es → (1 ≤ length name ≤ 255)%nat → bytes name →
  fits 32 ino → fits 8 type →
  (length (encode_dir es ++ encode_entry (new_entry name ino type)) ≤ 12 * bs)%nat →
  wpe (dir_add_entry fs i name ino type)
    (λ i' d', ∃ g', view g' d' ∧
       has_data g' i' (encode_dir es ++ encode_entry (new_entry name ino type))) disk_full d.
Proof.
  intros [Hv F Fi Hd Hl] Hes Hn Hb Hi Ht Hl'. unfold dir_add_entry. apply wpe_try.
  eapply wpe_mono; [by eapply (read_file_spec fs spb N G)| |done].
  intros raw d' [Hv' ->]. rewrite round_up_4 by lia.
  pose proof (Z.div_mod (length name + 11) 4 ltac:(lia)).
  pose proof (Z.mod_pos_bound (length name + 11) 4 ltac:(lia)).
  rewrite decide_False by lia.
  assert (4 * ((length name + 11) / 4) = e_len (new_entry name ino type)) as Elen
    by (rewrite length_new_entry; lia).
  rewrite Elen, Nat2Z.id, (wrap_id 8) by (pow2; lia).
  pose proof (add_bytes (encode_dir es) name ino type) as Hadd.
  change (mkDirEntry _ _ _ _) with (dirent_of (new_entry name ino type)).
  destruct (poke _ _ _) as [raw1| |]; try done. cbn [mbind outcome_bind] in Hadd.
  apply wpe_lift. cbn [runs]. apply wpe_lift. rewrite Hadd. cbn [runs].
  apply wp_bind. eapply (wp_mono _ (λ raw d1, d1 = d' ∧
    raw = encode_dir es ++ encode_entry (new_entry name ino type))).
  { case_decide as Hne; [|done]. apply wp_lift.
    pose proof (adjust_last_chain (S (length (encode_dir es))) [] es
      (encode_entry (new_entry name ino type)) Hes) as E. cbn [app length] in E.
    rewrite E; [done| |lia]. intros ->. cbn in Hne. lia. }
  intros raw2 d1 [-> ->].
  eapply wpe_mono; [apply (write_file_data_spec fs spb N G WF B i _ _ g d' Hv' F Fi Hl')| |done].
  - apply Forall_app. split; [by apply bytes_encode_dir|].
    destruct (decide (ino = 0)) as [->|].
    + apply (bytes_encode_entry (deleted (new_entry name 1 type))), wf_deleted.
      by apply live_new_entry; [lia|..].
    + apply bytes_encode_entry. by apply live_new_entry; [lia|..].
  - apply length_replicate.
  - intros i' d2 (g' & Hv2 & Hd2 & _). eauto.
Qed.

(** [dir_remove_entry] gives the space of the entry to the one before it, or,
    if it is the last, leaves it deleted. *)
(** The entries around the one removed. *)
Lemma live_parts es1 p e es2 : Forall live (es1 ++ p :: e :: es2) →
  Forall live (es1 ++ [p]) ∧ live e ∧ Forall live es2 ∧ Forall wf_entry es1 ∧ wf_entry p.
Proof.
  intros Hes. change (p :: e :: es2) with ([p] ++ e :: es2) in Hes. rewrite app_assoc in Hes.
  apply Forall_app in Hes as [Hl1 Hes]. inv Hes. do 3 (split; [done|]).
  apply Forall_app in Hl1 as [Hl1 [[] _]%Forall_cons]. split; [|done].
  eapply Forall_impl; [exact Hl1|]. by intros ? [].
Qed.
(** The directory after the removal: as long as before, and bytes. *)
Definition removed_bytes es1 p e es2 : list Z :=
  if decide (es2 = []) then encode_dir (es1 ++ [p]) ++ encode_entry (deleted e)
  else encode_dir (es1 ++ absorb p (deleted e) :: es2).
Lemma bytes_removed es1 p e es2 : Forall live (es1 ++ p :: e :: es2) →
  Z.of_nat (length (encode_dir (es1 ++ p :: e :: es2))) < 2 ^ 16 → bytes (removed_bytes es1 p e es2).
Proof.
  intros (Hl1 & Hle & Hl2 & _)%live_parts Hl16. unfold removed_bytes. case_decide.
  - apply Forall_app. split; [apply bytes_encode_dir|apply bytes_encode_entry, wf_deleted, Hle].
    eapply Forall_impl; [exact Hl1|]. by intros ? [].
  - apply bytes_encode_dir. apply Forall_app in Hl1 as [Hl1 [Hp _]%Forall_cons]. apply Forall_app. split.
    { eapply Forall_impl; [exact Hl1|]. by intros ? []. }
    constructor; [|eapply Forall_impl; [exact Hl2|]; by intros ? []].
    apply live_absorb; [done|apply wf_deleted, Hle|].
    revert Hl16. rewrite encode_dir_app, !encode_dir_cons, !length_app, !length_encode_entry.
    unfold deleted, e_len. cbn. lia.
Qed.
Lemma dir_remove_bytes g d i es1 p e es2 name : dir_state g d i (encode_dir (es1 ++ p :: e :: es2)) →
  Forall live (es1 ++ p :: e :: es2) → Z.of_nat (length (encode_dir (es1 ++ p :: e :: es2))) < 2 ^ 16 →
  Forall (λ e, compared e ≠ name) (es1 ++ [p]) → compared e = name →
  wpe (dir_remove_entry fs i name)
    (λ '(n, i') d', n = e_ino e ∧ ∃ g', view g' d' ∧ has_data g' i'
       (removed_bytes es1 p e es2)) disk_full d.
Proof.
  intros [Hv F Fi Hd Hl] Hes Hl16 Hne Hname. unfold dir_remove_entry. apply wpe_try.
  eapply wpe_mono; [by eapply (read_file_spec fs spb N G)| |done].
  intros raw d' [Hv' ->].
  assert (encode_dir (es1 ++ p :: e :: es2)
    = encode_dir (es1 ++ [p]) ++ encode_entry e ++ encode_dir es2) as Eraw.
  { change (p :: e :: es2) with ([p] ++ e :: es2). by rewrite app_assoc, encode_dir_app. }
  pose proof (bytes_removed es1 p e es2 Hes Hl16) as Hfb.
  destruct (live_parts es1 p e es2 Hes) as (Hl1 & Hle & Hl2 & Hw1 & Hwp).
  destruct Hd as [Hsz _]. rewrite Hsz, Nat2Z.id. rewrite Eraw in *.
  apply wpe_lift. set (raw := encode_dir (es1 ++ [p]) ++ encode_entry e ++ encode_dir es2) in *.
  assert (length raw = (length (encode_dir (es1 ++ [p])) + e_len e + length (encode_dir es2))%nat) as Hraw.
  { unfold raw. rewrite !length_app, length_encode_entry. lia. }
  assert (1 ≤ e_len e)%nat by (unfold e_len; lia).
  pose proof (find_entry_chain (length raw) [] (es1 ++ [p]) e (encode_dir es2) name) as Efind.
  cbn [app length] in Efind. cbn zeta in Efind. fold raw in Efind. rewrite Efind by (done || lia).
  cbn [runs]. apply wpe_lift. unfold raw at 1. rewrite dirent_at_entry by apply Hle.
  cbn [runs rec_len dirent_of]. rewrite Nat2Z.id. apply wp_bind.
  set (found := length (encode_dir (es1 ++ [p]))) in *.
  assert (encode_dir (es1 ++ [p]) = encode_dir es1 ++ encode_entry p) as Ep
    by by rewrite encode_dir_app, encode_dir_one.
  eapply (wp_mono _ (λ raw2 d1, d1 = d' ∧ ∃ pre, length pre = found ∧
    raw2 = pre ++ encode_entry e ++ encode_dir es2 ∧
    pre ++ encode_entry (deleted e) ++ encode_dir es2 = removed_bytes es1 p e es2)).
  { case_decide as Hlast; unfold removed_bytes.
    - apply wp_lift. unfold raw. rewrite Ep, <- !app_assoc.
      pose proof (merge_before_chain (S found) [] es1 p e (encode_entry e ++ encode_dir es2) Hw1 Hwp)
        as Emerge. cbn [app length] in Emerge |- *.
      assert (found = length (encode_dir es1) + e_len p)%nat
        by (unfold found; by rewrite Ep, length_app, length_encode_entry).
      rewrite <- Ep in Emerge. fold found in Emerge. rewrite Emerge by lia.
      cbn [runs]. split; [done|].
      exists (encode_dir es1 ++ widened p (e_len e)). split_and!.
      + rewrite length_app, length_widened. lia.
      + by rewrite <- !app_assoc.
      + rewrite decide_False by (intros E2; rewrite E2 in Hraw; cbn [encode_dir fmap list_fmap concat length] in Hraw; lia).
        rewrite encode_dir_app, encode_dir_cons, encode_absorb, <- !app_assoc. done.
    - split; [done|]. exists (encode_dir (es1 ++ [p])). split_and!; [done..|].
      assert (es2 = []) as ->.
      { destruct es2 as [|x es2]; [done|]. rewrite encode_dir_cons, length_app, length_encode_entry in Hraw.
        assert (1 ≤ e_len x)%nat by (unfold e_len; lia). lia. }
      rewrite decide_True by done. change (encode_dir []) with (@nil Z). by rewrite app_nil_r. }
  intros raw2 d1 (-> & pre & Hpre & -> & Efinal).
  apply wpe_lift. rewrite <- Hpre, poke_inode. cbn [runs]. fold (deleted e). rewrite Efinal.
  assert (length (removed_bytes es1 p e es2) = length raw) as Hfl.
  { rewrite <- Efinal, Hraw, !length_app, length_encode_entry. unfold deleted, e_len. cbn. lia. }
  apply wpe_try. eapply wpe_mono; [apply (write_file_data_spec fs spb N G WF B i _ _ g d' Hv' F Fi)| |done].
  - lia.
  - done.
  - apply length_replicate.
  - intros i' d2 (g' & Hv2 & Hd2 & _). apply wpe_ok. eauto.
Qed.
End dirs.
