(* ===== verification/Ext3Props.v ===== *)
(** * The ext2/ext3 file system: properties

    Safety of reading on any disk; data written is read back; directories are
    lists of names; and what deletion and the driver's inode size break. *)
From stdpp Require Import strings functions.
From S2P Require Import Prelude Words Disk Str Ext3 Ext3Read Ext3Write Ext3Files Ext3Dirs.
Local Open Scope Z_scope.
Local Open Scope list_scope.

(** ** A small disk for the witnesses

    64 blocks of 1024 bytes, 16 inodes of the driver's 116 bytes, the root
    directory with one directory "d". *)

Definition block_image (pieces : list (nat * list Z)) : list Z :=
  foldl (λ b p, take p.1 b ++ p.2 ++ drop (p.1 + length p.2) b) (replicate 1024 0) pieces.
Definition blocks_image (blocks : list (Z * list Z)) : gmap Z (list Z) :=
  foldl (λ m p, put_sectors m (2 * p.1) 2 p.2) ∅ blocks.
Definition dir_image (size blk : Z) : Inode :=
  mkInode (Z.lor S_IFDIR 0x1ED) 0 size 0 0 0 0 0 2 2 0 0 (blk :: replicate 14 0) 0 0 0 0.
Definition named (ino : Z) (name : str) : entry := new_entry name ino FT_DIR.
Definition superblock_image : list Z :=
  block_image [(0x04%nat, to_le 4 64); (0x18%nat, to_le 4 0); (0x20%nat, to_le 4 64);
    (0x28%nat, to_le 4 16); (0x38%nat, to_le 2 0xEF53)].
Definition disk_image (inodes : list Z) : RamDisk := mkRamDisk (blocks_image
  [(1, superblock_image);
   (2, block_image [(0%nat, to_le 4 3 ++ to_le 4 4 ++ to_le 4 5)]);
   (3, block_image [(0%nat, [0xFF]); (7%nat, [0x80])]);
   (4, block_image [(0%nat, [0x07])]);
   (5, inodes);
   (7, block_image [(0%nat, encode_dir [named 2 DOT; named 2 DOTDOT; named 3 [100]])]);
   (8, block_image [(0%nat, encode_dir [named 3 DOT; named 2 DOTDOT])])]) 128.
Definition image : RamDisk := disk_image
  (block_image [(116%nat, encode_inode (dir_image 36 7)); (232%nat, encode_inode (dir_image 24 8))]).

Definition image_fs : Ext3Fs := mkExt3Fs 1024 16 64 2 1.

Definition D_A : str := [47; 100; 47; 97].   (* "/d/a" *)
Definition D_B : str := [47; 100; 47; 98].   (* "/d/b" *)
Definition D_C : str := [47; 100; 47; 99].   (* "/d/c" *)

Lemma image_mounts : value_of (mount image) = Some (Ok image_fs).
Proof. vm_compute. reflexivity. Qed.

(** ** Reading is safe *)

Lemma mount_reads {D} `{BlockDeviceOk D} (d : D) :
  let sb := decode_superblock (take SUPERBLOCK_SIZE (sectors_from (sector d) 2 2)) in
  sb_blocks_per_group sb ≠ 0 → sb_inodes_per_group sb ≠ 0 → log_block_size sb mod 64 ≤ 26 →
  reads True d mount wf_fs.
Proof.
  intros sb Hbpg Hipg Hlog d1 Hd1. unfold mount. apply wp_bind.
  eapply wp_mono; [by apply ata_read_ok|].
  intros [[[]|e] buf] d2 (HS & HC & Hl & Hb & _ & Hok); cycle 1.
  { split; [|done]. etrans; [exact Hd1|done]. }
  destruct (Hok eq_refl) as [_ ->]. clear Hok Hl.
  assert (same d d2) as Hd2 by (etrans; [exact Hd1|done]).
  assert (sectors_from (sector d1) (wrap 28 2) (Z.to_nat 2) ++ drop (Z.to_nat 2 * SECTOR) (replicate 1024 0)
    = sectors_from (sector d) 2 2) as ->.
  { rewrite drop_ge, app_nil_r by (rewrite length_replicate; unfold SECTOR; lia).
    apply (sectors_from_ext (sector d1) (sector d) 2 2). intros l _. by apply Hd1. }
  apply wpe_lift. rewrite peek_done.
  2:{ rewrite length_sectors_from by apply sector_ok. unfold SUPERBLOCK_SIZE, SECTOR. lia. }
  cbn [runs]. rewrite drop_0. fold sb. case_match; [by apply wpe_err|].
  apply wpe_lift. rewrite udiv_done by done. cbn [runs]. apply wpe_ok. split; [done|].
  assert (bytes (take SUPERBLOCK_SIZE (sectors_from (sector d) 2 2))) as Hbytes.
  { apply Forall_take, bytes_sectors_from, sector_ok. }
  pose proof (Z.mod_pos_bound (log_block_size sb) 64 ltac:(lia)).
  assert (Z.shiftl 1024 (log_block_size sb mod 64) = 1024 * 2 ^ (log_block_size sb mod 64)) as E
    by (apply Z.shiftl_mul_pow2; lia).
  assert (1 ≤ 2 ^ (log_block_size sb mod 64) ≤ 2 ^ 26) as [Hp1 Hp2].
  { split; [apply (Z.pow_le_mono_r 2 0); lia|apply Z.pow_le_mono_r; lia]. }
  pow2. split; cbn [block_size inodes_per_group bg_desc_table_block].
  - rewrite E, wrap_id by (pow2; lia). lia.
  - rewrite E, wrap_id by (pow2; lia). pow2. lia.
  - pose proof (le_at_nonneg 0x28 4 _ Hbytes). cbn [sb_inodes_per_group decode_superblock sb] in *.
    unfold sb in Hipg. cbn [sb_inodes_per_group decode_superblock] in Hipg. lia.
  - case_decide; lia.
Qed.


(** ** Data written is read back *)

(** C12: on a reliable disk with one well-formed block group, [write_file_data]
    of at most twelve blocks either finds the bitmap full or stores the data so
    that [read_file_inode] of the resulting inode returns it, and no allocated
    block outside the file changes. *)
Theorem ext3_write_read {D} `{BlockDeviceOk D} fs spb N B g (d : D) i data :
  geometry fs spb N → wf_fs fs → view spb N g d → fs_ok fs N B g → file_ok fs N B g i →
  (length data ≤ 12 * block_size fs)%nat → bytes data →
  wpe (i' ←? write_file_data fs i data (zeroed fs); buf ←? read_file_inode fs i'; ok (i', buf))
    (λ '(i', buf) d', buf = data ∧ isize i' = length data ∧ ∃ g', view spb N g' d' ∧
       ∀ b, b ≠ B → (∀ k, (k < 12)%nat → b ≠ pointer i k) → bit_at (g B) (b - 1) = true →
         g' b = g b)
    (disk_full fs spb N B) d.
Proof.
  intros G WF Hv F Fi Hl Hb. apply wpe_try.
  eapply wpe_mono; [apply (write_file_data_spec fs spb N G WF B i data (zeroed fs) g d); try done| |done].
  { apply length_replicate. }
  intros i' d1 (g' & Hv1 & Hd1 & Hframe). apply wpe_try.
  eapply wpe_mono; [by apply (read_file_spec fs spb N G i' data g' d1)| |done].
  intros buf d2 [Hv2 ->]. apply wpe_ok. split; [done|]. split; [apply Hd1|eauto].
Qed.

Lemma image_geometry : geometry image_fs 2 64.
Proof. split; [lia|done|by vm_compute]. Qed.
Lemma image_wf : wf_fs image_fs.
Proof. split; cbn [block_size image_fs inodes_per_group bg_desc_table_block]; [lia|by vm_compute|lia..]. Qed.
Lemma image_view : view 2 64 (content 2 image) image.
Proof. split; [done|]. split; [by vm_compute|done]. Qed.
Lemma image_ok : fs_ok image_fs 64 3 (content 2 image).
Proof.
  split; [split; cbn [block_size image_fs bg_desc_table_block]; try lia; by vm_compute|].
  intros k Hk _ Hbit. cbn [blocks_per_group image_fs] in Hk.
  assert (Forall (λ k, bit_at (content 2 image 3) k = false → k + 1 < 64 ∧ k + 1 ≠ 3 ∧ k + 1 ≠ 2)
    (seqZ 0 64)) as Hall by (refine (bool_decide_unpack _ _); by vm_compute).
  rewrite Forall_forall in Hall. specialize (Hall k). rewrite elem_of_seqZ in Hall.
  assert (k + 1 < 64 ∧ k + 1 ≠ 3 ∧ k + 1 ≠ 2) by (apply Hall; [lia|done]). cbn. lia.
Qed.
Lemma image_new_file : file_ok image_fs 64 3 (content 2 image) new_inode.
Proof.
  assert (∀ k, (k < 12)%nat → pointer new_inode k = 0) as Hz.
  { intros k Hk. unfold pointer. cbn [block new_inode].
    rewrite lookup_total_replicate_2 by lia. done. }
  split; [done| |]; intros k; intros; by rewrite Hz in *.
Qed.

Lemma ext3_write_read_witness : ∃ i' d',
  (i' ←? write_file_data image_fs new_inode [1; 2; 3] (zeroed image_fs);
   buf ←? read_file_inode image_fs i'; ok (i', buf)) image = Done (Ok (i', [1; 2; 3]), d').
Proof.
  pose proof (ext3_write_read image_fs 2 64 3 (content 2 image) image new_inode [1; 2; 3]
    image_geometry image_wf image_view image_ok image_new_file ltac:(cbn; lia)
    ltac:(by repeat constructor)) as (r & d' & E & Hr)%wp_inv.
  assert (match value_of ((i' ←? write_file_data image_fs new_inode [1; 2; 3] (zeroed image_fs);
    buf ←? read_file_inode image_fs i'; ok (i', buf)) image) with
    | Some (Ok _) => true | _ => false end = true) as V by (vm_compute; reflexivity).
  rewrite E in V. destruct r as [[i' buf]|]; [|done]. destruct Hr as [-> _]. eauto.
Defined.

(** ** Directories are lists of names *)


(** A disk that differs from [image] in the blocks of the directory "d". *)
Lemma example_dir_state (di : RamDisk) es : size di = 128 →
  content 2 di 2 = content 2 image 2 → content 2 di 3 = content 2 image 3 →
  content 2 di 8 = chunk image_fs 0 (encode_dir es) →
  (length (encode_dir es) ≤ 1024)%nat →
  dir_state image_fs 2 64 3 (content 2 di) di (dir_image (length (encode_dir es)) 8) (encode_dir es).
Proof.
  intros Hsize E2 E3 E8 Hl. split.
  - split; [done|]. split; [|done]. change (capacity di) with (size di). by rewrite Hsize.
  - destruct image_ok as [[HT HB HTB Hbm Hone] Hfree]. split.
    + split; try done. unfold bitmap_of in *. cbn [bg_desc_table_block image_fs] in *. by rewrite E2.
    + by rewrite E3.
  - assert (∀ k, (S k < 12)%nat → pointer (dir_image (length (encode_dir es)) 8) (S k) = 0) as Hz.
    { intros k Hk. unfold pointer, dir_image. cbn [block].
      change ((8 :: replicate 14 0) !!! S k) with (replicate 14 0 !!! k).
      apply lookup_total_replicate_2. lia. }
    split; [done| |].
    + intros [|k] Hk Hk0; [|by rewrite Hz in Hk0].
      split; [by vm_compute|]. split; [done|]. split; [done|]. rewrite E3. by vm_compute.
    + intros [|j] [|k] Hj Hk H0 E; rewrite ?Hz in * by done; done.
  - split; [done|]. split; [done|]. intros k Hk. cbn [block_size image_fs] in Hk.
    assert (k = 0%nat) as -> by lia. split; [by vm_compute|exact E8].
  - cbn [block_size image_fs]. lia.
Qed.

Lemma image_dir_state : dir_state image_fs 2 64 3 (content 2 image) image (dir_image 24 8)
  (encode_dir [named 3 DOT; named 2 DOTDOT]).
Proof.
  apply (example_dir_state image [named 3 DOT; named 2 DOTDOT]); [done..| |].
  - vm_compute. reflexivity.
  - refine (bool_decide_unpack _ _). by vm_compute.
Qed.


(** ** What deletion breaks *)

(** An entry added behind a deleted last entry is not listed: the listing
    ends at the deleted one. *)
Theorem entry_behind_deleted_lost {D} `{BlockDeviceOk D} fs spb N B g (d : D) i es e name ino type :
  geometry fs spb N → wf_fs fs →
  dir_state fs spb N B g d i (encode_dir (es ++ [deleted e])) → Forall live es → wf_entry e →
  (1 ≤ length name ≤ 255)%nat → bytes name → fits 32 ino → fits 8 type →
  (length (encode_dir (es ++ [deleted e; new_entry name ino type])) ≤ 12 * block_size fs)%nat →
  wpe (i' ←? dir_add_entry fs i name ino type; read_dir_inode fs i')
    (λ r _, r = listing es) (disk_full fs spb N B) d.
Proof.
  intros G WF S Hes He Hn Hb Hi Ht Hl. apply wpe_try.
  change [deleted e; new_entry name ino type] with ([deleted e] ++ [new_entry name ino type]) in Hl.
  rewrite app_assoc, encode_dir_app, encode_dir_one in Hl.
  eapply wpe_mono; [apply (dir_add_bytes fs spb N G WF B g d i (es ++ [deleted e])); try done| |done].
  { apply Forall_app. split; [eapply Forall_impl; [exact Hes|]; by intros ? []|].
    constructor; [by apply wf_deleted|done]. }
  intros i' d1 (g' & Hv1 & Hd1).
  rewrite encode_dir_app, encode_dir_one, <- app_assoc in Hd1, Hl.
  eapply wpe_mono; [apply (read_dir_spec fs spb N G g' d1 i' es _ Hv1 Hd1 Hl Hes)| |done].
  - apply dead_deleted.
  - by intros r d2 [_ ->].
Qed.

(** The same seen from outside: "/d/a" is written and deleted; writing "/d/b"
    creates the file again and again, since it never finds it, until no inode
    is left. *)
Lemma write_after_delete_exhausts_inodes : value_of
  ((write_file image_fs 2 D_A [1; 2; 3] ?;; delete_file image_fs D_A ?;;
    write_file image_fs 20 D_B [4; 5; 6]) image) = Some (Err "no free bits in bitmap"%string).
Proof. vm_compute. reflexivity. Qed.

(** The directory "d" with a deleted entry "a". *)
Definition with_deleted : RamDisk := mkRamDisk
  (put_sectors (contents image) 16 2
    (block_image [(0%nat, encode_dir [named 3 DOT; named 2 DOTDOT; deleted (named 4 [97])])])) 128.
Lemma with_deleted_state : dir_state image_fs 2 64 3 (content 2 with_deleted) with_deleted
  (dir_image 36 8) (encode_dir ([named 3 DOT; named 2 DOTDOT] ++ [deleted (named 4 [97])])).
Proof.
  apply (example_dir_state with_deleted ([named 3 DOT; named 2 DOTDOT] ++ [deleted (named 4 [97])])).
  - done.
  - vm_compute. reflexivity.
  - vm_compute. reflexivity.
  - vm_compute. reflexivity.
  - refine (bool_decide_unpack _ _). by vm_compute.
Qed.

Lemma named_live n c : fits 32 n → n ≠ 0 → fits 8 c → live (named n [c]).
Proof. intros. apply live_new_entry; [cbn; lia|by apply Forall_singleton|done..]. Qed.
Lemma dots_live : Forall live [named 3 DOT; named 2 DOTDOT].
Proof.
  constructor; [by apply named_live|]. constructor; [|done].
  apply live_new_entry; [cbn; lia|by repeat constructor|done..].
Qed.

Lemma entry_behind_deleted_lost_witness : ∃ d',
  (i' ←? dir_add_entry image_fs (dir_image 36 8) [98] 5 FT_REG; read_dir_inode image_fs i') with_deleted
  = Done (Ok [], d').
Proof.
  assert (length (encode_dir ([named 3 DOT; named 2 DOTDOT] ++ [deleted (named 4 [97%Z]);
    new_entry [98%Z] 5 FT_REG])) ≤ 12 * block_size image_fs)%nat as Hlen
    by (refine (bool_decide_unpack _ _); by vm_compute).
  assert (bytes [98]) as Hb by by repeat constructor.
  assert (1 ≤ length [98%Z] ≤ 255)%nat as H1 by (cbn; lia).
  assert (fits 32 5 ∧ fits 8 FT_REG) as [F1 F2] by by vm_compute.
  assert (wf_entry (named 4 [97])) as He by (apply named_live; by vm_compute).
  pose proof (entry_behind_deleted_lost image_fs 2 64 3 (content 2 with_deleted) with_deleted
    (dir_image 36 8) [named 3 DOT; named 2 DOTDOT] (named 4 [97]) [98] 5 FT_REG
    image_geometry image_wf with_deleted_state dots_live He H1 Hb F1 F2 Hlen) as Hwp.
  assert (value_of ((i' ←? dir_add_entry image_fs (dir_image 36 8) [98] 5 FT_REG;
    read_dir_inode image_fs i') with_deleted) = Some (Ok [])) as V by (vm_compute; reflexivity).
  apply wp_inv in Hwp as (r & d' & E & _). exists d'. rewrite E in V |- *. by injection V as ->.
Defined.

(** C30: [free_block] clears the bit of the block behind the one it is given,
    whose own bit stays set. *)
Theorem free_block_frees_neighbour {D} `{BlockDeviceOk D} fs spb N B g (d : D) p :
  geometry fs spb N → wf_fs fs → view spb N g d → fs_meta fs N B g → 1 ≤ p < N →
  bit_at (g B) (p - 1) = true →
  wpe (free_block fs p)
    (λ _ d', ∃ g', view spb N g' d' ∧ bit_at (g' B) (p - 1) = true ∧ bit_at (g' B) p = false)
    (λ _, False) d.
Proof.
  intros G WF Hv F Hp Hbit. eapply (wpe_free_block fs spb N G WF B g); [done..|lia|].
  intros d' Hv'. eexists. split; [exact Hv'|]. rewrite !fn_lookup_insert.
  pose proof (fs_one_group _ _ _ _ F). destruct (view_block fs spb N G g d B Hv) as [Hl _]; [apply F|].
  rewrite !bit_at_clear by lia. rewrite decide_False, decide_True by lia. done.
Qed.

(** From outside: after "/d/a" is deleted, writing "/d/c" overwrites "/d/b". *)
Lemma free_block_frees_neighbour_witness :
  (∃ d', free_block image_fs 8 image = Done (Ok tt, d')) ∧
  value_of ((write_file image_fs 2 D_A [1; 2; 3] ?;; write_file image_fs 2 D_B [4; 5; 6] ?;;
    before ←? read_file image_fs D_B;
    delete_file image_fs D_A ?;; write_file image_fs 2 D_C [7; 8; 9] ?;;
    after ←? read_file image_fs D_B; ok (before, after)) image)
  = Some (Ok ([4; 5; 6], [7; 8; 9])).
Proof.
  split; [|vm_compute; reflexivity].
  assert (bit_at (content 2 image 3) (8 - 1) = true) as Hbit by (vm_compute; reflexivity).
  pose proof (free_block_frees_neighbour image_fs 2 64 3 (content 2 image) image 8 image_geometry
    image_wf image_view (fs_has_meta _ _ _ _ image_ok) ltac:(lia) Hbit) as Hwp.
  apply wp_inv in Hwp as (r & d' & E & Hr). destruct r as [[]|]; [|destruct Hr]. exists d'. exact E.
Defined.

(** ** The size of inodes *)

(** On a disk in the format of ext2, with inodes of 128 bytes and the first
    one, which is reserved, empty, the driver finds no root directory: every
    path is reported as not a directory. *)
Theorem ext2_root_not_found {D} `{BlockDeviceOk D} fs spb N g (d : D) path :
  geometry fs spb N → wf_fs fs → view spb N g d → 0 ≤ bg_desc_table_block fs < N →
  1 < inodes_per_group fs < 2 ^ 32 →
  let table := inode_table (decode_bg (take BG_SIZE (g (bg_desc_table_block fs)))) in
  0 ≤ table < N → take 128 (g table) = replicate 128 0 →
  wp (list_dir fs path) (λ r _, r = Err "not a directory"%string) d.
Proof.
  intros G WF Hv HT Hipg table Htab Hzero.
  assert (∀ buf, length buf = block_size fs →
    wpe (read_inode fs 2 buf) (λ '(i, buf) _, is_dir i = false ∧ length buf = block_size fs)
      (λ _, False) d) as Hroot.
  { intros buf Hbuf. pose proof (geo_bounds fs spb N G).
    destruct (per_block fs WF INODE_SIZE) as (E & Hpos & Hle); [unfold INODE_SIZE; lia..|].
    unfold read_inode, inode_position. apply wpe_try.
    change (wsub 32 2 1) with 1. apply wpe_lift. rewrite udiv_done by lia. cbn [runs].
    apply wpe_lift. rewrite urem_done by lia. cbn [runs].
    rewrite Z.div_small, Z.mod_small by lia. apply wpe_try.
    eapply (wpe_read_bg fs spb N G WF g d); [done..|]. intros d1 Hv1.
    apply wpe_lift. rewrite ndiv_done by (unfold INODE_SIZE; lia). cbn [runs]. rewrite E.
    assert (2 ≤ block_size fs / INODE_SIZE)%nat by (unfold INODE_SIZE in *; apply Nat.div_le_lower_bound; lia).
    apply wpe_lift. rewrite udiv_done by lia. cbn [runs].
    apply wpe_lift. rewrite urem_done by lia. cbn [runs].
    rewrite Z.div_small, Z.mod_small by lia. apply wpe_ok. fold table.
    pose proof (geo_N _ _ _ G). pose proof (geo_spb _ _ _ G).
    unfold wadd. rewrite Z.add_0_r, wrap_id by (pow2; nia).
    apply wpe_try. destruct (view_block fs spb N G g d _ Hv HT) as [HlT _].
    eapply (wpe_read_block fs spb N G g d1); [done..|]. intros d2 Hv2.
    destruct (view_block fs spb N G g d _ Hv Htab) as [Hlt _].
    apply wpe_lift. rewrite peek_done by (rewrite Hlt; unfold INODE_SIZE; lia). cbn [runs].
    apply wpe_ok. split; [|done]. unfold is_dir, decode_inode. cbn [mode].
    assert (le_at 0 2 (take INODE_SIZE (drop (Z.to_nat 1 * INODE_SIZE) (g table))) = 0) as ->; [|done].
    unfold le_at. rewrite drop_0, take_take. change (Z.to_nat 1 * INODE_SIZE)%nat with 116%nat.
    change (2 `min` INODE_SIZE)%nat with 2%nat.
    assert (take 2 (drop 116 (g table)) = take 2 (drop 116 (take 128 (g table)))) as ->.
    { rewrite skipn_firstn_comm, take_take. done. }
    by rewrite Hzero. }
  assert (∀ cs ino i buf d', is_dir i = false → wp (walk_from fs cs ino i buf)
    (λ r _, match r with Ok (_, i, _, _) => is_dir i = false | Err e => e = "not a directory"%string end)
    d') as Hwalk.
  { intros cs ino i buf d' Hi. induction cs as [|c cs IH]; [done|].
    cbn [walk_from]. case_decide; [apply IH|]. by rewrite Hi. }
  unfold list_dir, walk. apply wp_bind.
  eapply (wp_mono _ (λ r _, match r with Ok (_, i, _, _) => is_dir i = false
    | Err e => e = "not a directory"%string end)).
  - apply wp_bind. eapply wp_mono; [apply Hroot, length_replicate|].
    intros [[i buf]|e] d' Hi; [|done]. destruct Hi as [Hi _]. case_decide; [done|]. by apply Hwalk.
  - intros [[[[ino i] ft] buf]|e] d' Hi; [|by rewrite Hi]. by rewrite Hi.
Qed.

(** The small disk in the format of ext2: the root inode at byte 128. *)
Definition ext2_image : RamDisk := disk_image
  (block_image [(128%nat, encode_inode (dir_image 36 7)); (256%nat, encode_inode (dir_image 24 8))]).
Lemma ext2_root_not_found_witness :
  take 116 (drop 128 (content 2 ext2_image 5)) = encode_inode (dir_image 36 7) ∧
  wp (list_dir image_fs SLASH) (λ r _, r = Err "not a directory"%string) ext2_image.
Proof.
  split; [vm_compute; reflexivity|].
  refine (ext2_root_not_found image_fs 2 64 (content 2 ext2_image) ext2_image SLASH image_geometry
    image_wf _ _ _ _ _).
  - split; [done|]. split; [by vm_compute|done].
  - by vm_compute.
  - by vm_compute.
  - by vm_compute.
  - vm_compute. reflexivity.
Defined.
