(* ===== verification/Vfs.v ===== *)
(** * The file system interface (src/src/fs/vfs.rs) and ext3 behind it

    The trait [FileSystem] is a class over the state its implementations work
    on; [FlatStore] is what a client may rely on of an implementation that
    keeps a flat set of named files: it behaves like a finite map. *)
From stdpp Require Import strings sorting.
From S2P Require Import Prelude Words Disk Str Ext3.
Local Open Scope Z_scope.
Local Open Scope list_scope.

Inductive FsError := NotFound | Exists | InvalidName | Io.
#[export] Instance FsError_eq_dec : EqDecision FsError.
Proof. solve_decision. Defined.

Definition FsError_fmt (e : FsError) : string :=
  match e with
  | NotFound => "not found"
  | Exists => "already exists"
  | InvalidName => "invalid name"
  | Io => "I/O error"
  end.

Class FileSystem (S : Type) := {
  fs_read : str → ST S (result (list Z) FsError);
  fs_write : str → list Z → ST S (result unit FsError);
  fs_create : str → ST S (result unit FsError);
  fs_delete : str → ST S (result unit FsError);
  fs_list : ST S (list (str * nat));
}.

(** ** The laws of a flat store *)

(** [files] is the map a state stands for, [key] the name a path stands for. *)
Class FlatStore (S : Type) `{FileSystem S} := {
  key : str → option str;
  files : S → gmap str (list Z);
  store_ok : S → Prop;
  read_law p s : store_ok s → wp (fs_read p) (λ r s', store_ok s' ∧ files s' = files s ∧
    r = match key p with
        | None => Err InvalidName
        | Some k => match files s !! k with Some data => Ok data | None => Err NotFound end
        end) s;
  write_law p data s : store_ok s → wp (fs_write p data) (λ r s', store_ok s' ∧
    match key p with
    | None => r = Err InvalidName ∧ files s' = files s
    | Some k => r = Ok tt ∧ files s' = <[k := data]> (files s)
    end) s;
  create_law p s : store_ok s → wp (fs_create p) (λ r s', store_ok s' ∧
    match key p with
    | None => r = Err InvalidName ∧ files s' = files s
    | Some k => match files s !! k with
        | Some _ => r = Err Exists ∧ files s' = files s
        | None => r = Ok tt ∧ files s' = <[k := []]> (files s)
        end
    end) s;
  delete_law p s : store_ok s → wp (fs_delete p) (λ r s', store_ok s' ∧
    match key p with
    | None => r = Err InvalidName ∧ files s' = files s
    | Some k => match files s !! k with
        | Some _ => r = Ok tt ∧ files s' = delete k (files s)
        | None => r = Err NotFound ∧ files s' = files s
        end
    end) s;
  list_law s : store_ok s → wp fs_list (λ l s', s' = s ∧
    StronglySorted (λ a b, str_lt a.1 b.1 = true) l ∧
    list_to_map l = length <$> files s) s;
}.

(** ** Clients *)

(** A command on a file system, and the answer to it. *)
Inductive command := Read (p : str) | Write (p : str) (data : list Z) | Create (p : str)
  | Delete (p : str) | List.
Inductive answer := Data (r : result (list Z) FsError) | Status (r : result unit FsError)
  | Names (l : list (str * nat)).

Definition execute {S} `{FileSystem S} (c : command) : ST S answer :=
  match c with
  | Read p => r ← fs_read p; mret (Data r)
  | Write p data => r ← fs_write p data; mret (Status r)
  | Create p => r ← fs_create p; mret (Status r)
  | Delete p => r ← fs_delete p; mret (Status r)
  | List => l ← fs_list; mret (Names l)
  end.
Fixpoint execute_all {S} `{FileSystem S} (cs : list command) : ST S (list answer) :=
  match cs with
  | [] => mret []
  | c :: cs => a ← execute c; rest ← execute_all cs; mret (a :: rest)
  end.

(** The same on a finite map, [key] naming the files: the answer is determined,
    and a listing is sorted and complete. *)
Definition map_step (key : str → option str) (m : gmap str (list Z)) (c : command)
    (m' : gmap str (list Z)) (a : answer) : Prop :=
  match c with
  | Read p => m' = m ∧ a = Data (match key p with
      | None => Err InvalidName
      | Some k => match m !! k with Some data => Ok data | None => Err NotFound end end)
  | Write p data => match key p with
      | None => m' = m ∧ a = Status (Err InvalidName)
      | Some k => m' = <[k := data]> m ∧ a = Status (Ok tt) end
  | Create p => match key p with
      | None => m' = m ∧ a = Status (Err InvalidName)
      | Some k => match m !! k with
          | Some _ => m' = m ∧ a = Status (Err Exists)
          | None => m' = <[k := []]> m ∧ a = Status (Ok tt) end end
  | Delete p => match key p with
      | None => m' = m ∧ a = Status (Err InvalidName)
      | Some k => match m !! k with
          | Some _ => m' = delete k m ∧ a = Status (Ok tt)
          | None => m' = m ∧ a = Status (Err NotFound) end end
  | List => m' = m ∧ ∃ l, a = Names l ∧ StronglySorted (λ a b, str_lt a.1 b.1 = true) l ∧
      list_to_map l = length <$> m
  end.
Inductive map_steps (key : str → option str) :
    gmap str (list Z) → list command → list answer → gmap str (list Z) → Prop :=
  | steps_nil m : map_steps key m [] [] m
  | steps_cons m c m1 a cs as_ m2 : map_step key m c m1 a → map_steps key m1 cs as_ m2 →
      map_steps key m (c :: cs) (a :: as_) m2.

Section clients.
Context {S : Type} `{FlatStore S}.
Implicit Types (s : S).

Lemma execute_refines c s : store_ok s →
  wp (execute c) (λ a s', store_ok s' ∧ map_step key (files s) c (files s') a) s.
Proof.
  intros Hs. destruct c as [p|p data|p|p|]; apply wp_bind.
  - eapply wp_mono; [by apply read_law|]. intros r s' (? & ? & ->). by apply wp_ret.
  - eapply wp_mono; [by apply write_law|]. intros r s' [? Hr]. apply wp_ret. split; [done|].
    cbn. destruct (key p); by destruct Hr as [-> ->].
  - eapply wp_mono; [by apply create_law|]. intros r s' [? Hr]. apply wp_ret. split; [done|].
    cbn. destruct (key p) as [k|]; [destruct (files s !! k)|]; by destruct Hr as [-> ->].
  - eapply wp_mono; [by apply delete_law|]. intros r s' [? Hr]. apply wp_ret. split; [done|].
    cbn. destruct (key p) as [k|]; [destruct (files s !! k)|]; by destruct Hr as [-> ->].
  - eapply wp_mono; [by apply list_law|]. intros l s' (-> & ? & ?). apply wp_ret. split; [done|].
    cbn. split; [done|]. eauto.
Qed.

Lemma execute_all_refines cs s : store_ok s →
  wp (execute_all cs) (λ as_ s', store_ok s' ∧ map_steps key (files s) cs as_ (files s')) s.
Proof.
  revert s. induction cs as [|c cs IH]; intros s Hs; cbn [execute_all].
  { apply wp_ret. split; [done|constructor]. }
  apply wp_bind. eapply wp_mono; [by apply execute_refines|]. intros a s1 [Hs1 Ha].
  apply wp_bind. eapply wp_mono; [by apply IH|]. intros as_ s2 [Hs2 Hr].
  apply wp_ret. split; [done|]. by econstructor.
Qed.
End clients.

(** ** [impl FileSystem for Ext3Fs] *)

Section ext3.
Context {D : Type} `{BlockDevice D} (fs : Ext3Fs).

Definition ext3_read (path : str) : ST D (result (list Z) FsError) :=
  '(_, i, ft, _) ←? map_err (λ _, NotFound) (walk fs 2 path (zeroed fs));
  if decide (ft = FT_DIR) then err NotFound
  else map_err (λ _, Io) (read_file_inode fs i).
Definition ext3_list : ST D (list (str * nat)) :=
  r ← read_inode fs 2 (zeroed fs);
  match r with
  | Err _ => mret []
  | Ok (root_inode, _) =>
      r ← read_dir_inode fs root_inode;
      match r with
      | Err _ => mret []
      | Ok entries =>
          mret ((λ '(name, _, ft), (name ++ (if decide (ft = FT_DIR) then SLASH else []), O)) <$> entries)
      end
  end.

(** [fuel] is the one of [write_file]. *)
Definition ext3_file_system (fuel : nat) : FileSystem D := {|
  fs_read := ext3_read;
  fs_write path data := map_err (λ _, Io) (write_file fs fuel path data);
  fs_create path := map_err (λ _, Io) (create_file fs path);
  fs_delete path := map_err (λ _, Io) (delete_file fs path);
  fs_list := ext3_list;
|}.
End ext3.
