(* ===== verification/Ramfs.v ===== *)
(** * The file system in memory (src/src/fs/ramfs.rs)

    A [BTreeMap] from names to contents, as a sorted association list; it is
    the [FlatStore] of the interface. *)
From stdpp Require Import sorting.
From S2P Require Import Prelude Words Disk Str Vfs.
Local Open Scope Z_scope.
Local Open Scope list_scope.

(** ** [BTreeMap<String, V>] *)

Section btree.
Context {V : Type}.
Implicit Types (m : list (str * V)).

Fixpoint bt_get (k : str) m : option V :=
  match m with
  | [] => None
  | (k', v) :: m => if decide (k = k') then Some v else bt_get k m
  end.
Fixpoint bt_insert (k : str) (v : V) m : list (str * V) :=
  match m with
  | [] => [(k, v)]
  | (k', v') :: m' =>
      if decide (k = k') then (k, v) :: m'
      else if str_lt k k' then (k, v) :: m
      else (k', v') :: bt_insert k v m'
  end.
Fixpoint bt_remove (k : str) m : list (str * V) :=
  match m with
  | [] => []
  | (k', v') :: m => if decide (k = k') then m else (k', v') :: bt_remove k m
  end.

Definition sorted m : Prop := StronglySorted (λ a b, str_lt a.1 b.1 = true) m.

Lemma bt_get_map k m : bt_get k m = (list_to_map m : gmap str V) !! k.
Proof.
  induction m as [|[k' v] m IH]; cbn; [done|]. case_decide as E.
  - subst. by rewrite lookup_insert_eq.
  - by rewrite lookup_insert_ne.
Qed.

Lemma bt_insert_keys k v m a : a ∈ (bt_insert k v m).*1 → a = k ∨ a ∈ m.*1.
Proof.
  induction m as [|[k' v'] m IH]; cbn; [set_solver|].
  case_decide; [set_solver|]. case_match; set_solver.
Qed.

Lemma sorted_keys k v m : sorted ((k, v) :: m) ↔ (∀ a, a ∈ m.*1 → str_lt k a = true) ∧ sorted m.
Proof.
  unfold sorted. split.
  - intros [Hs Hf]%StronglySorted_inv. split; [|done]. intros a (x & -> & Hx)%list_elem_of_fmap.
    rewrite Forall_forall in Hf. by apply Hf.
  - intros [Hf Hs]. constructor; [done|]. apply Forall_forall. intros x Hx. apply Hf.
    apply list_elem_of_fmap. eauto.
Qed.

Lemma sorted_not_in k v m : sorted ((k, v) :: m) → k ∉ m.*1.
Proof. intros [Hf _]%sorted_keys Hin. specialize (Hf k Hin). by rewrite str_lt_irrefl in Hf. Qed.

Lemma bt_insert_sorted k v m : sorted m → sorted (bt_insert k v m).
Proof.
  induction m as [|[k' v'] m IH]; intros Hs; cbn; [by repeat constructor|].
  pose proof Hs as [Hf Hs']%sorted_keys. case_decide as E.
  { subst. by apply sorted_keys. }
  case_match eqn:Hlt.
  - apply sorted_keys. split; [|done]. intros a Ha. cbn in Ha.
    apply elem_of_cons in Ha as [->|Ha]; [done|]. eapply str_lt_trans; [done|by apply Hf].
  - apply sorted_keys. split; [|by apply IH]. intros a [->|Ha]%bt_insert_keys; [|by apply Hf].
    by destruct (str_lt_total k k') as [?|[?|?]]; congruence.
Qed.

Lemma bt_insert_map k v m :
  (list_to_map (bt_insert k v m) : gmap str V) = <[k := v]> (list_to_map m).
Proof.
  induction m as [|[k' v'] m IH]; cbn; [done|]. case_decide as E.
  - subst. cbn. by rewrite insert_insert_eq.
  - case_match; cbn; [done|]. rewrite IH. by rewrite insert_insert_ne.
Qed.

Lemma bt_remove_keys k m a : a ∈ (bt_remove k m).*1 → a ∈ m.*1.
Proof. induction m as [|[k' v'] m IH]; cbn; [done|]. case_decide; set_solver. Qed.

Lemma bt_remove_sorted k m : sorted m → sorted (bt_remove k m).
Proof.
  induction m as [|[k' v'] m IH]; intros Hs; cbn; [done|].
  apply sorted_keys in Hs as [Hf Hs]. case_decide; [done|]. apply sorted_keys.
  split; [|by apply IH]. intros a Ha%bt_remove_keys. by apply Hf.
Qed.

Lemma bt_remove_map k m : sorted m →
  (list_to_map (bt_remove k m) : gmap str V) = delete k (list_to_map m).
Proof.
  induction m as [|[k' v'] m IH]; intros Hs; cbn; [by rewrite delete_empty|].
  pose proof (sorted_not_in _ _ _ Hs) as Hni. apply sorted_keys in Hs as [Hf Hs]. case_decide as E.
  - subst. rewrite delete_insert_id; [done|]. by apply not_elem_of_list_to_map_1.
  - cbn. rewrite IH by done. by rewrite delete_insert_ne.
Qed.
End btree.

(** ** The file system *)

Record RamFs := mkRamFs { file_tree : list (str * list Z) }.

Definition contains (c : Z) (s : str) : bool := existsb (Z.eqb c) s.
Definition normalize (path : str) : result str FsError :=
  let path := trim path in
  if bool_decide (path = []) || contains 47 path || contains 92 path then Err InvalidName
  else Ok path.

Definition Ramfs_read (path : str) : ST RamFs (result (list Z) FsError) :=
  k ←? mret (normalize path);
  s ← get; mret (match bt_get k (file_tree s) with Some data => Ok data | None => Err NotFound end).
Definition Ramfs_write (path : str) (data : list Z) : ST RamFs (result unit FsError) :=
  k ←? mret (normalize path);
  modify (λ s, mkRamFs (bt_insert k data (file_tree s)));; ok tt.
Definition Ramfs_create (path : str) : ST RamFs (result unit FsError) :=
  k ←? mret (normalize path);
  s ← get;
  match bt_get k (file_tree s) with
  | Some _ => err Exists
  | None => modify (λ s, mkRamFs (bt_insert k [] (file_tree s)));; ok tt
  end.
Definition Ramfs_delete (path : str) : ST RamFs (result unit FsError) :=
  k ←? mret (normalize path);
  s ← get;
  match bt_get k (file_tree s) with
  | Some _ => modify (λ s, mkRamFs (bt_remove k (file_tree s)));; ok tt
  | None => err NotFound
  end.
Definition Ramfs_list : ST RamFs (list (str * nat)) :=
  s ← get; mret ((λ '(k, v), (k, length v)) <$> file_tree s).

#[export] Instance ram_file_system : FileSystem RamFs := {
  fs_read := Ramfs_read; fs_write := Ramfs_write; fs_create := Ramfs_create;
  fs_delete := Ramfs_delete; fs_list := Ramfs_list;
}.
(** [RAMFS] at boot. *)
Definition RAMFS : RamFs := mkRamFs [].

(** ** It is a flat store *)

Definition ram_key (path : str) : option str :=
  match normalize path with Ok k => Some k | Err _ => None end.
Definition ram_files (s : RamFs) : gmap str (list Z) := list_to_map (file_tree s).

Lemma normalize_key p : normalize p = match ram_key p with Some k => Ok k | None => Err InvalidName end.
Proof. unfold ram_key, normalize. by destruct (_ || _ || _). Qed.

Lemma bt_get_files k s : bt_get k (file_tree s) = ram_files s !! k.
Proof. apply bt_get_map. Qed.

Lemma sorted_lengths (m : list (str * list Z)) : sorted m → sorted ((λ '(k, v), (k, length v)) <$> m).
Proof.
  induction m as [|[k v] m IH]; intros Hs; [constructor|].
  apply sorted_keys in Hs as [Hf Hs]. cbn. apply sorted_keys. split; [|by apply IH].
  intros a Ha. apply Hf. rewrite <- list_fmap_compose in Ha.
  erewrite list_fmap_ext in Ha; [exact Ha|]. by intros ? [].
Qed.

Lemma lengths_map (m : list (str * list Z)) :
  (list_to_map ((λ '(k, v), (k, length v)) <$> m) : gmap str nat) = length <$> (list_to_map m : gmap str (list Z)).
Proof.
  induction m as [|[k v] m IH]; cbn; [by rewrite fmap_empty|]. by rewrite fmap_insert, <- IH.
Qed.

#[export, refine] Instance ram_flat_store : FlatStore RamFs := {
  key := ram_key; files := ram_files; store_ok s := sorted (file_tree s);
}.
Proof.
  - intros p s Hs. cbn [fs_read ram_file_system]. unfold Ramfs_read. rewrite normalize_key.
    destruct (ram_key p) as [k|]; [|done]. rewrite <- bt_get_files. by repeat split.
  - intros p data s Hs. cbn [fs_write ram_file_system]. unfold Ramfs_write. rewrite normalize_key.
    destruct (ram_key p) as [k|]; [|done]. split; [by apply bt_insert_sorted|].
    split; [done|]. apply bt_insert_map.
  - intros p s Hs. cbn [fs_create ram_file_system]. unfold Ramfs_create. rewrite normalize_key.
    destruct (ram_key p) as [k|]; [|done]. rewrite <- bt_get_files.
    apply wp_bind, wp_ret, wp_bind. unfold get, wp. destruct (bt_get k (file_tree s)); [done|].
    split; [by apply bt_insert_sorted|]. split; [done|]. apply bt_insert_map.
  - intros p s Hs. cbn [fs_delete ram_file_system]. unfold Ramfs_delete. rewrite normalize_key.
    destruct (ram_key p) as [k|]; [|done]. rewrite <- bt_get_files.
    apply wp_bind, wp_ret, wp_bind. unfold get, wp. destruct (bt_get k (file_tree s)); [|done].
    split; [by apply bt_remove_sorted|]. split; [done|]. by apply bt_remove_map.
  - intros s Hs. split; [done|]. split; [by apply sorted_lengths|]. apply lengths_map.
Defined.

(** The laws, for the functions of the module. *)
Section laws.
Context (s : RamFs) (Hs : sorted (file_tree s)).

Lemma Ramfs_read_ok p : wp (Ramfs_read p) (λ r s', sorted (file_tree s') ∧ ram_files s' = ram_files s ∧
  r = match ram_key p with
      | None => Err InvalidName
      | Some k => match ram_files s !! k with Some data => Ok data | None => Err NotFound end
      end) s.
Proof. exact (read_law p s Hs). Qed.

Lemma Ramfs_write_ok p data : wp (Ramfs_write p data) (λ r s', sorted (file_tree s') ∧
  match ram_key p with
  | None => r = Err InvalidName ∧ ram_files s' = ram_files s
  | Some k => r = Ok tt ∧ ram_files s' = <[k := data]> (ram_files s)
  end) s.
Proof. exact (write_law p data s Hs). Qed.

Lemma Ramfs_create_ok p : wp (Ramfs_create p) (λ r s', sorted (file_tree s') ∧
  match ram_key p with
  | None => r = Err InvalidName ∧ ram_files s' = ram_files s
  | Some k => match ram_files s !! k with
      | Some _ => r = Err Exists ∧ ram_files s' = ram_files s
      | None => r = Ok tt ∧ ram_files s' = <[k := []]> (ram_files s)
      end
  end) s.
Proof. exact (create_law p s Hs). Qed.

Lemma Ramfs_delete_ok p : wp (Ramfs_delete p) (λ r s', sorted (file_tree s') ∧
  match ram_key p with
  | None => r = Err InvalidName ∧ ram_files s' = ram_files s
  | Some k => match ram_files s !! k with
      | Some _ => r = Ok tt ∧ ram_files s' = delete k (ram_files s)
      | None => r = Err NotFound ∧ ram_files s' = ram_files s
      end
  end) s.
Proof. exact (delete_law p s Hs). Qed.

Lemma Ramfs_list_ok : wp Ramfs_list (λ l s', s' = s ∧
  StronglySorted (λ a b, str_lt a.1 b.1 = true) l ∧ list_to_map l = length <$> ram_files s) s.
Proof. exact (list_law s Hs). Qed.
End laws.

(** C15: from the empty store at boot, every sequence of operations answers as a
    finite map of names to contents would: paths name files by their trimmed
    text, which must be non-empty and without slashes; reads return what was
    written last; listings are complete, sorted, with the right lengths; and no
    operation panics. *)
Theorem ramfs_is_a_map (cs : list command) :
  wp (execute_all cs) (λ answers s, map_steps ram_key ∅ cs answers (ram_files s)) RAMFS.
Proof.
  eapply wp_mono; [apply execute_all_refines; constructor|]. intros answers s [_ Hs]. exact Hs.
Qed.

(** Two files, one of them with blanks around its name. *)
Example ramfs_session :
  match execute_all [Write [98] [1; 2]; Create [32; 97; 0xC2; 0xA0]; Read [98]; Create [97];
    Read [97; 47; 98]; List; Delete [98]; Read [98]] RAMFS with
  | Done (answers, _) => answers = [Status (Ok tt); Status (Ok tt); Data (Ok [1; 2]);
      Status (Err Exists); Data (Err InvalidName); Names [([97], 0%nat); ([98], 2%nat)];
      Status (Ok tt); Data (Err NotFound)]
  | _ => False
  end.
Proof. vm_compute. reflexivity. Qed.
