(* ===== verification/Net.v ===== *)
(** * Network interface layer (src/src/drivers/net/mod.rs)

    The active card's status and the IP configuration, and the dispatch of
    [send] and [poll_rx] to the card.  The card itself is a [Nic]. *)
From S2P Require Import Prelude Words Hardware Pci.
Local Open Scope Z_scope.

Inductive NicKind : Type := NicNone | E1000 | Rtl8139.
#[export] Instance NicKind_eq_dec : EqDecision NicKind.
Proof. solve_decision. Defined.

Record NetStatus := mkStatus {
  kind : NicKind; link_up : bool; mac : list Z; pci : option PciDevice }.

Record NetConfig := mkConfig {
  ip : list Z; subnet : list Z; gateway : list Z; dns : list Z }.

(** The statics [NET_CFG] and [NET], and the machine. *)
Record NetState (D : Type) := mkNet {
  NET_CFG : option NetConfig; NET : NetStatus; dev : D }.
Arguments mkNet {D}.
Arguments NET_CFG {D}.
Arguments NET {D}.
Arguments dev {D}.

Section ops.
Context {D : Type} `{Nic D}.
Abbreviation N := (ST (NetState D)).

Definition on_dev {A} (m : ST D A) : N A :=
  zoom dev (λ d s, mkNet (NET_CFG s) (NET s) d) m.

Definition set_config (cfg : NetConfig) : N unit :=
  modify (λ s, mkNet (Some cfg) (NET s) (dev s)).
Definition get_config : N (option NetConfig) := gets NET_CFG.
Definition status : N NetStatus := gets NET.

Definition send (frame : list Z) : N (result unit unit) :=
  st ← status;
  match kind st with
  | Rtl8139 => on_dev (nic_send frame)
  | _ => mret (Err tt)
  end.

Definition poll_rx : N (option (list Z)) :=
  st ← status;
  match kind st with
  | Rtl8139 => on_dev nic_poll_rx
  | _ => mret None
  end.

Definition now : N Z := on_dev millis.
End ops.

(** [timer::elapsed] *)
Definition elapsed {D} `{Nic D} : ST D (Z * Z) :=
  ms ← millis; mret (ms / 1000, ms mod 1000).

Section props.
Context {D : Type} `{NicOk D}.

Definition frames (s : NetState D) : list (list Z) := sent (dev s).

(** [send] appends the frame to what the card has sent, or fails and sends
    nothing; without a driver it always fails. *)
Lemma send_wp f s :
  wp (send f) (λ r s', NET_CFG s' = NET_CFG s ∧ NET s' = NET s ∧
    frames s' = match r with Ok _ => frames s ++ [f] | Err _ => frames s end ∧
    (kind (NET s) ≠ Rtl8139 → r = Err tt)) s.
Proof.
  unfold send. apply wp_bind, wp_gets. destruct (kind (NET s)) eqn:Hk;
    [by apply wp_ret..|].
  apply wp_zoom. eapply wp_mono; [apply nic_send_ok|]. intros r d Hd. simpl.
  split_and!; [done..|exact Hd|done].
Qed.

Lemma poll_rx_wp s :
  wp poll_rx (λ r s', NET_CFG s' = NET_CFG s ∧ NET s' = NET s ∧
    frames s' = frames s ∧ match r with Some f => bytes f | None => True end) s.
Proof.
  unfold poll_rx. apply wp_bind, wp_gets. destruct (kind (NET s));
    [by apply wp_ret..|].
  apply wp_zoom. eapply wp_mono; [apply nic_poll_rx_ok|]. intros r d [Hd Hr]. done.
Qed.

Lemma now_wp s :
  wp now (λ t s', NET_CFG s' = NET_CFG s ∧ NET s' = NET s ∧
    frames s' = frames s ∧ fits 32 t) s.
Proof.
  apply wp_zoom. eapply wp_mono; [apply millis_ok|]. intros t d [Hd Ht]. done.
Qed.
End props.
