(* ===== verification/Rtl8139.v ===== *)
(** * The network card driver (src/src/drivers/net/rtl8139.rs)

    The RTL8139 behind the ports, with the buffers it shares with the driver.
    The driver implements the [Nic] interface the protocols are written
    against; Main.v composes its initialisation and chooses the driver. *)
From stdpp Require Import strings.
From S2P Require Import Prelude Words Hardware Pci Net.
Local Open Scope Z_scope.
Local Open Scope list_scope.

Definition CR : Z := 0x37.
Definition CAPR : Z := 0x38.
Definition CBR : Z := 0x3A.
Definition IMR : Z := 0x3C.
Definition ISR : Z := 0x3E.
Definition TCR : Z := 0x40.
Definition RCR : Z := 0x44.
(** [TSD0] to [TSD3] and [TSAD0] to [TSAD3]: the match on the descriptor. *)
Definition TSD (desc : nat) : Z := match desc with 0%nat => 0x10 | 1%nat => 0x14 | 2%nat => 0x18 | _ => 0x1C end.
Definition TSAD (desc : nat) : Z := match desc with 0%nat => 0x20 | 1%nat => 0x24 | 2%nat => 0x28 | _ => 0x2C end.
Definition RBSTART : Z := 0x30.
Definition TPOLL : Z := 0xD9.
Definition CR_RST : Z := 0x10.
Definition CR_RE : Z := 0x08.
Definition CR_TE : Z := 0x04.
Definition RX_BUF_SIZE : Z := 8192 + 16.

(** [INITIALIZED], [IO_BASE] and [TX_DESC]. *)
Record Rtl := mkRtl { INITIALIZED : bool; IO_BASE : Z; TX_DESC : Z }.

(** [RX_BUF] and [TX_BUFS], which the card accesses, too, and their addresses.
    [tx_fuel] bounds the polls of a transmission. *)
Class NicMemory (D : Type) := {
  rx_byte : Z → ST D Z;
  tx_fill : nat → list Z → ST D unit;
  rx_addr : Z;
  tx_addr : nat → Z;
  tx_fuel : nat;
  nic_io : Z;      (* where the card answers *)
}.

(** Registers addressed relative to an I/O base; these need no driver state. *)
Section registers.
Context {D : Type} `{Ports D}.

Definition reg (io offset : Z) : Z := wadd 16 io offset.

Definition set_loopback (io : Z) (on : bool) : ST D unit :=
  tcr ← inl (reg io TCR);
  outl (reg io TCR) (if on then Z.lor (Z.land tcr (wnot 32 0x300)) 0x100
    else Z.lor (Z.land tcr (wnot 32 0x300)) 0x000000E0).

(** [net::rx_ring_pos] for this card. *)
Definition ring_position (io : Z) : ST D (Z * Z) :=
  capr ← inw (wadd 16 io 0x38); cbr ← inw (wadd 16 io 0x3A); mret (capr, cbr).

(** The software reset; [fuel] bounds the polls. *)
Fixpoint wait_reset (fuel : nat) (io : Z) : ST D unit :=
  match fuel with
  | O => diverge
  | S fuel => v ← inb (reg io CR); if decide (Z.land v CR_RST ≠ 0) then wait_reset fuel io else mret tt
  end.
Definition read_mac (io : Z) : ST D (list Z) :=
  mac_low ← inl io; mac_high ← inw (reg io 0x04);
  mret [wrap 8 mac_low; wrap 8 (Z.shiftr mac_low 8); wrap 8 (Z.shiftr mac_low 16);
        wrap 8 (Z.shiftr mac_low 24); wrap 8 mac_high; wrap 8 (Z.shiftr mac_high 8)].
End registers.

Section driver.
Context {D : Type} `{Ports D} `{Timer D} `{NicMemory D}.
Abbreviation R := (ST (Rtl * D)).

Definition on_hw {A} (m : ST D A) : R A := zoom snd (λ d s, (s.1, d)) m.
Definition vars : R Rtl := gets fst.
Definition set_vars (f : Rtl → Rtl) : R unit := modify (λ s, (f s.1, s.2)).

(** The parts of [init] between its accesses to the variables and its log lines. *)
Definition reset_card (fuel : nat) (io : Z) : ST D (list Z) :=
  outb (reg io CR) CR_RST;; wait_reset fuel io;; read_mac io.
Definition start_card (io : Z) : ST D unit :=
  outl (reg io RBSTART) (wrap 32 rx_addr);;
  outw (reg io IMR) 0x0005;;
  outl (reg io RCR) 0x00000F0F;;
  outl (reg io TCR) 0x000000E0;;
  outb (reg io CR) (Z.lor CR_TE CR_RE);;
  outw (reg io ISR) 0xFFFF.
Definition acknowledge (io : Z) : ST D unit := cbr ← inw (reg io CBR); outw (reg io CAPR) cbr.

(** The loop that waits for the end of a transmission. *)
Fixpoint wait_tx (fuel : nat) (io : Z) (desc : nat) (deadline : Z) : ST D (result unit unit) :=
  match fuel with
  | O => diverge
  | S fuel =>
      status ← inl (reg io (TSD desc));
      if decide (Z.land status 0x8000 ≠ 0) then mret (Ok tt)
      else if decide (Z.land status 0x00400000 ≠ 0) then mret (Err tt)
      else t ← millis;
        if decide (deadline ≤ t) then mret (Err tt) else wait_tx fuel io desc deadline
  end.

Definition send (frame : list Z) : R (result unit unit) :=
  v ← vars;
  if negb (INITIALIZED v) then mret (Err tt)
  else if decide (1514 < length frame)%nat then mret (Err tt)
  else
    let io := IO_BASE v in
    set_vars (λ v, mkRtl (INITIALIZED v) (IO_BASE v) (wadd 8 (TX_DESC v) 1));;
    let desc := Z.to_nat (TX_DESC v `mod` 4) in
    on_hw (tx_fill desc frame;;
      outw (reg io ISR) 0xFFFF;;
      outl (reg io (TSAD desc)) (wrap 32 (tx_addr desc));;
      outl (reg io (TSD desc)) (wrap 32 (length frame));;
      outb (reg io TPOLL) 0x40;;
      t ← millis;
      wait_tx tx_fuel io desc (wadd 64 t 100)).

(** A volatile read of [RX_BUF]; outside of it, undefined behaviour. *)
Definition rx_read (i : Z) : ST D Z :=
  if decide (0 ≤ i < RX_BUF_SIZE) then rx_byte i else lift Panic.
(** [rx_volatile_u16], with an index for the pointer. *)
Definition rx_volatile_u16 (i : Z) : ST D Z :=
  if decide (i < 0 ∨ RX_BUF_SIZE ≤ i + 1) then mret 0
  else lo ← rx_read i; hi ← rx_read (i + 1); mret (from_le [lo; hi]).

(** [for i in 0..n], the bytes from [start] on. *)
Fixpoint rx_copy (n : nat) (start : Z) : ST D (list Z) :=
  match n with
  | O => mret []
  | S n => b ← rx_read start; rest ← rx_copy n (start + 1); mret (b :: rest)
  end.

(** [poll_rx] after the test of [INITIALIZED]; log lines are left out. *)
Definition receive (io : Z) : ST D (option (list Z)) :=
  capr ← inw (reg io CAPR);
  cbr ← inw (reg io CBR);
  if decide (capr = cbr) then mret None else
  status ← rx_volatile_u16 capr;
  pkt_size ← rx_volatile_u16 (capr + 2);
  if decide (pkt_size < 4 ∨ 1518 + 4 < pkt_size) then outw (reg io CAPR) cbr;; mret None else
  let actual_size := pkt_size - 4 in
  let data_start := capr + 4 in
  data ← (if decide (data_start + actual_size ≤ RX_BUF_SIZE) then rx_copy (Z.to_nat actual_size) data_start
    else
      let first := wsub 64 RX_BUF_SIZE data_start in
      d1 ← rx_copy (Z.to_nat first) data_start;
      d2 ← rx_copy (Z.to_nat (wsub 64 actual_size first)) 0;
      mret (d1 ++ d2));
  let next := Z.land (capr + 4 + pkt_size + 3) (wnot 64 3) in
  let new_capr := if decide (RX_BUF_SIZE ≤ next) then 0 else next in
  outw (reg io CAPR) (wrap 16 new_capr);;
  mret (Some data).

Definition poll_rx : R (option (list Z)) :=
  v ← vars;
  if negb (INITIALIZED v) then mret None else on_hw (receive (IO_BASE v)).

Definition default_mac : list Z := [0x52; 0x54; 0x00; 0xAB; 0xCD; 0xEF].
End driver.

(** The ports of a machine with the driver's variables. *)
#[export] Instance rtl_ports {D} `{Ports D} : Ports (Rtl * D) := {
  inb p := on_hw (inb p); outb p v := on_hw (outb p v);
  inw p := on_hw (inw p); outw p v := on_hw (outw p v);
  inl p := on_hw (inl p); outl p v := on_hw (outl p v);
}.

(** ** Choosing the driver (drivers/net/mod.rs, drivers/net/e1000.rs) *)

Definition e1000_default_mac : list Z := [0x52; 0x54; 0x00; 0x12; 0x34; 0x56].

Section net.
Context {D : Type} `{Ports D} `{Timer D} `{NicMemory D}.
Abbreviation N := (ST (NetState (Rtl * D))).

Definition on_card {A} (m : ST (Rtl * D) A) : N A := zoom dev (λ d s, mkNet (NET_CFG s) (NET s) d) m.

Definition rx_ring_pos : N (Z * Z) :=
  st ← gets NET;
  match kind st with
  | Rtl8139 => v ← on_card vars; on_card (on_hw (ring_position (IO_BASE v)))
  | _ => mret (0, 0)
  end.
End net.

(** ** The card: sending *)

(** What the driver relies on: writing the size of a frame starts its
    transmission, whose end is reported after a bounded number of status
    readings; [wire] are the frames so reported.  Other accesses do not touch
    the transmitter. *)
Record TxView := mkTxView {
  wire : list (list Z); filled : nat → list Z; sending : nat → option (list Z); delay : nat }.
Class RtlCard (D : Type) `{Ports D} `{Timer D} `{NicMemory D} := {
  tx : D → TxView;
  tx_delay d : (delay (tx d) < tx_fuel)%nat;
  fill_law i f d : (i < 4)%nat → wp (tx_fill i f) (λ _ d', wire (tx d') = wire (tx d) ∧ filled (tx d') i = f) d;
  start_law i d : (i < 4)%nat → (length (filled (tx d) i) ≤ 1514)%nat →
    wp (outl (reg nic_io (TSD i)) (length (filled (tx d) i))) (λ _ d',
      wire (tx d') = wire (tx d) ∧ sending (tx d') i = Some (filled (tx d) i)) d;
  status_law i f d : (i < 4)%nat → sending (tx d) i = Some f → wp (inl (reg nic_io (TSD i))) (λ v d',
    (Z.land v 0x8000 ≠ 0 ∧ wire (tx d') = wire (tx d) ++ [f]) ∨
    (Z.land v 0x8000 = 0 ∧ wire (tx d') = wire (tx d) ∧ sending (tx d') i = Some f ∧
      (delay (tx d') < delay (tx d))%nat)) d;
  tsad_tx i v d : (i < 4)%nat → wp (outl (reg nic_io (TSAD i)) v) (λ _ d', tx d' = tx d) d;
  outw_tx p v d : wp (outw p v) (λ _ d', tx d' = tx d) d;
  outb_tx p v d : wp (outb p v) (λ _ d', tx d' = tx d) d;
  inw_tx p d : wp (inw p) (λ v d', fits 16 v ∧ tx d' = tx d) d;
  rx_byte_tx i d : 0 ≤ i < RX_BUF_SIZE → wp (rx_byte i) (λ v d', fits 8 v ∧ tx d' = tx d) d;
  millis_tx d : wp millis (λ t d', fits 32 t ∧ tx d' = tx d) d;
}.

Section sending.
Context {D : Type} `{RtlCard D}.
Implicit Types (d : D).

Lemma wait_tx_spec fuel i deadline f d : (i < 4)%nat → sending (tx d) i = Some f → (delay (tx d) < fuel)%nat →
  wp (wait_tx fuel nic_io i deadline) (λ r d',
    wire (tx d') = match r with Ok _ => wire (tx d) ++ [f] | Err _ => wire (tx d) end) d.
Proof.
  intros Hi. revert d. induction fuel as [|fuel IH]; intros d Hs Hf; [lia|]. cbn [wait_tx].
  apply wp_bind. eapply wp_mono; [by apply status_law|].
  intros v d1 [[Hv Hw]|(Hv & Hw & Hs1 & Hlt)].
  { rewrite decide_True by done. by apply wp_ret. }
  rewrite decide_False by (intros []; done). case_decide; [by apply wp_ret|].
  apply wp_bind. eapply wp_mono; [apply millis_tx|]. intros t d2 [_ E2].
  case_decide; [apply wp_ret; by rewrite E2|].
  eapply wp_mono; [apply IH; rewrite E2; [done|lia]|]. intros r d3 ->. by rewrite E2, Hw.
Qed.

(** [send] returns; it reports success only for a frame that is on the wire
    then, and otherwise puts nothing there. *)
Lemma send_wire f v d : IO_BASE v = nic_io →
  wp (send f) (λ r s', IO_BASE s'.1 = nic_io ∧ INITIALIZED s'.1 = INITIALIZED v ∧
    wire (tx s'.2) = match r with Ok _ => wire (tx d) ++ [f] | Err _ => wire (tx d) end ∧
    (r = Ok tt → INITIALIZED v = true ∧ (length f ≤ 1514)%nat)) (v, d).
Proof.
  intros Hio. unfold send. apply wp_bind, wp_gets. cbn [fst].
  destruct (INITIALIZED v) eqn:Hi; cbn [negb]; [|by apply wp_ret].
  case_decide as Hlen; [by apply wp_ret|].
  apply wp_bind, wp_modify. set (i := Z.to_nat _). assert (i < 4)%nat as Hi4
    by (unfold i; pose proof (Z.mod_pos_bound (TX_DESC v) 4); lia). cbn [fst snd]. apply wp_zoom. rewrite Hio. cbn [fst snd IO_BASE INITIALIZED].
  apply wp_bind. eapply wp_mono; [by apply (fill_law i f)|]. intros [] d1 [W1 F1].
  apply wp_bind. eapply wp_mono; [apply outw_tx|]. intros [] d2 E2.
  apply wp_bind. eapply wp_mono; [by apply (tsad_tx i)|]. intros [] d3 E3.
  apply wp_bind. assert (filled (tx d3) i = f) as F3 by (by rewrite E3, E2).
  assert (wrap 32 (length f) = length f) as -> by (apply wrap_id; unfold fits; lia).
  pose proof (start_law i d3) as Hstart. rewrite F3 in Hstart.
  eapply wp_mono; [apply Hstart; [done|lia]|]. intros [] d4 [W4 S4].
  apply wp_bind. eapply wp_mono; [apply outb_tx|]. intros [] d5 E5.
  apply wp_bind. eapply wp_mono; [apply millis_tx|]. intros t d6 [_ E6].
  eapply wp_mono; [apply (wait_tx_spec _ i _ f); [done|by rewrite E6, E5|apply tx_delay]|].
  intros r d7 W7. split_and!; [done|done| |intros _; split; [done|lia]].
  rewrite W7, E6, E5, W4, E3, E2, W1. done.
Qed.
End sending.

(** ** The card: receiving *)

Section receiving.
Context {D : Type} `{RtlCard D}.
Implicit Types (d : D).

Lemma rx_read_spec i d : 0 ≤ i < RX_BUF_SIZE → wp (rx_read i) (λ v d', fits 8 v ∧ tx d' = tx d) d.
Proof. intros Hi. unfold rx_read. rewrite decide_True by done. by apply rx_byte_tx. Qed.

Lemma rx_copy_spec (n : nat) start d : 0 ≤ start → start + n ≤ RX_BUF_SIZE →
  wp (rx_copy n start) (λ l d', bytes l ∧ length l = n ∧ tx d' = tx d) d.
Proof.
  revert start d. induction n as [|n IH]; intros start d Hs He; cbn [rx_copy]; [by apply wp_ret|].
  apply wp_bind. eapply wp_mono; [apply rx_read_spec; lia|]. intros b d1 [Hb E1].
  apply wp_bind. eapply wp_mono; [apply IH; lia|]. intros l d2 (Hl & Hn & E2). apply wp_ret.
  split_and!; [by constructor|cbn; lia|congruence].
Qed.

(** A 16-bit read that returns something but 0 was inside the buffer. *)
Lemma rx_u16_spec i d : 0 ≤ i → wp (rx_volatile_u16 i) (λ v d', fits 16 v ∧ tx d' = tx d ∧
  (v ≠ 0 → i + 1 < RX_BUF_SIZE)) d.
Proof.
  intros Hi. unfold rx_volatile_u16. case_decide as Hb; [by apply wp_ret|].
  apply wp_bind. eapply wp_mono; [apply rx_read_spec; lia|]. intros lo d1 [Hlo E1].
  apply wp_bind. eapply wp_mono; [apply rx_read_spec; lia|]. intros hi d2 [Hhi E2]. apply wp_ret.
  split_and!; [|congruence|lia]. apply (from_le_fits [lo; hi]). by rewrite !Forall_cons, Forall_nil.
Qed.

(** Whatever the registers and the buffer contain, [poll_rx] reads only inside
    the buffer, and a frame it returns has at most 1518 bytes. *)
Lemma receive_safe io d :
  wp (receive io) (λ r d', tx d' = tx d ∧
    match r with Some f => bytes f ∧ (length f ≤ 1518)%nat | None => True end) d.
Proof.
  unfold receive. apply wp_bind. eapply wp_mono; [apply inw_tx|]. intros capr d1 [Hcapr E1].
  apply wp_bind. eapply wp_mono; [apply inw_tx|]. intros cbr d2 [Hcbr E2].
  case_decide; [apply wp_ret; split; [congruence|done]|].
  apply wp_bind. eapply wp_mono; [apply rx_u16_spec; apply Hcapr|]. intros status d3 (_ & E3 & _).
  apply wp_bind. eapply wp_mono; [apply rx_u16_spec; destruct Hcapr; lia|]. intros size d4 (Hsize & E4 & Hin).
  destruct (decide (size < 4 ∨ _)) as [|Hs].
  { apply wp_bind. eapply wp_mono; [apply outw_tx|]. intros [] d5 E5. apply wp_ret. split; [congruence|done]. }
  assert (capr + 4 ≤ RX_BUF_SIZE) as Hstart by (unfold RX_BUF_SIZE in *; lia).
  destruct Hcapr as [Hcapr _]. unfold fits in *. apply wp_bind.
  apply (wp_mono _ (λ l d', bytes l ∧ length l = Z.to_nat (size - 4) ∧ tx d' = tx d4)).
  - destruct (decide (capr + 4 + (size - 4) ≤ RX_BUF_SIZE)) as [|Hcross]; [apply rx_copy_spec; lia|].
    assert (wsub 64 RX_BUF_SIZE (capr + 4) = RX_BUF_SIZE - (capr + 4)) as ->
      by (apply wrap_id; unfold fits, RX_BUF_SIZE in *; lia).
    assert (wsub 64 (size - 4) (RX_BUF_SIZE - (capr + 4)) = size - 4 - (RX_BUF_SIZE - (capr + 4))) as ->
      by (apply wrap_id; unfold fits, RX_BUF_SIZE in *; lia).
    apply wp_bind. eapply wp_mono; [apply rx_copy_spec; lia|]. intros l1 d5 (B1 & L1 & E5).
    apply wp_bind. eapply wp_mono; [apply rx_copy_spec; unfold RX_BUF_SIZE in *; lia|]. intros l2 d6 (B2 & L2 & E6).
    apply wp_ret. split_and!; [by apply Forall_app|rewrite length_app; lia|congruence].
  - intros l d5 (Bl & Ll & E5). apply wp_bind. eapply wp_mono; [apply outw_tx|]. intros [] d6 E6.
    apply wp_ret. split_and!; [congruence|done|lia].
Qed.
End receiving.

(** ** The driver implements the interface of a network card

    After [init]: the card at [nic_io], its driver initialised. *)
Record Driver (D : Type) := mkDriver { next_desc : Z; hw : D }.
Arguments mkDriver {D}.
Arguments next_desc {D}.
Arguments hw {D}.

Section interface.
Context {D : Type} `{Ports D} `{Timer D} `{NicMemory D}.

Definition ready (s : Driver D) : Rtl * D := (mkRtl true nic_io (next_desc s), hw s).
Definition as_driver {A} (m : ST (Rtl * D) A) : ST (Driver D) A :=
  zoom ready (λ x _, mkDriver (TX_DESC x.1) x.2) m.

#[export] Instance rtl_nic `{!RtlCard D} : Nic (Driver D) := {
  nic_timer := {| millis := as_driver (on_hw millis) |};
  nic_send f := as_driver (send f);
  nic_poll_rx := as_driver poll_rx;
  sent s := wire (tx (hw s));
}.

#[export] Instance rtl_nic_ok `{!RtlCard D} : NicOk (Driver D).
Proof.
  split.
  - intros f s. apply wp_zoom. eapply wp_mono; [by apply send_wire|].
    intros r s' (_ & _ & Hw & _). exact Hw.
  - intros s. apply wp_zoom. unfold poll_rx. apply wp_bind, wp_gets. cbn [ready fst INITIALIZED negb IO_BASE].
    apply wp_zoom. eapply wp_mono; [apply receive_safe|]. intros r d [E Hr]. cbn. rewrite E.
    split; [done|]. destruct r; [apply Hr|done].
  - intros s. apply wp_zoom, wp_zoom. eapply wp_mono; [apply millis_tx|]. intros t d [Ht E]. cbn. by rewrite E.
  - intros s. apply wp_zoom. unfold poll_rx. apply wp_bind, wp_gets. cbn [ready fst INITIALIZED negb IO_BASE].
    apply wp_zoom. eapply wp_mono; [apply receive_safe|]. intros r d [_ Hr]. destruct r; [apply Hr|done].
Qed.
End interface.

(** ** Frames arrive in order *)

Record RxChip := mkRxChip { ring : Z → Z; capr : Z; cbr : Z }.
Class RxMachine (D : Type) `{Ports D} `{NicMemory D} := {
  rx : D → RxChip;
  capr_law d : wp (inw (reg nic_io CAPR)) (λ v d', v = capr (rx d) ∧ rx d' = rx d) d;
  cbr_law d : wp (inw (reg nic_io CBR)) (λ v d', v = cbr (rx d) ∧ rx d' = rx d) d;
  set_capr_law v d : wp (outw (reg nic_io CAPR) v)
    (λ _ d', rx d' = mkRxChip (ring (rx d)) v (cbr (rx d))) d;
  rx_byte_law i d : wp (rx_byte i) (λ v d', v = ring (rx d) i ∧ rx d' = rx d) d;
}.

(** Where the packet behind one of [n] bytes at [p] begins: a header of four
    bytes, the frame, its checksum of four bytes, rounded up. *)
Definition next_packet (p : Z) (n : nat) : Z := (p + 4 + (n + 4) + 3) / 4 * 4.

(** The frame [f] lies at [p]. *)
Definition packet_at (r : Z → Z) (p : Z) (f : list Z) : Prop :=
  [r (p + 2); r (p + 3)] = to_le 2 (length f + 4) ∧
  ∀ i b, f !! i = Some b → r (p + 4 + Z.of_nat i) = b.

(** The frames lie one behind the other from [p] on up to [q], inside the
    buffer. *)
Fixpoint stored (r : Z → Z) (p : Z) (fs : list (list Z)) (q : Z) : Prop :=
  match fs with
  | [] => p = q
  | f :: fs => packet_at r p f ∧ (length f ≤ 1518)%nat ∧ next_packet p (length f) < RX_BUF_SIZE ∧
               stored r (next_packet p (length f)) fs q
  end.

Section in_order.
Context {D : Type} `{RxMachine D}.
Implicit Types (d : D).

Lemma rx_copy_ring (n : nat) start d : 0 ≤ start → start + n ≤ RX_BUF_SIZE →
  wp (rx_copy n start) (λ l d', l = (λ i : nat, ring (rx d) (start + Z.of_nat i)) <$> seq 0 n ∧ rx d' = rx d) d.
Proof.
  revert start d. induction n as [|n IH]; intros start d Hs He; cbn [rx_copy]; [by apply wp_ret|].
  apply wp_bind. unfold rx_read. rewrite decide_True by lia. eapply wp_mono; [apply rx_byte_law|].
  intros b d1 [-> E1]. apply wp_bind. eapply wp_mono; [apply IH; lia|]. intros l d2 [-> E2]. apply wp_ret.
  split; [|congruence]. cbn [seq fmap list_fmap]. rewrite E1, Z.add_0_r. f_equal.
  rewrite <- fmap_S_seq, <- list_fmap_compose. apply list_fmap_ext. intros i k _. cbn. f_equal. lia.
Qed.

Lemma rx_u16_ring i d : 0 ≤ i → i + 1 < RX_BUF_SIZE →
  wp (rx_volatile_u16 i) (λ v d', v = from_le [ring (rx d) i; ring (rx d) (i + 1)] ∧ rx d' = rx d) d.
Proof.
  intros Hi Hj. unfold rx_volatile_u16, rx_read. rewrite decide_False by lia. rewrite !decide_True by lia.
  apply wp_bind. eapply wp_mono; [apply rx_byte_law|]. intros lo d1 [-> E1].
  apply wp_bind. eapply wp_mono; [apply rx_byte_law|]. intros hi d2 [-> E2]. apply wp_ret.
  rewrite E1 in *. split; [done|congruence].
Qed.

Lemma packet_bytes r p f : packet_at r p f →
  (λ i : nat, r (p + 4 + Z.of_nat i)) <$> seq 0 (length f) = f.
Proof.
  intros [_ Hb]. apply list_eq. intros i. rewrite list_lookup_fmap.
  destruct (f !! i) as [b|] eqn:E.
  - rewrite lookup_seq_lt by (by eapply lookup_lt_Some). cbn. f_equal. by apply Hb.
  - by rewrite lookup_seq_ge by (by apply lookup_ge_None).
Qed.

Lemma next_packet_bounds p (n : nat) : p + 8 + n ≤ next_packet p n ≤ p + n + 11.
Proof. unfold next_packet. pose proof (Z.div_mod (p + 4 + (n + 4) + 3) 4). pose proof (Z.mod_pos_bound (p + 4 + (n + 4) + 3) 4). lia. Qed.

Lemma round_down x : 0 ≤ x < 2 ^ 64 → Z.land x (wnot 64 3) = x / 4 * 4.
Proof.
  intros Hx. change (wnot 64 3) with (Z.shiftl (Z.ones 62) 2). rewrite land_high by lia.
  by rewrite Z.shiftl_mul_pow2, Z.shiftr_div_pow2 by lia.
Qed.

Lemma receive_packet f d : let p := capr (rx d) in
  0 ≤ p → p ≠ cbr (rx d) → packet_at (ring (rx d)) p f → (length f ≤ 1518)%nat →
  next_packet p (length f) < RX_BUF_SIZE →
  wp (receive nic_io) (λ r d', r = Some f ∧
    rx d' = mkRxChip (ring (rx d)) (next_packet p (length f)) (cbr (rx d))) d.
Proof.
  intros p Hp Hne Hpk Hlen Hnext. pose proof (next_packet_bounds p (length f)) as Hb.
  pose proof (proj1 Hpk) as Hsize.
  unfold receive. apply wp_bind. eapply wp_mono; [apply capr_law|]. intros c d1 [-> E1].
  apply wp_bind. eapply wp_mono; [apply cbr_law|]. intros c' d2 [-> E2]. fold p.
  rewrite E1 in *. rewrite decide_False by done.
  apply wp_bind. eapply wp_mono; [apply rx_u16_ring; lia|]. intros status d3 [_ E3].
  apply wp_bind. eapply wp_mono; [apply rx_u16_ring; lia|]. intros size d4 [Esz E4].
  assert (size = length f + 4) as ->.
  { rewrite Esz, E3, E2. replace (p + 2 + 1) with (p + 3) by lia. rewrite Hsize, from_to_le.
    apply wrap_id. change (8 * 2%nat) with 16. unfold fits. lia. }
  rewrite (decide_False (P := _ < 4 ∨ _)) by lia.
  apply wp_bind. rewrite decide_True by lia.
  eapply wp_mono; [apply rx_copy_ring; lia|]. intros l d5 [El E5].
  assert (l = f) as ->.
  { rewrite El, E4, E3, E2. replace (Z.to_nat (length f + 4 - 4)) with (length f) by lia. by apply packet_bytes. }
  rewrite round_down by (unfold RX_BUF_SIZE in *; lia).
  replace ((p + 4 + (length f + 4) + 3) / 4 * 4) with (next_packet p (length f)) by done.
  rewrite (decide_False (P := RX_BUF_SIZE ≤ _)) by lia.
  rewrite wrap_id by (unfold fits, RX_BUF_SIZE in *; lia).
  apply wp_bind. eapply wp_mono; [apply set_capr_law|]. intros [] d6 E6. apply wp_ret. split; [done|].
  rewrite E6. do 2 f_equal; congruence.
Qed.

(** [n] calls of [poll_rx]. *)
Fixpoint polls (n : nat) : ST (Rtl * D) (list (option (list Z))) :=
  match n with O => mret [] | S n => r ← poll_rx; rs ← polls n; mret (r :: rs) end.

Lemma stored_le r p fs q : 0 ≤ p → stored r p fs q → p ≤ q ∧ (fs ≠ [] → p < q).
Proof.
  revert p. induction fs as [|f fs IH]; intros p Hp; cbn [stored]; [intros ->; split; [lia|done]|].
  intros (_ & _ & _ & Hs). pose proof (next_packet_bounds p (length f)).
  apply IH in Hs as [Hle _]; [|lia]. split; [lia|]. intros _. lia.
Qed.

Lemma polls_in_order fs (s : Rtl * D) : INITIALIZED s.1 = true → IO_BASE s.1 = nic_io → 0 ≤ capr (rx s.2) →
  stored (ring (rx s.2)) (capr (rx s.2)) fs (cbr (rx s.2)) →
  wp (polls (S (length fs))) (λ rs s', rs = (Some <$> fs) ++ [None] ∧ capr (rx s'.2) = cbr (rx s.2)) s.
Proof.
  revert s. induction fs as [|f fs IH]; intros [v d] Hi Hio Hp Hs; cbn [fst snd] in *.
  - cbn [polls length]. apply wp_bind. unfold poll_rx. apply wp_bind, wp_gets. cbn [fst]. rewrite Hi, Hio. cbn [negb].
    apply wp_zoom. unfold receive. apply wp_bind. eapply wp_mono; [apply capr_law|]. intros c d1 [-> E1].
    apply wp_bind. eapply wp_mono; [apply cbr_law|]. intros c' d2 [-> E2]. cbn [snd].
    rewrite E1, decide_True by exact Hs. apply wp_ret, wp_bind, wp_ret, wp_ret. split; [done|].
    cbn [snd]. by rewrite E2, E1.
  - pose proof (stored_le _ _ _ _ Hp Hs) as [_ Hlt]. destruct Hs as (Hpk & Hlen & Hn & Hs).
    cbn [length]. change (polls (S (S (length fs)))) with (r ← poll_rx; rs ← polls (S (length fs)); mret (r :: rs)).
    apply wp_bind. unfold poll_rx at 1. apply wp_bind, wp_gets. cbn [fst]. rewrite Hi, Hio. cbn [negb].
    apply wp_zoom. pose proof (next_packet_bounds (capr (rx d)) (length f)).
    eapply wp_mono; [apply (receive_packet f d); [done|specialize (Hlt ltac:(done)); lia|done..]|].
    intros r d1 [-> E1]. apply wp_bind. eapply wp_mono; [apply (IH (v, d1))|].
    + done.
    + done.
    + cbn [snd]. rewrite E1. cbn [capr]. lia.
    + cbn [snd]. rewrite E1. exact Hs.
    + intros rs s' [-> E]. apply wp_ret. split; [done|]. rewrite E. cbn [snd]. by rewrite E1.
Qed.
End in_order.



(** ** A simulated receiver

    The ring of 8 KiB the card has according to its data sheet when the length
    field of [RCR] is 0; packets wrap around at its end. *)
Definition chip_put (at_ : Z) (b : Z) (r : Z → Z) : Z → Z := λ i, if decide (i = at_ `mod` 8192) then b else r i.
Fixpoint chip_write (at_ : Z) (l : list Z) (r : Z → Z) : Z → Z :=
  match l with [] => r | b :: l => chip_put at_ b (chip_write (at_ + 1) l r) end.
Definition chip_receive (f : list Z) (c : RxChip) : RxChip :=
  mkRxChip (chip_write (cbr c) (to_le 2 1 ++ to_le 2 (length f + 4) ++ f ++ replicate 4 0) (ring c))
    (capr c) (next_packet (cbr c) (length f) `mod` 8192).

#[export] Instance sim_rx_ports : Ports RxChip := {
  inw p c := Done (if decide (p = reg 0xC000 CAPR) then capr c else cbr c, c);
  outw p v c := Done (tt, if decide (p = reg 0xC000 CAPR) then mkRxChip (ring c) v (cbr c) else c);
  inb _ c := Done (0, c); outb _ _ c := Done (tt, c : RxChip);
  inl _ c := Done (0, c); outl _ _ c := Done (tt, c : RxChip);
}.
#[export] Instance sim_rx_memory : NicMemory RxChip := {
  rx_byte i c := Done (ring c i, c); tx_fill _ _ c := Done (tt, c); rx_addr := 0; tx_addr _ := 0; tx_fuel := 1;
  nic_io := 0xC000;
}.
#[export, refine] Instance sim_rx_machine : RxMachine RxChip := { rx c := c }.
Proof. all: done. Defined.
Definition running (c : RxChip) : Rtl * RxChip := (mkRtl true 0xC000 0, c).
Definition empty_ring (p : Z) : RxChip := mkRxChip (λ _, 0) p p.

Definition two_frames : RxChip := chip_receive [7; 8; 9] (chip_receive [1; 2; 3; 4; 5] (empty_ring 0)).
Lemma two_frames_stored : stored (ring two_frames) 0 [[1; 2; 3; 4; 5]; [7; 8; 9]] (cbr two_frames).
Proof.
  cbn [stored]. unfold packet_at. split_and!; try (vm_compute; lia); try (by vm_compute).
  - intros i b. do 5 (destruct i as [|i]; [by intros [= <-]|]). done.
  - intros i b. do 3 (destruct i as [|i]; [by intros [= <-]|]). done.
Qed.

(** The driver wraps at the end of its buffer, sixteen bytes behind the end of
    the ring, and continues at 0 instead of behind the packet: a frame that
    crosses the end comes out garbled, and the one behind it is not found. *)
Lemma wrapped_frame_garbled :
  let f := Z.of_nat <$> seq 1 60 in
  let c := chip_receive [7; 8; 9] (chip_receive f (empty_ring 8160)) in
  ∃ g, value_of (polls 2 (running c)) = Some [Some g; None] ∧ length g = 60%nat ∧ g ≠ f.
Proof.
  cbn zeta. eexists. split; [by vm_compute|]. split; [by vm_compute|].
  apply (bool_decide_unpack _). by vm_compute.
Qed.

(** The length field of the value written to [RCR] asks for 16 KiB. *)
Lemma rcr_ring_length : Z.land (Z.shiftr 0x00000F0F 11) 3 = 1.
Proof. done. Qed.

(** ** A simulated transmitter, which has sent a frame at the first look. *)
Record TxChip := mkTxChip { cwire : list (list Z); cfilled : nat → list Z; csending : nat → option (list Z) }.
Definition desc_of (p : Z) : option nat :=
  if decide (p = 0xC010) then Some 0%nat else if decide (p = 0xC014) then Some 1%nat
  else if decide (p = 0xC018) then Some 2%nat else if decide (p = 0xC01C) then Some 3%nat else None.
Definition set_at {A} (i : nat) (x : A) (f : nat → A) : nat → A := λ j, if decide (j = i) then x else f j.
#[export] Instance sim_tx_ports : Ports TxChip := {
  inl p c := Done (match desc_of p with
    | Some i => match csending c i with
        | Some f => (0x8000, mkTxChip (cwire c ++ [f]) (cfilled c) (set_at i None (csending c)))
        | None => (0, c) end
    | None => (0, c) end);
  outl p v c := Done (tt, match desc_of p with
    | Some i => mkTxChip (cwire c) (cfilled c) (set_at i (Some (take (Z.to_nat v) (cfilled c i))) (csending c))
    | None => c end);
  inb _ c := Done (0, c); outb _ _ c := Done (tt, c : TxChip);
  inw _ c := Done (0, c); outw _ _ c := Done (tt, c : TxChip);
}.
#[export] Instance sim_tx_timer : Timer TxChip := { millis c := Done (0, c) }.
#[export] Instance sim_tx_memory : NicMemory TxChip := {
  rx_byte i c := Done (0, c); rx_addr := 0; tx_addr _ := 0; tx_fuel := 1; nic_io := 0xC000;
  tx_fill i f c := Done (tt, mkTxChip (cwire c) (set_at i f (cfilled c)) (csending c));
}.
Lemma desc_of_tsd i : (i < 4)%nat → desc_of (reg 0xC000 (TSD i)) = Some i.
Proof. intros Hi. do 4 (destruct i as [|i]; [done|]). lia. Qed.
Lemma desc_of_tsad i : (i < 4)%nat → desc_of (reg 0xC000 (TSAD i)) = None.
Proof. intros Hi. do 4 (destruct i as [|i]; [done|]). lia. Qed.
Lemma set_at_eq {A} i (x : A) f : set_at i x f i = x.
Proof. unfold set_at. by rewrite decide_True. Qed.

#[export, refine] Instance sim_tx_card : RtlCard TxChip := {
  tx c := mkTxView (cwire c) (cfilled c) (csending c) 0;
}.
Proof.
  all: intros; unfold wp; cbn in *; try done.
  - lia.
  - by rewrite set_at_eq.
  - rewrite desc_of_tsd by done. cbn. by rewrite set_at_eq, Nat2Z.id, firstn_all.
  - rewrite desc_of_tsd by done. match goal with E : csending _ _ = _ |- _ => rewrite E end.
    left. by split.
  - by rewrite desc_of_tsad.
Defined.

