(* ===== verification/Dhcp.v ===== *)
(** * DHCP client (src/src/drivers/net/dhcp.rs) *)
From S2P Require Import Prelude Words Hardware Packets Pci Net.
Local Open Scope Z_scope.

Definition DHCP_SERVER : Z := 67.
Definition DHCP_CLIENT : Z := 68.
Definition BROADCAST : list Z := [255; 255; 255; 255].
Definition BROADCAST_MAC : list Z := replicate 6 0xFF.
Definition OP_BOOTREQUEST : Z := 1.
Definition OP_BOOTREPLY : Z := 2.
Definition DHCP_DISCOVER : Z := 1.
Definition DHCP_REQUEST : Z := 3.
Definition DHCP_ACK : Z := 5.
Definition MAGIC_COOKIE : list Z := [0x63; 0x82; 0x53; 0x63].
Definition DHCP_MSG_SIZE : nat := 240.
Definition DHCP_TIMEOUT_MS : Z := 5000.

(** The message is assembled in a vector with [push] and [extend_from_slice];
    at the end it is padded to [DHCP_MSG_SIZE] bytes. *)
Definition build_dhcp_msg (op xid : Z) (mac : list Z) (msg_type : Z)
    (req_ip server_id : option (list Z)) : list Z :=
  let buf := [op; 1; 6; 0] in
  let buf := buf ++ to_be 4 xid in
  let buf := buf ++ [0; 0] in
  let buf := buf ++ [0x80; 0] in
  let buf := buf ++ replicate 4 0 in
  let buf := buf ++ replicate 4 0 in
  let buf := buf ++ replicate 4 0 in
  let buf := buf ++ replicate 4 0 in
  let buf := buf ++ mac in
  let buf := buf ++ replicate 10 0 in
  let buf := buf ++ replicate 64 0 in
  let buf := buf ++ replicate 128 0 in
  let buf := buf ++ MAGIC_COOKIE in
  let buf := buf ++ [53; 1; msg_type] in
  let buf := match req_ip with Some ip => buf ++ [50; 4] ++ ip | None => buf end in
  let buf := match server_id with Some srv => buf ++ [54; 4] ++ srv | None => buf end in
  let buf := buf ++ [55; 3; 1; 3; 6] in
  let buf := buf ++ [12; 2; 0x6f; 0x73] in
  let buf := buf ++ [255] in
  buf ++ replicate (DHCP_MSG_SIZE - length buf) 0.

(** The result tuple of [parse_dhcp_options]. *)
Record Options := mkOptions {
  msg_type : Z; subnet : option (list Z); gateway : option (list Z);
  dns : option (list Z); server_id : option (list Z) }.

Definition set_msg_type v o := mkOptions v (subnet o) (gateway o) (dns o) (server_id o).
Definition set_subnet v o := mkOptions (msg_type o) v (gateway o) (dns o) (server_id o).
Definition set_gateway v o := mkOptions (msg_type o) (subnet o) v (dns o) (server_id o).
Definition set_dns v o := mkOptions (msg_type o) (subnet o) (gateway o) v (server_id o).
Definition set_server_id v o := mkOptions (msg_type o) (subnet o) (gateway o) (dns o) v.

(** The body of the inner [match tag]. *)
Definition parse_option (opts : list Z) (i : nat) (tag : Z) (len : nat) (o : Options) :
    outcome Options :=
  if decide (tag = 53 ∧ len = 1%nat) then
    t ← index (i + 2) opts; mret (set_msg_type t o)
  else if decide (tag = 54 ∧ len = 4%nat) then
    s ← slice (i + 2) (i + 6) opts; mret (set_server_id (Some s) o)
  else if decide (tag = 1 ∧ len = 4%nat) then
    s ← slice (i + 2) (i + 6) opts; mret (set_subnet (Some s) o)
  else if decide (tag = 3 ∧ len = 4%nat) then
    s ← slice (i + 2) (i + 6) opts; mret (set_gateway (Some s) o)
  else if decide (tag = 6 ∧ 4 ≤ len)%nat then
    s ← slice (i + 2) (i + 6) opts; mret (set_dns (Some s) o)
  else mret o.

Fixpoint parse_options_from (fuel : nat) (opts : list Z) (i : nat) (o : Options) :
    outcome Options :=
  if decide (i < length opts)%nat then
    match fuel with
    | O => Diverge
    | S fuel =>
        tag ← index i opts;
        if tag =? 0 then parse_options_from fuel opts (i + 1) o
        else if tag =? 255 then mret o
        else if decide (length opts ≤ i + 1)%nat then mret o
        else
          len ← index (i + 1) opts;
          let len := Z.to_nat len in
          if decide (length opts < i + 2 + len)%nat then mret o
          else
            o ← parse_option opts i tag len o;
            parse_options_from fuel opts (i + (2 + len)) o
    end
  else mret o.

Definition parse_dhcp_options (opts : list Z) : outcome Options :=
  parse_options_from (length opts) opts 0 (mkOptions 0 None None None None).

(** [(msg_type, yiaddr, subnet, gateway, dns, server_id)] as the options and
    the address. *)
Definition parse_dhcp_reply (data : list Z) (xid : Z) (mac : list Z) :
    outcome (option (option (list Z) * Options)) :=
  if decide (length data < DHCP_MSG_SIZE)%nat then mret None else
  op ← index 0 data;
  if negb (op =? OP_BOOTREPLY) then mret None else
  pkt_xid ← be32 4 data;
  if negb (pkt_xid =? xid) then mret None else
  pkt_mac ← slice 28 34 data;
  if decide (pkt_mac ≠ mac) then mret None else
  yiaddr ← slice 16 20 data;
  let yiaddr := if decide (yiaddr ≠ [0; 0; 0; 0]) then Some yiaddr else None in
  if decide (length data < 236 + 4)%nat then mret None else
  cookie ← slice 236 (236 + 4) data;
  if decide (cookie ≠ MAGIC_COOKIE) then mret None else
  opts ← slice (236 + 4) (length data) data;
  o ← parse_dhcp_options opts;
  mret (Some (yiaddr, o)).

(** The nested [if let]s of the receive loop, on one received frame. *)
Definition accept (pkt : list Z) (mac : list Z) (xid : Z) :
    outcome (option (option (list Z) * Options)) :=
  eth ← Ethernet.parse pkt;
  match eth with
  | Some eth =>
    if Ethernet.ethertype eth =? Ethernet.ETHERTYPE_IPV4 then
      ip ← Ipv4.parse (Ethernet.payload eth);
      match ip with
      | Some ip =>
        if Ipv4.protocol ip =? 17 then
          udp ← Udp.parse (Ipv4.payload ip);
          match udp with
          | Some udp =>
            if Udp.dst_port udp =? DHCP_CLIENT
            then parse_dhcp_reply (Udp.payload udp) xid mac
            else mret None
          | None => mret None
          end
        else mret None
      | None => mret None
      end
    else mret None
  | None => mret None
  end.

(** The frame around a message. *)
Definition encapsulate (payload mac : list Z) : outcome (option (list Z)) :=
  '(udp_len, udp_buf) ← Udp.build DHCP_CLIENT DHCP_SERVER payload (replicate 512 0);
  match udp_len with None => mret None | Some udp_len =>
  '(ip_hdr_len, ip_buf) ←
    Ipv4.build (replicate 4 0) BROADCAST 17 (wrap 16 udp_len) (replicate 532 0);
  match ip_hdr_len with None => mret None | Some ip_hdr_len =>
  udp_bytes ← slice 0 udp_len udp_buf;
  ip_buf ← put ip_hdr_len (ip_hdr_len + udp_len) udp_bytes ip_buf;
  let ip_total := (ip_hdr_len + udp_len)%nat in
  ip_bytes ← slice 0 ip_total ip_buf;
  '(eth_len, eth_buf) ←
    Ethernet.build BROADCAST_MAC mac 0x0800 ip_bytes (replicate (14 + 532) 0);
  match eth_len with None => mret None | Some eth_len =>
  frame ← slice 0 eth_len eth_buf;
  mret (Some frame)
  end end end.

Section client.
Context {D : Type} `{Nic D}.
Abbreviation N := (ST (NetState D)).

(** [while millis() < deadline]: [fuel] bounds the number of polls. *)
Fixpoint recv_until (fuel : nat) (deadline : Z) (mac : list Z) (xid : Z) :
    N (option (option (list Z) * Options)) :=
  t ← now;
  if t <? deadline then
    match fuel with
    | O => diverge
    | S fuel =>
        pkt ← poll_rx;
        match pkt with
        | Some pkt =>
            r ← lift (accept pkt mac xid);
            match r with
            | Some result => mret (Some result)
            | None => recv_until fuel deadline mac xid
            end
        | None => recv_until fuel deadline mac xid
        end
    end
  else mret None.

Definition send_and_recv (fuel : nat) (payload mac : list Z) (xid : Z) :
    N (option (option (list Z) * Options)) :=
  frame ← lift (encapsulate payload mac);
  match frame with
  | None => mret None
  | Some frame =>
      r ← send frame;
      match r with
      | Err _ => mret None
      | Ok _ =>
          t ← now;
          recv_until fuel (wadd 64 t DHCP_TIMEOUT_MS) mac xid
      end
  end.

Definition dhcp_request (fuel : nat) (mac : list Z) (xid : Z) : N (option NetConfig) :=
  let discover := build_dhcp_msg OP_BOOTREQUEST xid mac DHCP_DISCOVER None None in
  offered ← send_and_recv fuel discover mac xid;
  match offered with
  | None => mret None
  | Some (None, _) => mret None
  | Some (Some offered_ip, o) =>
      let request := build_dhcp_msg OP_BOOTREQUEST xid mac DHCP_REQUEST
                       (Some offered_ip) (server_id o) in
      acked ← send_and_recv fuel request mac xid;
      match acked with
      | None => mret None
      | Some (_, o) =>
          if negb (msg_type o =? DHCP_ACK) then mret None
          else mret (Some (mkConfig offered_ip
                 (default [255; 255; 255; 0] (subnet o))
                 (default [10; 0; 2; 2] (gateway o))
                 (default [8; 8; 8; 8] (dns o))))
      end
  end.
End client.

(** ** Options

    Reference: the option field as a list of (tag, value) pairs (RFC 2132). *)
Inductive decodes : list Z → list (Z * list Z) → Prop :=
  | decodes_nil : decodes [] []
  | decodes_pad l ts : decodes l ts → decodes (0 :: l) ts
  | decodes_end l : decodes (255 :: l) []
  | decodes_no_len tag : tag ≠ 0 → tag ≠ 255 → decodes [tag] []
  | decodes_truncated tag len l :
      tag ≠ 0 → tag ≠ 255 → (length l < Z.to_nat len)%nat → decodes (tag :: len :: l) []
  | decodes_option tag len v l ts :
      tag ≠ 0 → tag ≠ 255 → length v = Z.to_nat len → decodes l ts →
      decodes (tag :: len :: v ++ l) ((tag, v) :: ts).

(** What the client takes from one option; later options override earlier ones. *)
Definition apply_option (o : Options) (tv : Z * list Z) : Options :=
  let '(tag, v) := tv in
  if decide (tag = 53 ∧ length v = 1%nat) then set_msg_type (default 0 (head v)) o
  else if decide (tag = 54 ∧ length v = 4%nat) then set_server_id (Some v) o
  else if decide (tag = 1 ∧ length v = 4%nat) then set_subnet (Some v) o
  else if decide (tag = 3 ∧ length v = 4%nat) then set_gateway (Some v) o
  else if decide (tag = 6 ∧ 4 ≤ length v)%nat then set_dns (Some (take 4 v)) o
  else o.

Definition no_options : Options := mkOptions 0 None None None None.

Section options_props.
Lemma parse_options_eq fuel opts i o : parse_options_from fuel opts i o =
  if decide (i < length opts)%nat then
    match fuel with
    | O => Diverge
    | S fuel =>
        tag ← index i opts;
        if tag =? 0 then parse_options_from fuel opts (i + 1) o
        else if tag =? 255 then mret o
        else if decide (length opts ≤ i + 1)%nat then mret o
        else
          len ← index (i + 1) opts;
          let len := Z.to_nat len in
          if decide (length opts < i + 2 + len)%nat then mret o
          else
            o ← parse_option opts i tag len o;
            parse_options_from fuel opts (i + (2 + len)) o
    end
  else mret o.
Proof. by destruct fuel. Qed.

Lemma parse_option_done (pre v l : list Z) (tag : Z) (len : nat) o : length v = len →
  parse_option (pre ++ tag :: Z.of_nat len :: v ++ l) (length pre) tag len o =
    Done (apply_option o (tag, v)).
Proof.
  intros Hv. unfold parse_option, apply_option. rewrite Hv.
  assert (∀ n, (n ≤ length v)%nat →
    slice (length pre + 2) (length pre + 2 + n)
      (pre ++ tag :: Z.of_nat len :: v ++ l) = Done (take n v)) as Hs.
  { intros n Hn. rewrite <- (take_drop n v) at 1.
    replace (pre ++ tag :: Z.of_nat len :: (take n v ++ drop n v) ++ l)
      with ((pre ++ [tag; Z.of_nat len]) ++ take n v ++ (drop n v ++ l))
      by (rewrite <- !app_assoc; done).
    apply slice_mid; len. }
  replace (length pre + 6)%nat with (length pre + 2 + 4)%nat by lia.
  case_decide as H1.
  { destruct H1 as [-> ->]. destruct v as [|x [|]]; [done| |done].
    rewrite (index_done _ _ x); [done|].
    by rewrite lookup_app_r, Nat.add_sub' by lia. }
  repeat case_decide; try done; rewrite Hs by lia; simpl; try done;
    by rewrite take_ge by lia.
Qed.

Lemma parse_options_spec (fuel : nat) pre l o : bytes l → (length l ≤ fuel)%nat →
  ∃ ts, decodes l ts ∧
    parse_options_from fuel (pre ++ l) (length pre) o = Done (foldl apply_option o ts).
Proof.
  revert pre l o. induction fuel as [|fuel IH]; intros pre l o Hb Hf.
  { destruct l; simpl in Hf; [|lia]. exists []. split; [constructor|].
    rewrite parse_options_eq, decide_False by len. done. }
  rewrite parse_options_eq. destruct l as [|tag l].
  { exists []. split; [constructor|]. rewrite decide_False by len. done. }
  rewrite decide_True by len.
  rewrite (index_done (length pre) _ tag) by by apply list_lookup_middle.
  cbn [mbind outcome_bind]. apply Forall_cons_1 in Hb as [Htag Hb]. simpl in Hf.
  destruct (Z.eqb_spec tag 0) as [->|Hn0].
  { destruct (IH (pre ++ [0]) l o) as (ts & Hd & E); [done|lia|].
    exists ts. split; [by constructor|].
    rewrite length_app, <- app_assoc in E. exact E. }
  destruct (Z.eqb_spec tag 255) as [->|Hn255]; [exists []; split; [constructor|done]|].
  destruct l as [|n l].
  { exists []. split; [by constructor|]. rewrite decide_True by len. done. }
  rewrite decide_False by len.
  rewrite (index_done (length pre + 1) _ n)
    by by rewrite lookup_app_r, Nat.add_sub' by lia.
  cbn [mbind outcome_bind]. cbv zeta. apply Forall_cons_1 in Hb as [Hn Hb].
  case_decide as Hlen.
  { exists []. split; [|done]. apply decodes_truncated; [done..|].
    rewrite length_app in Hlen. simpl in Hlen. lia. }
  rewrite length_app in Hlen. simpl in Hlen. set (k := Z.to_nat n) in *.
  rewrite <- (take_drop k l).
  assert (length (take k l) = k) as Hk by len.
  replace n with (Z.of_nat k) by (destruct Hn; unfold k; lia).
  rewrite parse_option_done by done. cbn [mbind outcome_bind].
  destruct (IH (pre ++ tag :: Z.of_nat k :: take k l) (drop k l)
    (apply_option o (tag, take k l))) as (ts & Hd & E).
  { by apply Forall_drop. } { simpl in Hf. len. }
  exists ((tag, take k l) :: ts). split.
  - apply decodes_option; [done..|by rewrite Nat2Z.id|done].
  - rewrite <- app_assoc in E. simpl in E.
    replace (length (pre ++ tag :: Z.of_nat k :: take k l))
      with (length pre + (2 + k))%nat in E by len. exact E.
Qed.

(** The option parser terminates without a panic on every byte string
    and computes exactly what the RFC 2132 encoding of it says: the options
    before the end marker (or before the first truncated one) are applied in
    order, ill-sized and unknown ones ignored. *)
Theorem parse_dhcp_options_correct opts : bytes opts →
  ∃ ts, decodes opts ts ∧
    parse_dhcp_options opts = Done (foldl apply_option no_options ts).
Proof. intros Hb. by apply (parse_options_spec (length opts) [] opts no_options). Qed.

Lemma parse_dhcp_options_correct_witness :
  (∃ ts, decodes [53; 1; 5; 0; 1; 4; 255; 255; 0; 0; 6; 9] ts ∧
    parse_dhcp_options [53; 1; 5; 0; 1; 4; 255; 255; 0; 0; 6; 9] =
      Done (foldl apply_option no_options ts)) ∧
  parse_dhcp_options [53; 1; 5; 0; 1; 4; 255; 255; 0; 0; 6; 9] =
    Done (mkOptions 5 (Some [255; 255; 0; 0]) None None None).
Proof.
  split; [|by vm_compute]. apply parse_dhcp_options_correct.
  refine (bool_decide_unpack _ _). by vm_compute.
Defined.
End options_props.

(** ** What is sent *)
Section sent_props.
Definition udp_datagram (payload : list Z) : list Z :=
  to_be 2 DHCP_CLIENT ++ to_be 2 DHCP_SERVER ++
  to_be 2 (wrap 16 (8 + length payload)%nat) ++ [0; 0] ++ payload.

(** Around any IP header of 20 bytes. *)
Lemma encapsulate_around payload mac hdr : length mac = 6%nat → (length payload ≤ 504)%nat → length hdr = 20%nat →
  Ipv4.build (replicate 4 0) BROADCAST 17 (wrap 16 (8 + length payload)%nat) (replicate 532 0) =
    Done (Some 20%nat, hdr ++ drop 20 (replicate 532 0)) →
  encapsulate payload mac =
    Done (Some (BROADCAST_MAC ++ mac ++ to_be 2 0x0800 ++ hdr ++ udp_datagram payload)).
Proof.
  intros Hm Hlen Hh. unfold encapsulate.
  pose proof (length_replicate 512 0) as L1. pose proof (length_replicate 532 0) as L2.
  pose proof (length_replicate (14 + 532) 0) as L3.
  revert L1 L2 L3.
  generalize (replicate 512 0) (replicate 532 0) (replicate (14 + 532) 0).
  intros b1 b2 b3 L1 L2 L3 E. rewrite CodecProps.udp_build_done by lia.
  cbn [mbind outcome_bind]. rewrite E.
  cbn [mbind outcome_bind]. change (_ ++ _ ++ _ ++ _ ++ payload) with (udp_datagram payload).
  assert (length (udp_datagram payload) = 8 + length payload)%nat as Hu
    by (unfold udp_datagram; len).
  rewrite slice_take, take_app_length' by len. cbn [mbind outcome_bind].
  rewrite put_next by len. cbn [mbind outcome_bind].
  rewrite slice_take, take_app_length' by len. cbn [mbind outcome_bind].
  rewrite CodecProps.ethernet_build_layout by (unfold BROADCAST_MAC; len).
  cbn [mbind outcome_bind].
  rewrite slice_take, take_app_length' by (unfold BROADCAST_MAC; len). done.
Qed.

Lemma encapsulate_done payload mac : mac_addr mac → (length payload ≤ 504)%nat →
  ∃ ck, fits 16 ck ∧
    Checksum.checksum (Ipv4Props.header (replicate 4 0) BROADCAST 17
      (28 + length payload)%nat ck) = Done 0 ∧
    encapsulate payload mac = Done (Some
      (BROADCAST_MAC ++ mac ++ to_be 2 0x0800 ++
       Ipv4Props.header (replicate 4 0) BROADCAST 17 (28 + length payload)%nat ck ++
       udp_datagram payload)).
Proof.
  intros [Hm _] Hlen.
  destruct (Ipv4Props.build_done (replicate 4 0) BROADCAST 17
    (wrap 16 (8 + length payload)%nat) (replicate 532 0)) as (ck & Hck & Hsum & E).
  1, 2: split; [done|refine (bool_decide_unpack _ _); by vm_compute].
  1: by pow2. 1: rewrite length_replicate; lia.
  assert (wadd 16 20 (wrap 16 (8 + length payload)%nat) = (28 + length payload)%nat) as Ht.
  { rewrite wrap_id by (pow2; lia). unfold wadd. rewrite wrap_id; [lia|]. pow2. lia. }
  rewrite Ht in E, Hsum. exists ck. split; [done|]. split; [done|].
  apply encapsulate_around; [done|done| |exact E]. apply Ipv4Props.length_header; by split; [|repeat constructor].
Qed.

(** Whatever the hardware address is. *)
Lemma encapsulate_returns payload mac : length mac = 6%nat → (length payload ≤ 504)%nat →
  ∃ frame, encapsulate payload mac = Done (Some frame).
Proof.
  intros Hm Hlen. destruct (Ipv4Props.build_layout (replicate 4 0) BROADCAST 17
    (wrap 16 (8 + length payload)%nat) (replicate 532 0)) as (ck & E); [done|done|rewrite length_replicate; lia|].
  eexists. apply encapsulate_around; [done|done| |exact E]. unfold Ipv4Props.header, BROADCAST. len.
Qed.

Definition take_at (i n : nat) (l : list Z) : list Z := take n (drop i l).

(** The option field of a message, before the padding. *)
Definition sent_options (msg_type : Z) (req_ip server_id : option (list Z)) : list Z :=
  [53; 1; msg_type] ++
  match req_ip with Some ip => [50; 4] ++ ip | None => [] end ++
  match server_id with Some srv => [54; 4] ++ srv | None => [] end ++
  [55; 3; 1; 3; 6; 12; 2; 0x6f; 0x73; 255].

Lemma build_dhcp_msg_layout op xid mac mt req srv : mac_addr mac →
  ∃ pad, build_dhcp_msg op xid mac mt req srv =
    [op; 1; 6; 0] ++ to_be 4 xid ++ [0; 0; 0x80; 0] ++ replicate 16 0 ++
    mac ++ replicate 202 0 ++ MAGIC_COOKIE ++ sent_options mt req srv ++ pad.
Proof.
  intros [Hm _]. unfold build_dhcp_msg. cbv zeta.
  destruct req as [ip|], srv as [sv|]; unfold sent_options, MAGIC_COOKIE; eexists;
    rewrite <- !app_assoc; simpl; reflexivity.
Qed.
End sent_props.

Section message_props.
(** A field of an explicit message, the bytes in front of it being known. *)
Lemma slice_app_at a b (pre mid post : list Z) l :
  l = pre ++ mid ++ post → length pre = a → length mid = (b - a)%nat → (a ≤ b)%nat →
  slice a b l = Done mid.
Proof. intros ->. apply slice_mid. Qed.

Lemma be32_at i (pre post : list Z) x l :
  l = pre ++ to_be 4 x ++ post → length pre = i → fits 32 x → be32 i l = Done x.
Proof.
  intros -> <- Hx. unfold be32. pose proof (from_to_be 4 x) as Hf.
  destruct (to_be 4 x) as [|a [|b [|c [|d []]]]] eqn:E;
    try by (apply (f_equal length) in E; rewrite length_to_be in E).
  assert (∀ k, index (length pre + k) (pre ++ [a; b; c; d] ++ post) =
    index k ([a; b; c; d] ++ post)) as Hi.
  { intros k. unfold index. rewrite lookup_app_r by lia. by rewrite Nat.add_sub'. }
  rewrite <- (Nat.add_0_r (length pre)) at 1. rewrite !Hi. simpl.
  rewrite Hf. simpl. by rewrite wrap_id.
Qed.

Definition opt_addr (o : option (list Z)) : Prop :=
  match o with Some ip => ipv4_addr ip | None => True end.

(** The parser stops at the end marker: what follows does not matter. *)
Lemma parse_sent_options mt req srv pad o : byte mt → opt_addr req → opt_addr srv →
  parse_options_from (length (sent_options mt req srv ++ pad))
    (sent_options mt req srv ++ pad) 0 o =
  Done (mkOptions mt (subnet o) (gateway o) (dns o)
          (match srv with Some s => Some s | None => server_id o end)).
Proof.
  intros Hmt Hr Hs. unfold sent_options.
  destruct req as [ip|]; [apply proj1 in Hr; explode ip Hr|];
    (destruct srv as [sv|]; [apply proj1 in Hs; explode sv Hs|]);
    simpl app; reflexivity.
Qed.

Definition opt_len4 (o : option (list Z)) : Prop :=
  match o with Some ip => length ip = 4%nat | None => True end.

Lemma build_dhcp_msg_length op xid mac mt req srv :
  length mac = 6%nat → opt_len4 req → opt_len4 srv →
  (DHCP_MSG_SIZE ≤ length (build_dhcp_msg op xid mac mt req srv) ≤ 300)%nat.
Proof.
  intros Hm Hreq Hsrv. unfold build_dhcp_msg, DHCP_MSG_SIZE. cbv zeta.
  destruct req as [ip|], srv as [sv|]; simpl in Hreq, Hsrv;
    unfold MAGIC_COOKIE; rewrite length_app, length_replicate; len.
Qed.

(** The server identifier and the gateway taken from a reply are four bytes
    long. *)
Definition options_len4 (o : Options) : Prop := opt_len4 (server_id o) ∧ opt_len4 (gateway o).
Lemma parse_option_len4 opts i tag n o o' :
  parse_option opts i tag n o = Done o' → options_len4 o → options_len4 o'.
Proof.
  unfold parse_option. repeat case_decide; intros E [Hs Hg].
  6: by injection E as <-.
  all: apply outcome_bind_done in E as (v & Hv & E); injection E as <-; try (by split);
    unfold slice in Hv; (case_decide; [|done]); injection Hv as <-; split; simpl; try done; len.
Qed.

Lemma parse_options_len4 fuel opts i o o' :
  parse_options_from fuel opts i o = Done o' → options_len4 o → options_len4 o'.
Proof.
  revert i o. induction fuel as [|fuel IH]; intros i o; rewrite parse_options_eq;
    (case_decide; [|by intros [= <-]]); [done|].
  intros (tag & _ & E)%outcome_bind_done Ho.
  destruct (tag =? 0); [by eapply IH|]. destruct (tag =? 255); [by injection E as <-|].
  case_decide; [by injection E as <-|].
  apply outcome_bind_done in E as (n & _ & E). cbv zeta in E.
  case_decide; [by injection E as <-|].
  apply outcome_bind_done in E as (o1 & E1 & E). eapply IH; [exact E|].
  by eapply parse_option_len4.
Qed.

(** Every message the client sends is a well-formed DHCP message as the
    peer reads it: at least 240 bytes, the operation, transaction id, and
    hardware address where BOOTP has them, the magic cookie at 236, and the
    options decode to the message type and the server identifier given (the
    requested address is option 50). *)
Theorem dhcp_message_wellformed op xid mac mt req srv :
  mac_addr mac → fits 32 xid → byte mt → opt_addr req → opt_addr srv →
  let msg := build_dhcp_msg op xid mac mt req srv in
  (DHCP_MSG_SIZE ≤ length msg ≤ 300)%nat ∧
  index 0 msg = Done op ∧ be32 4 msg = Done xid ∧
  slice 28 34 msg = Done mac ∧ slice 236 240 msg = Done MAGIC_COOKIE ∧
  (∀ ip, req = Some ip → slice 243 249 msg = Done ([50; 4] ++ ip)) ∧
  parse_dhcp_options (drop 240 msg) = Done (mkOptions mt None None None srv).
Proof.
  intros Hmac Hxid Hmt Hreq Hsrv msg.
  assert (DHCP_MSG_SIZE ≤ length msg ≤ 300)%nat as Hlen.
  { apply build_dhcp_msg_length; [apply Hmac|by destruct req; [apply Hreq|]|
      by destruct srv; [apply Hsrv|]]. }
  destruct (build_dhcp_msg_layout op xid mac mt req srv Hmac) as [pad E].
  fold msg in E. destruct Hmac as [Hm _].
  set (zs := replicate 16 0) in E. assert (length zs = 16%nat) as Hz by done.
  set (zs' := replicate 202 0) in E. assert (length zs' = 202%nat) as Hz' by done.
  clearbody zs zs'. split; [done|]. split; [by rewrite E|]. split_and!.
  - apply (be32_at 4 [op; 1; 6; 0] _ xid _ E); done.
  - apply (slice_app_at 28 34 ([op; 1; 6; 0] ++ to_be 4 xid ++ [0; 0; 128; 0] ++ zs) _
      (zs' ++ MAGIC_COOKIE ++ sent_options mt req srv ++ pad)); len.
    by rewrite E, <- !app_assoc.
  - apply (slice_app_at 236 240
      ([op; 1; 6; 0] ++ to_be 4 xid ++ [0; 0; 128; 0] ++ zs ++ mac ++ zs') _
      (sent_options mt req srv ++ pad)); len.
    by rewrite E, <- !app_assoc.
  - intros ip ->. destruct Hreq as [Hip _].
    apply (slice_app_at 243 249
      ([op; 1; 6; 0] ++ to_be 4 xid ++ [0; 0; 128; 0] ++ zs ++ mac ++ zs' ++
       MAGIC_COOKIE ++ [53; 1; mt]) _
      (match srv with Some srv => [54; 4] ++ srv | None => [] end ++
       [55; 3; 1; 3; 6; 12; 2; 0x6f; 0x73; 255] ++ pad)); unfold MAGIC_COOKIE; len.
    rewrite E. unfold sent_options, MAGIC_COOKIE. by rewrite <- !app_assoc.
  - assert (drop 240 msg = sent_options mt req srv ++ pad) as ->.
    { rewrite E. rewrite !app_assoc. rewrite <- (app_assoc _ (sent_options _ _ _) pad).
      apply drop_app_length'. unfold MAGIC_COOKIE. len. }
    unfold parse_dhcp_options. rewrite parse_sent_options by done. by destruct srv.
Qed.

Lemma dhcp_message_wellformed_witness :
  mac_addr [1; 2; 3; 4; 5; 6] ∧ ipv4_addr [10; 0; 2; 9] ∧
  let msg := build_dhcp_msg 1 0xDEADBEEF [1; 2; 3; 4; 5; 6] 3 (Some [10; 0; 2; 9]) None in
  (DHCP_MSG_SIZE ≤ length msg ≤ 300)%nat ∧
  index 0 msg = Done 1 ∧ be32 4 msg = Done 0xDEADBEEF ∧
  slice 28 34 msg = Done [1; 2; 3; 4; 5; 6] ∧ slice 236 240 msg = Done MAGIC_COOKIE ∧
  (∀ ip, Some [10; 0; 2; 9] = Some ip → slice 243 249 msg = Done ([50; 4] ++ ip)) ∧
  parse_dhcp_options (drop 240 msg) = Done (mkOptions 3 None None None None).
Proof.
  assert (mac_addr [1; 2; 3; 4; 5; 6] ∧ ipv4_addr [10; 0; 2; 9]) as [H1 H2]
    by (split; refine (bool_decide_unpack _ _); by vm_compute).
  split; [done|]. split; [done|].
  apply (dhcp_message_wellformed 1 0xDEADBEEF _ 3 (Some [10; 0; 2; 9]) None);
    [done|by pow2|by pow2|done|done].
Defined.
End message_props.

(** ** What is accepted *)
Section accept_props.
(** The reply [data] belongs to the transaction: a BOOTREPLY of the right
    length with this transaction id, hardware address and cookie. *)
Record addressed_to (data : list Z) (xid : Z) (mac : list Z) : Prop := {
  at_length : (DHCP_MSG_SIZE ≤ length data)%nat;
  at_op : index 0 data = Done OP_BOOTREPLY;
  at_xid : be32 4 data = Done xid;
  at_mac : take_at 28 6 data = mac;
  at_cookie : take_at 236 4 data = MAGIC_COOKIE;
}.

Lemma take_at_slice i n (l : list Z) : (i + n ≤ length l)%nat →
  slice i (i + n) l = Done (take_at i n l).
Proof. intros. rewrite slice_done by lia. by rewrite Nat.add_sub'. Qed.

Lemma parse_dhcp_reply_runs data xid mac : bytes data →
  runs (parse_dhcp_reply data xid mac) (λ r, ∀ ya o, r = Some (ya, o) →
    addressed_to data xid mac ∧
    ya = (if decide (take_at 16 4 data = [0; 0; 0; 0]) then None
          else Some (take_at 16 4 data)) ∧
    parse_dhcp_options (drop 240 data) = Done o).
Proof.
  intros Hb. unfold parse_dhcp_reply. case_decide as Hlen; [by apply runs_ret|].
  unfold DHCP_MSG_SIZE in Hlen.
  destruct (index_lt 0 data) as (op & _ & Hop); [lia|]. rewrite Hop. cbn [mbind outcome_bind].
  destruct (Z.eqb_spec op OP_BOOTREPLY) as [->|]; simpl negb; cbv iota; [|by apply runs_ret].
  destruct (be32_total 4 data) as [x Hx]; [lia|]. rewrite Hx. cbn [mbind outcome_bind].
  destruct (Z.eqb_spec x xid) as [->|]; simpl negb; cbv iota; [|by apply runs_ret].
  rewrite (take_at_slice 28 6) by lia. cbn [mbind outcome_bind].
  case_decide as Hmac; [by apply runs_ret|].
  rewrite (take_at_slice 16 4) by lia. cbn [mbind outcome_bind]. cbv zeta.
  rewrite (decide_False (P := length data < 236 + 4)%nat) by lia.
  rewrite (take_at_slice 236 4) by lia. cbn [mbind outcome_bind].
  destruct (decide (take_at 236 4 data ≠ MAGIC_COOKIE)) as [|Hc]; [by apply runs_ret|].
  rewrite slice_done, CodecProps.drop_rest by lia. cbn [mbind outcome_bind].
  change (236 + 4)%nat with 240%nat.
  destruct (parse_options_spec (length (drop 240 data)) [] (drop 240 data) no_options)
    as (ts & _ & E); [by apply Forall_drop|done|].
  change (parse_dhcp_options (drop 240 data) = Done (foldl apply_option no_options ts)) in E.
  rewrite E.
  apply runs_ret. intros ya o [= <- <-]. split_and!.
  - constructor; [unfold DHCP_MSG_SIZE; lia|done..| |]; first [done | by apply dec_stable].
  - destruct (decide (take_at 16 4 data = [0; 0; 0; 0])) as [->|]; [done|].
    by rewrite decide_True.
  - done.
Qed.

Lemma accept_spec pkt mac xid : bytes pkt →
  ∃ r, accept pkt mac xid = Done r ∧ ∀ ya o, r = Some (ya, o) →
    ∃ eth ip udp,
      Ethernet.parse pkt = Done (Some eth) ∧ Ethernet.ethertype eth = 0x0800 ∧
      Ipv4.parse (Ethernet.payload eth) = Done (Some ip) ∧ Ipv4.protocol ip = 17 ∧
      Udp.parse (Ipv4.payload ip) = Done (Some udp) ∧ Udp.dst_port udp = 68 ∧
      addressed_to (Udp.payload udp) xid mac ∧
      (∀ a, ya = Some a → length a = 4%nat ∧ a = take_at 16 4 (Udp.payload udp)) ∧
      parse_dhcp_options (drop 240 (Udp.payload udp)) = Done o.
Proof.
  intros Hb. unfold accept.
  pose proof (CodecProps.ethernet_parse_runs pkt) as (eth & He & He')%runs_inv.
  rewrite He. cbn [mbind outcome_bind]. destruct eth as [eth|]; [|by eexists].
  destruct He' as [He' _].
  destruct (Z.eqb_spec (Ethernet.ethertype eth) Ethernet.ETHERTYPE_IPV4) as [Ht|];
    [|by eexists].
  pose proof (CodecProps.ipv4_parse_runs (Ethernet.payload eth)) as (ip & Hi & Hi')%runs_inv.
  rewrite Hi. cbn [mbind outcome_bind]. destruct ip as [ip|]; [|by eexists].
  destruct (Hi' ip eq_refl) as (_ & _ & Hip & _).
  destruct (Z.eqb_spec (Ipv4.protocol ip) 17) as [Hp|]; [|by eexists].
  pose proof (CodecProps.udp_parse_runs (Ipv4.payload ip)) as (udp & Hu & Hu')%runs_inv.
  rewrite Hu. cbn [mbind outcome_bind]. destruct udp as [udp|]; [|by eexists].
  destruct (Z.eqb_spec (Udp.dst_port udp) DHCP_CLIENT) as [Hd|]; [|by eexists].
  assert (bytes (Udp.payload udp)) as Hbu
    by (rewrite Hu', Hip, He'; by repeat apply Forall_drop).
  pose proof (parse_dhcp_reply_runs (Udp.payload udp) xid mac Hbu) as (r & Hr & Hr')%runs_inv.
  exists r. split; [done|]. intros ya o ->. destruct (Hr' ya o eq_refl) as (Ha & -> & Ho).
  exists eth, ip, udp. split_and!; try done.
  intros a Hya. case_decide; [done|]. injection Hya as <-. split; [|done].
  unfold take_at. pose proof (at_length _ _ _ Ha) as Hl. unfold DHCP_MSG_SIZE in Hl. len.
Qed.

(** The receive path takes a frame as the answer only if it is an IPv4
    frame carrying UDP to the client port with a BOOTREPLY for this
    transaction id and this hardware address; any other frame is dropped,
    and no frame makes it panic. *)
Theorem dhcp_accepts_only_own_replies pkt mac xid : bytes pkt →
  ∃ r, accept pkt mac xid = Done r ∧ ∀ ya o, r = Some (ya, o) →
    ∃ eth ip udp,
      Ethernet.parse pkt = Done (Some eth) ∧ Ethernet.ethertype eth = 0x0800 ∧
      Ipv4.parse (Ethernet.payload eth) = Done (Some ip) ∧ Ipv4.protocol ip = 17 ∧
      Udp.parse (Ipv4.payload ip) = Done (Some udp) ∧ Udp.dst_port udp = 68 ∧
      addressed_to (Udp.payload udp) xid mac ∧
      (∀ a, ya = Some a → length a = 4%nat ∧ a = take_at 16 4 (Udp.payload udp)) ∧
      parse_dhcp_options (drop 240 (Udp.payload udp)) = Done o.
Proof. apply accept_spec. Qed.

(** A server's reply to [mac], of type [mt] and with address [yi]. *)
Definition reply_frame (xid : Z) (mac yi : list Z) (mt : Z) : list Z :=
  let msg := build_dhcp_msg OP_BOOTREPLY xid mac mt None (Some [10; 0; 2; 2]) in
  mac ++ [2; 2; 2; 2; 2; 2; 8; 0] ++
  [0x45; 0; 1; 44; 0; 0; 0; 0; 64; 17; 0; 0; 10; 0; 2; 2] ++ yi ++
  [0; 67; 0; 68; 1; 24; 0; 0] ++ take 16 msg ++ yi ++ drop 20 msg.

Lemma dhcp_accepts_only_own_replies_witness :
  (∃ r, accept (reply_frame 7 [1; 2; 3; 4; 5; 6] [10; 0; 2; 15] 2)
           [1; 2; 3; 4; 5; 6] 7 = Done r ∧ ∀ ya o, r = Some (ya, o) →
    ∃ eth ip udp,
      Ethernet.parse (reply_frame 7 [1; 2; 3; 4; 5; 6] [10; 0; 2; 15] 2) =
        Done (Some eth) ∧ Ethernet.ethertype eth = 0x0800 ∧
      Ipv4.parse (Ethernet.payload eth) = Done (Some ip) ∧ Ipv4.protocol ip = 17 ∧
      Udp.parse (Ipv4.payload ip) = Done (Some udp) ∧ Udp.dst_port udp = 68 ∧
      addressed_to (Udp.payload udp) 7 [1; 2; 3; 4; 5; 6] ∧
      (∀ a, ya = Some a → length a = 4%nat ∧ a = take_at 16 4 (Udp.payload udp)) ∧
      parse_dhcp_options (drop 240 (Udp.payload udp)) = Done o) ∧
  accept (reply_frame 7 [1; 2; 3; 4; 5; 6] [10; 0; 2; 15] 2) [1; 2; 3; 4; 5; 6] 7 =
    Done (Some (Some [10; 0; 2; 15],
      mkOptions 2 None None None (Some [10; 0; 2; 2]))).
Proof.
  split; [|by vm_compute]. apply dhcp_accepts_only_own_replies.
  refine (bool_decide_unpack _ _). by vm_compute.
Defined.
End accept_props.

(** ** The transaction *)
Section transaction_props.
Context {D : Type} `{Nic D, !NicOk D, !Clock D}.
Implicit Types s : NetState D.

Definition up s : Z := uptime (dev s).

Definition same_config s s' : Prop := NET_CFG s' = NET_CFG s ∧ NET s' = NET s.

Lemma now_clock s : wp now (λ t s', same_config s s' ∧ frames s' = frames s ∧
    t = wrap 32 (up s') ∧ up s ≤ up s' ≤ up s + 1000 ∧
    ∀ d, up s' < d → (patience d (dev s') < patience d (dev s))%nat) s.
Proof.
  apply wp_zoom. eapply wp_mono; [apply wp_and; [apply millis_ok|apply millis_clock]|].
  intros t d [[Hs _] (Ht & Hu & Hp)]. done.
Qed.

Lemma poll_rx_clock' s : wp poll_rx (λ r s', same_config s s' ∧ frames s' = frames s ∧
    match r with Some f => bytes f | None => True end ∧
    up s ≤ up s' ≤ up s + 1000 ∧
    ∀ d, (patience d (dev s') ≤ patience d (dev s))%nat) s.
Proof.
  unfold poll_rx. apply wp_bind, wp_gets.
  destruct (kind (NET s)); try (apply wp_ret; split_and!; done || lia).
  apply wp_zoom. eapply wp_mono; [apply wp_and; [apply nic_poll_rx_ok|apply poll_rx_clock]|].
  intros t d [[Hs Hr] [Hu Hp]]. done.
Qed.

Lemma send_clock' f s : wp (send f) (λ r s', same_config s s' ∧
    frames s' = match r with Ok _ => frames s ++ [f] | Err _ => frames s end ∧
    up s ≤ up s' ≤ up s + 1000) s.
Proof.
  unfold send. apply wp_bind, wp_gets.
  destruct (kind (NET s)); try (apply wp_ret; split_and!; done || lia).
  apply wp_zoom. eapply wp_mono; [apply wp_and; [apply nic_send_ok|apply send_clock]|].
  intros r d [Hs Hu]. done.
Qed.

(** The result of a receive loop was accepted from some frame. *)
Definition received (mac : list Z) (xid : Z) r : Prop :=
  ∀ x, r = Some x → ∃ pkt, bytes pkt ∧ accept pkt mac xid = Done (Some x).

Lemma recv_until_wp (fuel : nat) dl mac xid s :
  (patience dl (dev s) ≤ fuel)%nat → 0 ≤ up s ≤ dl + 1000 → dl + 2000 < 2 ^ 32 →
  wp (recv_until fuel dl mac xid) (λ r s', same_config s s' ∧ frames s' = frames s ∧
    received mac xid r ∧ up s ≤ up s' ≤ dl + 2000) s.
Proof.
  revert s. induction fuel as [|fuel IH]; intros s Hf Hu Hdl; cbn [recv_until];
    apply wp_bind; (eapply wp_mono; [apply now_clock|]);
    intros t s1 ([Hc1 Hn1] & Hfr1 & -> & Hu1 & Hp1);
    rewrite wrap_id by (unfold fits; lia);
    (destruct (Z.ltb_spec (up s1) dl) as [Hlt|];
      [|apply wp_ret; repeat split; try done; lia]);
    specialize (Hp1 dl Hlt); [lia|].
  apply wp_bind. eapply wp_mono; [apply poll_rx_clock'|].
  intros r s2 ([Hc2 Hn2] & Hfr2 & Hr & Hu2 & Hp2). specialize (Hp2 dl).
  assert (wp (recv_until fuel dl mac xid) (λ r s', same_config s s' ∧ frames s' = frames s ∧
    received mac xid r ∧ up s ≤ up s' ≤ dl + 2000) s2) as Hrest.
  { eapply wp_mono; [apply IH; lia|]. intros r' s' ([? ?] & ? & ? & ?).
    repeat split; try congruence; try lia. done. }
  destruct r as [pkt|]; [|exact Hrest].
  destruct (accept_spec pkt mac xid Hr) as (r' & Hr' & _). apply wp_bind, wp_lift.
  rewrite Hr'. simpl. destruct r' as [x|]; [|exact Hrest].
  apply wp_ret. repeat split; try congruence; try lia. intros x' [= ->]. by exists pkt.
Qed.

(** More polls do not change a result. *)
Lemma recv_until_mono f f' dl mac xid s x : (f ≤ f')%nat →
  recv_until f dl mac xid s = Done x → recv_until f' dl mac xid s = Done x.
Proof.
  revert f' s. induction f as [|f IH]; intros f' s Hf; destruct f' as [|f']; try lia;
    cbn [recv_until]; unfold mbind, st_bind; destruct (now s) as [[t s1]| |]; try done;
    (destruct (t <? dl); [|done]); try done.
  destruct (poll_rx s1) as [[[pkt|] s2]| |]; try done; [|apply IH; lia].
  unfold lift. destruct (accept pkt mac xid) as [[r|]| |]; try done. apply IH. lia.
Qed.

Lemma send_and_recv_mono f f' payload mac xid s x : (f ≤ f')%nat →
  send_and_recv f payload mac xid s = Done x → send_and_recv f' payload mac xid s = Done x.
Proof.
  intros Hf. unfold send_and_recv, mbind, st_bind, lift.
  destruct (encapsulate payload mac) as [[frame|]| |]; try done.
  destruct (send frame s) as [[[] s1]| |]; try done.
  destruct (now s1) as [[t s2]| |]; try done. by apply recv_until_mono.
Qed.

Lemma send_and_recv_wp payload frame mac xid s :
  encapsulate payload mac = Done (Some frame) → 0 ≤ up s → up s + 9000 < 2 ^ 32 →
  ∃ fuel, ∀ n, (fuel ≤ n)%nat →
    wp (send_and_recv n payload mac xid) (λ r s', same_config s s' ∧
      received mac xid r ∧ 0 ≤ up s' ≤ up s + 9000 ∧
      match r with Some _ => frames s' = frames s ++ [frame] | None => True end) s.
Proof.
  intros He Hu0 Hu.
  pose proof (send_clock' frame s) as (r & s1 & E1 & [Hc1 Hn1] & Hf1 & Hu1)%wp_inv.
  pose proof (now_clock s1) as (t & s2 & E2 & [Hc2 Hn2] & Hf2 & Ht & Hu2 & _)%wp_inv.
  set (dl := up s2 + DHCP_TIMEOUT_MS). unfold DHCP_TIMEOUT_MS in dl.
  exists (patience dl (dev s2)). intros n Hn. unfold send_and_recv.
  apply wp_bind, wp_lift. rewrite He. simpl. apply wp_bind.
  eapply wp_done; [exact E1|]. destruct r as [[]|[]].
  2: { apply wp_ret. repeat split; try done; try lia. }
  apply wp_bind. eapply wp_done; [exact E2|].
  replace (wadd 64 t DHCP_TIMEOUT_MS) with dl.
  2: { unfold wadd, dl. rewrite Ht, !wrap_id; [done|unfold fits; lia|].
       rewrite wrap_id by (unfold fits; lia).
       unfold fits, DHCP_TIMEOUT_MS. change (2 ^ 64) with (2 ^ 32 * 2 ^ 32). lia. }
  eapply wp_mono; [apply recv_until_wp; lia|].
  intros r s' ([Hc Hn'] & Hf & Hr & Hu').
  repeat split; try congruence; try lia; [done|]. destruct r; [|done]. by rewrite Hf, Hf2.
Qed.

End transaction_props.

(** A server answering with an offer and an acknowledgement. *)
Definition dhcp_example : NetState Script :=
  mkNet None (mkStatus Rtl8139 true [1; 2; 3; 4; 5; 6] None)
    (mkScript [replicate 10 0;
               reply_frame 7 [1; 2; 3; 4; 5; 6] [10; 0; 2; 15] 2;
               reply_frame 8 [1; 2; 3; 4; 5; 6] [10; 0; 2; 99] 5;
               reply_frame 7 [1; 2; 3; 4; 5; 6] [10; 0; 2; 15] 5] 0 9 []).

