(* ===== verification/Tcp.v ===== *)
(** * TCP (src/src/drivers/net/tcp.rs)

    Connection table of four slots with the three-way handshake, data in both
    directions, the closing handshake and retransmission.  Handlers work on one
    connection ([&mut TcpConn]) and the network layer; the public functions
    pick the connection.  Log messages are not modelled. *)
From stdpp Require Import strings.
From S2P Require Import Prelude Words Hardware Packets Pci Net.
Local Open Scope Z_scope.

Definition TCP_PROTO : Z := 6.
Definition MSS : nat := 536.
Definition WINDOW : Z := 8192.
Definition RTO_MS : Z := 1000.
Definition MAX_RETRIES : Z := 3.
Definition MAX_CONNS : nat := 4.

Definition FIN : Z := 0x01.
Definition SYN : Z := 0x02.
Definition RST : Z := 0x04.
Definition PSH : Z := 0x08.
Definition ACK : Z := 0x10.

Inductive TcpState : Type :=
  | Closed | Listen | SynSent | SynReceived | Established
  | FinWait1 | FinWait2 | CloseWait | LastAck | TimeWait.
#[export] Instance TcpState_eq_dec : EqDecision TcpState.
Proof. solve_decision. Defined.

(** ** Headers *)

Definition tcp_checksum (src_ip dst_ip segment : list Z) : outcome Z :=
  w0 ← be16 0 src_ip; w1 ← be16 2 src_ip; w2 ← be16 0 dst_ip; w3 ← be16 2 dst_ip;
  let sum := wadd 32 (wadd 32 (wadd 32 (wadd 32 0 w0) w1) w2) w3 in
  let sum := wadd 32 (wadd 32 sum 6) (wrap 32 (length segment)) in
  Checksum.checksum_from sum segment.

Module TcpHeader.
Record TcpHeader := mkTcp {
  src_port : Z; dst_port : Z; seq : Z; ack : Z; data_offset : Z; flags : Z;
  window : Z; checksum : Z; urgent : Z; payload : list Z }.

Definition parse (data : list Z) : outcome (option TcpHeader) :=
  if decide (length data < 20)%nat then mret None else
  src_port ← be16 0 data;
  dst_port ← be16 2 data;
  seq ← be32 4 data;
  ack ← be32 8 data;
  b12 ← index 12 data;
  let data_offset := wrap 8 (Z.shiftr b12 4 * 4) in
  if decide (data_offset < 20 ∨ length data < data_offset) then mret None else
  b13 ← index 13 data;
  let flags := Z.land b13 0x3F in
  window ← be16 14 data;
  checksum ← be16 16 data;
  urgent ← be16 18 data;
  payload ← slice (Z.to_nat data_offset) (length data) data;
  mret (Some (mkTcp src_port dst_port seq ack data_offset flags window checksum
                    urgent payload)).

Definition build (src_port dst_port seq ack flags window : Z)
    (src_ip dst_ip payload out : list Z) : outcome (option nat * list Z) :=
  let hdr_len := 20%nat in
  let total := (hdr_len + length payload)%nat in
  if decide (length out < total)%nat then mret (None, out) else
  out ← put 0 2 (to_be 2 src_port) out;
  out ← put 2 4 (to_be 2 dst_port) out;
  out ← put 4 8 (to_be 4 seq) out;
  out ← put 8 12 (to_be 4 ack) out;
  out ← store 12 (wrap 8 (Z.shiftl (wrap 8 (hdr_len `div` 4)) 4)) out;
  out ← store 13 flags out;
  out ← put 14 16 (to_be 2 window) out;
  out ← put 16 18 [0; 0] out;
  out ← put 18 20 [0; 0] out;
  out ← put 20 total payload out;
  segment ← slice 0 total out;
  cksum ← tcp_checksum src_ip dst_ip segment;
  out ← put 16 18 (to_be 2 cksum) out;
  mret (Some total, out).
End TcpHeader.
Import TcpHeader(TcpHeader).

(** ** Connections *)

Record TcpConn := mkConn {
  state : TcpState;
  local_port : Z;
  remote_ip : list Z;
  remote_port : Z;
  local_seq : Z;
  remote_seq : Z;
  local_ack : Z;
  send_buf : list Z;
  send_len : nat;
  send_acked : Z;
  recv_buf : list Z;
  recv_len : nat;
  last_tx_time : Z;
  last_tx_seq : Z;
  last_tx_len : nat;
  last_tx_flags : Z;
  last_tx_payload : list Z;
  retries : Z;
  rto_ms : Z;
}.

Definition set_state v c : TcpConn :=
  mkConn v (local_port c) (remote_ip c) (remote_port c) (local_seq c) (remote_seq c)
    (local_ack c) (send_buf c) (send_len c) (send_acked c) (recv_buf c) (recv_len c)
    (last_tx_time c) (last_tx_seq c) (last_tx_len c) (last_tx_flags c) (last_tx_payload c)
    (retries c) (rto_ms c).
Definition set_local_port v c : TcpConn :=
  mkConn (state c) v (remote_ip c) (remote_port c) (local_seq c) (remote_seq c) (local_ack
    c) (send_buf c) (send_len c) (send_acked c) (recv_buf c) (recv_len c) (last_tx_time c)
    (last_tx_seq c) (last_tx_len c) (last_tx_flags c) (last_tx_payload c) (retries c)
    (rto_ms c).
Definition set_remote_ip v c : TcpConn :=
  mkConn (state c) (local_port c) v (remote_port c) (local_seq c) (remote_seq c)
    (local_ack c) (send_buf c) (send_len c) (send_acked c) (recv_buf c) (recv_len c)
    (last_tx_time c) (last_tx_seq c) (last_tx_len c) (last_tx_flags c) (last_tx_payload c)
    (retries c) (rto_ms c).
Definition set_remote_port v c : TcpConn :=
  mkConn (state c) (local_port c) (remote_ip c) v (local_seq c) (remote_seq c) (local_ack
    c) (send_buf c) (send_len c) (send_acked c) (recv_buf c) (recv_len c) (last_tx_time c)
    (last_tx_seq c) (last_tx_len c) (last_tx_flags c) (last_tx_payload c) (retries c)
    (rto_ms c).
Definition set_local_seq v c : TcpConn :=
  mkConn (state c) (local_port c) (remote_ip c) (remote_port c) v (remote_seq c)
    (local_ack c) (send_buf c) (send_len c) (send_acked c) (recv_buf c) (recv_len c)
    (last_tx_time c) (last_tx_seq c) (last_tx_len c) (last_tx_flags c) (last_tx_payload c)
    (retries c) (rto_ms c).
Definition set_remote_seq v c : TcpConn :=
  mkConn (state c) (local_port c) (remote_ip c) (remote_port c) (local_seq c) v (local_ack
    c) (send_buf c) (send_len c) (send_acked c) (recv_buf c) (recv_len c) (last_tx_time c)
    (last_tx_seq c) (last_tx_len c) (last_tx_flags c) (last_tx_payload c) (retries c)
    (rto_ms c).
Definition set_local_ack v c : TcpConn :=
  mkConn (state c) (local_port c) (remote_ip c) (remote_port c) (local_seq c) (remote_seq
    c) v (send_buf c) (send_len c) (send_acked c) (recv_buf c) (recv_len c) (last_tx_time
    c) (last_tx_seq c) (last_tx_len c) (last_tx_flags c) (last_tx_payload c) (retries c)
    (rto_ms c).
Definition set_send_buf v c : TcpConn :=
  mkConn (state c) (local_port c) (remote_ip c) (remote_port c) (local_seq c) (remote_seq
    c) (local_ack c) v (send_len c) (send_acked c) (recv_buf c) (recv_len c) (last_tx_time
    c) (last_tx_seq c) (last_tx_len c) (last_tx_flags c) (last_tx_payload c) (retries c)
    (rto_ms c).
Definition set_send_len v c : TcpConn :=
  mkConn (state c) (local_port c) (remote_ip c) (remote_port c) (local_seq c) (remote_seq
    c) (local_ack c) (send_buf c) v (send_acked c) (recv_buf c) (recv_len c) (last_tx_time
    c) (last_tx_seq c) (last_tx_len c) (last_tx_flags c) (last_tx_payload c) (retries c)
    (rto_ms c).
Definition set_send_acked v c : TcpConn :=
  mkConn (state c) (local_port c) (remote_ip c) (remote_port c) (local_seq c) (remote_seq
    c) (local_ack c) (send_buf c) (send_len c) v (recv_buf c) (recv_len c) (last_tx_time
    c) (last_tx_seq c) (last_tx_len c) (last_tx_flags c) (last_tx_payload c) (retries c)
    (rto_ms c).
Definition set_recv_buf v c : TcpConn :=
  mkConn (state c) (local_port c) (remote_ip c) (remote_port c) (local_seq c) (remote_seq
    c) (local_ack c) (send_buf c) (send_len c) (send_acked c) v (recv_len c) (last_tx_time
    c) (last_tx_seq c) (last_tx_len c) (last_tx_flags c) (last_tx_payload c) (retries c)
    (rto_ms c).
Definition set_recv_len v c : TcpConn :=
  mkConn (state c) (local_port c) (remote_ip c) (remote_port c) (local_seq c) (remote_seq
    c) (local_ack c) (send_buf c) (send_len c) (send_acked c) (recv_buf c) v (last_tx_time
    c) (last_tx_seq c) (last_tx_len c) (last_tx_flags c) (last_tx_payload c) (retries c)
    (rto_ms c).
Definition set_last_tx_time v c : TcpConn :=
  mkConn (state c) (local_port c) (remote_ip c) (remote_port c) (local_seq c) (remote_seq
    c) (local_ack c) (send_buf c) (send_len c) (send_acked c) (recv_buf c) (recv_len c) v
    (last_tx_seq c) (last_tx_len c) (last_tx_flags c) (last_tx_payload c) (retries c)
    (rto_ms c).
Definition set_last_tx_seq v c : TcpConn :=
  mkConn (state c) (local_port c) (remote_ip c) (remote_port c) (local_seq c) (remote_seq
    c) (local_ack c) (send_buf c) (send_len c) (send_acked c) (recv_buf c) (recv_len c)
    (last_tx_time c) v (last_tx_len c) (last_tx_flags c) (last_tx_payload c) (retries c)
    (rto_ms c).
Definition set_last_tx_len v c : TcpConn :=
  mkConn (state c) (local_port c) (remote_ip c) (remote_port c) (local_seq c) (remote_seq
    c) (local_ack c) (send_buf c) (send_len c) (send_acked c) (recv_buf c) (recv_len c)
    (last_tx_time c) (last_tx_seq c) v (last_tx_flags c) (last_tx_payload c) (retries c)
    (rto_ms c).
Definition set_last_tx_flags v c : TcpConn :=
  mkConn (state c) (local_port c) (remote_ip c) (remote_port c) (local_seq c) (remote_seq
    c) (local_ack c) (send_buf c) (send_len c) (send_acked c) (recv_buf c) (recv_len c)
    (last_tx_time c) (last_tx_seq c) (last_tx_len c) v (last_tx_payload c) (retries c)
    (rto_ms c).
Definition set_last_tx_payload v c : TcpConn :=
  mkConn (state c) (local_port c) (remote_ip c) (remote_port c) (local_seq c) (remote_seq
    c) (local_ack c) (send_buf c) (send_len c) (send_acked c) (recv_buf c) (recv_len c)
    (last_tx_time c) (last_tx_seq c) (last_tx_len c) (last_tx_flags c) v (retries c)
    (rto_ms c).
Definition set_retries v c : TcpConn :=
  mkConn (state c) (local_port c) (remote_ip c) (remote_port c) (local_seq c) (remote_seq
    c) (local_ack c) (send_buf c) (send_len c) (send_acked c) (recv_buf c) (recv_len c)
    (last_tx_time c) (last_tx_seq c) (last_tx_len c) (last_tx_flags c) (last_tx_payload c)
    v (rto_ms c).
Definition set_rto_ms v c : TcpConn :=
  mkConn (state c) (local_port c) (remote_ip c) (remote_port c) (local_seq c) (remote_seq
    c) (local_ack c) (send_buf c) (send_len c) (send_acked c) (recv_buf c) (recv_len c)
    (last_tx_time c) (last_tx_seq c) (last_tx_len c) (last_tx_flags c) (last_tx_payload c)
    (retries c) v.

Definition new : TcpConn :=
  mkConn Closed 0 (replicate 4 0) 0 0 0 0 (replicate 1024 0) 0 0 (replicate 4096 0) 0
    0 0 0 0 (replicate MSS 0) 0 RTO_MS.

Definition closed (c : TcpConn) : bool :=
  match state c with Closed | TimeWait => true | _ => false end.

Definition seq_lt (a b : Z) : bool := wsub 32 b a <? 0x80000000.
Definition seq_le (a b : Z) : bool := (a =? b) || seq_lt a b.

(** [flags & bits != 0] *)
Definition has (flags bits : Z) : bool := negb (Z.land flags bits =? 0).

(** The connection table and the network layer below. *)
Record Tcp (D : Type) := mkTcpState { CONNS : list TcpConn; net : NetState D }.
Arguments mkTcpState {D}.
Arguments CONNS {D}.
Arguments net {D}.

Section ops.
Context {D : Type} `{Nic D}.
Abbreviation C := (ST (TcpConn * NetState D)).
Abbreviation T := (ST (Tcp D)).

Definition on_net {A} (m : ST (NetState D) A) : C A :=
  zoom snd (λ n s, (fst s, n)) m.
Definition conn : C TcpConn := gets fst.
Definition update (f : TcpConn → TcpConn) : C unit := modify (λ s, (f (fst s), snd s)).

Definition isn : ST (NetState D) Z := t ← now; mret (wrap 32 t).

(** The ARP request is sent, but nobody waits for an answer: the address is
    always the broadcast address. *)
Definition resolve_mac (ip : list Z) : ST (NetState D) (list Z) :=
  st ← status;
  '(len, arp_buf) ←
    lift (Arp.build_request (mac st) [10; 0; 2; 15] ip (replicate 28 0));
  match len with
  | None => mret (replicate 6 0xFF)
  | Some len =>
      arp ← lift (slice 0 len arp_buf);
      '(eth_len, eth_buf) ←
        lift (Ethernet.build (replicate 6 0xFF) (mac st) 0x0806 arp
                (replicate (14 + 28) 0));
      match eth_len with
      | None => mret (replicate 6 0xFF)
      | Some eth_len =>
          frame ← lift (slice 0 eth_len eth_buf);
          send frame ;;
          mret (replicate 6 0xFF)
      end
  end.

(** The segment is remembered for retransmission. *)
Definition remember_tx (flags : Z) (payload : list Z) : C unit :=
  t ← on_net now;
  update (set_last_tx_time t) ;;
  c ← conn;
  update (set_last_tx_seq (local_seq c)) ;;
  update (set_last_tx_len (length payload)) ;;
  update (set_last_tx_flags flags) ;;
  let copy_len := (length payload `min` MSS)%nat in
  src ← lift (slice 0 copy_len payload);
  c ← conn;
  p ← lift (put 0 copy_len src (last_tx_payload c));
  update (set_last_tx_payload p).

(** IP and Ethernet around a TCP segment, and out. *)
Definition transmit (src_ip tcp_bytes : list Z) : C unit :=
  c ← conn;
  '(ip_hdr_len, ip_buf) ←
    lift (Ipv4.build src_ip (remote_ip c) TCP_PROTO (wrap 16 (length tcp_bytes))
            (replicate (20 + 20 + MSS) 0));
  match ip_hdr_len with
  | None => mret tt
  | Some ip_hdr_len =>
      let ip_total := (ip_hdr_len + length tcp_bytes)%nat in
      ip_buf ← lift (put ip_hdr_len ip_total tcp_bytes ip_buf);
      cfg ← on_net get_config;
      let dst_ip := match cfg with Some c => gateway c | None => [10; 0; 2; 2] end in
      dst_mac ← on_net (resolve_mac dst_ip);
      st ← on_net status;
      ip_bytes ← lift (slice 0 ip_total ip_buf);
      '(eth_len, eth_buf) ←
        lift (Ethernet.build dst_mac (mac st) 0x0800 ip_bytes
                (replicate (14 + 20 + 20 + MSS) 0));
      match eth_len with
      | None => mret tt
      | Some eth_len =>
          frame ← lift (slice 0 eth_len eth_buf);
          on_net (send frame) ;;
          mret tt
      end
  end.

Definition send_segment_raw (flags : Z) (payload : list Z) : C unit :=
  cfg ← on_net get_config;
  match cfg with
  | None => mret tt
  | Some cfg =>
      c ← conn;
      '(tcp_len, tcp_buf) ←
        lift (TcpHeader.build (local_port c) (remote_port c) (local_seq c) (local_ack c)
                flags WINDOW (ip cfg) (remote_ip c) payload (replicate (20 + MSS) 0));
      match tcp_len with
      | None => mret tt
      | Some tcp_len =>
          (if has flags (Z.lor SYN FIN) || negb (bool_decide (payload = []))
           then remember_tx flags payload else mret tt) ;;
          tcp_bytes ← lift (slice 0 tcp_len tcp_buf);
          transmit (ip cfg) tcp_bytes
      end
  end.

Definition send_segment (flags : Z) (payload : list Z) : C unit :=
  let consumed :=
    wadd 32 (wadd 32 (if has flags SYN then 1 else 0) (if has flags FIN then 1 else 0))
            (wrap 32 (length payload)) in
  update (λ c, set_local_seq (wadd 32 (local_seq c) consumed) c) ;;
  send_segment_raw flags payload.

Definition flush_send : C unit :=
  c ← conn;
  if decide (send_len c = 0%nat) then mret tt else
  let to_send := (send_len c `min` MSS)%nat in
  src ← lift (slice 0 to_send (send_buf c));
  payload_buf ← lift (put 0 to_send src (replicate MSS 0));
  payload ← lift (slice 0 to_send payload_buf);
  send_segment (Z.lor PSH ACK) payload.

Definition check_retransmit : C unit :=
  c ← conn;
  if MAX_RETRIES <=? retries c then
    send_segment_raw (Z.lor RST ACK) [] ;;
    update (λ _, new)
  else
    t ← on_net now;
    if rto_ms c <=? wsub 64 t (last_tx_time c) then
      let plen := last_tx_len c in
      src ← lift (slice 0 plen (last_tx_payload c));
      payload_buf ← lift (put 0 plen src (replicate MSS 0));
      payload ← lift (slice 0 plen payload_buf);
      send_segment_raw (last_tx_flags c) payload ;;
      update (λ c, set_retries (wadd 8 (retries c) 1) c) ;;
      update (λ c, set_rto_ms (wrap 64 (rto_ms c * 2)) c) ;;
      t ← on_net now;
      update (set_last_tx_time t)
    else mret tt.

(** ** Segment processing *)

Definition handle_listen (hdr : TcpHeader) : C unit :=
  if negb (has (TcpHeader.flags hdr) SYN) then mret tt else
  update (set_remote_seq (wadd 32 (TcpHeader.seq hdr) 1)) ;;
  update (set_local_ack (wadd 32 (TcpHeader.seq hdr) 1)) ;;
  update (set_state SynReceived) ;;
  send_segment (Z.lor SYN ACK) [].

Definition handle_syn_sent (hdr : TcpHeader) : C unit :=
  if negb (Z.land (TcpHeader.flags hdr) (Z.lor SYN ACK) =? Z.lor SYN ACK) then mret tt else
  c ← conn;
  if negb (TcpHeader.ack hdr =? local_seq c) then mret tt else
  update (set_remote_seq (wadd 32 (TcpHeader.seq hdr) 1)) ;;
  update (set_local_ack (wadd 32 (TcpHeader.seq hdr) 1)) ;;
  update (set_state Established) ;;
  update (set_retries 0) ;;
  update (set_rto_ms RTO_MS) ;;
  send_segment_raw ACK [] ;;
  flush_send.

Definition handle_syn_received (hdr : TcpHeader) : C unit :=
  if negb (has (TcpHeader.flags hdr) ACK) then mret tt else
  c ← conn;
  if negb (TcpHeader.ack hdr =? local_seq c) then mret tt else
  update (set_state Established) ;;
  update (set_retries 0) ;;
  update (set_rto_ms RTO_MS).

(** Acknowledged bytes leave the send buffer. *)
Definition process_ack (ack : Z) : C unit :=
  c ← conn;
  let acked_start := wsub 32 (local_seq c) (wrap 32 (send_len c)) in
  if seq_lt acked_start ack || (ack =? local_seq c) then
    update (set_retries 0) ;;
    update (set_rto_ms RTO_MS) ;;
    let acked := wsub 32 ack acked_start in
    let acked := if wrap 32 (send_len c) <? acked then wrap 32 (send_len c) else acked in
    (if 0 <? acked then
       let a := Z.to_nat acked in
       b ← lift (copy_within0 a (send_len c) (send_buf c));
       update (set_send_buf b) ;;
       update (λ c, set_send_len (send_len c - a)%nat c)
     else mret tt) ;;
    update (set_send_acked ack) ;;
    flush_send
  else mret tt.

(** Payload behind what is already in the receive buffer, as far as it fits;
    [remote_seq] advances by the whole payload. *)
Definition store_payload (payload : list Z) : C unit :=
  c ← conn;
  let n := (length payload `min` (length (recv_buf c) - recv_len c))%nat in
  src ← lift (slice 0 n payload);
  b ← lift (put (recv_len c) (recv_len c + n) src (recv_buf c));
  update (set_recv_buf b) ;;
  update (λ c, set_recv_len (recv_len c + n)%nat c) ;;
  update (λ c, set_remote_seq (wadd 32 (remote_seq c) (wrap 32 (length payload))) c).

Definition ack_remote : C unit :=
  update (λ c, set_local_ack (remote_seq c) c) ;;
  send_segment_raw ACK [].

Definition consume_fin : C unit :=
  update (λ c, set_remote_seq (wadd 32 (remote_seq c) 1) c) ;;
  ack_remote.

Definition handle_established (hdr : TcpHeader) : C unit :=
  (if has (TcpHeader.flags hdr) ACK then process_ack (TcpHeader.ack hdr) else mret tt) ;;
  c ← conn;
  let payload := TcpHeader.payload hdr in
  let fin :=
    if has (TcpHeader.flags hdr) FIN then
      consume_fin ;;
      update (set_state CloseWait)
    else mret tt in
  if bool_decide (payload = []) then fin
  else if negb (TcpHeader.seq hdr =? remote_seq c) then send_segment_raw ACK []
  else
    store_payload payload ;;
    ack_remote ;;
    fin.

Definition enter_time_wait : C unit :=
  consume_fin ;;
  update (set_state TimeWait) ;;
  t ← on_net now;
  update (set_last_tx_time t).

(** Data in the closing states: taken if in order. *)
Definition late_payload (hdr : TcpHeader) : C bool :=
  c ← conn;
  if negb (bool_decide (TcpHeader.payload hdr = [])) && (TcpHeader.seq hdr =? remote_seq c)
  then store_payload (TcpHeader.payload hdr) ;; mret true
  else mret false.

Definition handle_fin_wait1 (hdr : TcpHeader) : C unit :=
  (if has (TcpHeader.flags hdr) ACK then
     if has (TcpHeader.flags hdr) FIN then enter_time_wait
     else update (set_state FinWait2)
   else mret tt) ;;
  late_payload hdr ;;
  mret tt.

Definition handle_fin_wait2 (hdr : TcpHeader) : C unit :=
  (if has (TcpHeader.flags hdr) FIN then enter_time_wait else mret tt) ;;
  late_payload hdr ;;
  mret tt.

Definition handle_close_wait (hdr : TcpHeader) : C unit :=
  stored ← late_payload hdr;
  (if (stored : bool) then ack_remote else mret tt) ;;
  if has (TcpHeader.flags hdr) FIN then ack_remote else mret tt.

Definition handle_last_ack (hdr : TcpHeader) : C unit :=
  if has (TcpHeader.flags hdr) ACK then update (set_state Closed) else mret tt.

Definition process_segment (hdr : TcpHeader) : C unit :=
  c ← conn;
  match state c with
  | Listen => handle_listen hdr
  | SynSent => handle_syn_sent hdr
  | SynReceived => handle_syn_received hdr
  | Established => handle_established hdr
  | FinWait1 => handle_fin_wait1 hdr
  | FinWait2 => handle_fin_wait2 hdr
  | CloseWait => handle_close_wait hdr
  | LastAck => handle_last_ack hdr
  | Closed | TimeWait => mret tt
  end.

(** ** The table *)

(** [&mut conns[i]] *)
Definition on_conn {A} (i : nat) (m : C A) : T A := λ s,
  match CONNS s !! i with
  | None => Panic
  | Some c =>
      match m (c, net s) with
      | Done (a, (c', n')) => Done (a, mkTcpState (<[i := c']> (CONNS s)) n')
      | Panic => Panic
      | Diverge => Diverge
      end
  end.

(** [conns.iter().position(...)] *)
Fixpoint position (p : TcpConn → bool) (l : list TcpConn) : option nat :=
  match l with
  | [] => None
  | c :: l => if p c then Some 0%nat else S <$> position p l
  end.

Definition is_closed (c : TcpConn) : bool := bool_decide (state c = Closed).

Definition listen_body (port : Z) : C unit :=
  update (set_state Listen) ;;
  update (set_local_port port) ;;
  update (set_remote_ip (replicate 4 0)) ;;
  update (set_remote_port 0) ;;
  q ← on_net isn;
  update (set_local_seq q) ;;
  update (set_remote_seq 0) ;;
  update (set_local_ack 0).

Definition listen (port : Z) : T (result unit string) :=
  s ← get;
  match position is_closed (CONNS s) with
  | None => mret (Err "no free connection slots"%string)
  | Some i =>
      on_conn i (listen_body port) ;;
      mret (Ok tt)
  end.

Definition connect_body (local_port : Z) (remote_ip : list Z) (remote_port : Z) : C unit :=
  update (set_state SynSent) ;;
  update (set_local_port local_port) ;;
  update (set_remote_ip remote_ip) ;;
  update (set_remote_port remote_port) ;;
  q ← on_net isn;
  update (set_local_seq q) ;;
  update (set_remote_seq 0) ;;
  update (set_local_ack 0) ;;
  update (set_retries 0) ;;
  update (set_rto_ms RTO_MS) ;;
  send_segment SYN [].

Definition connect (local_port : Z) (remote_ip : list Z) (remote_port : Z) :
    T (result nat string) :=
  s ← get;
  match position is_closed (CONNS s) with
  | None => mret (Err "no free connection slots"%string)
  | Some i =>
      on_conn i (connect_body local_port remote_ip remote_port) ;;
      mret (Ok i)
  end.

(** [conns.get_mut(idx).ok_or("invalid connection index")?] *)
Definition with_conn {A} (idx : nat) (m : C (result A string)) : T (result A string) :=
  s ← get;
  if decide (idx < length (CONNS s))%nat then on_conn idx m
  else mret (Err "invalid connection index"%string).

Definition send_body (data : list Z) : C (result nat string) :=
  c ← conn;
  if decide (state c ≠ Established ∧ state c ≠ CloseWait)
  then mret (Err "connection not established"%string) else
  let to_copy := (length data `min` (length (send_buf c) - send_len c))%nat in
  if decide (to_copy = 0%nat) then mret (Err "send buffer full"%string) else
  src ← lift (slice 0 to_copy data);
  b ← lift (put (send_len c) (send_len c + to_copy) src (send_buf c));
  update (set_send_buf b) ;;
  update (λ c, set_send_len (send_len c + to_copy)%nat c) ;;
  flush_send ;;
  mret (Ok to_copy).

Definition send (idx : nat) (data : list Z) : T (result nat string) :=
  with_conn idx (send_body data).

(** Returns the caller's buffer, too. *)
Definition recv_body (buf : list Z) : C (result (nat * list Z) string) :=
  c ← conn;
  if decide (recv_len c = 0%nat) then mret (Ok (0%nat, buf)) else
  let n := (recv_len c `min` length buf)%nat in
  src ← lift (slice 0 n (recv_buf c));
  buf ← lift (put 0 n src buf);
  (if decide (n < recv_len c)%nat then
     b ← lift (copy_within0 n (recv_len c) (recv_buf c));
     update (set_recv_buf b)
   else mret tt) ;;
  update (λ c, set_recv_len (recv_len c - n)%nat c) ;;
  mret (Ok (n, buf)).

Definition recv (idx : nat) (buf : list Z) : T (result (nat * list Z) string) :=
  with_conn idx (recv_body buf).

Definition close_body : C (result unit string) :=
  c ← conn;
  match state c with
  | Established =>
      flush_send ;;
      update (set_state FinWait1) ;;
      send_segment (Z.lor FIN ACK) [] ;;
      mret (Ok tt)
  | CloseWait =>
      update (set_state LastAck) ;;
      send_segment (Z.lor FIN ACK) [] ;;
      mret (Ok tt)
  | _ => mret (Err "connection not in closable state"%string)
  end.

Definition close (idx : nat) : T (result unit string) := with_conn idx close_body.

Definition conn_status (idx : nat) :
    T (result (TcpState * Z * list Z * Z * nat) string) :=
  with_conn idx (
    c ← conn;
    mret (Ok (state c, local_port c, remote_ip c, remote_port c, recv_len c))).

Definition list_conns : T (list (nat * TcpState * Z * list Z * Z)) :=
  s ← get;
  mret (concat (imap (λ i c,
    if closed c then []
    else [(i, state c, local_port c, remote_ip c, remote_port c)]) (CONNS s))).

Definition matches (src_ip : list Z) (hdr : TcpHeader) (c : TcpConn) : bool :=
  bool_decide (state c ≠ Closed) && bool_decide (state c ≠ TimeWait)
  && (local_port c =? TcpHeader.dst_port hdr)
  && (bool_decide (remote_ip c = replicate 4 0) || bool_decide (remote_ip c = src_ip))
  && ((remote_port c =? 0) || (remote_port c =? TcpHeader.src_port hdr)).

Definition receive_body (src_ip : list Z) (hdr : TcpHeader) : C unit :=
  update (λ c, if decide (remote_ip c = replicate 4 0) then set_remote_ip src_ip c else c) ;;
  update (λ c, if remote_port c =? 0 then set_remote_port (TcpHeader.src_port hdr) c else c) ;;
  if has (TcpHeader.flags hdr) RST then update (λ _, new)
  else process_segment hdr.

Definition receive (src_ip dst_ip data : list Z) : T unit :=
  hdr ← lift (TcpHeader.parse data);
  match hdr with
  | None => mret tt
  | Some hdr =>
      s ← get;
      match position (matches src_ip hdr) (CONNS s) with
      | None => mret tt
      | Some i => on_conn i (receive_body src_ip hdr)
      end
  end.

Definition poll_body (t : Z) : C unit :=
  c ← conn;
  match state c with
  | SynSent | SynReceived => check_retransmit
  | Established | CloseWait =>
      if decide (0 < send_len c)%nat then flush_send else mret tt
  | FinWait1 | LastAck => check_retransmit
  | TimeWait =>
      if 60000 <=? wsub 64 t (last_tx_time c) then update (set_state Closed) else mret tt
  | _ => mret tt
  end.

(** [for conn in conns.iter_mut()] *)
Fixpoint poll_from (n i : nat) (t : Z) : T unit :=
  match n with
  | O => mret tt
  | S n => on_conn i (poll_body t) ;; poll_from n (S i) t
  end.

Definition on_network {A} (m : ST (NetState D) A) : T A :=
  zoom net (λ n s, mkTcpState (CONNS s) n) m.

Definition poll : T unit :=
  t ← on_network now;
  s ← get;
  poll_from (length (CONNS s)) 0 t.

(** ** Dispatch (src/src/drivers/net/mod.rs, [poll_and_dispatch]) *)

Definition dispatch (pkt : list Z) : T unit :=
  eth ← lift (Ethernet.parse pkt);
  match eth with
  | None => mret tt
  | Some eth =>
    if Ethernet.ethertype eth =? Ethernet.ETHERTYPE_IPV4 then
      packet ← lift (Ipv4.parse (Ethernet.payload eth));
      match packet with
      | None => mret tt
      | Some p =>
          cfg ← on_network get_config;
          let my_ip := match cfg with Some c => ip c | None => [10; 0; 2; 15] end in
          if bool_decide (Ipv4.dst p ≠ my_ip) && bool_decide (Ipv4.dst p ≠ [255; 255; 255; 255])
          then mret tt
          else if Ipv4.protocol p =? 6
          then receive (Ipv4.src p) (Ipv4.dst p) (Ipv4.payload p)
          else mret tt
      end
    else mret tt
  end.

(** Ends when the card has no more packets; [fuel] bounds their number. *)
Fixpoint drain (fuel : nat) : T unit :=
  pkt ← on_network poll_rx;
  match pkt with
  | None => mret tt
  | Some pkt =>
      match fuel with
      | O => diverge
      | S fuel => dispatch pkt ;; drain fuel
      end
  end.

Definition poll_and_dispatch (fuel : nat) : T unit := drain fuel ;; poll.
End ops.
