(* ===== verification/TcpSegments.v ===== *)
(** * TCP segments on the wire

    The header codec of src/src/drivers/net/tcp.rs: layout, checksum, round
    trip. *)
From S2P Require Import Prelude Words Hardware Packets Pci Net Tcp.
Local Open Scope Z_scope.

Section codec.
Definition header (sp dp seq ack flags window ck : Z) : list Z :=
  to_be 2 sp ++ to_be 2 dp ++ to_be 4 seq ++ to_be 4 ack ++ [0x50; flags] ++
  to_be 2 window ++ to_be 2 ck ++ [0; 0].

Lemma tcp_length_header sp dp seq ack flags window ck :
  length (header sp dp seq ack flags window ck) = 20%nat.
Proof. unfold header. len. Qed.

Lemma tcp_bytes_header sp dp seq ack flags window ck : byte flags →
  bytes (header sp dp seq ack flags window ck).
Proof.
  intros. unfold header.
  repeat first [ apply Forall_app; split | apply Forall_cons; split ];
    auto with words; by pow2.
Qed.

Lemma to_be_4 z : to_be 4 z =
  [wrap 8 (Z.shiftr (Z.shiftr (Z.shiftr z 8) 8) 8); wrap 8 (Z.shiftr (Z.shiftr z 8) 8);
   wrap 8 (Z.shiftr z 8); wrap 8 z].
Proof. done. Qed.

Lemma tcp_words_sum_header sp dp seq ack flags window ck p : fits 16 ck →
  Checksum.words_sum (header sp dp seq ack flags window ck ++ p) =
  Checksum.words_sum (header sp dp seq ack flags window 0 ++ p) + ck.
Proof.
  intros Hck. unfold header. rewrite !to_be_2, !to_be_4. simpl.
  pose proof (from_be_2 ck Hck) as H. unfold from_be in H. simpl in H.
  change (wrap 8 (Z.shiftr 0 8)) with 0. change (wrap 8 0) with 0. lia.
Qed.

(** The pseudo-header's contribution to the sum. *)
Definition pseudo_sum (src dst : list Z) (n : nat) : Z :=
  Checksum.words_sum src + Checksum.words_sum dst + 6 + n.

Lemma tcp_checksum_eq src dst seg : ipv4_addr src → ipv4_addr dst →
  length seg ≤ 65535 →
  tcp_checksum src dst seg = Checksum.checksum_from (pseudo_sum src dst (length seg)) seg ∧
  0 < pseudo_sum src dst (length seg) ≤ 400000.
Proof.
  intros [Hs Hbs] [Hd Hbd] Hlen. explode src Hs. explode dst Hd.
  unfold tcp_checksum, pseudo_sum, be16, from_be. simpl.
  rewrite !Forall_cons in Hbs, Hbd. destruct_and!.
  pow2. unfold wadd. split; [|lia].
  f_equal. unfold wrap. pow2. Z.to_euclidean_division_equations. lia.
Qed.

Lemma tcp_checksum_returns src dst seg : length src = 4%nat → length dst = 4%nat →
  ∃ ck, tcp_checksum src dst seg = Done ck.
Proof.
  intros Hs Hd. explode src Hs. explode dst Hd. unfold tcp_checksum, be16. simpl.
  apply ChecksumProps.checksum_returns. by apply wadd_fits.
Qed.

(** Only the lengths matter for what is written where. *)
Lemma tcp_build_layout sp dp seq ack flags window src dst payload out :
  length src = 4%nat → length dst = 4%nat → (20 + length payload ≤ length out)%nat →
  ∃ ck, TcpHeader.build sp dp seq ack flags window src dst payload out =
    Done (Some (20 + length payload)%nat,
          (header sp dp seq ack flags window ck ++ payload) ++
          drop (20 + length payload) out).
Proof.
  intros Hs Hd Hout. set (h := header sp dp seq ack flags window 0 ++ payload).
  assert (length h = (20 + length payload)%nat) as Hl
    by (unfold h; rewrite length_app, tcp_length_header; lia).
  destruct (tcp_checksum_returns src dst h Hs Hd) as [ck Hck]. exists ck.
  unfold TcpHeader.build. cbv zeta. rewrite decide_False by lia.
  change out with ([] ++ out) at 1. fill.
  rewrite slice_take, take_app_length' by buf_len. cbn [mbind outcome_bind].
  match goal with |- context [tcp_checksum src dst ?l] =>
    replace l with h by (unfold h, header; by rewrite <- !app_assoc) end.
  rewrite Hck. cbn [mbind outcome_bind]. rewrite Nat.sub_0_r.
  clear. unfold h, header. rewrite !to_be_2, !to_be_4. cbn [app]. run_buf. done.
Qed.

Lemma tcp_build_done sp dp seq ack flags window src dst payload out :
  ipv4_addr src → ipv4_addr dst → byte flags → bytes payload →
  20 + length payload ≤ 65535 → (20 + length payload ≤ length out)%nat →
  ∃ ck, fits 16 ck ∧
    tcp_checksum src dst (header sp dp seq ack flags window ck ++ payload) = Done 0 ∧
    TcpHeader.build sp dp seq ack flags window src dst payload out =
      Done (Some (20 + length payload)%nat,
            (header sp dp seq ack flags window ck ++ payload) ++
            drop (20 + length payload) out).
Proof.
  intros Hsrc Hdst Hf Hp Hlen Hout.
  set (h := λ ck, header sp dp seq ack flags window ck ++ payload).
  assert (∀ ck, length (h ck) = (20 + length payload)%nat) as Hl
    by (intros; unfold h; rewrite length_app, tcp_length_header; lia).
  assert (∀ ck, bytes (h ck)) as Hb
    by (intros; apply Forall_app_2; [by apply tcp_bytes_header|done]).
  assert (∀ ck, tcp_checksum src dst (h ck) =
    Checksum.checksum_from (pseudo_sum src dst (20 + length payload)) (h ck)) as Hc.
  { intros ck. rewrite <- (Hl ck). apply tcp_checksum_eq; [done..|rewrite Hl; lia]. }
  destruct (tcp_checksum_eq src dst (h 0)) as [_ Hps]; [done..|rewrite Hl; lia|].
  rewrite Hl in Hps. revert Hc Hps.
  generalize (pseudo_sum src dst (20 + length payload)). intros ps Hc Hps.
  pose proof (ChecksumProps.words_sum_bound _ (Hb 0)) as Hw.
  pose proof (ChecksumProps.words_sum_nonneg _ (Hb 0)) as Hw0. rewrite Hl in Hw.
  assert (((20 + length payload)%nat + 1) / 2 ≤ 32768) as Hhalf
    by (apply Z.div_le_upper_bound; lia).
  assert (0 < ps + Checksum.words_sum (h 0) < 4294900000) as Hsum by lia.
  assert (0 ≤ ps) as Hps0 by lia.
  destruct (ChecksumProps.checksum_patch ps (h 0) (h 0) (Hb 0) (Hb 0) Hps0 Hsum) as (ck & Hck & Hfck & _).
  exists ck. split; [done|]. split.
  - change (tcp_checksum src dst (h ck) = Done 0). rewrite Hc.
    destruct (ChecksumProps.checksum_patch ps (h 0) (h ck) (Hb 0) (Hb ck) Hps0 Hsum) as (ck' & Hck' & _ & Hv).
    rewrite Hck in Hck'. injection Hck' as <-. apply Hv.
    exact (tcp_words_sum_header sp dp seq ack flags window ck payload Hfck).
  - unfold TcpHeader.build. cbv zeta. rewrite decide_False by lia.
    change out with ([] ++ out) at 1. fill.
    rewrite slice_take, take_app_length' by buf_len. cbn [mbind outcome_bind].
    match goal with |- context [tcp_checksum src dst ?l] =>
      replace l with (h 0) by (unfold h, header; by rewrite <- !app_assoc) end.
    rewrite Hc, Hck. cbn [mbind outcome_bind]. unfold h.
    rewrite Nat.sub_0_r. clear. unfold header. rewrite !to_be_2, !to_be_4.
    cbn [app]. run_buf. done.
Qed.

Lemma be16_at i (pre post : list Z) x l :
  l = pre ++ to_be 2 x ++ post → length pre = i → be16 i l = Done (wrap 16 x).
Proof.
  intros -> <-. unfold be16. rewrite to_be_2.
  rewrite (index_done (length pre) _ (wrap 8 (Z.shiftr x 8)))
    by by apply list_lookup_middle.
  cbn [mbind outcome_bind].
  rewrite (index_done (length pre + 1) _ (wrap 8 x))
    by by rewrite lookup_app_r, Nat.add_sub' by lia.
  cbn [mbind outcome_bind]. rewrite <- to_be_2, from_to_be. done.
Qed.

Lemma be32_wrap i (pre post : list Z) x l :
  l = pre ++ to_be 4 x ++ post → length pre = i → be32 i l = Done (wrap 32 x).
Proof.
  intros -> <-. unfold be32. rewrite to_be_4.
  assert (∀ k, index (length pre + k) (pre ++ to_be 4 x ++ post) =
    index k (to_be 4 x ++ post)) as Hi.
  { intros k. unfold index. rewrite lookup_app_r by lia. by rewrite Nat.add_sub'. }
  rewrite <- to_be_4. rewrite <- (Nat.add_0_r (length pre)) at 1. rewrite !Hi.
  rewrite to_be_4. simpl. rewrite <- to_be_4, from_to_be. done.
Qed.

Lemma tcp_parse_header sp dp seq ack flags window ck p :
  TcpHeader.parse (header sp dp seq ack flags window ck ++ p) =
  Done (Some (TcpHeader.mkTcp (wrap 16 sp) (wrap 16 dp) (wrap 32 seq) (wrap 32 ack) 20
    (Z.land flags 0x3F) (wrap 16 window) (wrap 16 ck) 0 p)).
Proof.
  unfold TcpHeader.parse. set (d := header _ _ _ _ _ _ _ ++ p).
  assert (length d = 20 + length p)%nat as Hl
    by (unfold d; rewrite length_app, tcp_length_header; lia).
  assert (d = to_be 2 sp ++ to_be 2 dp ++ to_be 4 seq ++ to_be 4 ack ++ [0x50; flags] ++
    to_be 2 window ++ to_be 2 ck ++ to_be 2 0 ++ p) as E
    by (unfold d, header; by rewrite <- !app_assoc).
  rewrite decide_False by lia.
  rewrite (be16_at 0 [] _ sp d E) by done. cbn [mbind outcome_bind].
  rewrite (be16_at 2 (to_be 2 sp) _ dp d E) by done. cbn [mbind outcome_bind].
  rewrite (be32_wrap 4 (to_be 2 sp ++ to_be 2 dp) _ seq d) by (done || rewrite E; by rewrite <- !app_assoc).
  cbn [mbind outcome_bind].
  rewrite (be32_wrap 8 (to_be 2 sp ++ to_be 2 dp ++ to_be 4 seq) _ ack d)
    by (done || rewrite E; by rewrite <- !app_assoc).
  cbn [mbind outcome_bind].
  rewrite (index_done 12 d 0x50) by (rewrite E; done). cbn [mbind outcome_bind].
  change (wrap 8 (Z.shiftr 0x50 4 * 4)) with 20. cbv zeta.
  rewrite decide_False by lia.
  rewrite (index_done 13 d flags) by (rewrite E; done). cbn [mbind outcome_bind].
  rewrite (be16_at 14 (to_be 2 sp ++ to_be 2 dp ++ to_be 4 seq ++ to_be 4 ack ++ [0x50; flags])
    _ window d) by (done || rewrite E; by rewrite <- !app_assoc).
  cbn [mbind outcome_bind].
  rewrite (be16_at 16 (to_be 2 sp ++ to_be 2 dp ++ to_be 4 seq ++ to_be 4 ack ++ [0x50; flags]
    ++ to_be 2 window) _ ck d) by (done || rewrite E; by rewrite <- !app_assoc).
  cbn [mbind outcome_bind].
  rewrite (be16_at 18 (to_be 2 sp ++ to_be 2 dp ++ to_be 4 seq ++ to_be 4 ack ++ [0x50; flags]
    ++ to_be 2 window ++ to_be 2 ck) p 0 d) by (done || rewrite E; by rewrite <- !app_assoc).
  cbn [mbind outcome_bind]. change (Z.to_nat 20) with 20%nat.
  rewrite slice_done, CodecProps.drop_rest by lia. cbn [mbind outcome_bind].
  unfold d. rewrite drop_app_length' by by rewrite tcp_length_header. done.
Qed.

(** C23: a TCP segment written by [build] is valid and is read back: exactly
    the header and the payload are written, the TCP checksum over the
    pseudo-header and the segment verifies (is 0), and [parse] returns the
    fields (truncated to their widths) and the payload. *)
Theorem tcp_build_parse sp dp seq ack flags window src dst payload out :
  ipv4_addr src → ipv4_addr dst → byte flags → bytes payload →
  20 + length payload ≤ 65535 → (20 + length payload ≤ length out)%nat →
  ∃ seg ck,
    TcpHeader.build sp dp seq ack flags window src dst payload out =
      Done (Some (20 + length payload)%nat, seg ++ drop (20 + length payload) out) ∧
    length seg = (20 + length payload)%nat ∧ bytes seg ∧
    tcp_checksum src dst seg = Done 0 ∧
    TcpHeader.parse seg = Done (Some (TcpHeader.mkTcp (wrap 16 sp) (wrap 16 dp)
      (wrap 32 seq) (wrap 32 ack) 20 (Z.land flags 0x3F) (wrap 16 window) ck 0 payload)).
Proof.
  intros Hs Hd Hf Hp Hl Ho.
  destruct (tcp_build_done sp dp seq ack flags window src dst payload out)
    as (ck & Hck & Hsum & E); [done..|].
  eexists _, ck. split; [exact E|]. split_and!.
  - rewrite length_app, tcp_length_header. lia.
  - apply Forall_app_2; [by apply tcp_bytes_header|done].
  - done.
  - rewrite tcp_parse_header. by rewrite (wrap_id 16 ck).
Qed.

Lemma tcp_build_parse_witness :
  ipv4_addr [10; 0; 2; 15] ∧ ∃ seg ck,
    TcpHeader.build 4000 80 7 9 0x18 8192 [10; 0; 2; 15] [10; 0; 2; 15] [104; 105]
      (replicate 30 0) =
      Done (Some 22%nat, seg ++ drop 22 (replicate 30 0)) ∧
    length seg = 22%nat ∧ bytes seg ∧
    tcp_checksum [10; 0; 2; 15] [10; 0; 2; 15] seg = Done 0 ∧
    TcpHeader.parse seg = Done (Some (TcpHeader.mkTcp (wrap 16 4000) (wrap 16 80)
      (wrap 32 7) (wrap 32 9) 20 (Z.land 0x18 0x3F) (wrap 16 8192) ck 0 [104; 105])).
Proof.
  assert (ipv4_addr [10; 0; 2; 15]) as H
    by (split; refine (bool_decide_unpack _ _); by vm_compute).
  split; [done|].
  apply (tcp_build_parse 4000 80 7 9 0x18 8192 _ _ [104; 105] (replicate 30 0));
    [done..|by pow2| |simpl; lia|simpl; lia].
  refine (bool_decide_unpack _ _). by vm_compute.
Defined.
End codec.
