(* ===== verification/TcpConnProps.v ===== *)
(** * TCP connections: invariant and effect of the handlers

    For each handler of Tcp.v: it returns, keeps the connection well-formed,
    and what it does to the connection and to the wire. *)
From S2P Require Import Prelude Words Hardware Packets Pci Net Tcp TcpSegments.
Local Open Scope Z_scope.

(** ** Well-formedness *)

Record wf_conn (c : TcpConn) : Prop := {
  wf_send_buf : length (send_buf c) = 1024%nat;
  wf_send_len : (send_len c ≤ 1024)%nat;
  wf_recv_buf : length (recv_buf c) = 4096%nat;
  wf_recv_len : (recv_len c ≤ 4096)%nat;
  wf_tx_len : (last_tx_len c ≤ MSS)%nat;
  wf_tx_buf : length (last_tx_payload c) = MSS;
  wf_tx_time : fits 64 (last_tx_time c);
  wf_remote_ip : length (remote_ip c) = 4%nat;
  wf_local_seq : fits 32 (local_seq c);
  wf_remote_seq : fits 32 (remote_seq c);
  wf_local_ack : fits 32 (local_ack c);
  wf_retries : 0 ≤ retries c ≤ MAX_RETRIES;
  wf_rto : rto_ms c = RTO_MS * 2 ^ retries c;
}.

Record wf_net {D} (n : NetState D) : Prop := {
  wf_mac : length (mac (NET n)) = 6%nat;
  wf_cfg : match NET_CFG n with
           | Some cfg => length (ip cfg) = 4%nat ∧ length (gateway cfg) = 4%nat
           | None => True
           end;
}.

Definition same_config {D} (n n' : NetState D) : Prop :=
  NET_CFG n' = NET_CFG n ∧ NET n' = NET n.

#[export] Instance same_config_preorder {D} : PreOrder (@same_config D).
Proof.
  split; unfold same_config; [done|]. intros a b c [] []. split; congruence.
Qed.

Lemma wf_net_same {D} (n n' : NetState D) : same_config n n' → wf_net n → wf_net n'.
Proof. intros [E1 E2] []. constructor; by rewrite ?E1, ?E2. Qed.

Lemma new_wf : wf_conn new.
Proof. constructor; simpl; try done; try lia; by pow2. Qed.

(** The connection with its retransmission record replaced. *)
Definition with_tx (t q : Z) (len : nat) (f : Z) (p : list Z) (c : TcpConn) : TcpConn :=
  set_last_tx_payload p (set_last_tx_flags f (set_last_tx_len len
    (set_last_tx_seq q (set_last_tx_time t c)))).

Lemma with_tx_wf t q len f p c : wf_conn c → fits 64 t → (len ≤ MSS)%nat →
  length p = MSS → wf_conn (with_tx t q len f p c).
Proof. intros [] ? ? ?. by constructor. Qed.

(** ** Emitting a segment *)

Section emit.
Context {D : Type} `{NicOk D}.
Implicit Types (n : NetState D) (c : TcpConn).

(** The frame that carries a segment of [c]. *)
Definition is_segment n c (flags : Z) (payload : list Z) (f : list Z) : Prop :=
  ∃ cfg ipck tcpck, NET_CFG n = Some cfg ∧
    f = replicate 6 0xFF ++ mac (NET n) ++ to_be 2 0x0800 ++
        Ipv4Props.header (ip cfg) (remote_ip c) TCP_PROTO (40 + length payload) ipck ++
        header (local_port c) (remote_port c) (local_seq c) (local_ack c) flags WINDOW tcpck
        ++ payload.

(** At most an ARP request and the segment went out. *)
Definition emitted n c (flags : Z) (payload : list Z) n' : Prop :=
  same_config n n' ∧ ∃ a b, frames n' = frames n ++ a ++ b ∧
    (length a ≤ 1)%nat ∧ (length b ≤ 1)%nat ∧ Forall (is_segment n c flags payload) b.

Lemma emitted_nothing n c flags payload : emitted n c flags payload n.
Proof. split; [done|]. exists [], []. split_and!; simpl; try lia; [by rewrite app_nil_r|constructor]. Qed.

Lemma wp_on_net {A} (m : ST (NetState D) A) (Q : A → TcpConn * NetState D → Prop) c n :
  wp m (λ a n', Q a (c, n')) n → wp (on_net m) Q (c, n).
Proof. intros. by apply wp_zoom. Qed.

Lemma wp_conn (Q : TcpConn → TcpConn * NetState D → Prop) c n :
  Q c (c, n) → wp conn Q (c, n).
Proof. done. Qed.

Lemma wp_update f (Q : unit → TcpConn * NetState D → Prop) c n :
  Q tt (f c, n) → wp (update f) Q (c, n).
Proof. done. Qed.

Lemma resolve_mac_wp ip n : wf_net n → length ip = 4%nat →
  wp (resolve_mac ip) (λ m n', m = replicate 6 0xFF ∧ same_config n n' ∧
    ∃ a, frames n' = frames n ++ a ∧ (length a ≤ 1)%nat) n.
Proof.
  intros [Hmac _] Hip. unfold resolve_mac. apply wp_bind, wp_gets.
  set (m := mac (NET n)) in *. clearbody m.
  assert (∃ arp, Arp.build_request m [10; 0; 2; 15] ip (replicate 28 0) =
    Done (Some 28%nat, arp) ∧ length arp = 28%nat) as (arp & Ea & La).
  { unfold Arp.build_request. rewrite decide_False by (rewrite length_replicate; lia).
    change (replicate 28 0) with ([] ++ replicate 28 0). fill.
    eexists. split; [done|]. buf_len. }
  apply wp_bind, wp_lift. rewrite Ea. cbn beta iota delta [runs]. apply wp_bind, wp_lift.
  rewrite slice_done by lia. cbn beta iota delta [runs]. rewrite drop_0, take_ge by lia.
  assert (∃ eth, Ethernet.build (replicate 6 255) m 2054 arp (replicate 42 0) =
    Done (Some 42%nat, eth) ∧ length eth = 42%nat) as (eth & Ee & Le).
  { unfold Ethernet.build. rewrite La. rewrite decide_False by (rewrite length_replicate; lia).
    change (replicate 42 0) with ([] ++ replicate 42 0). fill.
    eexists. split; [done|]. buf_len. }
  apply wp_bind, wp_lift. change (14 + 28)%nat with 42%nat. rewrite Ee. cbn beta iota delta [runs].
  apply wp_bind, wp_lift. rewrite slice_done by lia. cbn beta iota delta [runs]. apply wp_bind.
  eapply wp_mono; [apply send_wp|]. intros r n' (H1 & H2 & H3 & _).
  apply wp_ret. split; [done|]. split; [done|].
  destruct r; [eexists [_]; by split; [|simpl; lia]|].
  exists []. rewrite app_nil_r. split; [done|simpl; lia].
Qed.

Ltac run_lift := apply wp_lift; cbn beta iota delta [runs].

(** IP header, ARP request and Ethernet framing of one segment. *)
Lemma transmit_wp cfg c n flags payload tcpck :
  wf_conn c → wf_net n → NET_CFG n = Some cfg → (length payload ≤ MSS)%nat →
  wp (transmit (ip cfg) (header (local_port c) (remote_port c) (local_seq c) (local_ack c)
        flags WINDOW tcpck ++ payload))
    (λ _ s', s'.1 = c ∧ emitted n c flags payload s'.2) (c, n).
Proof.
  intros Hc Hn Hcfg Hlen. unfold MSS in Hlen.
  set (seg := header _ _ _ _ _ _ _ ++ payload).
  assert (length seg = 20 + length payload)%nat as Hseg
    by (unfold seg; rewrite length_app, tcp_length_header; lia).
  unfold transmit. pose proof (length_replicate (20 + 20 + MSS) 0) as L1.
  pose proof (length_replicate (14 + 20 + 20 + MSS) 0) as L2. revert L1 L2.
  generalize (replicate (20 + 20 + MSS) 0) (replicate (14 + 20 + 20 + MSS) 0).
  change (20 + 20 + MSS)%nat with 576%nat. change (14 + 20 + 20 + MSS)%nat with 590%nat.
  intros b1 b2 L1 L2. pose proof (wf_cfg _ Hn) as Hip. rewrite Hcfg in Hip.
  destruct Hip as [Hip Hgw].
  apply wp_bind, wp_conn, wp_bind.
  destruct (Ipv4Props.build_layout (ip cfg) (remote_ip c) TCP_PROTO
    (wrap 16 (length seg)) b1) as (ck & E); [done|apply Hc|lia|].
  run_lift. rewrite E. clear E.
  replace (wadd 16 20 (wrap 16 (length seg))) with (40 + length payload).
  2: { unfold wadd. rewrite wrap_add_r, wrap_id; [lia|]. pow2. lia. }
  set (ih := Ipv4Props.header _ _ _ _ _).
  assert (length ih = 20%nat) as Hih.
  { unfold ih, Ipv4Props.header. pose proof (wf_remote_ip _ Hc). len. }
  cbv zeta. apply wp_bind. run_lift.
  rewrite put_next by (rewrite ?length_drop; lia).
  apply wp_bind, wp_on_net, wp_gets. rewrite Hcfg.
  apply wp_bind, wp_on_net. eapply wp_mono; [by apply resolve_mac_wp|].
  intros m n1 (-> & [Hc1 Hn1] & a & Ha & Hla).
  apply wp_bind, wp_on_net, wp_gets, wp_bind. run_lift.
  rewrite slice_take, take_app_length' by (rewrite ?length_app, ?length_drop; lia).
  apply wp_bind. run_lift. rewrite Hn1.
  rewrite CodecProps.ethernet_build_layout;
    [|done|apply Hn|rewrite length_app; lia].
  cbn beta iota. apply wp_bind. run_lift.
  pose proof (wf_mac _ Hn) as Hmac.
  rewrite slice_take, take_app_length' by (rewrite ?length_app, ?length_to_be, ?length_replicate, ?length_drop; lia).
  apply wp_bind, wp_on_net. eapply wp_mono; [apply send_wp|].
  intros r n2 (Hc2 & Hn2 & Hf2 & _). apply wp_ret. split; [done|].
  split; [split; simpl; congruence|].
  assert (∀ f, is_segment n c flags payload f → ∃ b, (length b ≤ 1)%nat ∧
    Forall (is_segment n c flags payload) b ∧
    match r with Ok _ => frames n1 ++ [f] | Err _ => frames n1 end = frames n1 ++ b) as Hb.
  { intros f Hf. destruct r; [exists [f]|exists []]; simpl; (split; [lia|]).
    - split; [by repeat constructor|done].
    - split; [constructor|by rewrite app_nil_r]. }
  destruct (Hb (replicate 6 255 ++ mac (NET n) ++ to_be 2 2048 ++ ih ++ seg)) as (b & Hlb & Hfb & Eb).
  { exists cfg, ck, tcpck. split; [done|]. unfold ih, seg. reflexivity. }
  exists a, b. split; [|done]. simpl. rewrite Hf2, Eb, Ha. by rewrite app_assoc.
Qed.

(** What a segment leaves in the retransmission record: SYN, FIN and data
    segments are remembered with the sequence number they carried. *)
Definition remembered (flags : Z) (payload : list Z) : bool :=
  has flags (Z.lor SYN FIN) || negb (bool_decide (payload = [])).

Definition configured n : bool := match NET_CFG n with Some _ => true | None => false end.

Definition recorded n (flags : Z) (payload : list Z) c c' : Prop :=
  if configured n && remembered flags payload then
    ∃ t, fits 32 t ∧ c' = with_tx t (local_seq c) (length payload) flags
      (payload ++ drop (length payload) (last_tx_payload c)) c
  else c' = c.

Lemma remember_tx_wp flags payload c n :
  wf_conn c → (length payload ≤ MSS)%nat →
  wp (remember_tx flags payload) (λ _ s',
    same_config n s'.2 ∧ frames s'.2 = frames n ∧
    ∃ t, fits 32 t ∧ s'.1 = with_tx t (local_seq c) (length payload) flags
      (payload ++ drop (length payload) (last_tx_payload c)) c) (c, n).
Proof.
  intros Hc Hlen. unfold remember_tx. apply wp_bind, wp_on_net.
  eapply wp_mono; [apply now_wp|]. intros t n' (H1 & H2 & H3 & Ht).
  apply wp_bind, wp_update, wp_bind, wp_conn, wp_bind, wp_update, wp_bind, wp_update,
    wp_bind, wp_update. cbv zeta. rewrite Nat.min_l by done.
  apply wp_bind. run_lift. rewrite slice_take by done. rewrite take_ge by done.
  apply wp_bind, wp_conn, wp_bind. run_lift.
  rewrite put_done; [|lia| |lia].
  2: { simpl. rewrite (wf_tx_buf _ Hc). lia. }
  apply wp_update. split; [done|]. split; [done|]. exists t. split; [done|].
  by destruct c.
Qed.

Lemma send_segment_raw_wp flags payload c n :
  wf_conn c → wf_net n → (length payload ≤ MSS)%nat →
  wp (send_segment_raw flags payload) (λ _ s',
    emitted n c flags payload s'.2 ∧ recorded n flags payload c s'.1) (c, n).
Proof.
  intros Hc Hn Hlen. unfold send_segment_raw. apply wp_bind, wp_on_net, wp_gets.
  unfold recorded, configured. destruct (NET_CFG n) as [cfg|] eqn:Hcfg.
  2: { apply wp_ret. split; [apply emitted_nothing|done]. }
  simpl andb. apply wp_bind, wp_conn, wp_bind. run_lift.
  pose proof (length_replicate (20 + MSS) 0) as L. revert L.
  generalize (replicate (20 + MSS) 0). intros b L.
  pose proof (wf_cfg _ Hn) as Hip. rewrite Hcfg in Hip. destruct Hip as [Hip _].
  destruct (tcp_build_layout (local_port c) (remote_port c) (local_seq c) (local_ack c) flags
    WINDOW (ip cfg) (remote_ip c) payload b) as (ck & ->); [done|apply Hc|lia|].
  set (seg := header _ _ _ _ _ _ _ ++ payload).
  assert (length seg = 20 + length payload)%nat as Hseg
    by (unfold seg; rewrite length_app, tcp_length_header; lia).
  apply wp_bind. fold (remembered flags payload).
  assert (∀ c' n', wf_conn c' → same_config n n' → frames n' = frames n →
    local_port c' = local_port c → remote_port c' = remote_port c →
    local_seq c' = local_seq c → local_ack c' = local_ack c → remote_ip c' = remote_ip c →
    wp (tcp_bytes ← lift (slice 0 (20 + length payload) (seg ++ drop (20 + length payload) b));
        transmit (ip cfg) tcp_bytes)
      (λ _ s', s'.1 = c' ∧ emitted n c flags payload s'.2) (c', n')) as Htx.
  { intros c' n' Hc' Hs Hf E1 E2 E3 E4 E5. apply wp_bind. run_lift.
    rewrite slice_take, take_app_length' by (rewrite ?length_app, ?length_drop; lia).
    unfold seg. rewrite <- E1, <- E2, <- E3, <- E4.
    eapply wp_mono; [apply transmit_wp; [done|by eapply wf_net_same|by rewrite (proj1 Hs)|done]|].
    intros _ s' [-> (Hs' & a & b' & Hfr & La & Lb & Hb)]. split; [done|].
    split; [by etrans|]. exists a, b'. split; [by rewrite Hfr, Hf|]. split_and!; [done..|].
    eapply Forall_impl; [done|]. intros f (cfg' & k1 & k2 & H1 & ->).
    exists cfg', k1, k2. destruct Hs as [Hs1 Hs2].
    by rewrite <- Hs1, <- Hs2, <- E1, <- E2, <- E3, <- E4, <- E5. }
  destruct (remembered flags payload).
  - eapply wp_mono; [by apply remember_tx_wp|].
    intros _ [c1 n1] (Hs1 & Hf1 & t & Ht & E). cbn [fst snd] in *.
    assert (wf_conn c1) as Hc1.
    { rewrite E. apply with_tx_wf; [exact Hc|by apply (fits_weaken 32)|exact Hlen|].
      rewrite length_app, length_drop, (wf_tx_buf _ Hc). lia. }
    eapply wp_mono; [apply (Htx c1 n1 Hc1 Hs1 Hf1); rewrite E; reflexivity|].
    intros _ s' [-> Hs']. split; [exact Hs'|]. exists t. split; [exact Ht|exact E].
  - apply wp_ret. eapply wp_mono; [apply (Htx c n Hc); reflexivity|].
    intros _ s' [-> Hs']. split; [exact Hs'|reflexivity].
Qed.
End emit.
