(* ===== verification/TcpSpec.v ===== *)
(** * TCP: the abstract connection and the refinement

    [Abs] is what a connection is for its users: state, addresses, sequence
    numbers, the bytes waiting to be acknowledged ([pending]) and the bytes
    waiting to be read ([inbox]), as lists.  The [spec_] functions say what
    each operation does to it; the handlers of Tcp.v, with their fixed
    buffers, copies and segments sent on the way, refine them. *)
From stdpp Require Import strings.
From S2P Require Import Prelude Words Hardware Packets Pci Net Tcp TcpSegments TcpConnProps.
Local Open Scope Z_scope.

Import TcpHeader(TcpHeader).

Record Abs := mkAbs {
  a_state : TcpState; a_lport : Z; a_rip : list Z; a_rport : Z;
  lseq : Z; rseq : Z; lack : Z;
  pending : list Z; inbox : list Z; a_retries : Z }.

Definition abs (c : TcpConn) : Abs :=
  mkAbs (state c) (local_port c) (remote_ip c) (remote_port c)
    (local_seq c) (remote_seq c) (local_ack c)
    (take (send_len c) (send_buf c)) (take (recv_len c) (recv_buf c)) (retries c).

Definition with_state v a := mkAbs v (a_lport a) (a_rip a) (a_rport a) (lseq a) (rseq a)
  (lack a) (pending a) (inbox a) (a_retries a).
Definition with_peer ip port a := mkAbs (a_state a) (a_lport a) ip port (lseq a) (rseq a)
  (lack a) (pending a) (inbox a) (a_retries a).
Definition with_lseq v a := mkAbs (a_state a) (a_lport a) (a_rip a) (a_rport a) v (rseq a)
  (lack a) (pending a) (inbox a) (a_retries a).
Definition with_rseq v a := mkAbs (a_state a) (a_lport a) (a_rip a) (a_rport a) (lseq a) v
  (lack a) (pending a) (inbox a) (a_retries a).
Definition with_lack v a := mkAbs (a_state a) (a_lport a) (a_rip a) (a_rport a) (lseq a)
  (rseq a) v (pending a) (inbox a) (a_retries a).
Definition with_pending v a := mkAbs (a_state a) (a_lport a) (a_rip a) (a_rport a) (lseq a)
  (rseq a) (lack a) v (inbox a) (a_retries a).
Definition with_inbox v a := mkAbs (a_state a) (a_lport a) (a_rip a) (a_rport a) (lseq a)
  (rseq a) (lack a) (pending a) v (a_retries a).
Definition with_retries v a := mkAbs (a_state a) (a_lport a) (a_rip a) (a_rport a) (lseq a)
  (rseq a) (lack a) (pending a) (inbox a) v.

(** ** What the operations do *)

Definition INBOX : nat := 4096.

(** Sending a segment consumes sequence numbers. *)
Definition spec_send (flags : Z) (len : nat) (a : Abs) : Abs :=
  with_lseq (wadd 32 (lseq a)
    ((if has flags SYN then 1 else 0) + (if has flags FIN then 1 else 0) + len)) a.

(** Sending the pending bytes, at most [MSS] of them. *)
Definition spec_flush (a : Abs) : Abs :=
  if bool_decide (pending a = []) then a
  else spec_send (Z.lor PSH ACK) (length (pending a) `min` MSS) a.

Definition spec_ack (ack : Z) (a : Abs) : Abs :=
  let start := wsub 32 (lseq a) (length (pending a)) in
  if seq_lt start ack || (ack =? lseq a) then
    spec_flush (with_retries 0
      (with_pending (drop (Z.to_nat (wsub 32 ack start)) (pending a)) a))
  else a.

Definition spec_store (p : list Z) (a : Abs) : Abs :=
  with_rseq (wadd 32 (rseq a) (length p))
    (with_inbox (inbox a ++ take (INBOX - length (inbox a)) p) a).

Definition spec_ack_remote (a : Abs) : Abs := with_lack (rseq a) a.

Definition spec_fin (a : Abs) : Abs :=
  spec_ack_remote (with_rseq (wadd 32 (rseq a) 1) a).

Definition spec_listen_segment (hdr : TcpHeader) (a : Abs) : Abs :=
  if has (TcpHeader.flags hdr) SYN then
    spec_send (Z.lor SYN ACK) 0 (with_state SynReceived
      (with_lack (wadd 32 (TcpHeader.seq hdr) 1) (with_rseq (wadd 32 (TcpHeader.seq hdr) 1) a)))
  else a.

Definition spec_syn_sent (hdr : TcpHeader) (a : Abs) : Abs :=
  if (Z.land (TcpHeader.flags hdr) (Z.lor SYN ACK) =? Z.lor SYN ACK)
     && (TcpHeader.ack hdr =? lseq a) then
    spec_flush (with_retries 0 (with_state Established
      (with_lack (wadd 32 (TcpHeader.seq hdr) 1) (with_rseq (wadd 32 (TcpHeader.seq hdr) 1) a))))
  else a.

Definition spec_syn_received (hdr : TcpHeader) (a : Abs) : Abs :=
  if has (TcpHeader.flags hdr) ACK && (TcpHeader.ack hdr =? lseq a)
  then with_retries 0 (with_state Established a) else a.

Definition spec_established (hdr : TcpHeader) (a : Abs) : Abs :=
  let a := if has (TcpHeader.flags hdr) ACK then spec_ack (TcpHeader.ack hdr) a else a in
  let fin a := if has (TcpHeader.flags hdr) FIN then with_state CloseWait (spec_fin a) else a in
  if bool_decide (TcpHeader.payload hdr = []) then fin a
  else if TcpHeader.seq hdr =? rseq a
  then fin (spec_ack_remote (spec_store (TcpHeader.payload hdr) a))
  else a.

Definition in_order (hdr : TcpHeader) (a : Abs) : bool :=
  negb (bool_decide (TcpHeader.payload hdr = [])) && (TcpHeader.seq hdr =? rseq a).

Definition spec_late (hdr : TcpHeader) (a : Abs) : Abs :=
  if in_order hdr a then spec_store (TcpHeader.payload hdr) a else a.

Definition spec_fin_wait1 (hdr : TcpHeader) (a : Abs) : Abs :=
  spec_late hdr
    (if has (TcpHeader.flags hdr) ACK then
       if has (TcpHeader.flags hdr) FIN then with_state TimeWait (spec_fin a)
       else with_state FinWait2 a
     else a).

Definition spec_fin_wait2 (hdr : TcpHeader) (a : Abs) : Abs :=
  spec_late hdr
    (if has (TcpHeader.flags hdr) FIN then with_state TimeWait (spec_fin a) else a).

Definition spec_close_wait (hdr : TcpHeader) (a : Abs) : Abs :=
  let a := if in_order hdr a
           then spec_ack_remote (spec_store (TcpHeader.payload hdr) a) else a in
  if has (TcpHeader.flags hdr) FIN then spec_ack_remote a else a.

Definition spec_segment (hdr : TcpHeader) (a : Abs) : Abs :=
  match a_state a with
  | Listen => spec_listen_segment hdr a
  | SynSent => spec_syn_sent hdr a
  | SynReceived => spec_syn_received hdr a
  | Established => spec_established hdr a
  | FinWait1 => spec_fin_wait1 hdr a
  | FinWait2 => spec_fin_wait2 hdr a
  | CloseWait => spec_close_wait hdr a
  | LastAck => if has (TcpHeader.flags hdr) ACK then with_state Closed a else a
  | Closed | TimeWait => a
  end.

(** A received segment, with the connection's peer filled in first; RST puts
    the slot back into its initial state. *)
Definition spec_receive (src_ip : list Z) (hdr : TcpHeader) (a : Abs) : Abs :=
  let a := with_peer (if bool_decide (a_rip a = replicate 4 0) then src_ip else a_rip a)
             (if a_rport a =? 0 then TcpHeader.src_port hdr else a_rport a) a in
  if has (TcpHeader.flags hdr) RST then abs new else spec_segment hdr a.

(** The opening calls: data buffers of the slot are kept as they are. *)
Definition spec_listen (port isn : Z) (a : Abs) : Abs :=
  mkAbs Listen port (replicate 4 0) 0 isn 0 0 (pending a) (inbox a) (a_retries a).

Definition spec_connect (lport : Z) (rip : list Z) (rport isn : Z) (a : Abs) : Abs :=
  spec_send SYN 0 (mkAbs SynSent lport rip rport isn 0 0 (pending a) (inbox a) 0).

Definition SENDBUF : nat := 1024.

Definition spec_write (data : list Z) (a : Abs) : result nat string * Abs :=
  let n := (length data `min` (SENDBUF - length (pending a)))%nat in
  if bool_decide (a_state a ≠ Established ∧ a_state a ≠ CloseWait)
  then (Err "connection not established"%string, a)
  else if bool_decide (n = 0%nat) then (Err "send buffer full"%string, a)
  else (Ok n, spec_flush (with_pending (pending a ++ take n data) a)).

Definition spec_read (buf : list Z) (a : Abs) : result (nat * list Z) string * Abs :=
  let n := (length (inbox a) `min` length buf)%nat in
  (Ok (n, take n (inbox a) ++ drop n buf), with_inbox (drop n (inbox a)) a).

Definition spec_close (a : Abs) : result unit string * Abs :=
  match a_state a with
  | Established => (Ok tt, spec_send (Z.lor FIN ACK) 0 (with_state FinWait1 (spec_flush a)))
  | CloseWait => (Ok tt, spec_send (Z.lor FIN ACK) 0 (with_state LastAck a))
  | _ => (Err "connection not in closable state"%string, a)
  end.

(** One poll of a connection: the timers may or may not be due. *)
Definition spec_poll (a a' : Abs) : Prop :=
  match a_state a with
  | SynSent | SynReceived | FinWait1 | LastAck =>
      (a_retries a < MAX_RETRIES ∧ (a' = a ∨ a' = with_retries (a_retries a + 1) a)) ∨
      (a_retries a = MAX_RETRIES ∧ a' = abs new)
  | Established | CloseWait => a' = spec_flush a
  | TimeWait => a' = a ∨ a' = with_state Closed a
  | _ => a' = a
  end.

(** ** Refinement *)

Section refinement.
Context {D : Type} `{NicOk D}.
Abbreviation C := (ST (TcpConn * NetState D)).

(** From [c], [m] returns, keeps the connection well-formed and the
    configuration as it is, and ends with [Q]. *)
Definition leads {A} (c : TcpConn) (m : C A) (Q : A → Abs → Prop) : Prop :=
  wf_conn c → ∀ n, wf_net n →
  wp m (λ x s', wf_conn s'.1 ∧ same_config n s'.2 ∧ Q x (abs s'.1)) (c, n).

(** The unit-valued operations change the abstract connection to [a]. *)
Definition to (a : Abs) : unit → Abs → Prop := λ _ a', a' = a.

Lemma leads_bind {A B} c (m : C A) (k : A → C B) Q R :
  leads c m Q → (∀ c' x, wf_conn c' → Q x (abs c') → leads c' (k x) R) →
  leads c (m ≫= k) R.
Proof.
  intros Hm Hk Hc n Hn. apply wp_bind. eapply wp_mono; [by apply Hm|].
  intros x [c' n'] (Hc' & Hs & HQ). simpl in *.
  eapply wp_mono; [apply (Hk c' x Hc' HQ Hc'); by eapply wf_net_same|].
  intros y [c'' n''] (? & Hs' & ?). simpl in *. split_and!; [done|by etrans|done].
Qed.

Lemma leads_wf {A} c (m : C A) Q : (wf_conn c → leads c m Q) → leads c m Q.
Proof. intros Hm Hc. by apply Hm. Qed.

Lemma leads_ret {A} c (x : A) (Q : A → Abs → Prop) : Q x (abs c) → leads c (mret x) Q.
Proof. intros HQ Hc n Hn. apply wp_ret. by split_and!. Qed.

Lemma leads_conn {B} c (k : TcpConn → C B) R : leads c (k c) R → leads c (conn ≫= k) R.
Proof. intros Hk Hc n Hn. apply wp_bind, wp_conn. by apply Hk. Qed.

Lemma leads_update {B} c f (k : unit → C B) R :
  (wf_conn c → wf_conn (f c)) → leads (f c) (k tt) R → leads c (update f ≫= k) R.
Proof. intros Hf Hk Hc n Hn. apply wp_bind, wp_update. by apply Hk; [apply Hf|]. Qed.

Lemma leads_last_update c f (Q : unit → Abs → Prop) :
  (wf_conn c → wf_conn (f c)) → Q tt (abs (f c)) → leads c (update f) Q.
Proof. intros Hf HQ Hc n Hn. apply wp_update. split_and!; [by apply Hf|done|done]. Qed.

Lemma leads_lift {A B} c (m : outcome A) x (k : A → C B) R :
  m = Done x → leads c (k x) R → leads c (lift m ≫= k) R.
Proof. intros -> Hk Hc n Hn. apply wp_bind, wp_lift. by apply Hk. Qed.

Lemma leads_now {B} c (k : Z → C B) R :
  (∀ t, fits 32 t → leads c (k t) R) → leads c (on_net now ≫= k) R.
Proof.
  intros Hk Hc n Hn. apply wp_bind, wp_on_net. eapply wp_mono; [apply now_wp|].
  intros t n' (H1 & H2 & _ & Ht). eapply wp_mono; [apply Hk; [done|done|]|].
  { apply (wf_net_same n); [by split|done]. }
  intros x [c' n''] (? & [??] & ?). simpl in *.
  split; [done|]. split; [split; congruence|done].
Qed.

Lemma leads_mono {A} c (m : C A) (Q R : A → Abs → Prop) :
  leads c m Q → (∀ x a, Q x a → R x a) → leads c m R.
Proof.
  intros Hm HQ Hc n Hn. eapply wp_mono; [by apply Hm|]. naive_solver.
Qed.

Lemma abs_with_tx t q l f p c : abs (with_tx t q l f p c) = abs c.
Proof. by destruct c. Qed.

(** ** Sending *)

Lemma leads_raw flags payload c : (length payload ≤ MSS)%nat →
  leads c (send_segment_raw flags payload) (to (abs c)).
Proof.
  intros Hl Hc n Hn. eapply wp_mono; [by apply send_segment_raw_wp|].
  intros [] [c' n'] [[Hs _] Hr]. simpl in *. unfold recorded in Hr.
  destruct (_ && _).
  - destruct Hr as (t & Ht & ->). split; [|split; [done|by rewrite abs_with_tx]].
    apply with_tx_wf; [done|by apply (fits_weaken 32)|done|].
    rewrite length_app, length_drop, (wf_tx_buf _ Hc). lia.
  - by subst.
Qed.

Lemma leads_segment flags payload c : (length payload ≤ MSS)%nat →
  leads c (send_segment flags payload) (to (spec_send flags (length payload) (abs c))).
Proof.
  intros Hl. unfold send_segment.
  apply leads_update.
  - intros []. constructor; try done. by apply wadd_fits.
  - eapply leads_mono; [by apply leads_raw|]. intros [] a ->. unfold to, spec_send. simpl.
    assert (wadd 32 (wadd 32 (if has flags SYN then 1 else 0)
        (if has flags FIN then 1 else 0)) (wrap 32 (length payload)) =
      (if has flags SYN then 1 else 0) + (if has flags FIN then 1 else 0) + length payload)
      as ->; [|done].
    unfold MSS in Hl. unfold wadd. repeat rewrite wrap_id; try done;
      repeat case_match; pow2; lia.
Qed.

Lemma pending_length c : wf_conn c → length (pending (abs c)) = send_len c.
Proof. intros []. simpl. rewrite length_take. lia. Qed.

Lemma inbox_length c : wf_conn c → length (inbox (abs c)) = recv_len c.
Proof. intros []. simpl. rewrite length_take. lia. Qed.

Lemma pending_nil c : wf_conn c → bool_decide (pending (abs c) = []) = bool_decide (send_len c = 0%nat).
Proof.
  intros Hc. apply bool_decide_ext. rewrite <- length_zero_iff_nil.
  by rewrite pending_length.
Qed.

Lemma leads_flush c : leads c flush_send (to (spec_flush (abs c))).
Proof.
  intros Hc. revert Hc. apply leads_wf. intros Hc.
  unfold flush_send, spec_flush. apply leads_conn. rewrite pending_nil by done.
  case_decide as Hz; [rewrite bool_decide_true by done; by apply leads_ret|].
  rewrite bool_decide_false by done. rewrite pending_length by done. cbv zeta.
  pose proof (wf_send_buf _ Hc). pose proof (wf_send_len _ Hc).
  set (k := (send_len c `min` MSS)%nat). assert (k ≤ MSS ∧ k ≤ 1024)%nat as [Hk Hk'] by lia.
  eapply leads_lift; [by apply slice_take; lia|].
  eapply leads_lift.
  { apply put_done; [lia|rewrite length_replicate; lia|rewrite length_take; lia]. }
  rewrite take_0, app_nil_l.
  eapply leads_lift.
  { rewrite slice_take by (rewrite length_app, length_take, length_drop, length_replicate; lia).
    rewrite take_app_length' by (rewrite length_take; lia). done. }
  assert (length (take k (send_buf c)) = k) as Hl by (rewrite length_take; lia).
  pose proof (leads_segment (Z.lor PSH ACK) (take k (send_buf c)) c) as Hs.
  rewrite Hl in Hs. by apply Hs.
Qed.

(** ** Handlers *)

Lemma wf_set_state v c : wf_conn c → wf_conn (set_state v c).
Proof. intros []. by constructor. Qed.
Lemma wf_set_remote_seq v c : fits 32 v → wf_conn c → wf_conn (set_remote_seq v c).
Proof. intros ? []. by constructor. Qed.
Lemma wf_set_local_ack v c : fits 32 v → wf_conn c → wf_conn (set_local_ack v c).
Proof. intros ? []. by constructor. Qed.
Lemma wf_set_last_tx_time v c : fits 32 v → wf_conn c → wf_conn (set_last_tx_time v c).
Proof. intros ? []. constructor; try done. by apply (fits_weaken 32). Qed.
(** [retries] and [rto_ms] are reset together. *)
Lemma wf_reset_rto c : wf_conn c → wf_conn (set_rto_ms RTO_MS (set_retries 0 c)).
Proof. intros []. constructor; try done; simpl; lia. Qed.

(** Two updates in a row, of which only the second restores the invariant. *)
Lemma leads_reset_rto {B} c (k : unit → C B) R :
  leads (set_rto_ms RTO_MS (set_retries 0 c)) (k tt) R →
  leads c (update (set_retries 0) ≫= λ _, update (set_rto_ms RTO_MS) ≫= k) R.
Proof.
  intros Hk Hc n Hn. do 2 apply wp_bind, wp_update. by apply Hk; [apply wf_reset_rto|].
Qed.

Lemma leads_process_ack ack c : fits 32 ack →
  leads c (process_ack ack) (to (spec_ack ack (abs c))).
Proof.
  intros Hack. apply leads_wf. intros Hc.
  unfold process_ack, spec_ack. apply leads_conn. rewrite pending_length by done.
  pose proof (wf_send_buf _ Hc) as Hb. pose proof (wf_send_len _ Hc) as Hl.
  assert (fits 32 (send_len c)) as Hfl by (pow2; lia).
  rewrite (wrap_id 32 (send_len c)) by done. cbv zeta. simpl lseq.
  set (start := wsub 32 (local_seq c) (send_len c)).
  destruct (seq_lt start ack || (ack =? local_seq c)); [|by apply leads_ret].
  apply leads_reset_rto. set (c1 := set_rto_ms RTO_MS (set_retries 0 c)).
  set (acked := if send_len c <? wsub 32 ack start then Z.of_nat (send_len c) else wsub 32 ack start).
  pose proof (wsub_fits 32 ack start ltac:(done)) as [Hw0 _].
  assert (Z.to_nat acked ≤ send_len c)%nat as Hle.
  { unfold acked. destruct (Z.ltb_spec (send_len c) (wsub 32 ack start)); lia. }
  assert (drop (Z.to_nat (wsub 32 ack start)) (take (send_len c) (send_buf c)) =
    drop (Z.to_nat acked) (take (send_len c) (send_buf c))) as Hd.
  { unfold acked. destruct (Z.ltb_spec (send_len c) (wsub 32 ack start)); [|done].
    rewrite !drop_ge; rewrite ?length_take; (done || lia). }
  simpl pending. rewrite Hd. clear Hd.
  eapply (leads_bind _ _ _ (to (with_retries 0
    (with_pending (drop (Z.to_nat acked) (take (send_len c) (send_buf c))) (abs c))))).
  - destruct (Z.ltb_spec 0 acked) as [Hpos|Hz].
    + eapply leads_lift; [apply copy_within0_done; lia|].
      apply leads_update.
      { intros []. constructor; try done. simpl.
        rewrite length_app, length_take, !length_drop. lia. }
      apply leads_last_update.
      { intros []. constructor; try done. simpl. lia. }
      unfold to, abs. simpl. unfold with_retries, with_pending. simpl. f_equal.
      rewrite take_app_le by (rewrite length_take, length_drop; lia).
      rewrite take_take, Nat.min_id. by rewrite skipn_firstn_comm.
    + apply leads_ret. replace (Z.to_nat acked) with 0%nat by lia. done.
  - intros c' x Hc' <-. apply leads_update.
    { intros []. by constructor. }
    match goal with |- leads ?c2 _ (to (spec_flush ?a)) => replace a with (abs c2) by done end.
    apply leads_flush.
Qed.

Lemma leads_store_payload p c : length p ≤ 2 ^ 32 - 1 →
  leads c (store_payload p) (to (spec_store p (abs c))).
Proof.
  intros Hp. apply leads_wf. intros Hc.
  pose proof (wf_recv_buf _ Hc) as Hb. pose proof (wf_recv_len _ Hc) as Hl.
  unfold store_payload. apply leads_conn. rewrite Hb. cbv zeta.
  set (k := (length p `min` (4096 - recv_len c))%nat).
  eapply leads_lift; [by apply slice_take; lia|].
  eapply leads_lift.
  { apply put_done; [lia|lia|rewrite length_take; lia]. }
  apply leads_update.
  { intros []. constructor; try done. simpl.
    rewrite !length_app, !length_take, length_drop. lia. }
  apply leads_update; [intros []; constructor; try done; simpl; lia|].
  apply leads_last_update; [intros []; constructor; try done; by apply wadd_fits|].
  unfold to, abs, spec_store, with_rseq, with_inbox. simpl. f_equal.
  - rewrite (wrap_id 32); [done|]. split; lia.
  - rewrite length_take, Hb, Nat.min_l by lia.
    rewrite take_app_ge by (rewrite length_take; lia). f_equal.
    rewrite length_take, Hb, Nat.min_l by lia.
    rewrite take_app_le by (rewrite length_take; lia).
    rewrite take_take. replace (recv_len c + k - recv_len c)%nat with k by lia.
    rewrite Nat.min_id. unfold INBOX, k.
    destruct (Nat.le_gt_cases (length p) (4096 - recv_len c)).
    + rewrite Nat.min_l, !take_ge by lia. done.
    + by rewrite Nat.min_r by lia.
Qed.

Lemma leads_ack_remote c : leads c ack_remote (to (spec_ack_remote (abs c))).
Proof.
  unfold ack_remote. apply leads_update.
  - intros Hc. apply wf_set_local_ack; [apply Hc|done].
  - match goal with |- leads ?c2 _ (to ?a) => replace a with (abs c2) by done end.
    apply leads_raw. simpl. lia.
Qed.

Lemma leads_consume_fin c : leads c consume_fin (to (spec_fin (abs c))).
Proof.
  unfold consume_fin. apply leads_update.
  - intros Hc. apply wf_set_remote_seq; [by apply wadd_fits|done].
  - apply leads_ack_remote.
Qed.

Lemma leads_enter_time_wait c :
  leads c enter_time_wait (to (with_state TimeWait (spec_fin (abs c)))).
Proof.
  unfold enter_time_wait. eapply leads_bind; [apply leads_consume_fin|].
  intros c' [] Hc' <-. apply leads_update; [apply wf_set_state|].
  apply leads_now. intros t Ht. by apply leads_last_update; [apply wf_set_last_tx_time|].
Qed.

Record wf_hdr (hdr : TcpHeader) : Prop := {
  wf_seq : fits 32 (TcpHeader.seq hdr);
  wf_ack : fits 32 (TcpHeader.ack hdr);
  wf_payload : length (TcpHeader.payload hdr) ≤ 2 ^ 32 - 1;
}.

Section handlers.
Context (hdr : TcpHeader) (Hhdr : wf_hdr hdr).

Lemma leads_handle_listen c :
  leads c (handle_listen hdr) (to (spec_listen_segment hdr (abs c))).
Proof.
  unfold handle_listen, spec_listen_segment.
  destruct (has _ _); simpl negb; cbv iota; [|by apply leads_ret].
  apply leads_update; [apply wf_set_remote_seq; by apply wadd_fits|].
  apply leads_update; [apply wf_set_local_ack; by apply wadd_fits|].
  apply leads_update; [apply wf_set_state|].
  match goal with |- leads ?c2 _ (to (spec_send _ _ ?a)) => replace a with (abs c2) by done end.
  apply (leads_segment _ []). simpl. lia.
Qed.

Lemma leads_handle_syn_sent c :
  leads c (handle_syn_sent hdr) (to (spec_syn_sent hdr (abs c))).
Proof.
  unfold handle_syn_sent, spec_syn_sent.
  destruct (_ =? Z.lor SYN ACK); simpl negb; cbv iota; [|by apply leads_ret].
  apply leads_conn. change (lseq (abs c)) with (local_seq c).
  destruct (_ =? _); simpl; [|by apply leads_ret].
  apply leads_update; [apply wf_set_remote_seq; by apply wadd_fits|].
  apply leads_update; [apply wf_set_local_ack; by apply wadd_fits|].
  apply leads_update; [apply wf_set_state|]. apply leads_reset_rto.
  eapply leads_bind; [apply leads_raw; simpl; lia|].
  intros c' [] Hc' E. unfold to in E.
  match goal with |- leads _ _ (to (spec_flush ?a)) => replace a with (abs c') by done end.
  apply leads_flush.
Qed.

Lemma leads_handle_syn_received c :
  leads c (handle_syn_received hdr) (to (spec_syn_received hdr (abs c))).
Proof.
  unfold handle_syn_received, spec_syn_received.
  destruct (has _ _); simpl negb; cbv iota; [|by apply leads_ret].
  apply leads_conn. change (lseq (abs c)) with (local_seq c).
  destruct (_ =? _); simpl; [|by apply leads_ret].
  apply leads_update; [apply wf_set_state|].
  intros Hc n Hn. apply wp_bind, wp_update, wp_update.
  split; [by apply wf_reset_rto|done].
Qed.

Lemma leads_fin_close_wait c :
  leads c (if has (TcpHeader.flags hdr) FIN
           then consume_fin ;; update (set_state CloseWait) else mret tt)
    (to (if has (TcpHeader.flags hdr) FIN
         then with_state CloseWait (spec_fin (abs c)) else abs c)).
Proof.
  destruct (has _ _); [|by apply leads_ret].
  eapply leads_bind; [apply leads_consume_fin|]. intros c' [] Hc' <-.
  by apply leads_last_update; [apply wf_set_state|].
Qed.

Lemma leads_handle_established c :
  leads c (handle_established hdr) (to (spec_established hdr (abs c))).
Proof.
  unfold handle_established, spec_established. cbv zeta.
  eapply (leads_bind _ _ _ (to (if has (TcpHeader.flags hdr) ACK
    then spec_ack (TcpHeader.ack hdr) (abs c) else abs c))).
  { destruct (has _ _); [apply leads_process_ack, Hhdr|by apply leads_ret]. }
  intros c1 [] Hc1 E. unfold to in E. revert E.
  generalize (if has (TcpHeader.flags hdr) ACK
    then spec_ack (TcpHeader.ack hdr) (abs c) else abs c). intros a1 <-. clear c.
  apply leads_conn. change (rseq (abs c1)) with (remote_seq c1).
  case_bool_decide; [apply leads_fin_close_wait|].
  destruct (_ =? remote_seq c1); simpl negb; cbv iota; [|apply leads_raw; simpl; lia].
  eapply leads_bind; [apply leads_store_payload, Hhdr|]. intros c2 [] Hc2 E2.
  eapply leads_bind; [apply leads_ack_remote|]. intros c3 [] Hc3 E3.
  eapply leads_mono; [apply leads_fin_close_wait|]. intros [] a ->.
  unfold to in *. by rewrite E3, E2.
Qed.

Lemma leads_late_payload c :
  leads c (late_payload hdr) (λ b a, a = spec_late hdr (abs c) ∧ b = in_order hdr (abs c)).
Proof.
  unfold late_payload, spec_late. apply leads_conn.
  change (remote_seq c) with (rseq (abs c)). fold (in_order hdr (abs c)).
  destruct (in_order hdr (abs c)); [|by apply leads_ret].
  eapply leads_bind; [apply leads_store_payload, Hhdr|].
  intros c' [] Hc' E. by apply leads_ret.
Qed.

Lemma leads_handle_fin_wait1 c :
  leads c (handle_fin_wait1 hdr) (to (spec_fin_wait1 hdr (abs c))).
Proof.
  unfold handle_fin_wait1, spec_fin_wait1. eapply leads_bind.
  { instantiate (1 := to (if has (TcpHeader.flags hdr) ACK then
      if has (TcpHeader.flags hdr) FIN then with_state TimeWait (spec_fin (abs c))
      else with_state FinWait2 (abs c) else abs c)).
    destruct (has _ ACK); [|by apply leads_ret].
    destruct (has _ FIN); [apply leads_enter_time_wait|].
    by apply leads_last_update; [apply wf_set_state|]. }
  intros c1 [] Hc1 <-. eapply leads_bind; [apply leads_late_payload|].
  intros c2 b Hc2 [E _]. by apply leads_ret.
Qed.

Lemma leads_handle_fin_wait2 c :
  leads c (handle_fin_wait2 hdr) (to (spec_fin_wait2 hdr (abs c))).
Proof.
  unfold handle_fin_wait2, spec_fin_wait2. eapply leads_bind.
  { instantiate (1 := to (if has (TcpHeader.flags hdr) FIN
      then with_state TimeWait (spec_fin (abs c)) else abs c)).
    destruct (has _ FIN); [apply leads_enter_time_wait|by apply leads_ret]. }
  intros c1 [] Hc1 <-. eapply leads_bind; [apply leads_late_payload|].
  intros c2 b Hc2 [E _]. by apply leads_ret.
Qed.

Lemma leads_handle_close_wait c :
  leads c (handle_close_wait hdr) (to (spec_close_wait hdr (abs c))).
Proof.
  unfold handle_close_wait, spec_close_wait. cbv zeta.
  eapply leads_bind; [apply leads_late_payload|]. intros c1 b Hc1 [E ->].
  unfold spec_late in E. eapply leads_bind.
  { instantiate (1 := to (if in_order hdr (abs c)
      then spec_ack_remote (spec_store (TcpHeader.payload hdr) (abs c)) else abs c)).
    revert E. destruct (in_order _ _); intros <-;
      [apply leads_ack_remote|by apply leads_ret]. }
  intros c2 [] Hc2 E2. unfold to in E2.
  destruct (has _ _); [|by apply leads_ret].
  eapply leads_mono; [apply leads_ack_remote|]. intros [] a ->. unfold to.
  by rewrite E2.
Qed.

Lemma leads_process_segment c :
  leads c (process_segment hdr) (to (spec_segment hdr (abs c))).
Proof.
  unfold process_segment, spec_segment. apply leads_conn.
  change (a_state (abs c)) with (state c). destruct (state c).
  - by apply leads_ret.
  - apply leads_handle_listen.
  - apply leads_handle_syn_sent.
  - apply leads_handle_syn_received.
  - apply leads_handle_established.
  - apply leads_handle_fin_wait1.
  - apply leads_handle_fin_wait2.
  - apply leads_handle_close_wait.
  - unfold handle_last_ack. destruct (has _ _); [|by apply leads_ret].
    by apply leads_last_update; [apply wf_set_state|].
  - by apply leads_ret.
Qed.

Lemma leads_receive_body src_ip c : length src_ip = 4%nat →
  leads c (receive_body src_ip hdr) (to (spec_receive src_ip hdr (abs c))).
Proof.
  intros Hip. unfold receive_body, spec_receive. cbv zeta.
  apply leads_update.
  { intros Hc. case_decide; [|done]. destruct Hc. by constructor. }
  apply leads_update.
  { intros Hc. destruct (remote_port _ =? 0); [|done]. destruct Hc. by constructor. }
  match goal with |- leads ?c2 _ (to (if _ then _ else spec_segment _ ?a)) =>
    assert (a = abs c2) as -> end.
  { unfold abs, with_peer. cbn [a_rip a_rport].
    destruct (decide (remote_ip c = replicate 4 0)) as [Ez|Ez];
      [rewrite bool_decide_true by done|rewrite bool_decide_false by done];
      destruct c; cbn in *; by destruct (remote_port =? 0). }
  destruct (has _ RST); [|apply leads_process_segment].
  apply leads_last_update; [intros _; apply new_wf|done].
Qed.
End handlers.

(** ** The calls *)

Lemma leads_isn {B} c (k : Z → C B) R :
  (∀ q, fits 32 q → leads c (k q) R) → leads c (on_net isn ≫= k) R.
Proof.
  intros Hk Hc n Hn. apply wp_bind, wp_on_net. unfold isn. apply wp_bind.
  eapply wp_mono; [apply now_wp|]. intros t n' (H1 & H2 & _ & Ht). apply wp_ret.
  eapply wp_mono; [apply Hk; [by apply wrap_fits|done|]|].
  { apply (wf_net_same n); [by split|done]. }
  intros x [c' n''] (? & [??] & ?). simpl in *.
  split; [done|]. split; [split; congruence|done].
Qed.

Ltac wf_step := intros []; constructor; try done; simpl; lia.

Lemma leads_listen_body port c :
  leads c (listen_body port) (λ _ a, ∃ q, fits 32 q ∧ a = spec_listen port q (abs c)).
Proof.
  unfold listen_body. do 4 (apply leads_update; [wf_step|]).
  apply leads_isn. intros q Hq. do 2 (apply leads_update; [wf_step|]).
  apply leads_last_update; [wf_step|]. by exists q.
Qed.

Lemma leads_connect_body lport rip rport c : length rip = 4%nat →
  leads c (connect_body lport rip rport)
    (λ _ a, ∃ q, fits 32 q ∧ a = spec_connect lport rip rport q (abs c)).
Proof.
  intros Hip. unfold connect_body. do 4 (apply leads_update; [wf_step|]).
  apply leads_isn. intros q Hq. do 3 (apply leads_update; [wf_step|]).
  apply leads_reset_rto. eapply leads_mono; [apply leads_segment; simpl; lia|].
  intros [] a ->. by exists q.
Qed.

Lemma leads_send_body data c :
  leads c (send_body data) (λ r a, (r, a) = spec_write data (abs c)).
Proof.
  apply leads_wf. intros Hc. unfold send_body, spec_write.
  apply leads_conn. rewrite pending_length by done. cbn [a_state abs].
  pose proof (wf_send_buf _ Hc) as Hb. pose proof (wf_send_len _ Hc) as Hl.
  rewrite Hb. change 1024%nat with SENDBUF. cbv zeta.
  case_decide as Hst; [rewrite bool_decide_true by done; by apply leads_ret|].
  rewrite bool_decide_false by done.
  set (k := (length data `min` (SENDBUF - send_len c))%nat).
  case_decide as Hk; [rewrite bool_decide_true by done; by apply leads_ret|].
  rewrite bool_decide_false by done.
  assert (k ≤ length data ∧ k ≤ 1024 - send_len c)%nat as [Hk1 Hk2] by (unfold k, SENDBUF; lia).
  eapply leads_lift; [by apply slice_take|].
  eapply leads_lift; [apply put_done; [lia|lia|rewrite length_take; lia]|].
  apply leads_update.
  { intros []. constructor; try done. simpl.
    rewrite !length_app, !length_take, length_drop. lia. }
  apply leads_update; [wf_step|].
  eapply leads_bind; [apply leads_flush|]. intros c' [] Hc' E. apply leads_ret.
  unfold to in E. rewrite E. repeat f_equal.
  unfold abs, with_pending. simpl. f_equal.
  rewrite take_app_ge by (rewrite length_take; lia). f_equal.
  rewrite length_take, Hb, Nat.min_l by lia.
  rewrite take_app_le by (rewrite length_take; lia).
  rewrite take_take. f_equal. lia.
Qed.

Lemma leads_recv_body buf c :
  leads c (recv_body buf) (λ r a, (r, a) = spec_read buf (abs c)).
Proof.
  apply leads_wf. intros Hc. unfold recv_body, spec_read.
  apply leads_conn. rewrite inbox_length by done. cbv zeta.
  pose proof (wf_recv_buf _ Hc) as Hb. pose proof (wf_recv_len _ Hc) as Hl.
  case_decide as Hz.
  { apply leads_ret. rewrite Hz. simpl. rewrite Hz. simpl. f_equal.
    unfold abs, with_inbox. simpl. by rewrite Hz. }
  set (k := (recv_len c `min` length buf)%nat).
  assert (k ≤ recv_len c ∧ k ≤ length buf)%nat as [Hk1 Hk2] by (unfold k; lia).
  eapply leads_lift; [apply slice_take; lia|].
  eapply leads_lift; [apply put_done; [lia|lia|rewrite length_take; lia]|].
  assert (drop k (take (recv_len c) (recv_buf c)) =
    take (recv_len c - k) (drop k (recv_buf c))) as Hd by apply skipn_firstn_comm.
  eapply (leads_bind _ _ _ (λ _ a, a = mkAbs (state c) (local_port c) (remote_ip c)
    (remote_port c) (local_seq c) (remote_seq c) (local_ack c)
    (take (send_len c) (send_buf c)) (inbox a) (retries c) ∧
    take (recv_len c - k) (inbox a) = drop k (inbox (abs c)) ∧ length (inbox a) = recv_len c)).
  - case_decide as Hlt.
    + eapply leads_lift; [apply copy_within0_done; lia|].
      apply leads_last_update.
      { intros []. constructor; try done. simpl.
        rewrite length_app, length_take, !length_drop. lia. }
      split; [done|]. cbn [inbox abs set_recv_buf recv_len recv_buf].
      rewrite Hd, take_take, Nat.min_l by lia.
      rewrite take_app_le by (rewrite length_take, length_drop; lia).
      rewrite take_take, Nat.min_id. split; [done|].
      rewrite length_take, length_app, length_take, !length_drop. lia.
    + apply leads_ret. split; [done|]. simpl. split.
      * replace (recv_len c - k)%nat with 0%nat by lia. rewrite take_0.
        rewrite drop_ge; [done|]. rewrite length_take. lia.
      * rewrite length_take. lia.
  - intros c' [] Hc' (E & Ht & Hlen). rewrite inbox_length in Hlen by done.
    apply leads_update; [wf_step|]. apply leads_ret. rewrite take_0. simpl app.
    assert (take k (recv_buf c) = take k (inbox (abs c))) as ->
      by (cbn [inbox abs]; by rewrite take_take, Nat.min_l by lia).
    f_equal. unfold abs in *. injection E as E1 E2 E3 E4 E5 E6 E7 E8 E9. unfold with_inbox. simpl.
    f_equal; try done. simpl in Ht. rewrite <- Ht.
    rewrite take_take. f_equal. lia.
Qed.

Lemma leads_close_body c :
  leads c close_body (λ r a, (r, a) = spec_close (abs c)).
Proof.
  unfold close_body, spec_close. apply leads_conn. cbn [a_state abs].
  destruct (state c) eqn:Hs; try by apply leads_ret.
  - eapply leads_bind; [apply leads_flush|]. intros c1 [] Hc1 E.
    apply leads_update; [apply wf_set_state|].
    eapply leads_bind; [apply leads_segment; simpl; lia|]. intros c2 [] Hc2 E2.
    apply leads_ret. unfold to in *. rewrite E2, <- E. done.
  - apply leads_update; [apply wf_set_state|].
    eapply leads_bind; [apply leads_segment; simpl; lia|]. intros c2 [] Hc2 E2.
    apply leads_ret. unfold to in *. by rewrite E2.
Qed.
End refinement.
