(* ===== verification/TcpTable.v ===== *)
(** * TCP: the connection table

    Refinement of the public calls of Tcp.v on the whole table, the invariant
    of everything reachable from the initial table, and the properties of
    single connections that follow from the abstract specification. *)
From stdpp Require Import strings.
From S2P Require Import Prelude Words Hardware Packets Pci Net Tcp TcpSegments.
From S2P Require Import TcpConnProps TcpSpec.
Local Open Scope Z_scope.
Import TcpHeader(TcpHeader).

Section timers.
Context {D : Type} `{NicOk D}.

(** What [check_retransmit] does, by the retry counter and the clock reading. *)
Lemma check_retransmit_wp c n : wf_conn c → wf_net n →
  wp check_retransmit (λ _ s', wf_conn s'.1 ∧ same_config n s'.2 ∧
    (if bool_decide (retries c = MAX_RETRIES) then s'.1 = new
     else ∃ t, fits 32 t ∧
       if rto_ms c <=? wsub 64 t (last_tx_time c) then
         abs s'.1 = with_retries (retries c + 1) (abs c) ∧
         rto_ms s'.1 = 2 * rto_ms c ∧ fits 32 (last_tx_time s'.1) ∧
         ∃ n1, emitted n1 c (last_tx_flags c) (take (last_tx_len c) (last_tx_payload c)) s'.2 ∧
           frames n1 = frames n
       else s'.1 = c ∧ frames s'.2 = frames n)) (c, n).
Proof.
  intros Hc Hn. unfold check_retransmit. apply wp_bind, wp_conn.
  pose proof (wf_retries _ Hc) as Hr. unfold MAX_RETRIES in *.
  destruct (Z.leb_spec 3 (retries c)) as [Hmax|Hlt].
  { rewrite bool_decide_true by lia. apply wp_bind.
    eapply wp_mono; [apply send_segment_raw_wp; [done|done|simpl; lia]|].
    intros _ [c' n'] [[Hs _] _]. apply wp_update. split; [apply new_wf|done]. }
  rewrite bool_decide_false by lia. apply wp_bind, wp_on_net.
  eapply wp_mono; [apply now_wp|]. intros t n1 (H1 & H2 & Hf1 & Ht).
  assert (same_config n n1) as Hs1 by done.
  destruct (Z.leb_spec (rto_ms c) (wsub 64 t (last_tx_time c))) as [Hdue|Hnot].
  2: { apply wp_ret. split; [done|]. split; [done|]. exists t. split; [done|].
       by rewrite (proj2 (Z.leb_gt _ _)). }
  pose proof (wf_tx_len _ Hc) as Hl. pose proof (wf_tx_buf _ Hc) as Hb. cbv zeta.
  set (k := last_tx_len c) in *.
  apply wp_bind, wp_lift. rewrite slice_take by lia. cbn beta iota delta [runs].
  apply wp_bind, wp_lift.
  rewrite put_done by (rewrite ?length_replicate, ?length_take; lia).
  cbn beta iota delta [runs]. rewrite take_0, app_nil_l. apply wp_bind, wp_lift.
  rewrite slice_take, take_app_length'
    by (rewrite ?length_app, ?length_take, ?length_drop, ?length_replicate; lia).
  cbn beta iota delta [runs]. set (p := take k (last_tx_payload c)).
  assert (length p = k) as Hp by (unfold p; rewrite length_take; lia).
  apply wp_bind. eapply wp_mono.
  { apply send_segment_raw_wp; [done|by apply (wf_net_same n)|lia]. }
  intros _ [c2 n2] [He Hrec]. simpl in He, Hrec. destruct He as [Hs2 He].
  apply wp_bind, wp_update, wp_bind, wp_update, wp_bind, wp_on_net.
  eapply wp_mono; [apply now_wp|]. intros t2 n3 (H3 & H4 & Hf3 & Ht2).
  apply wp_update. simpl.
  pose proof (wf_rto _ Hc) as Hrto.
  assert (0 < rto_ms c ≤ 4000) as Hrto4.
  { rewrite Hrto. unfold RTO_MS. assert (retries c = 0 ∨ retries c = 1 ∨ retries c = 2) as E by lia.
    destruct E as [->|[->| ->]]; pow2; lia. }
  assert (wadd 8 (retries c) 1 = retries c + 1) as Er
    by (unfold wadd; rewrite wrap_id; [done|pow2; lia]).
  assert (wrap 64 (rto_ms c * 2) = 2 * rto_ms c) as Eo
    by (rewrite wrap_id; [lia|pow2; lia]).
  assert (abs c2 = abs c ∧ wf_conn c2 ∧ rto_ms c2 = rto_ms c ∧ retries c2 = retries c)
    as (Ea & Hc2 & E1 & E2).
  { unfold recorded in Hrec. destruct (_ && _); [|by subst].
    destruct Hrec as (t' & Ht' & ->). rewrite abs_with_tx. split; [done|]. split; [|done].
    apply with_tx_wf; [done|by apply (fits_weaken 32)|lia|].
    rewrite length_app, length_drop, Hb. lia. }
  rewrite E1, E2, Er, Eo. split; [|split].
  - destruct Hc2. constructor; try done; simpl; [by apply (fits_weaken 32)|unfold MAX_RETRIES; lia|].
    rewrite Hrto, Z.pow_add_r by lia. lia.
  - split; simpl; destruct Hs2; congruence.
  - exists t. split; [done|]. rewrite (proj2 (Z.leb_le _ _)) by done.
    split; [by rewrite <- Ea|]. split; [done|]. split; [done|].
    exists n1. split; [|done].
    split; [split; simpl; destruct Hs2; congruence|].
    destruct He as (a & b & Hab & ?). exists a, b. by rewrite Hf3.
Qed.

Lemma leads_check_retransmit c :
  leads c check_retransmit (λ _ a',
    (retries c < MAX_RETRIES ∧ (a' = abs c ∨ a' = with_retries (retries c + 1) (abs c))) ∨
    (retries c = MAX_RETRIES ∧ a' = abs new)).
Proof.
  intros Hc n Hn. eapply wp_mono; [by apply check_retransmit_wp|].
  intros [] [c' n'] (Hc' & Hs & H'). split; [done|]. split; [done|]. simpl in *.
  pose proof (wf_retries _ Hc) as Hr.
  case_bool_decide; [right; by subst|]. left. split; [lia|].
  destruct H' as (t & _ & H'). case_match; [right; apply H'|left; by destruct H' as [-> _]].
Qed.

Lemma leads_poll_body t c : leads c (poll_body t) (λ _ a', spec_poll (abs c) a').
Proof.
  apply leads_wf. intros Hc. unfold poll_body. apply leads_conn.
  unfold spec_poll. cbn [a_state a_retries abs]. destruct (state c);
    try by apply leads_ret.
  all: try (eapply leads_mono; [apply leads_check_retransmit|]; by intros [] a).
  1, 2: case_decide as Hz; [apply leads_flush|]; apply leads_ret; unfold spec_flush;
    rewrite pending_nil, bool_decide_true by (done || lia); done.
  case_match; [|apply leads_ret; by left].
  apply leads_last_update; [apply wf_set_state|]. by right.
Qed.
End timers.

(** ** The table *)

Section table.
Context {D : Type} `{NicOk D}.
Implicit Types s : Tcp D.

Record wf_tcp s : Prop := {
  wf_conns : Forall wf_conn (CONNS s);
  wf_slots : length (CONNS s) = MAX_CONNS;
  wf_below : wf_net (net s);
}.

(** Slot [i] changes as [R] says, no other slot changes. *)
Definition slot_step (i : nat) (R : Abs → Abs → Prop) s s' : Prop :=
  wf_tcp s' ∧ same_config (net s) (net s') ∧
  ∃ c c', CONNS s !! i = Some c ∧ CONNS s' = <[i := c']> (CONNS s) ∧ R (abs c) (abs c').

Lemma on_conn_wp {A} i c (m : ST (TcpConn * NetState D) A) R
    (Q : A → Tcp D → Prop) s :
  wf_tcp s → CONNS s !! i = Some c → leads c m R →
  (∀ x s', (slot_step i (λ a a', a = abs c ∧ R x a') s s') → Q x s') →
  wp (on_conn i m) Q s.
Proof.
  intros Hs Hi Hm HQ. assert (wf_conn c) as Hc
    by (destruct Hs as [Hf _ _]; by eapply Forall_lookup_1 in Hf).
  pose proof (Hm Hc (net s) (wf_below _ Hs)) as (x & [c' n'] & E & Hc' & Hn' & HR)%wp_inv.
  unfold wp, on_conn. rewrite Hi, E. apply HQ. simpl in *. split; [|split; [done|]].
  - destruct Hs. constructor; simpl; [by apply Forall_insert|by rewrite length_insert|].
    by eapply wf_net_same.
  - by exists c, c'.
Qed.

Lemma slot_lookup s i : wf_tcp s → (i < MAX_CONNS)%nat → ∃ c, CONNS s !! i = Some c.
Proof. intros Hs Hi. apply lookup_lt_is_Some. by rewrite (wf_slots _ Hs). Qed.

Lemma with_conn_wp {A} i (m : ST (TcpConn * NetState D) (result A string))
    (F : Abs → result A string * Abs) s :
  wf_tcp s → (∀ c, leads c m (λ r a, (r, a) = F (abs c))) →
  wp (with_conn i m) (λ r s', if decide (i < MAX_CONNS)%nat
    then slot_step i (λ a a', (r, a') = F a) s s'
    else r = Err "invalid connection index"%string ∧ s' = s) s.
Proof.
  intros Hs Hm. unfold with_conn. apply wp_bind, wp_get. rewrite (wf_slots _ Hs).
  case_decide as Hi; [|by apply wp_ret].
  destruct (slot_lookup s i Hs Hi) as [c Hc].
  eapply on_conn_wp; [done|exact Hc|apply Hm|].
  intros r s' (? & ? & c0 & c' & ? & ? & E & ?).
  split; [done|]. split; [done|]. exists c0, c'. by rewrite E.
Qed.

Lemma position_Some p l i : position p l = Some i →
  ∃ c, l !! i = Some c ∧ p c = true ∧ ∀ j c', (j < i)%nat → l !! j = Some c' → p c' = false.
Proof.
  revert i. induction l as [|c l IH]; intros i; simpl; [done|].
  destruct (p c) eqn:Hp.
  - intros [= <-]. exists c. split_and!; try done. intros j c' ?. lia.
  - destruct (position p l) as [k|]; [|done]. intros [= <-].
    destruct (IH k eq_refl) as (d & Hd & Hpd & Hmin). exists d. split_and!; try done.
    intros [|j] c' Hj; simpl; [by intros [= ->]|]. apply Hmin. lia.
Qed.

Lemma position_None p l : position p l = None → ∀ j c, l !! j = Some c → p c = false.
Proof.
  induction l as [|c l IH]; simpl; [done|]. destruct (p c) eqn:Hp; [done|].
  destruct (position p l); [done|]. intros _ [|j] c'; simpl; [by intros [= ->]|by apply IH].
Qed.

Lemma be32_fits i data w : bytes data → be32 i data = Done w → fits 32 w.
Proof.
  intros Hb. assert (∀ j x, index j data = Done x → fits 8 x) as Hi.
  { intros j x. unfold index. destruct (data !! j) eqn:E; [|done]. intros [= <-].
    by eapply Forall_lookup_1 in Hb. }
  unfold be32. intros (a & Ha & (b & Hb' & (c & Hc & (d & Hd & [= <-])
    %outcome_bind_done)%outcome_bind_done)%outcome_bind_done)%outcome_bind_done.
  apply (from_be_fits [a; b; c; d]). repeat constructor; by eapply Hi.
Qed.

(** Parsing a segment never panics, and what it accepts is in range. *)
Lemma parse_runs data : bytes data → length data < 2 ^ 32 →
  runs (TcpHeader.parse data) (λ r, match r with Some hdr => wf_hdr hdr | None => True end).
Proof.
  intros Hb Hl. unfold TcpHeader.parse. case_decide as Hlen; [by apply runs_ret|].
  destruct (be16_done 0 data) as [w0 ->]; [lia|]. cbn [mbind outcome_bind].
  destruct (be16_done 2 data) as [w1 ->]; [lia|]. cbn [mbind outcome_bind].
  destruct (be32_total 4 data) as [w2 E2]; [lia|]. rewrite E2. cbn [mbind outcome_bind].
  destruct (be32_total 8 data) as [w3 E3]; [lia|]. rewrite E3. cbn [mbind outcome_bind].
  destruct (index_lt 12 data) as (b & _ & ->); [lia|]. cbn [mbind outcome_bind].
  cbv zeta. case_decide as Hoff; [by apply runs_ret|].
  destruct (index_lt 13 data) as (b' & _ & ->); [lia|]. cbn [mbind outcome_bind].
  destruct (be16_done 14 data) as [w4 ->]; [lia|]. cbn [mbind outcome_bind].
  destruct (be16_done 16 data) as [w5 ->]; [lia|]. cbn [mbind outcome_bind].
  destruct (be16_done 18 data) as [w6 ->]; [lia|]. cbn [mbind outcome_bind].
  rewrite slice_done by lia. cbn [mbind outcome_bind]. apply runs_ret.
  constructor; simpl; [by eapply be32_fits|by eapply be32_fits|].
  rewrite length_take, length_drop. lia.
Qed.

Lemma receive_wp src dst data s :
  wf_tcp s → length src = 4%nat → bytes data → length data < 2 ^ 32 →
  wp (receive src dst data) (λ _ s',
    ∃ r, TcpHeader.parse data = Done r ∧
    match r with
    | None => s' = s
    | Some hdr =>
        match position (matches src hdr) (CONNS s) with
        | None => s' = s
        | Some i => slot_step i (λ a a', a' = spec_receive src hdr a) s s'
        end
    end) s.
Proof.
  intros Hs Hip Hb Hl. unfold receive. apply wp_bind, wp_lift.
  pose proof (parse_runs data Hb Hl) as (r & E & Hr)%runs_inv. rewrite E. simpl.
  destruct r as [hdr|]; [|apply wp_ret; by exists None].
  apply wp_bind, wp_get. destruct (position (matches src hdr) (CONNS s)) as [i|] eqn:Hp.
  2: { apply wp_ret. exists (Some hdr). by rewrite Hp. }
  destruct (position_Some _ _ _ Hp) as (c & Hc & _ & _).
  eapply on_conn_wp; [done|exact Hc|by apply leads_receive_body|].
  intros [] s' (? & ? & c0 & c' & ? & ? & Ea & HR). exists (Some hdr). split; [done|].
  rewrite Hp. split; [done|]. split; [done|]. exists c0, c'. by rewrite Ea.
Qed.

(** C1: demultiplexing and refinement of [receive].  On a well-formed table
    and any byte string it returns (no panic); a segment that does not parse
    or matches no slot changes nothing and sends nothing; otherwise exactly
    the first matching slot changes, as the abstract specification of the
    TCP state machine says, and the table stays well-formed. *)
Theorem receive_refines_spec src dst data s :
  wf_tcp s → length src = 4%nat → bytes data → length data < 2 ^ 32 →
  wp (receive src dst data) (λ _ s',
    ∃ r, TcpHeader.parse data = Done r ∧
    match r with
    | None => s' = s
    | Some hdr =>
        match position (matches src hdr) (CONNS s) with
        | None => s' = s
        | Some i => slot_step i (λ a a', a' = spec_receive src hdr a) s s'
        end
    end) s.
Proof. apply receive_wp. Qed.
End table.

(** ** Polling and the reachable tables *)

Section reachable.
Context {D : Type} `{NicOk D}.
Implicit Types s : Tcp D.

Definition polled (lo hi : nat) s s' : Prop :=
  wf_tcp s' ∧ same_config (net s) (net s') ∧
  ∀ j c, CONNS s !! j = Some c → ∃ c', CONNS s' !! j = Some c' ∧
    if decide (lo ≤ j < hi)%nat then spec_poll (abs c) (abs c') else c' = c.

Lemma poll_from_wp n i t s : wf_tcp s → (i + n = MAX_CONNS)%nat →
  wp (poll_from n i t) (λ _ s', polled i MAX_CONNS s s') s.
Proof.
  revert i s. induction n as [|n IH]; intros i s Hs Hn; cbn [poll_from].
  { apply wp_ret. split; [done|]. split; [done|]. intros j c Hj. exists c.
    split; [done|]. case_decide; [lia|done]. }
  destruct (slot_lookup s i Hs) as [c Hc]; [lia|].
  apply wp_bind. eapply on_conn_wp; [done|exact Hc|apply leads_poll_body|].
  intros [] s1 (Hs1 & Hn1 & c0 & c' & Hc0 & E1 & Ea & HR).
  eapply wp_mono; [apply IH; [done|lia]|].
  intros [] s2 (Hs2 & Hn2 & Hall). split; [done|]. split; [by etrans|].
  intros j d Hj. destruct (decide (j = i)) as [->|Hne].
  - destruct (Hall i c') as (d' & Hd' & Hd).
    { rewrite E1, list_lookup_insert_eq; [done|]. by apply lookup_lt_Some in Hc. }
    exists d'. split; [done|]. rewrite decide_False in Hd by lia. subst d'.
    rewrite decide_True by lia. rewrite Hj in Hc. injection Hc as ->. done.
  - destruct (Hall j d) as (d' & Hd' & Hd); [by rewrite E1, list_lookup_insert_ne|].
    exists d'. split; [done|]. repeat case_decide; try done; lia.
Qed.

Lemma poll_wp s : wf_tcp s → wp poll (λ _ s', polled 0 MAX_CONNS s s') s.
Proof.
  intros Hs. unfold poll. apply wp_bind, wp_zoom.
  eapply wp_mono; [apply now_wp|]. intros t n (H1 & H2 & _ & _).
  apply wp_bind, wp_get. cbn [CONNS].
  assert (wf_tcp (mkTcpState (CONNS s) n)) as Hs1.
  { destruct Hs. constructor; try done. by apply (wf_net_same (net s)). }
  eapply wp_mono; [apply poll_from_wp; [done|by rewrite (wf_slots _ Hs)]|].
  intros [] s' (? & [H3 H4] & ?). split; [done|]. split; [|done].
  simpl in *. split; congruence.
Qed.

Lemma listen_wp port s : wf_tcp s → wp (listen port) (λ r s',
    match position is_closed (CONNS s) with
    | Some i => r = Ok tt ∧ slot_step i (λ a a', ∃ q, fits 32 q ∧ a' = spec_listen port q a) s s'
    | None => r = Err "no free connection slots"%string ∧ s' = s
    end) s.
Proof.
  intros Hs. unfold listen. apply wp_bind, wp_get.
  destruct (position is_closed (CONNS s)) as [i|] eqn:Hp; [|by apply wp_ret].
  destruct (position_Some _ _ _ Hp) as (c & Hc & _ & _). apply wp_bind.
  eapply on_conn_wp; [done|exact Hc|apply leads_listen_body|].
  intros [] s' (? & ? & c0 & c' & ? & ? & Ea & HR). apply wp_ret. split; [done|].
  split; [done|]. split; [done|]. exists c0, c'. by rewrite Ea.
Qed.

Lemma connect_wp lport rip rport s : wf_tcp s → length rip = 4%nat →
  wp (connect lport rip rport) (λ r s',
    match position is_closed (CONNS s) with
    | Some i => r = Ok i ∧ slot_step i
        (λ a a', ∃ q, fits 32 q ∧ a' = spec_connect lport rip rport q a) s s'
    | None => r = Err "no free connection slots"%string ∧ s' = s
    end) s.
Proof.
  intros Hs Hip. unfold connect. apply wp_bind, wp_get.
  destruct (position is_closed (CONNS s)) as [i|] eqn:Hp; [|by apply wp_ret].
  destruct (position_Some _ _ _ Hp) as (c & Hc & _ & _). apply wp_bind.
  eapply on_conn_wp; [done|exact Hc|by apply leads_connect_body|].
  intros [] s' (? & ? & c0 & c' & ? & ? & Ea & HR). apply wp_ret. split; [done|].
  split; [done|]. split; [done|]. exists c0, c'. by rewrite Ea.
Qed.

(** The calls of the rest of the kernel. *)
Inductive call : Type :=
  | CListen (port : Z)
  | CConnect (lport : Z) (rip : list Z) (rport : Z)
  | CSend (idx : nat) (data : list Z)
  | CRecv (idx : nat) (buf : list Z)
  | CClose (idx : nat)
  | CReceive (src dst data : list Z)
  | CPoll.

Definition run (k : call) : ST (Tcp D) unit :=
  match k with
  | CListen port => listen port ;; mret tt
  | CConnect lport rip rport => connect lport rip rport ;; mret tt
  | CSend i data => send i data ;; mret tt
  | CRecv i buf => recv i buf ;; mret tt
  | CClose i => close i ;; mret tt
  | CReceive src dst data => receive src dst data
  | CPoll => poll
  end.

(** Arguments of the types of the source: addresses of four bytes, byte
    slices of a size a 32-bit length can express. *)
Definition call_ok (k : call) : Prop :=
  match k with
  | CConnect _ rip _ => length rip = 4%nat
  | CReceive src _ data => length src = 4%nat ∧ bytes data ∧ length data < 2 ^ 32
  | _ => True
  end.

(** What causes a change of state. *)
Inductive event : Type := Api | Segment | Tick.
Definition event_of (k : call) : event :=
  match k with CReceive _ _ _ => Segment | CPoll => Tick | _ => Api end.

(** The transitions of the connection states. *)
Definition edge (e : event) (q q' : TcpState) : bool :=
  bool_decide (q = q') ||
  match e, q, q' with
  | Api, Closed, (Listen | SynSent) => true
  | Api, Established, FinWait1 => true
  | Api, CloseWait, LastAck => true
  | Segment, Closed, _ | Segment, TimeWait, _ => false
  | Segment, _, Closed => true
  | Segment, Listen, SynReceived => true
  | Segment, (SynSent | SynReceived), Established => true
  | Segment, Established, CloseWait => true
  | Segment, FinWait1, (FinWait2 | TimeWait) => true
  | Segment, FinWait2, TimeWait => true
  | Tick, (SynSent | SynReceived | FinWait1 | LastAck | TimeWait), Closed => true
  | _, _, _ => false
  end.

Lemma edge_refl e q : edge e q q.
Proof. unfold edge. by rewrite bool_decide_true. Qed.

Lemma flush_state a : a_state (spec_flush a) = a_state a.
Proof. unfold spec_flush. by case_match. Qed.

Lemma ack_state k a : a_state (spec_ack k a) = a_state a.
Proof. unfold spec_ack. cbv zeta. case_match; [by rewrite flush_state|done]. Qed.

Lemma late_state hdr a : a_state (spec_late hdr a) = a_state a.
Proof. unfold spec_late. by case_match. Qed.

Lemma established_edge hdr a : a_state a = Established →
  a_state (spec_established hdr a) = Established ∨
  a_state (spec_established hdr a) = CloseWait.
Proof.
  intros Ha. unfold spec_established. cbv zeta.
  assert (a_state (if has (TcpHeader.flags hdr) ACK then spec_ack (TcpHeader.ack hdr) a else a)
    = Established) as Ha1 by (case_match; [by rewrite ack_state|done]).
  revert Ha1. generalize (if has (TcpHeader.flags hdr) ACK
    then spec_ack (TcpHeader.ack hdr) a else a). intros a1 Ha1.
  repeat case_match; simpl; auto.
Qed.

Lemma spec_segment_edge hdr a :
  edge Segment (a_state a) (a_state (spec_segment hdr a)).
Proof.
  unfold spec_segment. destruct (a_state a) eqn:Ha.
  - by rewrite Ha.
  - unfold spec_listen_segment. case_match; simpl; by rewrite ?Ha.
  - unfold spec_syn_sent. case_match; rewrite ?flush_state, ?Ha; done.
  - unfold spec_syn_received. case_match; simpl; by rewrite ?Ha.
  - by destruct (established_edge hdr a Ha) as [-> | ->].
  - unfold spec_fin_wait1. rewrite late_state. repeat case_match; simpl; by rewrite ?Ha.
  - unfold spec_fin_wait2. rewrite late_state. case_match; simpl; by rewrite ?Ha.
  - unfold spec_close_wait. cbv zeta. repeat case_match; simpl; by rewrite ?Ha.
  - case_match; simpl; by rewrite ?Ha.
  - by rewrite Ha.
Qed.

Lemma matches_open src hdr c : matches src hdr c = true →
  state c ≠ Closed ∧ state c ≠ TimeWait.
Proof. unfold matches. rewrite !andb_true_iff, !bool_decide_eq_true. tauto. Qed.

Lemma spec_receive_edge src hdr c : matches src hdr c = true →
  edge Segment (state c) (a_state (spec_receive src hdr (abs c))).
Proof.
  intros [H1 H2]%matches_open. unfold spec_receive. cbv zeta.
  destruct (has _ RST).
  - simpl. destruct (state c); done.
  - apply (spec_segment_edge hdr (with_peer _ _ (abs c))).
Qed.

Lemma spec_poll_edge a a' : spec_poll a a' → edge Tick (a_state a) (a_state a').
Proof.
  unfold spec_poll. destruct (a_state a) eqn:Ha; intros H1;
    try (destruct H1 as [[_ [-> | ->]]|[_ ->]]; simpl; by rewrite ?Ha);
    try (destruct H1 as [-> | ->]; simpl; by rewrite ?Ha);
    subst; by rewrite ?flush_state, ?Ha.
Qed.

(** Every slot is either left alone or takes an edge. *)
Definition steps_along (e : event) s s' : Prop :=
  ∀ j c, CONNS s !! j = Some c → ∃ c', CONNS s' !! j = Some c' ∧
    edge e (state c) (state c').

Lemma steps_along_refl e s : steps_along e s s.
Proof. intros j c Hj. exists c. split; [done|apply edge_refl]. Qed.

Lemma slot_step_along e i R s s' : slot_step i R s s' →
  (∀ c c', CONNS s !! i = Some c → R (abs c) (abs c') → edge e (state c) (state c')) →
  steps_along e s s'.
Proof.
  intros (_ & _ & c & c' & Hc & E & HR) He j d Hj. rewrite E.
  destruct (decide (j = i)) as [->|].
  - rewrite Hj in Hc. injection Hc as ->. exists c'.
    rewrite list_lookup_insert_eq by by eapply lookup_lt_Some. split; [done|by apply He].
  - rewrite list_lookup_insert_ne by done. exists d. split; [done|apply edge_refl].
Qed.

Lemma run_wp k s : wf_tcp s → call_ok k →
  wp (run k) (λ _ s', wf_tcp s' ∧ same_config (net s) (net s') ∧
    steps_along (event_of k) s s') s.
Proof.
  intros Hs Hk. assert (wf_tcp s ∧ same_config (net s) (net s) ∧
    steps_along (event_of k) s s) as Hself by (split; [done|split; [done|apply steps_along_refl]]).
  destruct k as [port|lport rip rport|i data|i buf|i|src dst data|]; simpl in Hk |- *.
  - apply wp_bind. eapply wp_mono; [by apply listen_wp|]. intros r s'.
    destruct (position _ _) as [i|] eqn:Hp; intros [-> H1]; apply wp_ret; [|by subst].
    split; [apply H1|]. split; [apply H1|]. eapply slot_step_along; [exact H1|].
    destruct (position_Some _ _ _ Hp) as (d & Hd & Hcl & _).
    intros c c' Hc (q & _ & Ea). rewrite Hc in Hd. injection Hd as ->.
    apply bool_decide_eq_true in Hcl. apply (f_equal a_state) in Ea. simpl in Ea.
    by rewrite Hcl, Ea.
  - apply wp_bind. eapply wp_mono; [by apply connect_wp|]. intros r s'.
    destruct (position _ _) as [i|] eqn:Hp; intros [-> H1]; apply wp_ret; [|by subst].
    split; [apply H1|]. split; [apply H1|]. eapply slot_step_along; [exact H1|].
    destruct (position_Some _ _ _ Hp) as (d & Hd & Hcl & _).
    intros c c' Hc (q & _ & Ea). rewrite Hc in Hd. injection Hd as ->.
    apply bool_decide_eq_true in Hcl. apply (f_equal a_state) in Ea. simpl in Ea.
    by rewrite Hcl, Ea.
  - apply wp_bind. eapply wp_mono; [apply with_conn_wp; [done|intros; apply leads_send_body]|].
    intros r s' H1. apply wp_ret. case_decide; [|by destruct H1 as [_ ->]].
    split; [apply H1|]. split; [apply H1|]. eapply slot_step_along; [exact H1|].
    intros c c' _ Ea. apply (f_equal (λ x, a_state x.2)) in Ea. revert Ea.
    cbn [snd].
    unfold spec_write. cbv zeta. repeat case_bool_decide; cbn [snd]; rewrite ?flush_state;
      simpl; intros ->; apply edge_refl.
  - apply wp_bind. eapply wp_mono; [apply with_conn_wp; [done|intros; apply leads_recv_body]|].
    intros r s' H1. apply wp_ret. case_decide; [|by destruct H1 as [_ ->]].
    split; [apply H1|]. split; [apply H1|]. eapply slot_step_along; [exact H1|].
    intros c c' _ Ea. apply (f_equal (λ x, a_state x.2)) in Ea. simpl in Ea.
    rewrite Ea. apply edge_refl.
  - apply wp_bind. eapply wp_mono; [apply with_conn_wp; [done|intros; apply leads_close_body]|].
    intros r s' H1. apply wp_ret. case_decide; [|by destruct H1 as [_ ->]].
    split; [apply H1|]. split; [apply H1|]. eapply slot_step_along; [exact H1|].
    intros c c' _ Ea. apply (f_equal (λ x, a_state x.2)) in Ea. revert Ea.
    cbn [snd].
    unfold spec_close. cbn [a_state abs].
    destruct (state c) eqn:Hst; simpl; rewrite ?Hst, ?flush_state; intros ->; done.
  - destruct Hk as (Hsrc & Hb & Hl). eapply wp_mono; [by apply receive_wp|].
    intros [] s' (r & _ & H1). destruct r as [hdr|]; [|by subst].
    destruct (position _ _) as [i|] eqn:Hp; [|by subst].
    destruct (position_Some _ _ _ Hp) as (d & Hd & Hm & _).
    split; [apply H1|]. split; [apply H1|]. eapply slot_step_along; [exact H1|].
    intros c c' Hc Ea. rewrite Hc in Hd. injection Hd as ->.
    apply (f_equal a_state) in Ea. simpl in Ea. rewrite Ea. by apply spec_receive_edge.
  - eapply wp_mono; [by apply poll_wp|]. intros [] s' (H1 & H2 & Hall).
    split; [done|]. split; [done|]. intros j c Hj.
    destruct (Hall j c Hj) as (c' & Hc' & HR). exists c'. split; [done|].
    rewrite decide_True in HR; [by apply (spec_poll_edge (abs c) (abs c'))|].
    split; [lia|]. rewrite <- (wf_slots _ Hs). by eapply lookup_lt_Some.
Qed.

Definition call_step s s' : Prop := ∃ k, call_ok k ∧ run k s = Done (tt, s').

Definition boot (n : NetState D) : Tcp D := mkTcpState (replicate MAX_CONNS new) n.

Lemma boot_wf n : wf_net n → wf_tcp (boot n).
Proof.
  intros Hn. constructor; [|done|done]. apply Forall_replicate, new_wf.
Qed.

Lemma call_steps_wf s s' : rtc call_step s s' → wf_tcp s → wf_tcp s'.
Proof.
  induction 1 as [|s s1 s' (k & Hk & E) _ IH]; [done|]. intros Hs. apply IH.
  pose proof (run_wp k s Hs Hk) as H1. unfold wp in H1. rewrite E in H1. apply H1.
Qed.

(** C17: safety of the TCP layer.  From the initial table, after any sequence
    of listen, connect, send, receive, close calls, incoming segments (any
    bytes) and polls, whatever the card and the clock do: the invariant of
    every connection holds (buffer lengths, retry count at most 3 and
    timeout 1000 * 2^retries ms, ...), the next call of any kind returns (no
    index out of bounds, no endless loop), and each slot's state moves only
    along the transitions of [edge]: for instance only an incoming segment
    establishes a connection, and only closing calls start the FIN exchange. *)
Theorem tcp_calls_safe n s k :
  wf_net n → rtc call_step (boot n) s → call_ok k →
  wf_tcp s ∧ ∃ s', run k s = Done (tt, s') ∧ wf_tcp s' ∧
    ∀ j c, CONNS s !! j = Some c → ∃ c', CONNS s' !! j = Some c' ∧
      edge (event_of k) (state c) (state c') = true.
Proof.
  intros Hn Hr Hk. assert (wf_tcp s) as Hs by by eapply call_steps_wf, boot_wf.
  split; [done|]. pose proof (run_wp k s Hs Hk) as ([] & s' & E & H1 & _ & H3)%wp_inv.
  exists s'. split; [done|]. split; [done|]. intros j c Hj.
  destruct (H3 j c Hj) as (c' & ? & He). exists c'. split; [done|]. by apply Is_true_true.
Qed.
End reachable.
