(* ===== verification/TcpProps.v ===== *)
(** * TCP: properties of connections

    In-order delivery to the reader, retransmission, and the places where the
    code departs from the protocol. *)
From stdpp Require Import strings.
From S2P Require Import Prelude Words Hardware Packets Pci Net Tcp TcpSegments.
From S2P Require Import TcpConnProps TcpSpec TcpTable.
Local Open Scope Z_scope.
Import TcpHeader(TcpHeader).

(** ** Concrete connections for the witnesses *)

Definition example_net (rx : list (list Z)) : NetState Script :=
  mkNet (Some (mkConfig [10; 0; 2; 15] [255; 255; 255; 0] [10; 0; 2; 2] [8; 8; 8; 8]))
    (mkStatus Rtl8139 true [1; 2; 3; 4; 5; 6] None) (mkScript rx 5000 0 []).

Lemma example_net_wf rx : wf_net (example_net rx).
Proof. by constructor. Qed.

Definition example_conn (st : TcpState) : TcpConn :=
  set_state st (set_local_port 4000 (set_remote_ip [10; 0; 2; 2] (set_remote_port 80
    (set_local_seq 5001 (set_remote_seq 700 (set_local_ack 700 new)))))).

Lemma example_conn_wf st : wf_conn (example_conn st).
Proof. constructor; simpl; try done; try lia; by pow2. Qed.

(** A segment of the peer. *)
Definition peer_segment (seq ack flags : Z) (payload : list Z) : TcpHeader :=
  TcpHeader.mkTcp 80 4000 seq ack 20 flags 8192 0 0 payload.

(** ** Delivery *)

Section delivery.
Context {D : Type} `{NicOk D}.
(** The peer's byte stream, and the sequence number of its first byte. *)
Context (stream : list Z) (base : Z).

(** An established connection and what its reader has read so far. *)
Definition Session : Type := list Z * (TcpConn * NetState D).

(** A data segment of the peer: a piece of the stream, at its place, in any
    order and any number of times. *)
Definition honest (hdr : TcpHeader) : Prop :=
  ∃ off len, (off + len ≤ length stream)%nat ∧
    TcpHeader.payload hdr = take len (drop off stream) ∧
    TcpHeader.seq hdr = wrap 32 (base + off) ∧
    has (TcpHeader.flags hdr) FIN = false ∧ fits 32 (TcpHeader.ack hdr).

Inductive session_step : Session → Session → Prop :=
  | arrives hdr got c n c' n' :
      honest hdr →
      (recv_len c + length (TcpHeader.payload hdr) ≤ 4096)%nat →
      handle_established hdr (c, n) = Done (tt, (c', n')) →
      session_step (got, (c, n)) (got, (c', n'))
  | reads buf k buf' got c n c' n' :
      recv_body buf (c, n) = Done (Ok (k, buf'), (c', n')) →
      session_step (got, (c, n)) (got ++ take k buf', (c', n')).

(** [k] bytes of the stream have arrived. *)
Record session_ok (k : nat) (x : Session) : Prop := {
  so_conn : wf_conn x.2.1;
  so_net : wf_net x.2.2;
  so_state : state x.2.1 = Established;
  so_seq : remote_seq x.2.1 = wrap 32 (base + k);
  so_k : (k ≤ length stream)%nat;
  so_bytes : x.1 ++ inbox (abs x.2.1) = take k stream;
}.

Lemma spec_ack_rest k a : rseq (spec_ack k a) = rseq a ∧ inbox (spec_ack k a) = inbox a ∧
  a_state (spec_ack k a) = a_state a.
Proof.
  unfold spec_ack, spec_flush. cbv zeta. repeat case_match; done.
Qed.

Lemma offset_inj (o k : nat) : (o ≤ length stream)%nat → (k ≤ length stream)%nat →
  length stream < 2 ^ 32 → wrap 32 (base + o) = wrap 32 (base + k) → o = k.
Proof.
  intros Ho Hk Hl E. unfold wrap in E.
  assert ((Z.of_nat o - Z.of_nat k) mod 2 ^ 32 = 0) as Hm.
  { replace (Z.of_nat o - Z.of_nat k) with ((base + o) - (base + k)) by lia.
    rewrite Zminus_mod, E, Z.sub_diag. apply Zmod_0_l. }
  apply Z.mod_divide in Hm as [q Hq]; [|done].
  assert (q = 0) by nia. lia.
Qed.

Lemma session_arrival hdr got c n c' n' k : length stream < 2 ^ 32 → session_ok k (got, (c, n)) →
  honest hdr → (recv_len c + length (TcpHeader.payload hdr) ≤ 4096)%nat →
  handle_established hdr (c, n) = Done (tt, (c', n')) →
  ∃ k', (k ≤ k')%nat ∧ session_ok k' (got, (c', n')).
Proof.
  intros Hl [Hc Hn Hst Hseq Hk Hb] Hh Hfit E. simpl in *.
  destruct Hh as (off & len & Hoff & Hp & Hsq & Hfin & Hack).
  assert (wf_hdr hdr) as Hhdr.
  { constructor; [rewrite Hsq; by apply wrap_fits|done|].
    rewrite Hp, length_take, length_drop. lia. }
  pose proof (leads_handle_established hdr Hhdr c Hc n Hn) as HE.
  unfold wp in HE. rewrite E in HE. destruct HE as (Hc' & Hs' & Ha). simpl in *.
  unfold to, spec_established in Ha. cbv zeta in Ha. rewrite Hfin in Ha.
  set (a1 := if has (TcpHeader.flags hdr) ACK
    then spec_ack (TcpHeader.ack hdr) (abs c) else abs c) in Ha.
  assert (rseq a1 = remote_seq c ∧ inbox a1 = inbox (abs c) ∧ a_state a1 = Established)
    as (Hr1 & Hi1 & Hst1).
  { unfold a1. destruct (spec_ack_rest (TcpHeader.ack hdr) (abs c)) as (H1 & H2 & H3).
    destruct (has (TcpHeader.flags hdr) ACK); rewrite ?H1, ?H2, ?H3; exact (conj eq_refl (conj eq_refl Hst)). }
  assert (abs c' = a1 → ∃ k', (k ≤ k')%nat ∧ session_ok k' (got, (c', n'))) as Hsame.
  { intros Ea. exists k. split; [done|]. constructor; simpl; try done.
    - by eapply wf_net_same.
    - apply (f_equal a_state) in Ea. simpl in Ea. by rewrite Ea.
    - apply (f_equal rseq) in Ea. simpl in Ea. by rewrite Ea, Hr1.
    - change (take (recv_len c') (recv_buf c')) with (inbox (abs c')). by rewrite Ea, Hi1. }
  case_bool_decide as Hnil; [by apply Hsame|].
  destruct (Z.eqb_spec (TcpHeader.seq hdr) (rseq a1)) as [Heq|]; [|by apply Hsame].
  rewrite Hr1, Hsq, Hseq in Heq.
  apply offset_inj in Heq as ->; [|lia..].
  exists (k + len)%nat. split; [lia|].
  assert (length (TcpHeader.payload hdr) = len) as Hlen
    by (rewrite Hp, length_take, length_drop; lia).
  pose proof (inbox_length c Hc) as Hil.
  constructor; simpl; try done.
  - by eapply wf_net_same.
  - apply (f_equal a_state) in Ha. simpl in Ha. by rewrite Ha.
  - apply (f_equal rseq) in Ha. simpl in Ha. rewrite Ha, Hr1, Hseq, Hlen.
    unfold wadd. rewrite wrap_add_l. f_equal. lia.
  - change (take (recv_len c') (recv_buf c')) with (inbox (abs c')). rewrite Ha. simpl.
    rewrite Hi1, Hil, take_ge by (unfold INBOX; lia).
    change (take (recv_len c) (recv_buf c)) with (inbox (abs c)) in Hb.
    rewrite app_assoc. simpl in Hb |- *. rewrite Hb, Hp.
    apply take_take_drop.
Qed.
Lemma session_read buf j buf' got c n c' n' k : session_ok k (got, (c, n)) →
  recv_body buf (c, n) = Done (Ok (j, buf'), (c', n')) →
  ∃ k', (k ≤ k')%nat ∧ session_ok k' (got ++ take j buf', (c', n')).
Proof.
  intros [Hc Hn Hst Hseq Hk Hb] E. simpl in *.
  pose proof (leads_recv_body buf c Hc n Hn) as HE.
  unfold wp in HE. rewrite E in HE. destruct HE as (Hc' & Hs' & Ha). simpl in *.
  unfold spec_read in Ha. cbv zeta in Ha. exists k. split; [done|].
  set (m := (length (inbox (abs c)) `min` length buf)%nat) in Ha.
  assert (m ≤ length (inbox (abs c)))%nat as Hm by (unfold m; lia).
  assert (j = m ∧ buf' = take m (inbox (abs c)) ++ drop m buf ∧
    abs c' = with_inbox (drop m (inbox (abs c))) (abs c)) as (-> & -> & Ea)
    by (pose proof (f_equal fst Ha) as H1; pose proof (f_equal snd Ha) as H2;
        cbn [fst snd] in H1, H2; injection H1 as -> ->; done).
  constructor; simpl; try done.
  - by eapply wf_net_same.
  - apply (f_equal a_state) in Ea. simpl in Ea. by rewrite Ea.
  - apply (f_equal rseq) in Ea. simpl in Ea. by rewrite Ea.
  - change (take (recv_len c') (recv_buf c')) with (inbox (abs c')). rewrite Ea.
    cbn [inbox with_inbox]. rewrite (take_app_length' _ _ m) by (symmetry; exact (length_take_le _ _ Hm)).
    rewrite <- app_assoc. change (inbox (abs c)) with (take (recv_len c) (recv_buf c)).
    by rewrite take_drop.
Qed.
Lemma session_step_ok x y k : length stream < 2 ^ 32 →
  session_ok k x → session_step x y → ∃ k', (k ≤ k')%nat ∧ session_ok k' y.
Proof.
  intros Hl Hx Hxy. destruct Hxy; [by eapply session_arrival|by eapply session_read].
Qed.

End delivery.


(** ** Reading *)

(** [recv] is a FIFO queue read: on a well-formed table and a valid index
    it never panics, returns the number n = min (buffered, buffer size) of
    bytes copied, the caller's buffer holds the first n buffered bytes
    followed by its old contents, and exactly those bytes leave the
    connection; no other field of any connection changes.  A bad index is an
    error that changes nothing. *)
Theorem recv_fifo {D} `{NicOk D} idx buf (s : Tcp D) : wf_tcp s →
  wp (recv idx buf) (λ r s',
    if decide (idx < MAX_CONNS)%nat then
      slot_step idx (λ a a', let n := (length (inbox a) `min` length buf)%nat in
        r = Ok (n, take n (inbox a) ++ drop n buf) ∧
        a' = with_inbox (drop n (inbox a)) a) s s'
    else r = Err "invalid connection index"%string ∧ s' = s) s.
Proof.
  intros Hs. eapply wp_mono; [apply with_conn_wp; [done|intros; apply leads_recv_body]|].
  intros r s' Hr. case_decide; [|done].
  destruct Hr as (? & ? & c & c' & ? & ? & E). split; [done|]. split; [done|].
  exists c, c'. split; [done|]. split; [done|]. cbv zeta.
  split; [exact (f_equal fst E)|exact (f_equal snd E)].
Qed.

Definition example_table (c : TcpConn) : Tcp Script :=
  mkTcpState [c; new; new; new] (example_net []).

Lemma example_table_wf c : wf_conn c → wf_tcp (example_table c).
Proof.
  intros Hc. constructor; [|done|apply example_net_wf].
  apply Forall_cons. split; [done|]. change [new; new; new] with (replicate 3 new).
  apply Forall_replicate, new_wf.
Qed.

Definition loaded_conn : TcpConn :=
  set_recv_buf ([1; 2; 3; 4; 5] ++ replicate 4091 0) (set_recv_len 5 (example_conn CloseWait)).

Lemma loaded_conn_wf : wf_conn loaded_conn.
Proof. constructor; simpl; try done; try lia; by pow2. Qed.

Lemma recv_fifo_witness :
  wp (recv 0 [9; 9; 9]) (λ r s',
    if decide (0 < MAX_CONNS)%nat then
      slot_step 0 (λ a a', let n := (length (inbox a) `min` length [9; 9; 9])%nat in
        r = Ok (n, take n (inbox a) ++ drop n [9; 9; 9]) ∧
        a' = with_inbox (drop n (inbox a)) a) (example_table loaded_conn) s'
    else r = Err "invalid connection index"%string ∧ s' = example_table loaded_conn)
    (example_table loaded_conn) ∧
  wp (recv 0 [9; 9; 9]) (λ r s', r = Ok (3%nat, [1; 2; 3])) (example_table loaded_conn).
Proof.
  split; [|by vm_compute]. apply recv_fifo, example_table_wf, loaded_conn_wf.
Defined.

(** ** Witnesses of the table theorems *)

Lemma peer_bytes : bytes [0; 80; 15; 160; 0; 0; 2; 188; 0; 0; 19; 137; 80; 24; 32; 0;
                          0; 0; 0; 0; 104; 105].
Proof. refine (bool_decide_unpack _ _). by vm_compute. Qed.

(** A segment with two bytes of data for the connection in slot 0. *)
Definition peer_data : list Z :=
  [0; 80; 15; 160; 0; 0; 2; 188; 0; 0; 19; 137; 80; 24; 32; 0; 0; 0; 0; 0; 104; 105].

Lemma receive_refines_spec_witness :
  wp (receive [10; 0; 2; 2] [10; 0; 2; 15] peer_data) (λ _ s',
      ∃ r, TcpHeader.parse peer_data = Done r ∧
      match r with
      | None => s' = example_table (example_conn Established)
      | Some hdr =>
          match position (matches [10; 0; 2; 2] hdr)
                  (CONNS (example_table (example_conn Established))) with
          | None => s' = example_table (example_conn Established)
          | Some i => slot_step i (λ a a', a' = spec_receive [10; 0; 2; 2] hdr a)
                        (example_table (example_conn Established)) s'
          end
      end) (example_table (example_conn Established)) ∧
  wp (receive [10; 0; 2; 2] [10; 0; 2; 15] peer_data) (λ _ s',
    map (λ c, inbox (abs c)) (CONNS s') = [[104; 105]; []; []; []])
    (example_table (example_conn Established)).
Proof.
  split; [|by vm_compute]. apply receive_refines_spec; [|done|apply peer_bytes|by vm_compute].
  apply example_table_wf, example_conn_wf.
Defined.

Lemma tcp_calls_safe_witness :
  ∃ s, rtc call_step (boot (example_net [])) s ∧ wf_tcp s ∧
    map state (CONNS s) = [SynSent; Closed; Closed; Closed] ∧
    ∃ s', run CPoll s = Done (tt, s') ∧ wf_tcp s' ∧
      ∀ j c, CONNS s !! j = Some c → ∃ c', CONNS s' !! j = Some c' ∧
        edge (event_of CPoll) (state c) (state c') = true.
Proof.
  set (k := CConnect 4000 [10; 0; 2; 2] 80).
  pose (s := match run k (boot (example_net [])) with Done (_, s) => s | _ => boot (example_net []) end).
  assert (rtc call_step (boot (example_net [])) s) as Hr.
  { eapply rtc_l; [|apply rtc_refl]. exists k. split; [done|].
    pose proof (run_wp k (boot (example_net [])) (boot_wf _ (example_net_wf []))
      (eq_refl : call_ok k)) as ([] & s1 & E & _)%wp_inv.
    unfold s. by rewrite E. }
  assert (map state (CONNS s) = [SynSent; Closed; Closed; Closed]) as Hm by by vm_compute.
  clearbody s. exists s. split; [exact Hr|].
  destruct (tcp_calls_safe (example_net []) s CPoll (example_net_wf []) Hr I) as (Hw & Hs').
  split; [exact Hw|]. split; [exact Hm|exact Hs'].
Defined.

(** ** Retransmission *)



(** ** Departures from the protocol *)

Lemma emitted_with_tx {D} `{Nic D} t q l f p c (n n' : NetState D) flags payload :
  emitted n c flags payload n' → emitted n (with_tx t q l f p c) flags payload n'.
Proof.
  intros [Hs (a & b & Hf & La & Lb & Hb)]. split; [exact Hs|]. exists a, b.
  split; [exact Hf|]. split; [exact La|]. split; [exact Lb|].
  eapply Forall_impl; [exact Hb|]. intros fr (cfg & k1 & k2 & H1 & H2).
  exists cfg, k1, k2. split; [exact H1|]. by destruct c.
Qed.

(** The SYN of [connect] carries the [local_seq] the connection ends up with. *)
Lemma connect_body_wp {D} `{NicOk D} lport rip rport c (n : NetState D) :
  wf_conn c → wf_net n → length rip = 4%nat →
  wp (connect_body lport rip rport) (λ _ s',
    state s'.1 = SynSent ∧ ∃ n1, frames n1 = frames n ∧ emitted n1 s'.1 SYN [] s'.2) (c, n).
Proof.
  intros Hc Hn Hip. unfold connect_body.
  do 4 (apply wp_bind, wp_update). apply wp_bind, wp_on_net. unfold isn. apply wp_bind.
  eapply wp_mono; [apply now_wp|]. intros t n1 (H1 & H2 & Hf & Ht). apply wp_ret.
  do 5 (apply wp_bind, wp_update). unfold send_segment. apply wp_bind, wp_update.
  eapply wp_mono.
  { apply send_segment_raw_wp; [|by apply (wf_net_same n)|simpl; lia].
    destruct Hc. constructor; simpl; try done; try lia; by first [apply wadd_fits|pow2]. }
  intros _ [c' n'] [He Hrec]. cbn [fst snd] in *. unfold recorded in Hrec.
  destruct (_ && _); [destruct Hrec as (t' & _ & ->)|subst c'];
    (split; [reflexivity|]; exists n1; split; [exact Hf|]);
    [by apply emitted_with_tx|exact He].
Qed.

(** The handshake waits for the wrong acknowledgement.  The SYN that
    [connect] sends carries the [local_seq] the connection keeps; a peer that
    acknowledges the SYN as RFC 793 says (with that number plus one) is
    ignored: the connection stays exactly as it is and nothing is sent, while
    a SYN+ACK acknowledging the SYN's own number establishes it. *)
Theorem handshake_rejects_rfc_ack {D} `{NicOk D} hdr c (n : NetState D) :
  wf_conn c → wf_net n → state c = SynSent → wf_hdr hdr →
  Z.land (TcpHeader.flags hdr) (Z.lor SYN ACK) = Z.lor SYN ACK →
  (∀ lport rip rport c0, wf_conn c0 → length rip = 4%nat →
     wp (connect_body lport rip rport) (λ _ s', state s'.1 = SynSent ∧
       ∃ n1, frames n1 = frames n ∧ emitted n1 s'.1 SYN [] s'.2) (c0, n)) ∧
  (TcpHeader.ack hdr = wadd 32 (local_seq c) 1 →
     process_segment hdr (c, n) = Done (tt, (c, n))) ∧
  (TcpHeader.ack hdr = local_seq c →
     wp (process_segment hdr) (λ _ s', state s'.1 = Established) (c, n)).
Proof.
  intros Hc Hn Hst Hh Hf. split; [by intros; apply connect_body_wp|]. split; intros Ha.
  - unfold process_segment, mbind, st_bind, conn, gets. simpl. rewrite Hst.
    unfold handle_syn_sent. rewrite Hf, Z.eqb_refl. simpl negb. cbv iota.
    unfold mbind, st_bind, conn, gets. simpl.
    assert ((TcpHeader.ack hdr =? local_seq c) = false) as ->; [|done].
    apply Z.eqb_neq. rewrite Ha. pose proof (wf_local_seq _ Hc) as Hl. unfold wadd, wrap.
    pow2. intros E. pose proof (Z.div_mod (local_seq c + 1) 4294967296 ltac:(done)). lia.
  - eapply wp_mono; [by apply leads_process_segment|].
    intros [] s' (_ & _ & E). apply (f_equal a_state) in E. simpl in E. rewrite E.
    unfold spec_segment. cbn [a_state abs]. rewrite Hst. unfold spec_syn_sent.
    rewrite Hf, Z.eqb_refl. cbn [lseq abs]. rewrite Ha, Z.eqb_refl. simpl.
    by rewrite flush_state.
Qed.

Lemma handshake_rejects_rfc_ack_witness :
  let hdr := peer_segment 700 5002 0x12 [] in
  let c := example_conn SynSent in
  wadd 32 (local_seq c) 1 = 5002 ∧
  process_segment hdr (c, example_net []) = Done (tt, (c, example_net [])).
Proof.
  split; [done|].
  apply (handshake_rejects_rfc_ack (peer_segment 700 5002 0x12 []) (example_conn SynSent)
    (example_net [])); [apply example_conn_wf|apply example_net_wf|done| |done|done].
  constructor; simpl; [by pow2|by pow2|done].
Defined.

(** Whatever does not fit is acknowledged and lost.  In an established
    connection with a full receive buffer an in-order data segment (without
    FIN) is dropped, yet the connection counts its bytes as received, so the
    acknowledgement it sends covers them and the peer will not repeat them. *)
Theorem overflow_is_acknowledged {D} `{NicOk D} hdr c (n : NetState D) :
  wf_conn c → wf_net n → wf_hdr hdr → state c = Established → recv_len c = 4096%nat →
  TcpHeader.payload hdr ≠ [] → TcpHeader.seq hdr = remote_seq c →
  has (TcpHeader.flags hdr) ACK = false → has (TcpHeader.flags hdr) FIN = false →
  wp (process_segment hdr) (λ _ s',
    take (recv_len s'.1) (recv_buf s'.1) = take (recv_len c) (recv_buf c) ∧
    remote_seq s'.1 = wadd 32 (remote_seq c) (length (TcpHeader.payload hdr)) ∧
    local_ack s'.1 = remote_seq s'.1) (c, n).
Proof.
  intros Hc Hn Hh Hst Hfull Hp Hseq Hack Hfin.
  eapply wp_mono; [by apply leads_process_segment|].
  intros [] [c' n'] (_ & _ & E). cbn [fst] in *. unfold to, spec_segment in E.
  cbn [a_state abs] in E. rewrite Hst in E. unfold spec_established in E. cbv zeta in E.
  rewrite Hack, Hfin, bool_decide_false in E by done. cbn [rseq abs] in E.
  rewrite Hseq, Z.eqb_refl in E.
  pose proof (inbox_length c Hc) as Hil.
  split; [|split].
  - apply (f_equal inbox) in E. cbn [inbox abs] in E. rewrite E.
    unfold spec_ack_remote, spec_store. cbn [inbox with_lack with_rseq with_inbox].
    rewrite Hil, Hfull. change (INBOX - 4096)%nat with 0%nat.
    rewrite take_0, app_nil_r. cbn [inbox abs]. by rewrite Hfull.
  - apply (f_equal rseq) in E. exact E.
  - pose proof (f_equal rseq E) as E1. pose proof (f_equal lack E) as E2.
    cbn [rseq lack abs] in E1, E2. rewrite E1, E2. done.
Qed.

Definition full_conn : TcpConn := set_recv_len 4096 (example_conn Established).

Lemma full_conn_wf : wf_conn full_conn.
Proof. constructor; simpl; try done; try lia; by pow2. Qed.

Lemma overflow_is_acknowledged_witness :
  wp (process_segment (peer_segment 700 0 8 [1; 2; 3])) (λ _ s',
    take (recv_len s'.1) (recv_buf s'.1) = take (recv_len full_conn) (recv_buf full_conn) ∧
    remote_seq s'.1 = wadd 32 (remote_seq full_conn) 3%nat ∧
    local_ack s'.1 = remote_seq s'.1) (full_conn, example_net []).
Proof.
  apply (overflow_is_acknowledged (peer_segment 700 0 8 [1; 2; 3]));
    [apply full_conn_wf|apply example_net_wf| |done..].
  constructor; simpl; [by pow2|by pow2|done].
Defined.

(** Any segment to its port captures a listener.  A listening slot (open
    to all peers) that receives a segment without SYN and RST stays in
    [Listen] but takes over the sender's address and port, so from then on it
    matches this sender only; a RST closes it altogether. *)
Theorem stray_segment_captures_listener {D} `{NicOk D} src hdr c (n : NetState D) :
  wf_conn c → wf_net n → wf_hdr hdr → length src = 4%nat →
  state c = Listen → remote_ip c = replicate 4 0 → remote_port c = 0 →
  has (TcpHeader.flags hdr) SYN = false →
  wp (receive_body src hdr) (λ _ s',
    if has (TcpHeader.flags hdr) RST then state s'.1 = Closed
    else state s'.1 = Listen ∧ remote_ip s'.1 = src ∧
      remote_port s'.1 = TcpHeader.src_port hdr) (c, n).
Proof.
  intros Hc Hn Hh Hsrc Hst Hip Hport Hsyn.
  eapply wp_mono; [by apply leads_receive_body|].
  intros [] [c' n'] (_ & _ & E). cbn [fst] in *. unfold to, spec_receive in E. cbv zeta in E.
  cbn [a_rip a_rport abs] in E. rewrite Hip, Hport, bool_decide_true, Z.eqb_refl in E by done.
  destruct (has _ RST).
  - exact (f_equal a_state E).
  - unfold spec_segment, spec_listen_segment in E. cbn [a_state with_peer abs] in E.
    rewrite Hst, Hsyn in E. split_and!.
    + apply (f_equal a_state) in E. simpl in E. congruence.
    + exact (f_equal a_rip E).
    + exact (f_equal a_rport E).
Qed.

Definition listening_conn : TcpConn := set_state Listen (set_local_port 4000 new).

Lemma stray_segment_captures_listener_witness :
  wp (receive_body [10; 0; 2; 66] (peer_segment 1 2 0x10 [])) (λ _ s',
    if has 0x10 RST then state s'.1 = Closed
    else state s'.1 = Listen ∧ remote_ip s'.1 = [10; 0; 2; 66] ∧ remote_port s'.1 = 80)
    (listening_conn, example_net []).
Proof.
  apply (stray_segment_captures_listener [10; 0; 2; 66] (peer_segment 1 2 0x10 []));
    [|apply example_net_wf| |done..].
  - constructor; simpl; try done; try lia; by pow2.
  - constructor; simpl; [by pow2|by pow2|done].
Defined.
