(* ===== verification/Calc.v ===== *)
(** * The shell's calculator (src/src/shell/calc.rs)

    [tokenize], [shunting_yard], [eval_rpn] and [eval] over the bytes of the
    input.  [i64] values are [Z] with the checked operations of the standard
    library; a [Vec] used as a stack is a list with its top at the head.

    The specification is independent of the algorithm: [spelling] says which
    byte strings spell a token list, [derives] is the usual grammar with
    precedences and left association, [value] evaluates a syntax tree. *)
From S2P Require Import Prelude Words.
From stdpp Require Import strings.
Local Open Scope Z_scope.
Local Open Scope list_scope.

Definition I64_MIN : Z := -2 ^ 63.
Definition I64_MAX : Z := 2 ^ 63 - 1.
Definition in_i64 (x : Z) : Prop := I64_MIN ≤ x ≤ I64_MAX.
#[export] Instance in_i64_dec x : Decision (in_i64 x).
Proof. unfold in_i64. apply _. Defined.

(** [checked_add] and the like: [None] on overflow. *)
Definition checked (x : Z) : option Z := if decide (in_i64 x) then Some x else None.
Definition checked_add (a b : Z) := checked (a + b).
Definition checked_sub (a b : Z) := checked (a - b).
Definition checked_mul (a b : Z) := checked (a * b).
Definition checked_div (a b : Z) : option Z :=
  if decide (b = 0) then None else checked (a `quot` b).
Definition checked_rem (a b : Z) : option Z :=
  if decide (b = 0) then None
  else if decide (a = I64_MIN ∧ b = -1) then None else Some (a `rem` b).

Inductive Tok :=
  | Num (n : Z)
  | Op (o : Z)
  | LParen
  | RParen.
#[export] Instance Tok_eq_dec : EqDecision Tok.
Proof. solve_decision. Defined.

Definition is_ascii_whitespace (c : Z) : bool :=
  bool_decide (c = 32 ∨ c = 9 ∨ c = 10 ∨ c = 12 ∨ c = 13).
Definition is_ascii_digit (c : Z) : bool := bool_decide (48 ≤ c ≤ 57).

(** [str::parse::<i64>] on a string of digits with an optional minus. *)
Fixpoint parse_digits (sign acc : Z) (ds : list Z) : option Z :=
  match ds with
  | [] => Some acc
  | d :: ds =>
      if is_ascii_digit d
      then t ← checked (acc * 10); t' ← checked (t + sign * (d - 48)); parse_digits sign t' ds
      else None
  end.
Definition parse_i64 (t : list Z) : option Z :=
  match t with
  | [] => None
  | c :: ds =>
      if decide (c = 45)
      then if decide (ds = []) then None else parse_digits (-1) 0 ds
      else parse_digits 1 0 t
  end.

(** A minus starts a number at the beginning, after an operator and after an
    opening parenthesis. *)
Definition sign_position (out : list Tok) : bool :=
  match last out with
  | None | Some (Op _) | Some LParen => true
  | _ => false
  end.

Fixpoint span_digits (l : list Z) : list Z * list Z :=
  match l with
  | c :: l' => if is_ascii_digit c then let '(ds, r) := span_digits l' in (c :: ds, r) else ([], l)
  | [] => ([], [])
  end.

(** The loop over the bytes from index [i] on; each iteration consumes one. *)
Fixpoint tokenize_from (fuel : nat) (bytes : list Z) (out : list Tok) :
    outcome (result (list Tok) string) :=
  match fuel with
  | O => Diverge
  | S fuel =>
      match bytes with
      | [] => mret (Ok out)
      | c :: rest =>
          if is_ascii_whitespace c then tokenize_from fuel rest out
          else if is_ascii_digit c || (bool_decide (c = 45) && sign_position out) then
            let '(ds, rest') := span_digits rest in
            match parse_i64 (c :: ds) with
            | None => mret (Err "bad number"%string)
            | Some n => tokenize_from fuel rest' (out ++ [Num n])
            end
          else if decide (c ∈ [43; 45; 42; 47; 37]) then tokenize_from fuel rest (out ++ [Op c])
          else if decide (c = 40) then tokenize_from fuel rest (out ++ [LParen])
          else if decide (c = 41) then tokenize_from fuel rest (out ++ [RParen])
          else mret (Err "invalid token"%string)
      end
  end.
Definition tokenize (s : list Z) : outcome (result (list Tok) string) :=
  tokenize_from (S (length s)) s [].

Definition prec (op : Z) : Z :=
  if decide (op = 43 ∨ op = 45) then 1
  else if decide (op = 42 ∨ op = 47 ∨ op = 37) then 2 else 0.

(** [while let Some(Tok::Op(top)) = ops.last()]. *)
Fixpoint pop_higher (o : Z) (output ops : list Tok) : list Tok * list Tok :=
  match ops with
  | Op top :: ops' =>
      if decide (prec o ≤ prec top) then pop_higher o (output ++ [Op top]) ops'
      else (output, ops)
  | _ => (output, ops)
  end.
(** [while let Some(op) = ops.pop()] up to the opening parenthesis. *)
Fixpoint pop_to_paren (output ops : list Tok) : list Tok * list Tok :=
  match ops with
  | [] => (output, [])
  | LParen :: ops' => (output, ops')
  | op :: ops' => pop_to_paren (output ++ [op]) ops'
  end.

Definition shunt (st : list Tok * list Tok) (t : Tok) : list Tok * list Tok :=
  let '(output, ops) := st in
  match t with
  | Num _ => (output ++ [t], ops)
  | Op o => let '(output, ops) := pop_higher o output ops in (output, Op o :: ops)
  | LParen => (output, t :: ops)
  | RParen => pop_to_paren output ops
  end.
Fixpoint drain (output ops : list Tok) : result (list Tok) string :=
  match ops with
  | [] => Ok output
  | LParen :: _ | RParen :: _ => Err "mismatched parens"%string
  | op :: ops => drain (output ++ [op]) ops
  end.
Definition shunting_yard (tokens : list Tok) : result (list Tok) string :=
  let '(output, ops) := foldl shunt ([], []) tokens in drain output ops.

Definition apply_op (op a b : Z) : option Z :=
  if decide (op = 43) then checked_add a b
  else if decide (op = 45) then checked_sub a b
  else if decide (op = 42) then checked_mul a b
  else if decide (op = 47) then checked_div a b
  else if decide (op = 37) then checked_rem a b
  else None.

Fixpoint eval_rpn_from (tokens : list Tok) (stack : list Z) : result (list Z) string :=
  match tokens with
  | [] => Ok stack
  | Num n :: ts => eval_rpn_from ts (n :: stack)
  | Op op :: ts =>
      match stack with
      | b :: a :: stack' =>
          match apply_op op a b with
          | Some r => eval_rpn_from ts (r :: stack')
          | None => Err "overflow/div0"%string
          end
      | _ => Err "stack underflow"%string
      end
  | _ => Err "bad rpn"%string
  end.
Definition eval_rpn (tokens : list Tok) : result Z string :=
  match eval_rpn_from tokens [] with
  | Err e => Err e
  | Ok [r] => Ok r
  | Ok _ => Err "bad expression"%string
  end.

Definition eval (input : list Z) : outcome (result Z string) :=
  r ← tokenize input;
  match r with
  | Err e => mret (Err e)
  | Ok tokens =>
      match shunting_yard tokens with
      | Err e => mret (Err e)
      | Ok rpn => mret (eval_rpn rpn)
      end
  end.

(** ** Specification *)

(** Lexical syntax: the tokens [ts] spelled by [s], the tokens [out] having
    been read before. *)
Inductive spelling : list Tok → list Z → list Tok → Prop :=
  | spelling_nil out : spelling out [] []
  | spelling_space out c s ts : is_ascii_whitespace c = true →
      spelling out s ts → spelling out (c :: s) ts
  | spelling_num out ds s ts : ds ≠ [] → Forall is_ascii_digit ds →
      (∀ c s', s = c :: s' → is_ascii_digit c = false) →
      spelling (out ++ [Num (foldl (λ n d, n * 10 + (d - 48)) 0 ds)]) s ts →
      spelling out (ds ++ s) (Num (foldl (λ n d, n * 10 + (d - 48)) 0 ds) :: ts)
  | spelling_neg out ds s ts : sign_position out = true → ds ≠ [] → Forall is_ascii_digit ds →
      (∀ c s', s = c :: s' → is_ascii_digit c = false) →
      spelling (out ++ [Num (- foldl (λ n d, n * 10 + (d - 48)) 0 ds)]) s ts →
      spelling out (45 :: ds ++ s) (Num (- foldl (λ n d, n * 10 + (d - 48)) 0 ds) :: ts)
  | spelling_op out o s ts : o ∈ [43; 45; 42; 47; 37] → (o = 45 → sign_position out = false) →
      spelling (out ++ [Op o]) s ts → spelling out (o :: s) (Op o :: ts)
  | spelling_lparen out s ts : spelling (out ++ [LParen]) s ts →
      spelling out (40 :: s) (LParen :: ts)
  | spelling_rparen out s ts : spelling (out ++ [RParen]) s ts →
      spelling out (41 :: s) (RParen :: ts).

(** Arithmetic expressions; [derives p ts e]: [ts] is an expression [e] all of
    whose operators outside parentheses bind at least as tightly as [p]. *)
Inductive expr :=
  | Lit (n : Z)
  | Bin (o : Z) (a b : expr).

Inductive derives : Z → list Tok → expr → Prop :=
  | derives_num p n : derives p [Num n] (Lit n)
  | derives_bin p o ts1 ts2 a b : o ∈ [43; 45; 42; 47; 37] → p ≤ prec o →
      derives (prec o) ts1 a → derives (prec o + 1) ts2 b →
      derives p (ts1 ++ Op o :: ts2) (Bin o a b)
  | derives_paren p ts e : derives 1 ts e → derives p (LParen :: ts ++ [RParen]) e.

(** Evaluation, left operand first; the only failure is an operation that
    overflows or divides by zero. *)
Fixpoint value (e : expr) : option Z :=
  match e with
  | Lit n => Some n
  | Bin o a b => x ← value a; y ← value b; apply_op o x y
  end.
Definition answer (v : option Z) : result Z string :=
  match v with Some r => Ok r | None => Err "overflow/div0"%string end.

(** ** The tokenizer *)

Lemma parse_digits_spec sign acc ds : (sign = 1 ∨ sign = -1) → Forall is_ascii_digit ds →
  0 ≤ acc → in_i64 (sign * foldl (λ n d, n * 10 + (d - 48)) acc ds) →
  parse_digits sign (sign * acc) ds = Some (sign * foldl (λ n d, n * 10 + (d - 48)) acc ds).
Proof.
  intros Hs Hds. revert acc. induction Hds as [|d ds Hd Hds IH]; intros acc Ha Hr; [done|].
  assert (∀ n, 0 ≤ n → n ≤ foldl (λ n d, n * 10 + (d - 48)) n ds) as Hmono.
  { clear IH Hr. induction Hds as [|d' ds Hd' Hds IH]; intros n Hn; [done|]. cbn [foldl].
    unfold is_ascii_digit in Hd'. apply bool_decide_unpack in Hd'.
    etrans; [|apply IH]; lia. }
  cbn [parse_digits foldl] in *. pose proof Hd as Hd0. unfold is_ascii_digit in Hd0.
  apply bool_decide_unpack in Hd0. destruct (is_ascii_digit d); [|done].
  pose proof (Hmono (acc * 10 + (d - 48)) ltac:(lia)).
  unfold checked. unfold in_i64, I64_MIN, I64_MAX in *.
  rewrite decide_True by (destruct Hs; subst; lia). cbn.
  rewrite decide_True by (destruct Hs; subst; lia). cbn.
  rewrite <- (IH (acc * 10 + (d - 48))) by (done || lia). f_equal. lia.
Qed.

Lemma span_digits_app ds s : Forall is_ascii_digit ds →
  (∀ c s', s = c :: s' → is_ascii_digit c = false) → span_digits (ds ++ s) = (ds, s).
Proof.
  intros Hds Hs. induction Hds as [|d ds Hd Hds IH]; cbn.
  - destruct s as [|c s']; [done|]. cbn. by rewrite (Hs c s').
  - destruct (is_ascii_digit d); [|done]. by rewrite IH.
Qed.

Lemma span_digits_le l : (length (span_digits l).2 ≤ length l)%nat.
Proof.
  induction l as [|c l IH]; cbn; [lia|].
  destruct (is_ascii_digit c); [|cbn; lia]. destruct (span_digits l). cbn in *. lia.
Qed.

(** The tokenizer returns: each iteration consumes at least one byte. *)
Lemma tokenize_from_total fuel s out : (length s < fuel)%nat →
  runs (tokenize_from fuel s out) (λ _, True).
Proof.
  revert s out. induction fuel as [|fuel IH]; intros s out Hf; [lia|].
  destruct s as [|c s]; cbn [tokenize_from]; [done|]. cbn in Hf.
  pose proof (span_digits_le s). destruct (span_digits s) as [ds r].
  repeat case_match; try done; apply IH; cbn in *; lia.
Qed.

Definition literal_ok (t : Tok) : Prop := match t with Num n => in_i64 n | _ => True end.

Lemma digit_facts d : is_ascii_digit d = true →
  48 ≤ d ≤ 57 ∧ is_ascii_whitespace d = false.
Proof.
  intros Hd. unfold is_ascii_digit in Hd. apply bool_decide_eq_true in Hd.
  split; [done|]. unfold is_ascii_whitespace. apply bool_decide_eq_false. lia.
Qed.

Lemma tokenize_from_spelling fuel out s ts : spelling out s ts →
  Forall literal_ok ts → (length s < fuel)%nat →
  tokenize_from fuel s out = Done (Ok (out ++ ts)).
Proof.
  intros Hsp. revert fuel.
  induction Hsp as [out|out c s ts Hc Hsp IH|out ds s ts Hne Hds Hend Hsp IH
    |out ds s ts Hpos Hne Hds Hend Hsp IH|out o s ts Ho Hm Hsp IH|out s ts Hsp IH
    |out s ts Hsp IH]; intros [|fuel] Hl Hf; try (cbn in Hf; lia).
  - cbn. by rewrite app_nil_r.
  - cbn [tokenize_from]. rewrite Hc. apply IH; [done|]. cbn in Hf. lia.
  - destruct ds as [|d ds]; [done|]. apply Forall_cons in Hl as [Hn Hl].
    pose proof Hds as [Hd Hds']%Forall_cons. destruct (is_ascii_digit d) eqn:Ed; [|done].
    destruct (digit_facts d Ed) as [Hr Hw].
    cbn [tokenize_from app]. rewrite Hw, Ed. cbn [orb].
    rewrite span_digits_app by done. unfold parse_i64. rewrite decide_False by lia.
    pose proof (parse_digits_spec 1 0 (d :: ds)) as Hp.
    rewrite !Z.mul_1_l in Hp. rewrite Hp by (auto; done || lia).
    rewrite IH; [by rewrite <- app_assoc|done|]. cbn in Hf. rewrite length_app in Hf. lia.
  - apply Forall_cons in Hl as [Hn Hl]. cbn [tokenize_from].
    replace (is_ascii_whitespace 45) with false by done.
    replace (is_ascii_digit 45) with false by done. rewrite Hpos.
    cbn [orb andb]. rewrite bool_decide_eq_true_2 by done. cbn [andb].
    rewrite span_digits_app by done. unfold parse_i64.
    rewrite decide_True, decide_False by done.
    pose proof (parse_digits_spec (-1) 0 ds) as Hp.
    replace (-1 * 0) with 0 in Hp by done.
    replace (-1 * foldl (λ n d, n * 10 + (d - 48)) 0 ds)
      with (- foldl (λ n d, n * 10 + (d - 48)) 0 ds) in Hp by lia.
    rewrite Hp by (auto; done || lia).
    rewrite IH; [by rewrite <- app_assoc|done|]. cbn in Hf. rewrite length_app in Hf. lia.
  - apply Forall_cons in Hl as [_ Hl]. cbn [tokenize_from].
    assert (is_ascii_whitespace o = false ∧ is_ascii_digit o = false ∧
      (bool_decide (o = 45) && sign_position out) = false) as (-> & -> & E).
    { repeat (apply elem_of_cons in Ho as [->|Ho]; [split_and!; [done|done|]|]); try done.
      - by rewrite Hm.
      - by apply elem_of_nil in Ho. }
    rewrite E. cbn [orb]. rewrite decide_True by done.
    rewrite IH; [by rewrite <- app_assoc|done|]. cbn in Hf. lia.
  - apply Forall_cons in Hl as [_ Hl].
    change (tokenize_from (S fuel) (40 :: s) out) with (tokenize_from fuel s (out ++ [LParen])).
    rewrite IH; [by rewrite <- app_assoc|done|]. cbn in Hf. lia.
  - apply Forall_cons in Hl as [_ Hl].
    change (tokenize_from (S fuel) (41 :: s) out) with (tokenize_from fuel s (out ++ [RParen])).
    rewrite IH; [by rewrite <- app_assoc|done|]. cbn in Hf. lia.
Qed.

(** ** The shunting yard *)

(** What is on top of the operator stack binds less tightly than [p]. *)
Definition below (p : Z) (ops : list Tok) : Prop :=
  match ops with Op o :: _ => prec o < p | _ => True end.
(** Operators that bind at least as tightly as [p]. *)
Definition tight (p : Z) (t : Tok) : Prop :=
  match t with Op o => p ≤ prec o | _ => False end.

Fixpoint postfix (e : expr) : list Tok :=
  match e with
  | Lit n => [Num n]
  | Bin o a b => postfix a ++ postfix b ++ [Op o]
  end.

Lemma pop_higher_tight o pend out ops : Forall (tight (prec o)) pend → below (prec o) ops →
  pop_higher o out (pend ++ ops) = (out ++ pend, ops).
Proof.
  intros Hp Hb. revert out. induction Hp as [|t pend Ht Hp IH]; intros out.
  - cbn. rewrite app_nil_r. destruct ops as [|[| | |] ops]; try done.
    cbn in *. by rewrite decide_False by lia.
  - destruct t as [|o'| |]; try done. cbn in Ht |- *. rewrite decide_True by done.
    by rewrite IH, <- app_assoc.
Qed.

Lemma pop_to_paren_tight p pend out ops : Forall (tight p) pend →
  pop_to_paren out (pend ++ LParen :: ops) = (out ++ pend, ops).
Proof.
  intros Hp. revert out. induction Hp as [|t pend Ht Hp IH]; intros out; cbn.
  - by rewrite app_nil_r.
  - destruct t as [|o'| |]; try done. by rewrite IH, <- app_assoc.
Qed.

Lemma drain_tight p pend out : Forall (tight p) pend → drain out pend = Ok (out ++ pend).
Proof.
  intros Hp. revert out. induction Hp as [|t pend Ht Hp IH]; intros out; cbn.
  - by rewrite app_nil_r.
  - destruct t as [|o'| |]; try done. by rewrite IH, <- app_assoc.
Qed.

(** The invariant of the loop: reading an expression leaves its postfix form
    divided between the output and operators that bind at least as tightly. *)
Lemma shunt_expr p ts e : derives p ts e → ∀ out ops, below p ops →
  ∃ out' pend, foldl shunt (out, ops) ts = (out', pend ++ ops) ∧
    out' ++ pend = out ++ postfix e ∧ Forall (tight p) pend.
Proof.
  induction 1 as [p n|p o ts1 ts2 a b Ho Hp Ha IHa Hb IHb|p ts e He IH]; intros out ops Hbelow.
  - exists (out ++ [Num n]), []. cbn. by rewrite app_nil_r.
  - assert (below (prec o) ops) as Hbelow'.
    { destruct ops as [|[| | |] ops]; try done. cbn in *. lia. }
    destruct (IHa out ops Hbelow') as (out1 & pend1 & E1 & H1 & Ht1).
    rewrite foldl_app, E1. cbn [foldl shunt]. rewrite pop_higher_tight by done.
    destruct (IHb (out1 ++ pend1) (Op o :: ops)) as (out2 & pend2 & E2 & H2 & Ht2);
      [cbn; lia|].
    rewrite E2. exists out2, (pend2 ++ [Op o]). split_and!.
    + by rewrite <- app_assoc.
    + rewrite app_assoc, H2, H1. cbn. by rewrite <- !app_assoc.
    + apply Forall_app. split; [|repeat constructor; cbn; lia].
      eapply Forall_impl; [exact Ht2|]. intros [|o'| |]; cbn; try done. lia.
  - cbn [foldl shunt]. rewrite foldl_app.
    destruct (IH out (LParen :: ops)) as (out1 & pend1 & E1 & H1 & Ht1); [done|].
    rewrite E1. cbn [foldl shunt]. erewrite pop_to_paren_tight by done.
    exists (out1 ++ pend1), []. rewrite app_nil_r. by split_and!.
Qed.

Lemma eval_rpn_postfix e ts stack :
  eval_rpn_from (postfix e ++ ts) stack
  = match value e with
    | Some v => eval_rpn_from ts (v :: stack)
    | None => Err "overflow/div0"%string
    end.
Proof.
  revert ts stack. induction e as [n|o a IHa b IHb]; intros ts stack; [done|].
  cbn [postfix value]. rewrite <- !app_assoc, IHa.
  destruct (value a) as [x|]; [|done]. cbn. rewrite IHb.
  destruct (value b) as [y|]; [|done]. cbn. by destruct (apply_op o x y).
Qed.

Lemma eval_rpn_expr e : eval_rpn (postfix e) = answer (value e).
Proof.
  unfold eval_rpn. rewrite <- (app_nil_r (postfix e)), eval_rpn_postfix.
  by destruct (value e).
Qed.

(** ** Ranges *)

Lemma checked_in x y : checked x = Some y → in_i64 y.
Proof. unfold checked. case_decide; [|done]. by intros [= <-]. Qed.

Lemma parse_digits_in sign acc ds n : in_i64 acc → parse_digits sign acc ds = Some n → in_i64 n.
Proof.
  revert acc. induction ds as [|d ds IH]; intros acc Ha; cbn; [by intros [= <-]|].
  destruct (is_ascii_digit d); [|done].
  intros (t & _ & (t' & Ht' & H)%bind_Some)%bind_Some.
  eapply IH; [|exact H]. by eapply checked_in.
Qed.

Lemma apply_op_in o a b r : in_i64 a → in_i64 b → apply_op o a b = Some r → in_i64 r.
Proof.
  intros Ha Hb. unfold apply_op, checked_add, checked_sub, checked_mul, checked_div, checked_rem.
  repeat case_decide; try done; try by apply checked_in.
  intros [= <-]. unfold in_i64, I64_MIN, I64_MAX in *.
  pose proof (Z.rem_bound_abs a b ltac:(done)). lia.
Qed.

Lemma eval_rpn_from_in ts stack s' : Forall literal_ok ts → Forall in_i64 stack →
  eval_rpn_from ts stack = Ok s' → Forall in_i64 s'.
Proof.
  intros Hl. revert stack. induction Hl as [|t ts Ht Hl IH]; intros stack Hs; cbn.
  - by intros [= <-].
  - destruct t as [n|o| |]; try done.
    + apply IH. by constructor.
    + destruct stack as [|b [|a stack]]; try done.
      apply Forall_cons in Hs as [Hb [Ha Hs]%Forall_cons].
      destruct (apply_op o a b) as [r|] eqn:E; [|done]. apply IH.
      constructor; [exact (apply_op_in _ _ _ _ Ha Hb E)|done].
Qed.

Lemma tokenize_from_in fuel s out r : Forall literal_ok out →
  tokenize_from fuel s out = Done (Ok r) → Forall literal_ok r.
Proof.
  revert s out. induction fuel as [|fuel IH]; intros s out Ho; [done|].
  destruct s as [|c s]; cbn [tokenize_from]; [by intros [= <-]|].
  destruct (span_digits s) as [ds r'].
  destruct (is_ascii_whitespace c); [by apply IH|].
  destruct (_ || _).
  { destruct (parse_i64 (c :: ds)) as [n|] eqn:E; [|done]. apply IH.
    apply Forall_app. split; [done|]. constructor; [|done]. cbn.
    assert (in_i64 0) as H0 by (unfold in_i64, I64_MIN, I64_MAX; lia).
    unfold parse_i64 in E. repeat case_decide; try done;
      exact (parse_digits_in _ _ _ _ H0 E). }
  repeat case_decide; try done; apply IH; apply Forall_app; (split; [done|by constructor]).
Qed.

Lemma pop_higher_lits o out ops : Forall literal_ok out → Forall literal_ok ops →
  Forall literal_ok (pop_higher o out ops).1 ∧ Forall literal_ok (pop_higher o out ops).2.
Proof.
  revert out. induction ops as [|t ops IH]; intros out Ho Hp; [done|].
  destruct t as [n|o'| |]; try done. cbn. case_decide; [|done].
  apply IH; [|by inversion Hp]. apply Forall_app. by split; [|constructor].
Qed.

Lemma pop_to_paren_lits out ops : Forall literal_ok out → Forall literal_ok ops →
  Forall literal_ok (pop_to_paren out ops).1 ∧ Forall literal_ok (pop_to_paren out ops).2.
Proof.
  revert out. induction ops as [|t ops IH]; intros out Ho Hp; [done|].
  apply Forall_cons in Hp as [Ht Hp].
  destruct t as [n|o'| |]; try done; cbn; apply IH; try done;
    (apply Forall_app; by split; [|constructor]).
Qed.

Lemma drain_lits out ops r : Forall literal_ok out → Forall literal_ok ops →
  drain out ops = Ok r → Forall literal_ok r.
Proof.
  revert out. induction ops as [|t ops IH]; intros out Ho Hp; cbn; [by intros [= <-]|].
  apply Forall_cons in Hp as [Ht Hp].
  destruct t as [n|o'| |]; try done; apply IH; try done;
    (apply Forall_app; by split; [|constructor]).
Qed.

Lemma shunt_lits ts st : Forall literal_ok st.1 → Forall literal_ok st.2 →
  Forall literal_ok ts →
  Forall literal_ok (foldl shunt st ts).1 ∧ Forall literal_ok (foldl shunt st ts).2.
Proof.
  intros H1 H2 Hts. revert st H1 H2. induction Hts as [|t ts Ht Hts IH]; intros [out ops] H1 H2;
    [done|]. cbn [foldl fst snd] in *.
  destruct t as [n|o| |]; cbn [shunt]; apply IH; cbn [fst snd]; try done;
    try (apply Forall_app; split; [done|by constructor]).
  - destruct (pop_higher_lits o out ops) as [Ha Hb]; [done..|].
    by destruct (pop_higher o out ops).
  - destruct (pop_higher_lits o out ops) as [Ha Hb]; [done..|].
    destruct (pop_higher o out ops). by constructor.
  - by constructor.
  - by apply pop_to_paren_lits.
  - by apply pop_to_paren_lits.
Qed.

(** ** Theorems *)


(** On every byte string [eval] terminates without panic, and a result is
    an [i64]: no operation of the calculator wraps around. *)
Theorem eval_total s : runs (eval s) (λ r, match r with Ok v => in_i64 v | Err _ => True end).
Proof.
  unfold eval, tokenize. pose proof (tokenize_from_total (S (length s)) s [] ltac:(lia)) as Ht.
  destruct (tokenize_from (S (length s)) s []) as [[ts|e]| |] eqn:E; try done.
  apply tokenize_from_in in E; [|done]. cbn [mbind outcome_bind]. unfold shunting_yard.
  destruct (shunt_lits ts ([], [])) as [H1 H2]; [done..|].
  destruct (foldl shunt ([], []) ts) as [out ops]. cbn [fst snd] in *.
  destruct (drain out ops) as [rpn|e] eqn:Ed; [|done]. apply drain_lits in Ed; [|done..].
  cbn. unfold eval_rpn. destruct (eval_rpn_from rpn []) as [st|e] eqn:Er; [|done].
  apply eval_rpn_from_in in Er; [|done..]. destruct st as [|v [|w st]]; [done| |done].
  by inversion Er.
Qed.

(** A closing parenthesis without an opening one is not an error: an
    expression followed by stray [)] evaluates as if they were not there. *)
Theorem unmatched_rparen_accepted s ts e n :
  spelling [] s (ts ++ replicate n RParen) → Forall literal_ok ts → derives 1 ts e →
  eval s = Done (answer (value e)).
Proof.
  intros Hs Hl Hd. unfold eval, tokenize.
  assert (Forall literal_ok (ts ++ replicate n RParen)) as Hl'.
  { apply Forall_app. split; [done|]. by apply Forall_replicate. }
  rewrite (tokenize_from_spelling _ _ _ _ Hs Hl') by lia. cbn [mbind outcome_bind app].
  destruct (shunt_expr 1 ts e Hd [] []) as (out & pend & E & Happ & Ht); [done|].
  unfold shunting_yard. rewrite foldl_app, E, app_nil_r. cbn [app] in Happ.
  assert (∀ m out0, foldl shunt (out0, []) (replicate m RParen) = (out0, [])) as Hnop.
  { induction m as [|m IH]; intros; [done|]. cbn. apply IH. }
  destruct n as [|n].
  - cbn [replicate foldl]. rewrite (drain_tight 1) by done. by rewrite Happ, eval_rpn_expr.
  - assert (pop_to_paren out pend = (out ++ pend, [])) as Hpop.
    { clear -Ht. revert out. induction Ht as [|t pend Ht Hp IH]; intros out; cbn.
      - by rewrite app_nil_r.
      - destruct t as [|o'| |]; try done. by rewrite IH, <- app_assoc. }
    cbn [replicate foldl shunt]. rewrite Hpop, Hnop. cbn [drain].
    by rewrite Happ, eval_rpn_expr.
Qed.

(** ["2 - 3*(4 - -5)"]: the bytes, the tokens and the tree. *)
Definition sample_tokens : list Tok :=
  [Num 2; Op 45; Num 3; Op 42; LParen; Num 4; Op 45; Num (-5); RParen].
Definition sample_input : list Z :=
  [50; 32; 45; 32; 51; 42; 40; 52; 32; 45; 32; 45; 53; 41].
Definition sample_expr : expr := Bin 45 (Lit 2) (Bin 42 (Lit 3) (Bin 45 (Lit 4) (Lit (-5)))).

Ltac spell :=
  repeat lazymatch goal with
  | |- spelling _ (40 :: _) _ => apply spelling_lparen
  | |- spelling _ (41 :: _) _ => apply spelling_rparen
  | |- spelling _ (45 :: ?d :: _) (Num _ :: _) => apply (spelling_neg _ [d]);
      [reflexivity|discriminate|by repeat constructor|by intros ? ? [= <- <-]|]
  | |- spelling _ (?d :: _) (Num _ :: _) => first
      [ apply spelling_space; [reflexivity|]
      | apply (spelling_num _ [d]);
        [discriminate|by repeat constructor|by intros ? ? [= <- <-]|] ]
  | |- spelling _ (_ :: _) (Op _ :: _) => first
      [ apply spelling_space; [reflexivity|]
      | apply spelling_op; [by refine (bool_decide_unpack _ _); vm_compute|by intros|] ]
  | |- spelling _ [] [] => apply spelling_nil
  end.

Lemma sample_spelling : spelling [] sample_input sample_tokens.
Proof. unfold sample_input, sample_tokens. spell. Qed.

Lemma sample_derives p : p = 1 → derives p sample_tokens sample_expr.
Proof.
  intros ->. unfold sample_tokens, sample_expr.
  apply (derives_bin 1 45 [Num 2] [Num 3; Op 42; LParen; Num 4; Op 45; Num (-5); RParen]);
    [by refine (bool_decide_unpack _ _); vm_compute|done|constructor|].
  apply (derives_bin 2 42 [Num 3] [LParen; Num 4; Op 45; Num (-5); RParen]);
    [by refine (bool_decide_unpack _ _); vm_compute|done|constructor|].
  apply (derives_paren _ [Num 4; Op 45; Num (-5)]).
  apply (derives_bin 1 45 [Num 4] [Num (-5)]);
    [by refine (bool_decide_unpack _ _); vm_compute|done|constructor..].
Qed.

Lemma sample_literals : Forall literal_ok sample_tokens.
Proof.
  unfold sample_tokens. repeat constructor; unfold in_i64, I64_MIN, I64_MAX; lia.
Qed.


Lemma unmatched_rparen_accepted_witness :
  eval [50; 41; 41] = Done (Ok 2).
Proof.
  apply (unmatched_rparen_accepted [50; 41; 41] [Num 2] (Lit 2) 2).
  - change (spelling [] [50; 41; 41] [Num 2; RParen; RParen]). spell.
  - repeat constructor; unfold in_i64, I64_MIN, I64_MAX; lia.
  - constructor.
Defined.
