(* ===== verification/Memory.v ===== *)
(** * Byte-addressed memory and the regions it is divided into

    Raw pointers of the kernel are addresses in one memory of bytes; a 64-bit
    field is eight bytes, little endian.  [Option<NonNull<T>>] is stored as the
    address, with 0 for [None].  [sep] says that regions do not overlap; it is
    insensitive to their order. *)
From S2P Require Import Prelude Words.
Local Open Scope Z_scope.

Abbreviation memory := (gmap Z Z).

Definition read8 (m : memory) (a : Z) : Z := default 0 (m !! a).
Definition read64 (m : memory) (a : Z) : Z :=
  from_le ((λ i, read8 m (a + Z.of_nat i)) <$> seq 0 8).

Fixpoint write_bytes (m : memory) (a : Z) (l : list Z) : memory :=
  match l with
  | [] => m
  | b :: l => <[a := b]> (write_bytes m (a + 1) l)
  end.
Definition write64 (m : memory) (a v : Z) : memory := write_bytes m a (to_le 8 v).

#[global] Arguments read64 : simpl never.
#[global] Arguments write64 : simpl never.

(** [m'] has the bytes of [m] between [lo] and [hi]. *)
Definition same_bytes (lo hi : Z) (m m' : memory) : Prop :=
  ∀ a, lo ≤ a < hi → read8 m' a = read8 m a.

Lemma read8_write_bytes m a l x :
  read8 (write_bytes m a l) x
  = if decide (a ≤ x < a + length l) then nth (Z.to_nat (x - a)) l 0 else read8 m x.
Proof.
  revert a. induction l as [|b l IH]; intros a; cbn [write_bytes length].
  - rewrite decide_False by lia. done.
  - unfold read8 in *. destruct (decide (x = a)) as [->|Hne].
    + rewrite lookup_insert_eq, decide_True by lia. by rewrite Z.sub_diag.
    + rewrite lookup_insert_ne, IH by done.
      destruct (decide (a + 1 ≤ x < a + 1 + length l)).
      * rewrite decide_True by lia. replace (Z.to_nat (x - a)) with (S (Z.to_nat (x - (a + 1)))) by lia.
        done.
      * rewrite decide_False by lia. done.
Qed.

Lemma write_bytes_same m a l lo hi : hi ≤ a ∨ a + length l ≤ lo →
  same_bytes lo hi m (write_bytes m a l).
Proof. intros H x Hx. rewrite read8_write_bytes, decide_False; [done|lia]. Qed.

Lemma write64_same m a v lo hi : hi ≤ a ∨ a + 8 ≤ lo → same_bytes lo hi m (write64 m a v).
Proof. intros. apply write_bytes_same. rewrite length_to_le. lia. Qed.

Lemma read64_same m m' a : same_bytes a (a + 8) m m' → read64 m' a = read64 m a.
Proof.
  intros H. unfold read64. f_equal. apply list_fmap_ext.
  intros i k [-> Hi]%lookup_seq. apply H. lia.
Qed.

Lemma read64_write64 m a v : read64 (write64 m a v) a = wrap 64 v.
Proof.
  change 64 with (8 * Z.of_nat 8). rewrite <- from_to_le. unfold read64. f_equal.
  apply (list_eq_same_length _ _ 8);
    [by rewrite length_to_le|by rewrite length_fmap, length_seq|].
  intros i x y Hi Hx Hy. apply list_lookup_fmap_Some in Hx as (k & -> & [-> Hk]%lookup_seq).
  unfold write64. rewrite read8_write_bytes, decide_True by (rewrite length_to_le; lia).
  rewrite Z.add_simpl_l, Nat.add_0_l, Nat2Z.id. by apply nth_lookup_Some.
Qed.

Lemma same_bytes_trans lo hi m1 m2 m3 :
  same_bytes lo hi m1 m2 → same_bytes lo hi m2 m3 → same_bytes lo hi m1 m3.
Proof. intros H1 H2 a Ha. by rewrite H2, H1. Qed.

Lemma same_bytes_weaken lo hi lo' hi' m m' : lo ≤ lo' → hi' ≤ hi →
  same_bytes lo hi m m' → same_bytes lo' hi' m m'.
Proof. intros ? ? H a Ha. apply H. lia. Qed.

Lemma same_bytes_refl lo hi m : same_bytes lo hi m m.
Proof. done. Qed.

(** ** Regions *)
Abbreviation region := (Z * Z)%type. (* first address, size *)

Definition disj (x y : region) : Prop := x.1 + x.2 ≤ y.1 ∨ y.1 + y.2 ≤ x.1.

#[export] Instance disj_dec x y : Decision (disj x y).
Proof. unfold disj. apply _. Defined.

Lemma disj_sym x y : disj x y → disj y x.
Proof. unfold disj. lia. Qed.

Fixpoint sep (l : list region) : Prop :=
  match l with [] => True | x :: l' => Forall (disj x) l' ∧ sep l' end.

Lemma sep_perm l l' : l ≡ₚ l' → sep l → sep l'.
Proof.
  induction 1 as [|x l l' Hp IH|x y l|l1 l2 l3 _ IH1 _ IH2]; cbn; intros H; [done| | |auto].
  - destruct H as [Hx H]. split; [|auto]. by rewrite <- Hp.
  - destruct H as (Hy & Hx & H). apply Forall_cons in Hy as [Hyx Hy].
    split; [|done]. constructor; [by apply disj_sym|done].
Qed.
#[export] Instance sep_proper : Proper ((≡ₚ) ==> iff) sep.
Proof. intros l l' H. split; [by apply sep_perm|by apply sep_perm]. Qed.

Lemma sep_app l l' : sep (l ++ l') ↔ sep l ∧ sep l' ∧ Forall (λ x, Forall (disj x) l') l.
Proof.
  induction l as [|x l IH]; cbn; [split; [auto|naive_solver]|].
  rewrite Forall_app, IH, Forall_cons. naive_solver.
Qed.

Lemma clear_sym l l' :
  Forall (λ x, Forall (disj x) l') l → Forall (λ y, Forall (disj y) l) l'.
Proof.
  intros H. apply Forall_forall. intros y Hy. apply Forall_forall. intros x Hx.
  apply disj_sym. by apply (proj1 (Forall_forall _ _) (proj1 (Forall_forall _ _) H x Hx)).
Qed.

(** Replacing regions by parts of them. *)
Definition inside (x y : region) : Prop := y.1 ≤ x.1 ∧ x.1 + x.2 ≤ y.1 + y.2.

Lemma disj_inside x y z : inside x y → disj y z → disj x z.
Proof. unfold inside, disj. lia. Qed.

Lemma sep_replace x parts l : sep (x :: l) → sep parts → Forall (λ p, inside p x) parts →
  sep (parts ++ l).
Proof.
  intros [Hx Hl] Hp Hin. apply sep_app. split_and!; [done..|].
  eapply Forall_impl; [exact Hin|]. intros p Hpx. cbn beta in *.
  eapply Forall_impl; [exact Hx|]. intros y. by apply disj_inside.
Qed.

(** Two neighbouring regions joined into one. *)
Lemma sep_join a n k l : 0 ≤ n → 0 ≤ k → Forall (λ y, 0 < y.2) l →
  sep ((a, n) :: (a + n, k) :: l) → sep ((a, n + k) :: l).
Proof.
  cbn. intros ? ? Hpos ([_ H1]%Forall_cons & H2 & Hl). split; [|done].
  rewrite Forall_forall in *. intros y Hy. specialize (H1 y Hy). specialize (H2 y Hy).
  specialize (Hpos y Hy).
  unfold disj in *. cbn in *. destruct y as [b j]. cbn in *. lia.
Qed.

(** Regions that do not overlap have no more bytes than the range they are in. *)
Definition total_size (l : list region) : Z := foldr (λ x n, x.2 + n) 0 l.

Lemma sep_total lo hi l : lo ≤ hi → sep l → Forall (λ x, 0 ≤ x.2 ∧ inside x (lo, hi - lo)) l →
  total_size l ≤ hi - lo.
Proof.
  intros Hlh Hs Hin.
  set (cells := l ≫= λ x, seqZ x.1 x.2).
  assert (∀ a, a ∈ cells ↔ ∃ x, x ∈ l ∧ x.1 ≤ a < x.1 + x.2) as Hcells.
  { intros a. unfold cells. rewrite list_elem_of_bind. setoid_rewrite elem_of_seqZ. naive_solver. }
  assert (NoDup cells ∧ Z.of_nat (length cells) = total_size l) as [Hnd Hlen].
  { clear Hcells. unfold cells. induction l as [|x l IH]; [split; [constructor|done]|].
    destruct Hs as [Hx Hs]. rewrite bind_cons. apply Forall_cons in Hin as [[Hx0 _] Hin].
    destruct (IH Hs Hin) as [Hnd Hlen]. rewrite length_app, length_seqZ.
    split; [|unfold total_size in *; cbn [foldr]; lia].
    apply NoDup_app. split_and!; [apply NoDup_seqZ| |done].
    intros a Ha%elem_of_seqZ Hc. apply list_elem_of_bind in Hc as (y & Has & Hy).
    apply elem_of_seqZ in Has.
    rewrite Forall_forall in Hx. specialize (Hx y Hy). unfold disj in Hx. lia. }
  assert (cells ⊆+ seqZ lo (hi - lo)) as Hsub.
  { apply NoDup_submseteq; [done|]. intros a (x & Hx & Ha)%Hcells. apply elem_of_seqZ.
    rewrite Forall_forall in Hin. specialize (Hin x Hx). unfold inside in Hin. cbn in Hin. lia. }
  apply submseteq_length in Hsub. rewrite length_seqZ in Hsub. lia.
Qed.
