(* ===== verification/Framebuffer.v ===== *)
(** * The framebuffer console (src/src/framebuffer.rs)

    Text drawn pixel by pixel with an 8 by 16 font into linear video memory,
    which is byte memory here.  An index outside the font panics. *)
From stdpp Require Import strings.
From S2P Require Import Prelude Words Memory Str Fmt.
Local Open Scope Z_scope.
Local Open Scope list_scope.

Abbreviation Glyph := (list Z).

(** Each glyph is written as one number, a byte for each of its sixteen rows, top
    row first. *)
Definition FONT : list Glyph := to_be 16 <$>
  [0x00000000000000000000000000000000; 0x0000183C3C3C18181800181800000000;
   0x00666666240000000000000000000000; 0x0000006C6CFE6C6C6CFE6C6C00000000;
   0x18187CC6C07C0686C67C181800000000; 0x0000C2C60C183060C686000000000000;
   0x0000386C3876DCCCCC76000000000000; 0x00303030600000000000000000000000;
   0x00000C1830303030180C000000000000; 0x000030180C0C0C0C1830000000000000;
   0x000000663CFF3C660000000000000000; 0x00000018187E18180000000000000000;
   0x00000000000000181830000000000000; 0x0000000000FE00000000000000000000;
   0x00000000000000181800000000000000; 0x000002060C183060C080000000000000;
   0x00003C66C3DBDBC3663C000000000000; 0x0000183878181818187E000000000000;
   0x00007CC6060C183060FE000000000000; 0x00007CC6063C0606C67C000000000000;
   0x00000C1C3C6CCCFE0C1E000000000000; 0x0000FEC0FC060606C67C000000000000;
   0x00003860C0FCC6C6C67C000000000000; 0x0000FEC6060C18303030000000000000;
   0x00007CC6C67CC6C6C67C000000000000; 0x00007CC6C67E06060C78000000000000;
   0x00000018180000181800000000000000; 0x00000018180000181830000000000000;
   0x00060C18306030180C06000000000000; 0x000000007E007E000000000000000000;
   0x006030180C060C183060000000000000; 0x00007CC60C1818001818000000000000;
   0x00007CC6DEDEDEDCC07C000000000000; 0x000010386CC6C6FEC6C6000000000000;
   0x0000FC66667C666666FC000000000000; 0x00003C66C0C0C0C0663C000000000000;
   0x0000F86C666666666CF8000000000000; 0x0000FE626878686062FE000000000000;
   0x0000FE626878686060F0000000000000; 0x00003C66C0C0DEC6663A000000000000;
   0x0000C6C6C6FEC6C6C6C6000000000000; 0x00003C1818181818183C000000000000;
   0x00001E0C0C0C0CCCCC78000000000000; 0x0000E6666C786C6666E6000000000000;
   0x0000F0606060606266FE000000000000; 0x0000C3E7FFDBC3C3C3C3000000000000;
   0x0000C6E6F6DECEC6C6C6000000000000; 0x00007CC6C6C6C6C6C67C000000000000;
   0x0000FC66667C606060F0000000000000; 0x00007CC6C6C6D6DE7C0C0E0000000000;
   0x0000FC66667C6C6666E6000000000000; 0x00007CC660380C06C67C000000000000;
   0x0000FF9918181818183C000000000000; 0x0000C6C6C6C6C6C6C67C000000000000;
   0x0000C6C6C6C6C66C3810000000000000; 0x0000C3C3C3DBDBFF6666000000000000;
   0x0000C66C3838386CC6C6000000000000; 0x00006666663C1818183C000000000000;
   0x0000FE860C183060C2FE000000000000; 0x00003C3030303030303C000000000000;
   0x000080C0E070381C0E06020000000000; 0x00003C0C0C0C0C0C0C3C000000000000;
   0x10386CC6000000000000000000000000; 0x0000000000000000000000FF00000000;
   0x000000780C7CCCCCCC76000000000000; 0x0000E060786C6666667C000000000000;
   0x0000007CC6C0C0C0C67C000000000000; 0x00001C0C3C6CCCCCCC76000000000000;
   0x0000007CC6FEC0C0C67C000000000000; 0x0000386C60F0606060F0000000000000;
   0x00000076CCCCCCCC7C0CCC7800000000; 0x0000E0606C76666666E6000000000000;
   0x0000181838181818183C000000000000; 0x000006060E06060666663C0000000000;
   0x0000E060666C786C66E6000000000000; 0x0000381818181818183C000000000000;
   0x000000E6FFDBDBDBDBDB000000000000; 0x000000DC666666666666000000000000;
   0x0000007CC6C6C6C6C67C000000000000; 0x000000DC666666667C6060F000000000;
   0x00000076CCCCCCCC7C0C0C1E00000000; 0x000000DC7666606060F0000000000000;
   0x0000007CC660380CC67C000000000000; 0x00001030FC303030361C000000000000;
   0x000000CCCCCCCCCCCC76000000000000; 0x000000C6C6C6C66C3810000000000000;
   0x000000C3C3DBDBFF6666000000000000; 0x000000C66C38386CC6C6000000000000;
   0x000000C6C6C6C6C67E060CF800000000; 0x000000FECC183060C6FE000000000000;
   0x000E18187018180E0000000000000000; 0x00181818001818180000000000000000;
   0x007018180E1818700000000000000000; 0x0076DC00000000000000000000000000].

Definition glyph (c : Z) : outcome Glyph :=
  if decide (32 ≤ c ∧ c < 127) then index (Z.to_nat (c - 32)) FONT else index 0 FONT.

Record FbConsole := mkFbConsole {
  fb : Z; width : Z; height : Z; pitch : Z; bpp : Z;
  cols : Z; rows : Z; cur_x : Z; cur_y : Z; fg : Z; bg : Z;
}.
Definition set_cur (x y : Z) (c : FbConsole) : FbConsole :=
  mkFbConsole (fb c) (width c) (height c) (pitch c) (bpp c) (cols c) (rows c) x y (fg c) (bg c).

(** ** Drawing *)

Abbreviation F := (ST (FbConsole * memory)).
Definition console : F FbConsole := gets fst.
Definition set_console (f : FbConsole → FbConsole) : F unit := modify (λ s, (f s.1, s.2)).
Definition write_volatile (a : Z) (l : list Z) : F unit := modify (λ s, (s.1, write_bytes s.2 a l)).
Definition read_volatile (a : Z) : F Z := gets (λ s, read8 s.2 a).
Fixpoint for_each {A} (l : list A) (f : A → F unit) : F unit :=
  match l with [] => mret tt | x :: l => f x;; for_each l f end.

Definition pixel_bytes (bits color : Z) : list Z :=
  if decide (bits = 32) then to_le 4 color
  else if decide (bits = 24) then
    [Z.land color 0xFF; Z.land (Z.shiftr color 8) 0xFF; Z.land (Z.shiftr color 16) 0xFF]
  else [].
Definition pixel_offset (c : FbConsole) (x y : Z) : Z := y * pitch c + x * (bpp c / 8).

Definition draw_pixel (x y color : Z) : F unit :=
  c ← console;
  if decide (width c ≤ x ∨ height c ≤ y) then mret tt
  else write_volatile (fb c + pixel_offset c x y) (pixel_bytes (bpp c) color).

(** [for col in 0..8], left at the right edge; [n] columns are left. *)
Fixpoint draw_cols (n : nat) (gx py bits fg bg : Z) : F unit :=
  match n with
  | O => mret tt
  | S n' =>
      c ← console;
      let col := 8 - Z.of_nat n in
      let px := wadd 32 gx col in
      if decide (width c ≤ px) then mret tt else
      write_volatile (fb c + pixel_offset c px py)
        (pixel_bytes (bpp c) (if Z.testbit bits (7 - col) then fg else bg));;
      draw_cols n' gx py bits fg bg
  end.
Fixpoint draw_rows (n : nat) (gx gy fg bg : Z) (g : Glyph) : F unit :=
  match n with
  | O => mret tt
  | S n' =>
      c ← console;
      let row := 16 - Z.of_nat n in
      bits ← lift (index (Z.to_nat row) g);
      let py := wadd 32 gy row in
      if decide (height c ≤ py) then mret tt else
      draw_cols 8 gx py bits fg bg;;
      draw_rows n' gx gy fg bg g
  end.
Definition draw_glyph (gx gy fg bg : Z) (g : Glyph) : F unit := draw_rows 16 gx gy fg bg g.

(** A character cell, in the colours of the console. *)
Definition draw_cell (x y byte : Z) : F unit :=
  c ← console; g ← lift (glyph byte); draw_glyph (wmul 32 x 8) (wmul 32 y 16) (fg c) (bg c) g.

Definition scroll : F unit :=
  c ← console;
  let row_bytes := pitch c * 16 in
  for_each (seqZ 1 (rows c - 1)) (λ row,
    for_each (seqZ 0 row_bytes) (λ i,
      b ← read_volatile (fb c + row * row_bytes + i);
      write_volatile (fb c + (row - 1) * row_bytes + i) [b]));;
  set_console (set_cur 0 (wsub 32 (rows c) 1));;
  for_each (seqZ 0 (cols c)) (λ x, c ← console; draw_cell x (cur_y c) 32).

Definition clear : F unit :=
  c ← console;
  for_each (seqZ 0 (rows c)) (λ y, for_each (seqZ 0 (cols c)) (λ x, draw_cell x y 32));;
  set_console (set_cur 0 0).

Definition newline : F unit :=
  c ← console;
  set_console (set_cur 0 (wadd 32 (cur_y c) 1));;
  c ← console; if decide (rows c ≤ cur_y c) then scroll else mret tt.

Definition write_byte (byte : Z) : F unit :=
  if decide (byte = 10) then newline
  else if decide (byte = 13) then set_console (λ c, set_cur 0 (cur_y c) c)
  else if decide (byte = 9) then
    set_console (λ c, set_cur (Z.land (wadd 32 (cur_x c) 8) (wnot 32 7)) (cur_y c) c);;
    c ← console; if decide (cols c ≤ cur_x c) then newline else mret tt
  else
    c ← console;
    (if decide (cols c ≤ cur_x c) then newline else mret tt);;
    c ← console; draw_cell (cur_x c) (cur_y c) byte;;
    set_console (λ c, set_cur (wadd 32 (cur_x c) 1) (cur_y c) c).
Definition write_str (s : str) : F unit := for_each s write_byte.

(** ** Finding the framebuffer

    [init] looks at what the boot loader left ([mb2_magic], [mb2_info]).  The
    lines it prints are returned in [printed]. *)

Record FbState := mkFbState {
  FB : option FbConsole;
  FB_ACTIVE : bool;
  video : memory;
  printed : list (list str);
}.
Abbreviation I := (ST FbState).
Definition say (pieces : list str) : I unit :=
  modify (λ s, mkFbState (FB s) (FB_ACTIVE s) (video s) (printed s ++ [pieces])).
Definition set_video (m : memory) (s : FbState) : FbState := mkFbState (FB s) (FB_ACTIVE s) m (printed s).
Definition load32 (a : Z) : I Z := gets (λ s, from_le ((λ i, read8 (video s) (a + i)) <$> seqZ 0 4)).
Definition load64 (a : Z) : I Z := gets (λ s, read64 (video s) a).
Definition load8 (a : Z) : I Z := gets (λ s, read8 (video s) a).
Definition hex32 (n : Z) : str := txt "0x" ++ pad_zero 8 (hex n).

(** [for i in 0..fb_dwords], the zeros written from [a] on. *)
Fixpoint zero_fill (n : nat) (a : Z) (m : memory) : memory :=
  match n with O => m | S n => zero_fill n (a + 8) (write64 m a 0) end.

Definition fb_text (c : FbConsole) : list str :=
  [dec (width c); txt "x"; dec (height c); txt "x"; dec (bpp c); txt "bpp"].
Definition setup_fb (addr pitch w h bpp : Z) : I bool :=
  if decide (addr = 0 ∨ w = 0 ∨ h = 0) then
    say [txt "fb: bad fb params (addr=0x"; hex addr; txt " "; dec w; txt "x"; dec h; txt ")"];; mret false
  else
    let cols := w / 8 in
    let rows := h / 16 in
    let c := mkFbConsole addr w h pitch bpp cols rows 0 0 0x00AAAAAA 0x00000000 in
    say ([txt "fb: "] ++ fb_text c ++ [txt ", "; dec cols; txt "x"; dec rows; txt " chars"]);;
    modify (λ s, mkFbState (Some c) (FB_ACTIVE s)
      (zero_fill (Z.to_nat (pitch * h / 8)) addr (video s)) (printed s));;
    modify (λ s, mkFbState (FB s) true (video s) (printed s));;
    mret true.

Definition init_mb1 (info : Z) : I bool :=
  flags ← load32 info;
  if decide (Z.land flags 0x1000 = 0) then say [txt "fb: mb1 no fb flag"];; mret false else
  addr ← load64 (info + 88); pitch ← load32 (info + 96); w ← load32 (info + 100);
  h ← load32 (info + 104); bpp ← load8 (info + 108);
  setup_fb addr pitch w h bpp.

(** The loop over the tags, from offset [off]; a tag of size 0 ends it. *)
Fixpoint find_tag (fuel : nat) (info total off : Z) : I (option Z) :=
  match fuel with
  | O => diverge
  | S fuel =>
      if decide (total < off + 8) then mret None else
      tag_type ← load32 (info + off);
      tag_size ← load32 (info + off + 4);
      if decide (tag_type = 0 ∨ tag_size = 0) then mret None
      else if decide (tag_type = 8) then mret (Some off)
      else find_tag fuel info total (Z.land (off + tag_size + 7) (wnot 64 7))
  end.
(** [off] grows by eight at least. *)
Definition tag_fuel (total : Z) : nat := S (Z.to_nat (total / 8)).
Definition init_mb2 (info : Z) : I bool :=
  total ← load32 info;
  tag ← find_tag (tag_fuel total) info total 8;
  match tag with
  | None => say [txt "fb: no framebuffer tag in mb2 info"];; mret false
  | Some off =>
      addr ← load64 (info + off + 8); pitch ← load32 (info + off + 16); w ← load32 (info + off + 20);
      h ← load32 (info + off + 24); bpp ← load8 (info + off + 28);
      setup_fb addr pitch w h bpp
  end.

(** [paging::map_1gb_page], with the address of the page table. *)
Definition map_1gb_page (pdpt phys : Z) : I unit :=
  modify (λ s, set_video (write64 (video s) (pdpt + 8 * Z.land (Z.shiftr phys 30) 0x1FF)
    (Z.lor (Z.land phys 0xFFFFFFFFC0000000) 0x83)) s).

(** Physical memory may be absent: [backed] says where there is some. *)
Section probe.
Context (backed : Z → bool) (pdpt : Z).

Definition load32_volatile (a : Z) : I Z := if backed a then load32 a else mret 0xFFFFFFFF.
Definition store32_volatile (a v : Z) : I unit :=
  modify (λ s, if backed a then set_video (write_bytes (video s) a (to_le 4 v)) s else s).
Fixpoint probe (candidates : list (Z * Z * Z * Z * Z)) : I bool :=
  match candidates with
  | [] => say [txt "fb: no framebuffer found (probe failed)"];; mret false
  | (addr, w, h, pitch, bpp) :: rest =>
      old ← load32_volatile addr;
      store32_volatile addr 0xDEADBEEF;;
      readback ← load32_volatile addr;
      store32_volatile addr old;;
      if decide (readback = 0xDEADBEEF) then
        say [txt "fb: found at "; hex32 addr];; setup_fb addr pitch w h bpp
      else probe rest
  end.
Definition probe_fallback : I bool :=
  map_1gb_page pdpt 0xFC000000;;
  probe [(0xFD000000, 1024, 768, 4096, 32); (0xE0000000, 1024, 768, 4096, 32)].

(** [magic] and [info] are what the boot loader left. *)
Definition init (magic info : Z) : I bool :=
  if decide (magic = 0x2BADB002 ∧ info ≠ 0) then init_mb1 info
  else if decide (magic = 0x36D76289 ∧ info ≠ 0) then init_mb2 info
  else say [txt "fb: no mb (magic="; hex32 magic; txt " info="; hex32 info; txt ")"];; probe_fallback.
End probe.

(** [cmd_fb] of the shell. *)
Definition cmd_fb_text (f : option FbConsole) : list str :=
  match f with
  | Some c => [txt "fb: "] ++ fb_text c ++ [txt " "; dec (cols c); txt "x"; dec (rows c); txt " chars"]
  | None => [txt "fb: not initialized (use QEMU -vga std)"]
  end.

(** ** Every access is inside the framebuffer *)

#[local] Arguments wrap : simpl never.

(** [setup_fb]'s geometry, for a mode whose rows fit the pitch. *)
Record geometry_ok (c : FbConsole) : Prop := {
  geo_width : 8 ≤ width c < 2 ^ 16;
  geo_height : 16 ≤ height c < 2 ^ 16;
  geo_cols : cols c = width c / 8;
  geo_rows : rows c = height c / 16;
  geo_bpp : 0 ≤ bpp c < 2 ^ 8;
  geo_pitch : width c * (bpp c / 8) ≤ pitch c;
}.
Record cursor_ok (c : FbConsole) : Prop := {
  cur_row : 0 ≤ cur_y c < rows c;
  cur_col : 0 ≤ cur_x c ≤ cols c;
}.
Definition in_fb (c : FbConsole) (a : Z) : Prop := fb c ≤ a < fb c + pitch c * height c.
(** Nothing outside the video memory has changed. *)
Definition outside (c : FbConsole) (m m' : memory) : Prop :=
  ∀ a, ¬ in_fb c a → read8 m' a = read8 m a.

(** Code that only draws. *)
Definition draws (p : F unit) : Prop :=
  ∀ s, geometry_ok s.1 → wp p (λ _ s', s'.1 = s.1 ∧ outside s.1 s.2 s'.2) s.

Lemma draws_ret : draws (mret tt).
Proof. intros s _. by apply wp_ret. Qed.

Lemma draws_bind p q : draws p → draws q → draws (p;; q).
Proof.
  intros Hp Hq s Hs. apply wp_bind. eapply wp_mono; [by apply Hp|]. intros [] s1 [E1 O1].
  eapply wp_mono; [apply Hq; by rewrite E1|]. intros [] s2 [E2 O2]. rewrite E2, E1 in *.
  split; [done|]. intros a Ha. by rewrite O2, O1.
Qed.

Lemma draws_for_each {A} (l : list A) f : (∀ x, x ∈ l → draws (f x)) → draws (for_each l f).
Proof.
  induction l as [|x l IH]; intros Hf; [apply draws_ret|]. cbn [for_each].
  apply draws_bind; [apply Hf; set_solver|]. apply IH. set_solver.
Qed.

Lemma draws_console (f : FbConsole → F unit) :
  (∀ c m, geometry_ok c → wp (f c) (λ _ s', s'.1 = c ∧ outside c m s'.2) (c, m)) →
  draws (c ← console; f c).
Proof. intros Hf [c m] Hc. apply wp_bind, wp_gets. by apply Hf. Qed.

Lemma wp_write a l c m (Q : unit → FbConsole * memory → Prop) :
  (length l = 0%nat ∨ fb c ≤ a ∧ a + length l ≤ fb c + pitch c * height c) →
  (∀ m', outside c m m' → Q tt (c, m')) → wp (write_volatile a l) Q (c, m).
Proof.
  intros Hl HQ. apply wp_modify, HQ. intros x Hx. cbn. rewrite read8_write_bytes.
  rewrite decide_False; [done|]. unfold in_fb in Hx. destruct Hl as [->|[? ?]]; lia.
Qed.

Lemma outside_trans c m1 m2 m3 : outside c m1 m2 → outside c m2 m3 → outside c m1 m3.
Proof. intros H1 H2 a Ha. by rewrite H2, H1. Qed.

(** A pixel on the screen lies in the video memory. *)
Lemma pixel_inside c x y color : geometry_ok c → 0 ≤ x < width c → 0 ≤ y < height c →
  length (pixel_bytes (bpp c) color) = 0%nat ∨
  0 ≤ pixel_offset c x y ∧
  pixel_offset c x y + length (pixel_bytes (bpp c) color) ≤ pitch c * height c.
Proof.
  intros [] Hx Hy. unfold pixel_offset, pixel_bytes.
  assert (∀ n, 0 ≤ n → width c * n ≤ pitch c → 0 ≤ y * pitch c + x * n ∧
    y * pitch c + x * n + n ≤ pitch c * height c) as Hin.
  { intros n Hn Hp. assert ((x + 1) * n ≤ width c * n) by (apply Z.mul_le_mono_nonneg_r; lia).
    assert ((y + 1) * pitch c ≤ height c * pitch c) by (apply Z.mul_le_mono_nonneg_r; nia).
    split; nia. }
  case_decide as E32; [|case_decide as E24; [|by left]]; right.
  - rewrite length_to_le. replace (bpp c / 8) with 4 in * by (by rewrite E32). apply (Hin 4); lia.
  - replace (bpp c / 8) with 3 in * by (by rewrite E24). apply (Hin 3); lia.
Qed.

Lemma draws_cols (n : nat) gx py bits f b : (n ≤ 8)%nat → 0 ≤ py → 
  ∀ c m, geometry_ok c → py < height c →
  wp (draw_cols n gx py bits f b) (λ _ s', s'.1 = c ∧ outside c m s'.2) (c, m).
Proof.
  induction n as [|n IH]; intros Hn Hpy c m Hc Hh; cbn [draw_cols]; [by apply wp_ret|].
  apply wp_bind, wp_gets. cbn [fst]. case_decide as Hw; [by apply wp_ret|].
  set (px := wadd 32 gx (8 - Z.of_nat (S n))) in *.
  assert (0 ≤ px) by (apply (wadd_fits 32); lia).
  apply wp_bind, wp_write.
  { destruct (pixel_inside c px py (if Z.testbit bits (7 - (8 - Z.of_nat (S n))) then f else b) Hc)
      as [?|?]; [lia|lia|by left|right; lia]. }
  intros m1 O1. eapply wp_mono; [apply IH; [lia|done..]|]. intros [] s' [E O2]. split; [done|].
  by eapply outside_trans.
Qed.

Lemma draws_rows (n : nat) gx gy f b g : (n ≤ 16)%nat → length g = 16%nat →
  ∀ c m, geometry_ok c → wp (draw_rows n gx gy f b g) (λ _ s', s'.1 = c ∧ outside c m s'.2) (c, m).
Proof.
  induction n as [|n IH]; intros Hn Hg c m Hc; cbn [draw_rows]; [by apply wp_ret|].
  apply wp_bind, wp_gets. cbn [fst].
  destruct (index_lt (Z.to_nat (16 - Z.of_nat (S n))) g) as (bits & _ & Hb); [lia|].
  apply wp_bind, wp_lift. rewrite Hb. cbn [runs].
  case_decide as Hh; [by apply wp_ret|].
  apply wp_bind. eapply wp_mono; [apply draws_cols; [lia| |done|lia]|].
  { apply (wadd_fits 32). lia. }
  intros [] [c1 m1] [E1 O1]. cbn in E1, O1. subst c1.
  eapply wp_mono; [apply IH; [lia|done..]|]. intros [] s' [E O2]. split; [done|].
  by eapply outside_trans.
Qed.

(** ** The font *)

Lemma font_size : length FONT = 94%nat ∧ Forall (λ g, length g = 16%nat) FONT.
Proof. split; [done|]. refine (bool_decide_unpack _ _). by vm_compute. Qed.

Lemma glyph_cases byte :
  (byte = 126 ∧ glyph byte = Panic) ∨
  (byte ≠ 126 ∧ ∃ g, glyph byte = Done g ∧ length g = 16%nat).
Proof.
  destruct font_size as [Hl Hf].
  assert (∀ i, (i < 94)%nat → ∃ g, index i FONT = Done g ∧ length g = 16%nat) as Hi.
  { intros i Hi. destruct (index_lt i FONT) as (g & Hg & Ei); [by rewrite Hl|]. exists g. split; [done|].
    by eapply Forall_lookup_1 in Hf. }
  destruct (decide (byte = 126)) as [->|Hne]; [left; by vm_compute|right].
  split; [done|]. unfold glyph. case_decide; apply Hi; lia.
Qed.

Lemma draws_cell x y byte : byte ≠ 126 → draws (draw_cell x y byte).
Proof.
  intros Hb [c m] Hc. unfold draw_cell. apply wp_bind, wp_gets. cbn [fst].
  destruct (glyph_cases byte) as [[? _]|(_ & g & Hg & Hl)]; [done|].
  apply wp_bind, wp_lift. rewrite Hg. cbn [runs]. by apply draws_rows.
Qed.

(** ** Lines *)

Lemma wp_draws p c m (Q : unit → FbConsole * memory → Prop) : draws p → geometry_ok c →
  (∀ m', outside c m m' → Q tt (c, m')) → wp p Q (c, m).
Proof.
  intros Hp Hc HQ. eapply wp_mono; [by apply (Hp (c, m))|]. intros [] [c1 m1] [E O].
  cbn in E, O. subst c1. by apply HQ.
Qed.

Lemma set_cur_ok x y c : geometry_ok c → geometry_ok (set_cur x y c).
Proof. intros []. by split. Qed.

Lemma rows_bounds c : geometry_ok c → 1 ≤ rows c < 2 ^ 16 ∧ rows c * 16 ≤ height c ∧
  1 ≤ cols c < 2 ^ 16 ∧ 0 ≤ pitch c.
Proof.
  intros []. rewrite geo_rows0, geo_cols0.
  pose proof (Z.div_mod (height c) 16). pose proof (Z.mod_pos_bound (height c) 16).
  pose proof (Z.div_mod (width c) 8). pose proof (Z.mod_pos_bound (width c) 8).
  pose proof (Z.div_pos (bpp c) 8). pow2. nia.
Qed.

(** The copy loops of [scroll], whose bounds are those of the console at hand. *)
Lemma copy_rows_draws c m (l : list Z) : geometry_ok c → (∀ row, row ∈ l → 1 ≤ row < rows c) →
  wp (for_each l (λ row, for_each (seqZ 0 (pitch c * 16)) (λ i,
      b ← read_volatile (fb c + row * (pitch c * 16) + i);
      write_volatile (fb c + (row - 1) * (pitch c * 16) + i) [b])))
    (λ _ s', s'.1 = c ∧ outside c m s'.2) (c, m).
Proof.
  intros Hc Hl. destruct (rows_bounds c Hc) as (Hr & Hrh & Hcol & Hp).
  assert (∀ row (il : list Z) m, 1 ≤ row < rows c → (∀ i, i ∈ il → 0 ≤ i < pitch c * 16) →
    wp (for_each il (λ i,
      b ← read_volatile (fb c + row * (pitch c * 16) + i);
      write_volatile (fb c + (row - 1) * (pitch c * 16) + i) [b]))
    (λ _ s', s'.1 = c ∧ outside c m s'.2) (c, m)) as Hrow.
  { intros row il m0 Hrow. revert m0. induction il as [|i il IH]; intros m0 His; [by apply wp_ret|].
    cbn [for_each]. apply wp_bind, wp_bind, wp_gets. apply wp_write.
    - right. cbn [length]. specialize (His i (list_elem_of_here _ _)).
      assert (row * (pitch c * 16) ≤ rows c * (pitch c * 16)) by (apply Z.mul_le_mono_nonneg_r; lia).
      assert (rows c * 16 * pitch c ≤ height c * pitch c) by (apply Z.mul_le_mono_nonneg_r; lia).
      assert (0 ≤ (row - 1) * (pitch c * 16)) by (apply Z.mul_nonneg_nonneg; lia). lia.
    - intros m1 O1. eapply wp_mono; [apply IH; set_solver|]. intros [] s' [E O2].
      split; [done|]. by eapply outside_trans. }
  revert m. induction l as [|row l IH]; intros m; [by apply wp_ret|]. cbn [for_each].
  apply wp_bind. eapply wp_mono.
  { apply Hrow; [apply Hl; set_solver|]. intros i Hi%elem_of_seqZ. lia. }
  intros [] [c1 m1] [E1 O1]. cbn in E1, O1. subst c1.
  eapply wp_mono; [apply IH; set_solver|]. intros [] s' [E O2]. split; [done|]. by eapply outside_trans.
Qed.

Lemma fb_scroll_spec c m : geometry_ok c →
  wp scroll (λ _ s', s'.1 = set_cur 0 (rows c - 1) c ∧ outside c m s'.2) (c, m).
Proof.
  intros Hc. destruct (rows_bounds c Hc) as (Hr & _). unfold scroll. apply wp_bind, wp_gets. cbn [fst].
  apply wp_bind. eapply wp_mono.
  { apply copy_rows_draws; [done|]. intros row Hrow%elem_of_seqZ. lia. }
  intros [] [c1 m1] [E1 O1]. cbn in E1, O1. subst c1.
  apply wp_bind, wp_modify. cbn [fst snd]. unfold wsub. rewrite wrap_id by (pow2; lia).
  apply wp_draws; [|by apply set_cur_ok|].
  - apply draws_for_each. intros x _ [c2 m2] Hc2. apply wp_bind, wp_gets. by apply (draws_cell x (cur_y c2) 32).
  - intros m2 O2. split; [done|]. by eapply outside_trans.
Qed.

(** After a step of printing: the same screen, a valid cursor. *)
Definition printed_on (c : FbConsole) (m : memory) (s' : FbConsole * memory) : Prop :=
  cursor_ok s'.1 ∧ s'.1 = set_cur (cur_x s'.1) (cur_y s'.1) c ∧ outside c m s'.2.

Lemma fb_newline_spec c m : geometry_ok c → 0 ≤ cur_y c < rows c →
  wp newline (λ _ s', printed_on c m s' ∧ cur_x s'.1 = 0) (c, m).
Proof.
  intros Hc Hy. destruct (rows_bounds c Hc) as (Hr & _ & Hcol & _). unfold newline.
  apply wp_bind, wp_gets. cbn [fst]. apply wp_bind, wp_modify. cbn [fst snd].
  unfold wadd. rewrite wrap_id by (pow2; lia). apply wp_bind, wp_gets. cbn [fst rows cur_y set_cur].
  case_decide as Hlast.
  - eapply wp_mono; [by apply fb_scroll_spec, set_cur_ok|]. intros [] [c1 m1] [E O]. cbn in E, O.
    subst c1. split; [|done]. split; [|by split]. split; cbn; lia.
  - apply wp_ret. split; [|done]. split; [|by split]. split; cbn; lia.
Qed.

(** [(x + 8) & !7], the next tab stop. *)
Lemma fb_tab_stop x : 0 ≤ x < 2 ^ 16 → 0 ≤ Z.land (wadd 32 x 8) (wnot 32 7) ≤ x + 8.
Proof.
  intros Hx. unfold wadd. rewrite wrap_id by (pow2; lia). split.
  - apply Z.land_nonneg. lia.
  - apply land_le. lia.
Qed.

Lemma fb_write_byte_spec byte c m : geometry_ok c → cursor_ok c → byte ≠ 126 →
  wp (write_byte byte) (λ _ s', printed_on c m s') (c, m).
Proof.
  intros Hc [Hy Hx] Hb. destruct (rows_bounds c Hc) as (Hr & _ & Hcol & _).
  unfold write_byte. case_decide as H10.
  { eapply wp_mono; [by apply fb_newline_spec|]. by intros [] s' [? _]. }
  case_decide as H13.
  { apply wp_modify. split; [|by split]. split; cbn; lia. }
  case_decide as H9.
  { apply wp_bind, wp_modify. cbn [fst snd]. apply wp_bind, wp_gets. cbn [fst cols cur_x set_cur].
    pose proof (fb_tab_stop (cur_x c)). case_decide as Htab.
    - eapply wp_mono; [apply fb_newline_spec; [by apply set_cur_ok|done]|]. intros [] s' [(H1 & E & O) _]. by split.
    - apply wp_ret. split; [|by split]. split; cbn; lia. }
  apply wp_bind, wp_gets. cbn [fst]. apply wp_bind.
  assert (wp (if decide (cols c ≤ cur_x c) then newline else mret tt) (λ _ s', printed_on c m s' ∧
    cur_x s'.1 < cols c) (c, m)) as Hroom.
  { case_decide.
    - eapply wp_mono; [by apply fb_newline_spec|]. intros [] s' [? ->]. split; [done|lia].
    - apply wp_ret. split; [|cbn; lia]. split; [by split|]. split; [by destruct c|done]. }
  eapply wp_mono; [exact Hroom|]. intros [] [c1 m1] [([Hy1 Hx1] & E1 & O1) Hlt]. cbn [fst snd] in *.
  apply wp_bind, wp_gets. cbn [fst]. apply wp_bind. apply wp_draws; [by apply draws_cell| |].
  { rewrite E1. by apply set_cur_ok. }
  intros m2 O2. apply wp_modify. cbn [fst snd]. rewrite E1 in Hlt, Hx1 |- *. cbn in Hlt, Hx1 |- *.
  unfold wadd. rewrite wrap_id by (pow2; lia). rewrite E1 in O2, Hy1. cbn in Hy1.
  split; [split; cbn; lia|]. split; [done|]. by eapply outside_trans.
Qed.

Lemma write_byte_tilde c m : geometry_ok c → cursor_ok c → write_byte 126 (c, m) = Panic.
Proof.
  intros Hc [Hy Hx].
  assert (∀ s : FbConsole * memory, (c ← console; draw_cell (cur_x c) (cur_y c) 126;;
    set_console (λ c, set_cur (wadd 32 (cur_x c) 1) (cur_y c) c)) s = Panic) as Hcell.
  { intros [c1 m1]. unfold mbind, st_bind, console, gets. cbn [fst].
    unfold draw_cell, mbind, st_bind, console, gets. cbn [fst].
    destruct (glyph_cases 126) as [[_ ->]|[? _]]; done. }
  unfold write_byte. do 3 (rewrite decide_False by done).
  unfold mbind, st_bind, console at 1, gets. cbn [fst]. case_decide.
  - pose proof (fb_newline_spec c m Hc Hy) as ([] & s1 & -> & _)%wp_inv. exact (Hcell s1).
  - exact (Hcell (c, m)).
Qed.

(** C34: The console draws every text whose bytes are not the tilde without a
    panic, changes no byte outside the video memory and keeps its cursor on the
    screen; the first tilde panics, because the font has one glyph less than
    there are printable characters. *)
Theorem fb_write_str s c m : geometry_ok c → cursor_ok c →
  if decide (126 ∈ s) then write_str s (c, m) = Panic
  else wp (write_str s) (λ _ s', printed_on c m s') (c, m).
Proof.
  unfold write_str. revert c m. induction s as [|b s IH]; intros c m Hc Hcur.
  { case_decide as E; [by apply elem_of_nil in E|]. apply wp_ret. split; [done|]. split; [by destruct c|done]. }
  cbn [for_each]. unfold wp at 1, mbind, st_bind. destruct (decide (b = 126)) as [->|Hb].
  { rewrite decide_True by set_solver. by rewrite write_byte_tilde. }
  pose proof (fb_write_byte_spec b c m Hc Hcur Hb) as ([] & [c1 m1] & -> & (Hcur1 & Ec & O1))%wp_inv.
  cbn [fst snd] in *. assert (geometry_ok c1) as Hc1 by (rewrite Ec; by apply set_cur_ok).
  specialize (IH c1 m1 Hc1 Hcur1).
  destruct (decide (126 ∈ s)) as [Hin|Hin].
  { rewrite decide_True by set_solver. exact IH. }
  rewrite decide_False by set_solver.
  pose proof IH as ([] & s2 & -> & (Hcur2 & E2 & O2))%wp_inv. rewrite Ec in E2, O2.
  split; [done|]. split; [done|]. by eapply outside_trans.
Qed.

(** A 640 by 480 screen with 32 bits. *)
Definition vga_console : FbConsole := mkFbConsole 0xFD000000 640 480 2560 32 80 30 79 29 0xAAAAAA 0.
Lemma fb_write_str_witness :
  write_str [97; 10; 126] (vga_console, ∅) = Panic ∧
  wp (write_str [98]) (λ _ s', printed_on vga_console ∅ s') (vga_console, ∅).
Proof.
  assert (geometry_ok vga_console) as Hg by (split; by vm_compute).
  assert (cursor_ok vga_console) as Hc by (split; by vm_compute).
  split.
  - pose proof (fb_write_str [97; 10; 126] vga_console ∅ Hg Hc) as H.
    rewrite decide_True in H by (apply (bool_decide_unpack _); by vm_compute). exact H.
  - pose proof (fb_write_str [98] vga_console ∅ Hg Hc) as H.
    rewrite decide_False in H by (apply (bool_decide_unpack _); by vm_compute). exact H.
Defined.
