(* ===== verification/Boot.v ===== *)
(** * Entering long mode (the boot code of src/src/asm.rs) and paging

    [_start] runs in 32-bit mode: it looks for long mode, fills three page
    tables and switches.  [translate] is the processor's walk of the tables;
    the kernel relies on virtual addresses being physical ones. *)
From S2P Require Import Prelude Words Memory Framebuffer.
Local Open Scope Z_scope.
Local Open Scope list_scope.

(** ** The processor's walk *)

Definition field (x lo w : Z) : Z := wrap w (Z.shiftr x lo).
(** Bits [lo] to 51 of a table entry, the address it holds. *)
Definition entry_address (e lo : Z) : Z := Z.shiftl (field e lo (52 - lo)) lo.
Definition table_entry (m : memory) (table i : Z) : Z := read64 m (table + 8 * i).

(** A walk from level [level] (4 is the top) of the table at [table]; tables of
    levels 2 and 3 may hold large pages. *)
Fixpoint walk (level : nat) (m : memory) (table va : Z) : option Z :=
  match level with
  | O => Some (table + field va 0 12)
  | S level =>
      let lo := 12 + 9 * Z.of_nat level in
      let e := table_entry m table (field va lo 9) in
      if negb (Z.testbit e 0) then None
      else if Z.testbit e 7 && bool_decide (level = 1 ∨ level = 2)%nat then
        Some (entry_address e lo + field va 0 lo)
      else walk level m (entry_address e 12) va
  end.
Definition translate (m : memory) (cr3 va : Z) : option Z := walk 4 m cr3 va.

(** ** The boot code *)

(** The processor's control state. *)
Record Control := mkControl { CR0 : Z; CR3 : Z; CR4 : Z; EFER : Z }.

(** What the code finds out about the processor: whether the ID flag can be
    toggled, and [eax] and [edx] of cpuid. *)
Record Processor := mkProcessor { id_toggles : bool; cpuid_eax : Z → Z; cpuid_edx : Z → Z }.

Definition has_long_mode (p : Processor) : bool :=
  id_toggles p && negb (bool_decide (cpuid_eax p 0x80000000 < 0x80000001)) &&
  Z.testbit (cpuid_edx p 0x80000001) 29.

Definition write32 (m : memory) (a v : Z) : memory := write_bytes m a (to_le 4 v).

(** Symbols of the boot section. *)
Record Symbols := mkSymbols { pml4 : Z; pdpt : Z; pd : Z; mb2_magic : Z; mb2_info : Z }.

Section boot.
Context (s : Symbols).

(** [.fill_pd]: a loop tested at the end; [None] if it is left running. *)
Fixpoint fill_pd (fuel : nat) (ecx eax : Z) (m : memory) : option memory :=
  match fuel with
  | O => None
  | S fuel =>
      let m := write32 (write32 m (pd s + ecx * 8) eax) (pd s + ecx * 8 + 4) 0 in
      let eax := wrap 32 (eax + 0x200000) in
      let ecx := ecx + 1 in
      if decide (ecx < 512) then fill_pd fuel ecx eax m else Some m
  end.
Definition page_tables (m : memory) : option memory :=
  let m := write32 m (pml4 s) (Z.lor (pdpt s) 0x3) in
  let m := write32 m (pdpt s) (Z.lor (pd s) 0x3) in
  fill_pd 512 0 0x83 m.

(** [_start], given what the loader leaves in [eax] and [ebx]; [None] is the
    loop at [no_long_mode]. *)
Definition boot (p : Processor) (eax ebx : Z) (c : Control) (m : memory) : option (Control * memory) :=
  let m := write32 (write32 m (mb2_magic s) eax) (mb2_info s) ebx in
  if negb (has_long_mode p) then None else
  m ← page_tables m;
  Some (mkControl (Z.lor (CR0 c) (Z.lor (Z.shiftl 1 31) 1)) (pml4 s) (Z.lor (CR4 c) (Z.shiftl 1 5))
    (Z.lor (EFER c) (Z.shiftl 1 8)), m).

(** [long_mode_start] up to the call of [kernel_main]. *)
Definition long_mode_start (c : Control) : Control :=
  mkControl (Z.lor (Z.land (CR0 c) 0xFFFFFFFFFFFFFFFB) 0x0002) (CR3 c) (Z.lor (CR4 c) 0x0600) (EFER c).
End boot.

(** The Multiboot2 header. *)
Definition multiboot2_header : list Z :=
  let length := 24 in
  to_le 4 0xE85250D6 ++ to_le 4 0 ++ to_le 4 length ++ to_le 4 (- (0xE85250D6 + 0 + length)) ++
  to_le 2 0 ++ to_le 2 0 ++ to_le 4 8.

(** [gdt64]: the descriptors of the boot code. *)
Definition gdt64 : list Z := to_le 8 0 ++ to_le 8 0x00AF9A000000FFFF ++ to_le 8 0x00CF92000000FFFF.
Definition gdt64_limit : Z := length gdt64 - 1.

(** ** Proofs *)

Lemma multiboot2_checksum :
  length multiboot2_header = 24%nat ∧
  wrap 32 (from_le (take 4 multiboot2_header) + from_le (take 4 (drop 4 multiboot2_header)) +
    from_le (take 4 (drop 8 multiboot2_header)) + from_le (take 4 (drop 12 multiboot2_header))) = 0.
Proof. by vm_compute. Qed.

Lemma to_le_app n k z : to_le (n + k) z = to_le n z ++ to_le k (Z.shiftr z (8 * n)).
Proof.
  revert z. induction n as [|n IH]; intros z; [by rewrite Z.shiftr_0_r|].
  cbn [Nat.add to_le app]. rewrite IH, Z.shiftr_shiftr by lia. do 4 f_equal. lia.
Qed.

(** Two 32-bit stores, low word first, and a 64-bit load. *)
Lemma write32_pair m a v : fits 32 v → read64 (write32 (write32 m a v) (a + 4) 0) a = v.
Proof.
  intros Hv. assert (fits 64 v) as Hv' by (apply (fits_weaken 32); [lia|done]).
  rewrite <- (wrap_id 64 v) at 2 by done. rewrite <- (read64_write64 m a v).
  apply read64_same. intros x Hx. unfold write32, write64.
  rewrite !read8_write_bytes, !length_to_le.
  rewrite (decide_True (P := a ≤ x < a + 8%nat)) by lia.
  assert (to_le 8 v = to_le 4 v ++ to_le 4 0) as ->.
  { change 8%nat with (4 + 4)%nat. rewrite to_le_app. do 2 f_equal.
    rewrite Z.shiftr_div_pow2 by lia. apply Z.div_small. exact Hv. }
  destruct (decide (a + 4 ≤ x < a + 4 + 4%nat)).
  - rewrite app_nth2 by (rewrite length_to_le; lia). rewrite length_to_le. f_equal. lia.
  - rewrite decide_True by lia. rewrite app_nth1; [done|]. rewrite length_to_le. lia.
Qed.

Lemma write32_same m a v lo hi : hi ≤ a ∨ a + 4 ≤ lo → same_bytes lo hi m (write32 m a v).
Proof. intros. apply write_bytes_same. rewrite length_to_le. lia. Qed.

Definition pd_entry (i : Z) : Z := 0x83 + i * 0x200000.

Lemma fill_pd_spec s (n : nat) i m : 0 ≤ i → i + n = 512 → (0 < n)%nat →
  ∃ m', fill_pd s n i (pd_entry i) m = Some m' ∧
    (∀ j, i ≤ j < 512 → table_entry m' (pd s) j = pd_entry j) ∧
    ∀ lo hi, hi ≤ pd s + 8 * i ∨ pd s + 4096 ≤ lo → same_bytes lo hi m m'.
Proof.
  revert i m. induction n as [|n IH]; intros i m Hi Hn Hpos; [lia|]. cbn [fill_pd].
  set (m1 := write32 (write32 m (pd s + i * 8) (pd_entry i)) (pd s + i * 8 + 4) 0).
  assert (∀ lo hi, hi ≤ pd s + 8 * i ∨ pd s + 8 * (i + 1) ≤ lo → same_bytes lo hi m m1) as Hsame.
  { intros lo hi H. eapply same_bytes_trans; apply write32_same; lia. }
  assert (table_entry m1 (pd s) i = pd_entry i) as Hnew.
  { unfold table_entry, m1. rewrite (Z.mul_comm i 8). apply write32_pair. unfold pd_entry, fits. lia. }
  destruct (decide (i + 1 < 512)) as [Hlt|Hge].
  - replace (wrap 32 (pd_entry i + 0x200000)) with (pd_entry (i + 1)).
    2:{ rewrite wrap_id; unfold pd_entry, fits; lia. }
    destruct (IH (i + 1) m1) as (m2 & -> & He & Hs); [lia..|]. exists m2. split; [done|]. split.
    + intros j Hj. destruct (decide (j = i)) as [->|]; [|apply He; lia].
      rewrite <- Hnew. apply read64_same, Hs. lia.
    + intros lo hi H. eapply same_bytes_trans; [apply Hsame; lia|apply Hs; lia].
  - exists m1. split; [done|]. split; [intros j Hj; by replace j with i by lia|].
    intros lo hi H. apply Hsame. lia.
Qed.

(** Tables on pages of their own below 4 GiB. *)
Record symbols_ok (s : Symbols) : Prop := {
  tables_paged : Forall (λ a, a `mod` 4096 = 0 ∧ 0 ≤ a < 2 ^ 32) [pml4 s; pdpt s; pd s];
  tables_apart : NoDup [pml4 s; pdpt s; pd s];
  info_apart : Forall (λ a, 0 ≤ a ∧ Forall (λ t, a + 4 ≤ t ∨ t + 4096 ≤ a) [pml4 s; pdpt s; pd s])
    [mb2_magic s; mb2_info s];
}.

Lemma field_bits x lo w : 0 ≤ lo → 0 ≤ w → 0 ≤ field x lo w < 2 ^ w.
Proof. intros. by apply wrap_fits. Qed.

(** A page table entry: a page-aligned address with flags. *)
Lemma pointer_entry t : t `mod` 4096 = 0 → 0 ≤ t < 2 ^ 32 →
  Z.lor t 3 = t + 3 ∧ Z.testbit (t + 3) 0 = true ∧ Z.testbit (t + 3) 7 = false ∧ entry_address (t + 3) 12 = t.
Proof.
  intros Ha Ht. assert (∃ k, t = k * 2 ^ 12) as [k ->] by (exists (t / 4096); pose proof (Z.div_mod t 4096); lia).
  split_and!.
  - rewrite <- (lor_shiftl_add k 12 3), Z.shiftl_mul_pow2 by lia. done.
  - rewrite <- (Z.mod_pow2_bits_low _ 12) by lia. fold (wrap 12 (k * 2 ^ 12 + 3)). by rewrite wrap_field by lia.
  - rewrite <- (Z.mod_pow2_bits_low _ 12) by lia. fold (wrap 12 (k * 2 ^ 12 + 3)). by rewrite wrap_field by lia.
  - unfold entry_address, field. rewrite shiftr_field by lia. rewrite wrap_id by (unfold fits; lia).
    by rewrite Z.shiftl_mul_pow2 by lia.
Qed.

(** A large page at [k * 2 ^ w], with the flags 0x83. *)
Lemma large_entry w k : 12 ≤ w ≤ 52 → 0 ≤ k < 2 ^ (52 - w) →
  Z.testbit (0x83 + k * 2 ^ w) 0 = true ∧ Z.testbit (0x83 + k * 2 ^ w) 7 = true ∧
  entry_address (0x83 + k * 2 ^ w) w = k * 2 ^ w.
Proof.
  intros Hw Hk. rewrite (Z.add_comm 0x83). assert (0 ≤ 0x83 < 2 ^ w) as Hlow.
  { split; [done|]. pose proof (Z.pow_le_mono_r 2 12 w). lia. }
  split_and!.
  - rewrite <- (Z.mod_pow2_bits_low _ w) by lia. fold (wrap w (k * 2 ^ w + 0x83)). by rewrite wrap_field by lia.
  - rewrite <- (Z.mod_pow2_bits_low _ w) by lia. fold (wrap w (k * 2 ^ w + 0x83)). by rewrite wrap_field by lia.
  - unfold entry_address, field. rewrite shiftr_field by lia. rewrite wrap_id by done.
    by rewrite Z.shiftl_mul_pow2 by lia.
Qed.

Lemma split_field va w : 0 ≤ w → Z.shiftr va w * 2 ^ w + field va 0 w = va.
Proof.
  intros. unfold field, wrap. rewrite Z.shiftr_0_r, Z.shiftr_div_pow2 by done.
  pose proof (Z.div_mod va (2 ^ w)). pose proof (pow2_pos w). lia.
Qed.

(** The tables map the addresses below 1 GiB to themselves and nothing else
    below 512 GiB. *)
Record identity_tables (s : Symbols) (m : memory) : Prop := {
  top_entry : table_entry m (pml4 s) 0 = pdpt s + 3;
  second_entry : table_entry m (pdpt s) 0 = pd s + 3;
  second_rest j : 0 < j < 512 → table_entry m (pdpt s) j = 0;
  large_pages j : 0 ≤ j < 512 → table_entry m (pd s) j = pd_entry j;
}.

Lemma top_index va : 0 ≤ va < 2 ^ 39 → field va 39 9 = 0.
Proof. intros. unfold field. rewrite Z.shiftr_div_pow2, Z.div_small by lia. done. Qed.
Lemma second_index va : 0 ≤ va < 2 ^ 39 → field va 30 9 = Z.shiftr va 30.
Proof.
  intros. unfold field. apply wrap_id. unfold fits. rewrite Z.shiftr_div_pow2 by lia. split.
  - apply Z.div_pos; lia.
  - apply Z.div_lt_upper_bound; lia.
Qed.

Lemma testbit_zero k : Z.testbit 0 k = false.
Proof. apply Z.bits_0. Qed.

Lemma walk_step level m t va e : table_entry m t (field va (12 + 9 * Z.of_nat level) 9) = e →
  Z.testbit e 0 = true → Z.testbit e 7 = false → walk (S level) m t va = walk level m (entry_address e 12) va.
Proof. intros He H0 H7. cbn [walk]. by rewrite He, H0, H7. Qed.
Lemma walk_large level m t va e : table_entry m t (field va (12 + 9 * Z.of_nat level) 9) = e →
  (level = 1 ∨ level = 2)%nat → Z.testbit e 0 = true → Z.testbit e 7 = true →
  walk (S level) m t va = Some (entry_address e (12 + 9 * Z.of_nat level) + field va 0 (12 + 9 * Z.of_nat level)).
Proof. intros He Hl H0 H7. cbn [walk]. by rewrite He, H0, H7, bool_decide_eq_true_2 by done. Qed.
Lemma walk_absent level m t va : Z.testbit (table_entry m t (field va (12 + 9 * Z.of_nat level) 9)) 0 = false →
  walk (S level) m t va = None.
Proof. intros H0. cbn [walk]. by rewrite H0. Qed.

(** The walk down to the second table. *)
Lemma translate_second s m va : symbols_ok s → table_entry m (pml4 s) 0 = pdpt s + 3 → 0 ≤ va < 2 ^ 39 →
  translate m (pml4 s) va = walk 3 m (pdpt s) va.
Proof.
  intros [Hp _ _] Ht Hva. apply Forall_cons in Hp as [_ [[Ha Hr] _]%Forall_cons].
  destruct (pointer_entry (pdpt s) Ha Hr) as (_ & H0 & H7 & He).
  unfold translate. rewrite (walk_step 3 m (pml4 s) va (pdpt s + 3)); [by rewrite He| |done..].
  change (12 + 9 * Z.of_nat 3) with 39. by rewrite top_index.
Qed.

Lemma identity_translate s m va : symbols_ok s → identity_tables s m → 0 ≤ va < 2 ^ 39 →
  translate m (pml4 s) va = if decide (va < 2 ^ 30) then Some va else None.
Proof.
  intros Hs [T1 T2 T3 T4] Hva. rewrite (translate_second s) by done.
  pose proof (second_index va Hva) as Hi. assert (0 ≤ Z.shiftr va 30) as Hpos by (apply Z.shiftr_nonneg; lia).
  pose proof (field_bits va 0 30) as Hlow. pose proof (split_field va 30) as Hsplit.
  pose proof (field_bits va 30 9) as Hlt.
  case_decide as Hb.
  - assert (field va 30 9 = 0) as E0 by lia.
    destruct Hs as [Hp _ _]. apply Forall_cons in Hp as [_ [_ [[Ha Hr] _]%Forall_cons]%Forall_cons].
    destruct (pointer_entry (pd s) Ha Hr) as (_ & H0 & H7 & He).
    rewrite (walk_step 2 m (pdpt s) va (pd s + 3)); [|by change (12 + 9 * Z.of_nat 2) with 30; rewrite E0|done..].
    rewrite He. pose proof (field_bits va 21 9) as Hj.
    destruct (large_entry 21 (field va 21 9)) as (L0 & L7 & LA); [lia|lia|].
    rewrite (walk_large 1 m (pd s) va (pd_entry (field va 21 9)));
      [|change (12 + 9 * Z.of_nat 1) with 21; apply T4; lia|by left|exact L0|exact L7].
    change (12 + 9 * Z.of_nat 1) with 21. unfold pd_entry. change 0x200000 with (2 ^ 21). rewrite LA.
    f_equal. rewrite <- (split_field va 21) at 3 by lia. do 2 f_equal.
    unfold field. rewrite wrap_id; [done|]. unfold fits. rewrite Z.shiftr_div_pow2 by lia.
    split; [apply Z.div_pos; lia|apply Z.div_lt_upper_bound; lia].
  - apply walk_absent. change (12 + 9 * Z.of_nat 2) with 30. rewrite T3; [apply testbit_zero|lia].
Qed.

(** The loader clears the tables (they lie in .bss). *)
Definition cleared (m : memory) (a : Z) : Prop := ∀ x, a ≤ x < a + 4096 → read8 m x = 0.
Lemma cleared_entry m a j : cleared m a → 0 ≤ j < 512 → table_entry m a j = 0.
Proof.
  intros Hc Hj. unfold table_entry. rewrite (read64_same ∅); [done|]. intros x Hx. apply Hc. lia.
Qed.

Lemma cleared_same m m' a : cleared m a → same_bytes a (a + 4096) m m' → cleared m' a.
Proof. intros Hc Hs x Hx. rewrite Hs by done. by apply Hc. Qed.

(** Writing a 32-bit entry into a cleared table. *)
Lemma first_entry m a v : cleared m a → fits 32 v →
  table_entry (write32 m a v) a 0 = v ∧ ∀ j, 0 < j < 512 → table_entry (write32 m a v) a j = 0.
Proof.
  intros Hc Hv. split.
  - unfold table_entry. rewrite Z.mul_0_r, Z.add_0_r. rewrite <- (write32_pair m a v) at 2 by done.
    apply read64_same. intros x Hx. unfold write32. rewrite (read8_write_bytes _ (a + 4)), length_to_le.
    case_decide; [|done]. rewrite read8_write_bytes, length_to_le, decide_False by lia.
    rewrite Hc by lia. set (i := Z.to_nat (x - (a + 4))). assert (i < 4)%nat by lia.
    do 4 (destruct i as [|i]; [done|]). lia.
  - intros j Hj. rewrite <- (cleared_entry m a j) by (done || lia).
    apply read64_same, write32_same. lia.
Qed.

Lemma page_tables_spec s m : symbols_ok s → cleared m (pml4 s) → cleared m (pdpt s) →
  ∃ m', page_tables s m = Some m' ∧ identity_tables s m'.
Proof.
  intros [Hp Hd _] C1 C2.
  apply Forall_cons in Hp as [[A1 R1] [[A2 R2] [[A3 R3] _]%Forall_cons]%Forall_cons].
  apply NoDup_cons in Hd as [N1 [N2 _]%NoDup_cons].
  assert (∀ a b, a ≠ b → a `mod` 4096 = 0 → b `mod` 4096 = 0 → a + 4096 ≤ b ∨ b + 4096 ≤ a) as Hapart.
  { intros a b. pose proof (Z.div_mod a 4096). pose proof (Z.div_mod b 4096). lia. }
  destruct (Hapart (pml4 s) (pdpt s)) as [|]; [set_solver|done|done|..];
  (destruct (Hapart (pml4 s) (pd s)) as [|]; [set_solver|done|done|..]);
  (destruct (Hapart (pdpt s) (pd s)) as [|]; [set_solver|done|done|..]).
  all: try lia.
  all: unfold page_tables.
  all: destruct (pointer_entry (pdpt s) A2 R2) as (-> & _); destruct (pointer_entry (pd s) A3 R3) as (-> & _).
  all: set (m1 := write32 m (pml4 s) (pdpt s + 3)); set (m2 := write32 m1 (pdpt s) (pd s + 3)).
  all: assert (fits 32 (pdpt s + 3) ∧ fits 32 (pd s + 3)) as [F1 F2]
    by (split; unfold fits; pose proof (Z.div_mod (pdpt s) 4096); pose proof (Z.div_mod (pd s) 4096); lia).
  all: destruct (first_entry m (pml4 s) (pdpt s + 3) C1 F1) as [E1 _]; fold m1 in E1.
  all: assert (cleared m1 (pdpt s)) as C2' by (apply (cleared_same m); [done|apply write32_same; lia]).
  all: destruct (first_entry m1 (pdpt s) (pd s + 3) C2' F2) as [E2 E2']; fold m2 in E2, E2'.
  all: destruct (fill_pd_spec s 512 0 m2) as (m' & Hf & He & Hs); [lia..|].
  all: exists m'; split; [exact Hf|].
  all: split; [| |intros j Hj|exact He].
  all: try (rewrite <- E2; apply read64_same, Hs; lia).
  all: try (rewrite <- (E2' j Hj); apply read64_same, Hs; lia).
  all: rewrite <- E1; apply read64_same, (same_bytes_trans _ _ m1 m2); [apply write32_same; lia|apply Hs; lia].
Qed.

Lemma gigabyte_mask phys : 0 ≤ phys < 2 ^ 39 →
  Z.lor (Z.land phys 0xFFFFFFFFC0000000) 0x83 = 0x83 + Z.shiftr phys 30 * 2 ^ 30.
Proof.
  intros Hp. change 0xFFFFFFFFC0000000 with (Z.shiftl (Z.ones 34) 30).
  rewrite land_high, lor_shiftl_add by (done || lia). lia.
Qed.
Lemma gigabyte_index phys : 0 ≤ phys < 2 ^ 39 → Z.land (Z.shiftr phys 30) 0x1FF = Z.shiftr phys 30.
Proof.
  intros Hp. change 0x1FF with (Z.ones 9). rewrite Z.land_ones by done. apply Z.mod_small.
  rewrite Z.shiftr_div_pow2 by lia. split; [apply Z.div_pos; lia|apply Z.div_lt_upper_bound; lia].
Qed.

(** A large page of 1 GiB in the second table. *)
Lemma translate_gigabyte s m va : symbols_ok s → table_entry m (pml4 s) 0 = pdpt s + 3 → 0 ≤ va < 2 ^ 39 →
  table_entry m (pdpt s) (Z.shiftr va 30) = 0x83 + Z.shiftr va 30 * 2 ^ 30 → translate m (pml4 s) va = Some va.
Proof.
  intros Hs Ht Hva He. rewrite (translate_second s) by done.
  assert (0 ≤ Z.shiftr va 30 < 2 ^ 22) as Hk.
  { rewrite <- second_index by done. pose proof (field_bits va 30 9). lia. }
  destruct (large_entry 30 (Z.shiftr va 30)) as (L0 & L7 & LA); [lia|exact Hk|].
  rewrite (walk_large 2 m (pdpt s) va (0x83 + Z.shiftr va 30 * 2 ^ 30));
    [|change (12 + 9 * Z.of_nat 2) with 30; by rewrite second_index|by right|exact L0|exact L7].
  change (12 + 9 * Z.of_nat 2) with 30. rewrite LA. f_equal. by apply split_field.
Qed.

(** The walk below the second table reads only the tables of [s]. *)
Lemma translate_same s m m' va : symbols_ok s → identity_tables s m → 0 ≤ va < 2 ^ 39 →
  table_entry m' (pml4 s) 0 = table_entry m (pml4 s) 0 →
  table_entry m' (pdpt s) (Z.shiftr va 30) = table_entry m (pdpt s) (Z.shiftr va 30) →
  (∀ j, 0 ≤ j < 512 → table_entry m' (pd s) j = table_entry m (pd s) j) →
  translate m' (pml4 s) va = translate m (pml4 s) va.
Proof.
  intros Hs I Hva E1 E2 E3. pose proof I as [T1 T2 T3 T4].
  rewrite !(translate_second s) by (done || congruence).
  cbn [walk]. change (12 + 9 * Z.of_nat 2) with 30. rewrite second_index, E2 by done.
  assert (0 ≤ Z.shiftr va 30 < 2 ^ 9) as Hk by (rewrite <- second_index by done; by apply field_bits).
  destruct (decide (Z.shiftr va 30 = 0)) as [->|]; [|by rewrite T3 by lia].
  rewrite T2. destruct Hs as [Hp _ _].
  apply Forall_cons in Hp as [_ [_ [[Ha Hr] _]%Forall_cons]%Forall_cons].
  destruct (pointer_entry (pd s) Ha Hr) as (_ & H0 & H7 & He). rewrite H0, H7, He. cbn [negb andb].
  change (12 + 9 * Z.of_nat 1) with 21. pose proof (field_bits va 21 9) as Hj. rewrite E3 by (apply Hj; lia).
  rewrite T4 by (apply Hj; lia).
  destruct (large_entry 21 (field va 21 9)) as (L0 & L7 & LA); [lia|lia|].
  unfold pd_entry. change 0x200000 with (2 ^ 21). by rewrite L0, L7.
Qed.

Lemma map_1gb_translate s m phys va : symbols_ok s → identity_tables s m → 2 ^ 30 ≤ phys < 2 ^ 39 →
  0 ≤ va < 2 ^ 39 →
  translate (write64 m (pdpt s + 8 * Z.land (Z.shiftr phys 30) 0x1FF)
    (Z.lor (Z.land phys 0xFFFFFFFFC0000000) 0x83)) (pml4 s) va =
  if decide (va < 2 ^ 30 ∨ Z.shiftr va 30 = Z.shiftr phys 30) then Some va else None.
Proof.
  intros Hs I Hp Hva. rewrite gigabyte_mask, gigabyte_index by lia.
  set (q := Z.shiftr phys 30). assert (1 ≤ q < 512) as Hq.
  { unfold q. rewrite Z.shiftr_div_pow2 by lia. split; [apply Z.div_le_lower_bound; lia|apply Z.div_lt_upper_bound; lia]. }
  set (m' := write64 m _ _). pose proof I as [T1 T2 T3 T4].
  assert (∀ a, a + 8 ≤ pdpt s + 8 * q ∨ pdpt s + 8 * q + 8 ≤ a → read64 m' a = read64 m a) as Hsame.
  { intros a Ha. apply read64_same, write64_same. lia. }
  pose proof Hs as [Hpg Hd _].
  apply Forall_cons in Hpg as [[A1 R1] [[A2 R2] [[A3 R3] _]%Forall_cons]%Forall_cons].
  apply NoDup_cons in Hd as [N1 [N2 _]%NoDup_cons].
  assert (pml4 s ≠ pdpt s ∧ pdpt s ≠ pd s) as [D1 D2] by set_solver.
  pose proof (Z.div_mod (pml4 s) 4096). pose proof (Z.div_mod (pdpt s) 4096). pose proof (Z.div_mod (pd s) 4096).
  assert (table_entry m' (pml4 s) 0 = table_entry m (pml4 s) 0) as E1 by (apply Hsame; lia).
  destruct (decide (Z.shiftr va 30 = q)) as [Eq|Nq].
  - rewrite decide_True by (by right). apply (translate_gigabyte s); [done|by rewrite E1|done|].
    rewrite Eq. unfold table_entry, m'. rewrite read64_write64. apply wrap_id. unfold fits. lia.
  - rewrite (translate_same s m) by (done || (apply Hsame; lia) || (intros j Hj; apply Hsame; lia)).
    rewrite (identity_translate s) by done. apply decide_ext. tauto.
Qed.

(** C36: paging.  If the loader has cleared the page tables and the processor
    has long mode, [_start] reaches 64-bit mode with paging on, and from then
    on every address below 1 GiB is translated to itself and every other one up
    to 512 GiB faults; that is the identity mapping the kernel takes for granted
    whenever it uses an address as a pointer or gives it to a device.
    [map_1gb_page] adds the GiB around an address and changes no other
    translation. *)
Theorem boot_identity_map s p eax ebx c m :
  symbols_ok s → has_long_mode p = true → cleared m (pml4 s) → cleared m (pdpt s) →
  ∃ c' m', boot s p eax ebx c m = Some (c', m') ∧
    Z.testbit (CR0 c') 0 = true ∧ Z.testbit (CR0 c') 31 = true ∧ Z.testbit (CR4 c') 5 = true ∧
    Z.testbit (EFER c') 8 = true ∧
    (∀ va, 0 ≤ va < 2 ^ 39 → translate m' (CR3 c') va = if decide (va < 2 ^ 30) then Some va else None) ∧
    ∀ phys i, 2 ^ 30 ≤ phys < 2 ^ 39 → video i = m' →
      wp (map_1gb_page (pdpt s) phys) (λ _ i', ∀ va, 0 ≤ va < 2 ^ 39 →
        translate (video i') (CR3 c') va =
          if decide (va < 2 ^ 30 ∨ Z.shiftr va 30 = Z.shiftr phys 30) then Some va else None) i.
Proof.
  intros Hs Hp C1 C2. unfold boot. rewrite Hp. cbn [negb].
  set (m0 := write32 (write32 m (mb2_magic s) eax) (mb2_info s) ebx).
  assert (∀ a, a ∈ [pml4 s; pdpt s; pd s] → same_bytes a (a + 4096) m m0) as Hm0.
  { intros a Ha. destruct Hs as [_ _ Hi]. apply Forall_cons in Hi as [[_ H1] [[_ H2] _]%Forall_cons].
    rewrite Forall_forall in H1, H2. specialize (H1 a Ha). specialize (H2 a Ha).
    eapply same_bytes_trans; apply write32_same; lia. }
  destruct (page_tables_spec s m0 Hs) as (m' & -> & I).
  { apply (cleared_same m); [done|apply Hm0; set_solver]. }
  { apply (cleared_same m); [done|apply Hm0; set_solver]. }
  eexists _, m'. split; [done|]. cbn [CR0 CR3 CR4 EFER].
  rewrite !Z.lor_spec. split_and!; try apply orb_true_r.
  - intros va Hva. by apply identity_translate.
  - intros phys i Hphys Hi. apply wp_modify. intros va Hva. cbn [video set_video]. rewrite Hi.
    by apply map_1gb_translate.
Qed.

Definition example_symbols : Symbols := mkSymbols 0x101000 0x102000 0x103000 0x104000 0x104004.
Lemma example_symbols_ok : symbols_ok example_symbols.
Proof. split; apply (bool_decide_unpack _); by vm_compute. Qed.
Definition example_processor : Processor :=
  mkProcessor true (λ _, 0x80000008) (λ _, Z.shiftl 1 29).

Lemma boot_identity_map_witness :
  ∃ c m, boot example_symbols example_processor 0x36D76289 0x9500 (mkControl 0x11 0 0 0) ∅ = Some (c, m) ∧
    translate m (CR3 c) 0xB8000 = Some 0xB8000 ∧ translate m (CR3 c) 0x40000000 = None.
Proof.
  destruct (boot_identity_map example_symbols example_processor 0x36D76289 0x9500 (mkControl 0x11 0 0 0) ∅
    example_symbols_ok) as (c & m & Hb & _ & _ & _ & _ & Ht & _).
  - by vm_compute.
  - by intros x _.
  - by intros x _.
  - exists c, m. split; [exact Hb|]. split; (rewrite Ht; [done|lia]).
Defined.
