(* ===== verification/Descriptors.v ===== *)
(** * Descriptor tables (src/src/gdt.rs, src/src/idt.rs)

    The entries as the code fills them in, their bytes in memory, and what the
    processor reads out of these bytes. *)
From S2P Require Import Prelude Words Boot.
Local Open Scope Z_scope.
Local Open Scope list_scope.

(** ** gdt.rs *)

Definition ACCESS_CODE : Z := 0x9A.
Definition ACCESS_DATA : Z := 0x92.
Definition GRAN_4K_64 : Z := 0xAF.
Definition GRAN_DATA : Z := 0xCF.

Record GdtEntry := mkGdtEntry {
  limit_low : Z; base_low : Z; base_middle : Z; access : Z; granularity : Z; base_high : Z }.
Definition null : GdtEntry := mkGdtEntry 0 0 0 0 0 0.
Definition new (base limit access granularity : Z) : GdtEntry :=
  mkGdtEntry (wrap 16 limit) (wrap 16 base) (wrap 8 (Z.shiftr base 16)) access granularity
    (wrap 8 (Z.shiftr base 24)).

(** The bytes of a [repr(C)] entry; its fields need no padding. *)
Definition entry_bytes (e : GdtEntry) : list Z :=
  to_le 2 (limit_low e) ++ to_le 2 (base_low e) ++ [base_middle e; access e; granularity e; base_high e].

Record TaskStateSegment := mkTss { rsp0 : Z; ist1 : Z; io_map_base : Z }.
(** The other fields of the structure are 0. *)
Definition tss_bytes (t : TaskStateSegment) : list Z :=
  to_le 4 0 ++ to_le 8 (rsp0 t) ++ to_le 8 0 ++ to_le 8 0 ++ to_le 8 0 ++ to_le 8 (ist1 t) ++
  concat (replicate 6 (to_le 8 0)) ++ to_le 8 0 ++ to_le 2 0 ++ to_le 2 (io_map_base t).
Definition TSS_SIZE : Z := 104.
Definition TSS : TaskStateSegment := mkTss 0 0 TSS_SIZE.

Record TssDescriptor := mkTssDescriptor {
  tss_entry : GdtEntry; base_upper : Z; reserved : Z }.
(** [tss]: the address of the segment. *)
Definition from_tss (tss : Z) : TssDescriptor :=
  mkTssDescriptor (mkGdtEntry (wrap 16 (TSS_SIZE - 1)) (wrap 16 tss) (wrap 8 (Z.shiftr tss 16)) 0x89 0x00
    (wrap 8 (Z.shiftr tss 24))) (wrap 32 (Z.shiftr tss 32)) 0.
Definition tss_descriptor_bytes (d : TssDescriptor) : list Z :=
  entry_bytes (tss_entry d) ++ to_le 4 (base_upper d) ++ to_le 4 (reserved d).

Record GdtStruct := mkGdt { entries : list GdtEntry; tss : TssDescriptor }.
Definition GDT : GdtStruct :=
  mkGdt [null; new 0 0 ACCESS_CODE GRAN_4K_64; new 0 0 ACCESS_DATA GRAN_DATA;
         new 0 0 0xFA GRAN_4K_64; new 0 0 0xF2 GRAN_DATA] (mkTssDescriptor null 0 0).
Definition gdt_bytes (g : GdtStruct) : list Z :=
  concat (entry_bytes <$> entries g) ++ tss_descriptor_bytes (tss g).

Definition KERNEL_CODE_SELECTOR : Z := 0x08.
Definition KERNEL_DATA_SELECTOR : Z := 0x10.
Definition TSS_SELECTOR : Z := 0x28.

(** A [GdtPointer] or [IdtPointer]: limit and base. *)
Record TablePointer := mkPointer { limit : Z; base : Z }.

(** What [lgdt], [reload_segments] and [ltr] leave in the processor. *)
Record Segments := mkSegments { gdtr : TablePointer; code_selector : Z; data_selector : Z; task_register : Z }.

(** [gdt::init], given the addresses of the two statics and the stack; the
    statics it leaves and what it loads. *)
Definition gdt_init (tss_address gdt_address df_stack_top : Z) : TaskStateSegment * GdtStruct * Segments :=
  let TSS := mkTss df_stack_top df_stack_top (io_map_base TSS) in
  let GDT := mkGdt (entries GDT) (from_tss tss_address) in
  let ptr := mkPointer (wrap 16 (Z.of_nat (length (gdt_bytes GDT)) - 1)) gdt_address in
  (TSS, GDT, mkSegments ptr 0x08 0x10 0x28).

(** ** idt.rs *)

Record IdtEntry := mkIdtEntry {
  offset_low : Z; selector : Z; ist : Z; type_attr : Z; offset_mid : Z; offset_high : Z; idt_reserved : Z }.
Definition zeroed : IdtEntry := mkIdtEntry 0 0 0 0 0 0 0.
Definition set_handler_addr (handler : Z) : IdtEntry :=
  mkIdtEntry (wrap 16 handler) KERNEL_CODE_SELECTOR 0 0x8E (wrap 16 (Z.shiftr handler 16))
    (wrap 32 (Z.shiftr handler 32)) 0.
Definition gate_bytes (e : IdtEntry) : list Z :=
  to_le 2 (offset_low e) ++ to_le 2 (selector e) ++ [ist e; type_attr e] ++ to_le 2 (offset_mid e) ++
  to_le 4 (offset_high e) ++ to_le 4 (idt_reserved e).

Definition IDT_LEN : nat := 256.

(** The vectors [init] fills, with the stub of each. *)
Inductive stub := isr0 | isr6 | isr8 | isr13 | isr14 | irq0 | irq1 | irq12.
Definition handlers : list (nat * stub) :=
  [(0, isr0); (6, isr6); (8, isr8); (13, isr13); (14, isr14); (32, irq0); (33, irq1); (44, irq12)]%nat.

(** [idt::init], given the address of each stub and of the table. *)
Definition idt_init (address : stub → Z) (idt_address : Z) : list IdtEntry * TablePointer :=
  let idt := foldl (λ t '(v, h), <[v := set_handler_addr (address h)]> t) (replicate IDT_LEN zeroed) handlers in
  (idt, mkPointer (wrap 16 (16 * Z.of_nat IDT_LEN - 1)) idt_address).

(** ** What the processor reads *)

Definition word (a n : nat) (l : list Z) : Z := from_le (take n (drop a l)).

(** A segment descriptor at [at_] in the table. *)
Definition segment_base (at_ : nat) (t : list Z) : Z :=
  word (at_ + 2) 2 t + Z.shiftl (word (at_ + 4) 1 t) 16 + Z.shiftl (word (at_ + 7) 1 t) 24.
Definition segment_access (at_ : nat) (t : list Z) : Z := word (at_ + 5) 1 t.
Definition segment_flags (at_ : nat) (t : list Z) : Z := field (word (at_ + 6) 1 t) 4 4.
(** A system descriptor of 16 bytes. *)
Definition system_base (at_ : nat) (t : list Z) : Z :=
  segment_base at_ t + Z.shiftl (word (at_ + 8) 4 t) 32.
Definition system_limit (at_ : nat) (t : list Z) : Z :=
  word at_ 2 t + Z.shiftl (field (word (at_ + 6) 1 t) 0 4) 16.

(** A descriptor lies within the limit of its table. *)
Definition within (p : TablePointer) (at_ size : Z) : Prop := at_ + size - 1 ≤ limit p.

Record Gate := mkGate { target : Z; gate_selector : Z; gate_ist : Z; gate_type : Z; gate_dpl : Z }.
(** The gate of a vector; [None] if it is marked not present. *)
Definition read_gate (vector : nat) (idt : list Z) : option Gate :=
  let g := take 16 (drop (16 * vector) idt) in
  if negb (Z.testbit (word 5 1 g) 7) then None else
  Some (mkGate (word 0 2 g + Z.shiftl (word 6 2 g) 16 + Z.shiftl (word 8 4 g) 32)
    (word 2 2 g) (field (word 4 1 g) 0 3) (field (word 5 1 g) 0 4) (field (word 5 1 g) 5 2)).

(** ** Proofs *)

Lemma wrap_split v w x : 0 ≤ v → 0 ≤ w → wrap v x + Z.shiftl (wrap w (Z.shiftr x v)) v = wrap (v + w) x.
Proof.
  intros Hv Hw. unfold wrap. rewrite Z.shiftl_mul_pow2, Z.shiftr_div_pow2, Z.pow_add_r by done.
  rewrite Z.rem_mul_r; [lia|..]; apply pow2_pos in Hv, Hw; lia.
Qed.

Lemma from_le_to_le n z w : w = 8 * Z.of_nat n → from_le (to_le n (wrap w z)) = wrap w z.
Proof. intros ->. by rewrite from_to_le, wrap_wrap. Qed.

Lemma base_split x : fits 64 x →
  wrap 16 x + Z.shiftl (wrap 8 (Z.shiftr x 16)) 16 + Z.shiftl (wrap 8 (Z.shiftr x 24)) 24 +
    Z.shiftl (wrap 32 (Z.shiftr x 32)) 32 = x.
Proof.
  intros Hx. rewrite (wrap_split 16 8), (wrap_split 24 8), (wrap_split 32 32) by done. by apply wrap_id.
Qed.

Lemma offset_split x : fits 64 x →
  wrap 16 x + Z.shiftl (wrap 16 (Z.shiftr x 16)) 16 + Z.shiftl (wrap 32 (Z.shiftr x 32)) 32 = x.
Proof. intros Hx. rewrite (wrap_split 16 16), (wrap_split 32 32) by done. by apply wrap_id. Qed.

Lemma length_entry_bytes e : length (entry_bytes e) = 8%nat.
Proof. done. Qed.
Lemma length_gate_bytes e : length (gate_bytes e) = 16%nat.
Proof. done. Qed.

(** The gate of an entry that [set_handler_addr] filled. *)
Lemma gate_decodes x : fits 64 x →
  read_gate 0 (gate_bytes (set_handler_addr x)) = Some (mkGate x 0x08 0 14 0).
Proof.
  intros Hx. unfold read_gate, word, gate_bytes, set_handler_addr. cbn [offset_low selector ist type_attr offset_mid offset_high idt_reserved].
  set (a := wrap 16 x). set (b := wrap 16 (Z.shiftr x 16)). set (c := wrap 32 (Z.shiftr x 32)).
  change (16 * 0)%nat with 0%nat. cbn [drop take app to_le].
  change [wrap 8 a; wrap 8 (Z.shiftr a 8)] with (to_le 2 a).
  change [wrap 8 b; wrap 8 (Z.shiftr b 8)] with (to_le 2 b).
  change [wrap 8 c; wrap 8 (Z.shiftr c 8); wrap 8 (Z.shiftr (Z.shiftr c 8) 8);
    wrap 8 (Z.shiftr (Z.shiftr (Z.shiftr c 8) 8) 8)] with (to_le 4 c).
  unfold a, b, c. rewrite !from_le_to_le by done. rewrite offset_split by done. by vm_compute.
Qed.

Lemma read_gate_entry v t (e : IdtEntry) : t !! v = Some e →
  read_gate v (concat (gate_bytes <$> t)) = read_gate 0 (gate_bytes e).
Proof.
  revert v. induction t as [|e' t IH]; intros v Hv; [done|]. cbn [fmap list_fmap concat].
  destruct v as [|v].
  - injection Hv as ->. unfold read_gate. rewrite Nat.mul_0_r, !drop_0.
    rewrite take_app_le by done. done.
  - rewrite <- (IH v Hv). unfold read_gate. do 2 f_equal.
    replace (16 * S v)%nat with (length (gate_bytes e') + 16 * v)%nat by (rewrite length_gate_bytes; lia).
    by rewrite drop_app_add.
Qed.

Lemma foldl_inserts {A B} (f : A → B) (l : list (nat * A)) t i :
  NoDup l.*1 → Forall (λ x, (x.1 < length t)%nat) l →
  foldl (λ t '(v, h), <[v := f h]> t) t l !! i =
  match (list_to_map l : gmap nat A) !! i with Some h => Some (f h) | None => t !! i end.
Proof.
  revert t. induction l as [|[v h] l IH]; intros t Hd Hl; [done|]. cbn [foldl fmap list_fmap fst] in *.
  apply NoDup_cons in Hd as [Hv Hd]. apply Forall_cons in Hl as [Hlt Hl]. cbn [fst] in Hlt.
  rewrite IH; [|done|by rewrite length_insert]. cbn [list_to_map foldr uncurry].
  destruct (decide (i = v)) as [->|Hne].
  - rewrite lookup_insert_eq. rewrite not_elem_of_list_to_map_1 by done. by apply list_lookup_insert_eq.
  - rewrite lookup_insert_ne by done. by rewrite list_lookup_insert_ne by done.
Qed.

(** The stub of a vector. *)
Definition handler_of (v : nat) : option stub := (list_to_map handlers : gmap nat stub) !! v.

Lemma idt_lookup address idt_address v : (v < IDT_LEN)%nat →
  (idt_init address idt_address).1 !! v =
  Some (match handler_of v with Some h => set_handler_addr (address h) | None => zeroed end).
Proof.
  intros Hv. unfold idt_init. cbn [fst]. rewrite (foldl_inserts (λ h, set_handler_addr (address h))).
  - fold (handler_of v). destruct (handler_of v); [done|]. by apply lookup_replicate_2.
  - apply (bool_decide_unpack _). by vm_compute.
  - rewrite length_replicate. apply (bool_decide_unpack _). by vm_compute.
Qed.

Lemma idt_gates address idt_address v : (∀ h, fits 64 (address h)) → (v < IDT_LEN)%nat →
  read_gate v (concat (gate_bytes <$> (idt_init address idt_address).1)) =
  (λ h, mkGate (address h) KERNEL_CODE_SELECTOR 0 14 0) <$> handler_of v.
Proof.
  intros Ha Hv. rewrite (read_gate_entry v _ _ (idt_lookup address idt_address v Hv)).
  destruct (handler_of v) as [h|]; cbn [fmap option_fmap option_map]; [by apply gate_decodes|by vm_compute].
Qed.

Lemma tss_decodes a g : fits 64 a → length g = 40%nat →
  system_base 40 (g ++ tss_descriptor_bytes (from_tss a)) = a ∧
  system_limit 40 (g ++ tss_descriptor_bytes (from_tss a)) = TSS_SIZE - 1 ∧
  segment_access 40 (g ++ tss_descriptor_bytes (from_tss a)) = 0x89.
Proof.
  intros Ha Hg. unfold system_base, system_limit, segment_base, segment_access, word.
  rewrite !(drop_app_ge g) by lia. rewrite !Hg.
  unfold tss_descriptor_bytes, entry_bytes, from_tss.
  cbn [tss_entry limit_low base_low base_middle access granularity base_high base_upper reserved Nat.add Nat.sub].
  set (x := wrap 16 a). set (y := wrap 8 (Z.shiftr a 16)). set (z := wrap 8 (Z.shiftr a 24)). set (u := wrap 32 (Z.shiftr a 32)).
  cbn [drop take app to_le].
  change [wrap 8 x; wrap 8 (Z.shiftr x 8)] with (to_le 2 x).
  change [wrap 8 u; wrap 8 (Z.shiftr u 8); wrap 8 (Z.shiftr (Z.shiftr u 8) 8);
    wrap 8 (Z.shiftr (Z.shiftr (Z.shiftr u 8) 8) 8)] with (to_le 4 u).
  split_and!; [|by vm_compute..].
  assert (∀ b, from_le [b] = b) as Hone by (intros b; cbn [from_le]; lia).
  rewrite !Hone. unfold x, y, z, u. rewrite !from_le_to_le by done. by apply base_split.
Qed.

Lemma word_mid pre mid post a n : length pre = a → length mid = n → word a n (pre ++ mid ++ post) = from_le mid.
Proof. intros <- <-. unfold word. by rewrite drop_app_length, take_app_length. Qed.

Lemma from_le_word n x w : w = 8 * Z.of_nat n → fits w x → from_le (to_le n x) = x.
Proof. intros -> Hx. rewrite from_to_le. by apply wrap_id. Qed.


