(* ===== verification/Interrupts.v ===== *)
(** * Interrupts (src/src/interrupts.rs, src/src/timer.rs, src/src/arch.rs)

    Programming the interrupt controllers and the timer, the handlers behind
    the stubs, and the stack trace of the exception handlers.  The two 8259
    controllers and channel 0 of the 8254 are modelled from their data sheets;
    [serve] puts a request through controller, gate and handler. *)
From stdpp Require Import strings.
From S2P Require Import Prelude Words Ring Keyboard Scheduler Hardware Mouse Str Fmt Descriptors.
Local Open Scope Z_scope.
Local Open Scope list_scope.

Definition PIC1_CMD : Z := 0x20.
Definition PIC1_DATA : Z := 0x21.
Definition PIC2_CMD : Z := 0xA0.
Definition PIC2_DATA : Z := 0xA1.
Definition PIC_EOI : Z := 0x20.
Definition PIT_CMD : Z := 0x43.
Definition PIT_DATA : Z := 0x40.
Definition PIT_DIVISOR : Z := 1193.

(** The state the handlers share with the rest of the kernel. *)
Record Irqs (D : Type) := mkIrqs {
  TICKS : Z; tasks : Sched; kbd : Irq.Kbd; mouse : Mouse; device : D }.
Arguments mkIrqs {D}.
Arguments TICKS {D}.
Arguments tasks {D}.
Arguments kbd {D}.
Arguments mouse {D}.
Arguments device {D}.

Section code.
Context {D : Type} `{Ports D}.
Abbreviation M := (ST (Irqs D)).

Definition on_device {A} (m : ST D A) : M A :=
  zoom device (λ d s, mkIrqs (TICKS s) (tasks s) (kbd s) (mouse s) d) m.
Definition on_tasks {A} (m : ST Sched A) : M A :=
  zoom tasks (λ t s, mkIrqs (TICKS s) t (kbd s) (mouse s) (device s)) m.
Definition on_kbd {A} (m : ST Irq.Kbd A) : M A :=
  zoom kbd (λ k s, mkIrqs (TICKS s) (tasks s) k (mouse s) (device s)) m.
Definition on_mouse {A} (m : ST (Mouse * D) A) : M A :=
  zoom (λ s, (mouse s, device s)) (λ x s, mkIrqs (TICKS s) (tasks s) (kbd s) x.1 x.2) m.

Definition init_pic : ST D unit :=
  outb PIC1_CMD 0x11;; outb PIC1_DATA 0x20;; outb PIC1_DATA 0x04;; outb PIC1_DATA 0x01;;
  outb PIC2_CMD 0x11;; outb PIC2_DATA 0x28;; outb PIC2_DATA 0x02;; outb PIC2_DATA 0x01;;
  outb PIC1_DATA 0xFC;; outb PIC2_DATA 0xEF.

Definition eoi (irq : nat) : ST D unit :=
  (if decide (8 ≤ irq)%nat then outb PIC2_CMD PIC_EOI else mret tt);;
  outb PIC1_CMD PIC_EOI.

(** [timer::init] and [timer::tick]. *)
Definition timer_init : ST D unit :=
  outb PIT_CMD 0x36;;
  outb PIT_DATA (wrap 8 (Z.land PIT_DIVISOR 0xFF));;
  outb PIT_DATA (wrap 8 (Z.shiftr PIT_DIVISOR 8)).
Definition tick : M unit :=
  modify (λ s, mkIrqs (wadd 32 (TICKS s) 1) (tasks s) (kbd s) (mouse s) (device s)).

Definition timer_handler (pushad_rsp : Z) : M Z :=
  tick;; new_rsp ← on_tasks (schedule pushad_rsp); on_device (eoi 0);; mret new_rsp.

(** The port accesses of [keyboard::handle_irq]: the data port is read only if
    the byte is from the keyboard. *)
Definition keyboard_irq : M unit :=
  status ← on_device (inb 0x64);
  if decide (Z.land status 0x20 ≠ 0) then mret tt else
  sc ← on_device (inb 0x60); on_kbd (Irq.handle_irq status sc).
Definition keyboard_handler : M unit := keyboard_irq;; on_device (eoi 1).
Definition mouse_handler : M unit := on_mouse Mouse.handle_irq;; on_device (eoi 12).
End code.

(** ** Exceptions

    [load] is memory as the page tables show it: [None] is a page fault.  Each
    handler prints and halts for good. *)
Section exceptions.
Context (load : Z → option Z).

Definition hex64 (x : Z) : str := txt "0x" ++ pad_zero 16 (hex x).

(** [for i in i..16]; [n] rounds are left. *)
Fixpoint trace (n : nat) (i frame : Z) : outcome (list (list str)) :=
  match n with
  | O => mret []
  | S n =>
      if decide (frame = 0) then mret []
      else if decide (frame < 0x100000 ∨ 0x800000000000 < frame ∨ frame `mod` 8 ≠ 0) then
        mret [[txt "  #"; pad_zero 2 (dec i); txt "  <invalid frame "; hex64 frame; txt ">"; [10]]]
      else
        let ret_addr_ptr := wadd 64 frame 8 in
        if decide (frame < 0x100000 ∨ 0x800000000000 < frame ∨ ret_addr_ptr < 0x100000 ∨
          0x800000000000 < ret_addr_ptr) then
          mret [[txt "  #"; pad_zero 2 (dec i); txt "  <invalid pointer>"; [10]]]
        else
          match load ret_addr_ptr, load frame with
          | Some ret_addr, Some next =>
              rest ← trace n (i + 1) next;
              mret ([txt "  #"; pad_zero 2 (dec i); txt "  "; hex64 ret_addr; [10]] :: rest)
          | _, _ => Panic
          end
  end.
Definition print_stack_trace (rbp : Z) : outcome (list (list str)) :=
  body ← trace 16 0 rbp;
  mret ([txt "--- Stack trace ---"; [10]] :: body ++ [[txt "-------------------"; [10]]]).

Definition report (message : list str) (rbp : Z) : outcome (list (list str)) :=
  t ← print_stack_trace rbp; mret (message :: t).
Definition divide_handler : Z → outcome (list (list str)) :=
  report [txt "[E] EXCEPTION: Divide by Zero"; [10]].
Definition invalid_opcode_handler : Z → outcome (list (list str)) :=
  report [txt "[E] EXCEPTION: Invalid Opcode"; [10]].
Definition gpf_handler (error_code : Z) : Z → outcome (list (list str)) :=
  report [txt "[E] EXCEPTION: General Protection Fault (error: 0x"; hex error_code; txt ")"; [10]].
Definition page_fault_handler (cr2 error_code : Z) : Z → outcome (list (list str)) :=
  report [txt "[E] EXCEPTION: Page Fault at "; hex64 cr2; txt " (error: 0x"; hex error_code; txt ")"; [10]].
Definition double_fault_handler : list (list str) := [[txt "[E] EXCEPTION: Double Fault"; [10]]].

(** The trace reads aligned words of the range it checks only, and ends after
    sixteen frames; if that range is mapped, it returns. *)
Lemma trace_returns n i frame :
  (∀ a, 0x100000 ≤ a ≤ 0x800000000000 → a `mod` 8 = 0 → is_Some (load a)) →
  runs (trace n i frame) (λ l, (length l ≤ n)%nat).
Proof.
  intros Hl. revert i frame. induction n as [|n IH]; intros i frame; cbn [trace]; [cbn; lia|].
  destruct (decide (frame = 0)); [cbn; lia|]. destruct (decide (frame < _ ∨ _)) as [|H1]; [cbn; lia|].
  assert (wadd 64 frame 8 = frame + 8) as -> by (unfold wadd; apply wrap_id; unfold fits; lia).
  destruct (decide (frame < _ ∨ _)) as [|H2]; [cbn; lia|].
  destruct (Hl (frame + 8)) as [r ->]; [lia|rewrite Zplus_mod; replace (frame mod 8) with 0 by lia; done|].
  destruct (Hl frame) as [f ->]; [lia..|].
  apply runs_bind. eapply runs_mono; [apply IH|]. intros rest Hr. cbn in *. lia.
Qed.

(** The check lets frames above the mapped memory pass. *)
Lemma trace_can_fault n i frame : (0 < n)%nat → 0x100000 ≤ frame < 0x800000000000 → frame `mod` 8 = 0 →
  load (frame + 8) = None → trace n i frame = Panic.
Proof.
  intros Hn Hf Ha Hl. destruct n as [|n]; [lia|]. cbn [trace].
  assert (frame + 8 ≤ 0x800000000000) as Htop.
  { assert (∃ k, frame = 8 * k) as [k ->] by (exists (frame / 8); pose proof (Z.div_mod frame 8); lia). lia. }
  rewrite !(decide_False (P := frame = 0)), (decide_False (P := _ ∨ _ ∨ _ ≠ _)) by lia.
  assert (wadd 64 frame 8 = frame + 8) as -> by (unfold wadd; apply wrap_id; unfold fits; lia).
  rewrite decide_False by lia. by rewrite Hl.
Qed.
End exceptions.

(** ** The controllers and the timer chip *)

(** An 8259: lines being served and masked as bits, the vector of line 0, and
    the initialisation word expected next (0 when programmed). *)
Record Pic := mkPic { in_service : Z; masked : Z; vector_base : Z; icw : nat }.

Definition pic_command (v : Z) (p : Pic) : Pic :=
  if Z.testbit v 4 then mkPic 0 0 (vector_base p) 2
  else if decide (v = 0x20) then
    mkPic (Z.land (in_service p) (in_service p - 1)) (masked p) (vector_base p) (icw p)
  else p.
Definition pic_data (v : Z) (p : Pic) : Pic :=
  match icw p with
  | 2%nat => mkPic (in_service p) (masked p) (Z.land v 0xF8) 3
  | 3%nat => mkPic (in_service p) (masked p) (vector_base p) 4
  | 4%nat => mkPic (in_service p) (masked p) (vector_base p) 0
  | _ => mkPic (in_service p) v (vector_base p) (icw p)
  end.

(** A request on a line gets through unless it is masked or a line of the same
    or a higher priority is being served. *)
Definition pic_request (line : nat) (p : Pic) : option Pic :=
  if (icw p =? 0)%nat && negb (Z.testbit (masked p) line) &&
     (Z.land (in_service p) (2 ^ (line + 1) - 1) =? 0)
  then Some (mkPic (Z.lor (in_service p) (Z.shiftl 1 line)) (masked p) (vector_base p) (icw p))
  else None.

(** Channel 0 of an 8254: mode, reload value and, in lo/hi access, the low byte
    already written. *)
Record Pit := mkPit { pit_mode : Z; reload : Z; low_byte : option Z }.
Definition pit_command (v : Z) (t : Pit) : Pit :=
  if decide (Z.shiftr v 6 = 0 ∧ Z.land v 0x30 = 0x30) then mkPit (Z.land (Z.shiftr v 1) 7) (reload t) None else t.
Definition pit_data (v : Z) (t : Pit) : Pit :=
  match low_byte t with
  | None => mkPit (pit_mode t) (reload t) (Some v)
  | Some lo => mkPit (pit_mode t) (lo + 256 * v) None
  end.

Record Chips := mkChips { master : Pic; slave : Pic; pit : Pit }.
Definition chips_out (port v : Z) (c : Chips) : Chips :=
  if decide (port = 0x20) then mkChips (pic_command v (master c)) (slave c) (pit c)
  else if decide (port = 0x21) then mkChips (pic_data v (master c)) (slave c) (pit c)
  else if decide (port = 0xA0) then mkChips (master c) (pic_command v (slave c)) (pit c)
  else if decide (port = 0xA1) then mkChips (master c) (pic_data v (slave c)) (pit c)
  else if decide (port = 0x43) then mkChips (master c) (slave c) (pit_command v (pit c))
  else if decide (port = 0x40) then mkChips (master c) (slave c) (pit_data v (pit c))
  else c.

(** The slave is wired to line 2 of the master. *)
Definition interrupt (line : nat) (c : Chips) : option (Z * Chips) :=
  if decide (line < 8)%nat then
    m ← pic_request line (master c); Some (vector_base m + line, mkChips m (slave c) (pit c))
  else
    s ← pic_request (line - 8) (slave c);
    m ← pic_request 2 (master c);
    Some (vector_base s + (line - 8)%nat, mkChips m s (pit c)).

Class InterruptChips (D : Type) `{Ports D} := {
  chips : D → Chips;
  put_chips : Chips → D → D;
  chips_put c d : chips (put_chips c d) = c;
  chips_outb p v d : wp (outb p v) (λ _ d', chips d' = chips_out p v (chips d)) d;
  chips_inb p d : wp (inb p) (λ v d', fits 8 v ∧ chips d' = chips d) d;
}.

(** ** A request served

    The vector of the controller selects the gate, the gate the stub, the stub
    the handler; [sp] is the stack pointer the timer stub passes.  A vector
    without a gate is a panic. *)
Section serve.
Context {D : Type} `{InterruptChips D}.

Definition dispatch (h : stub) (sp : Z) : ST (Irqs D) unit :=
  match h with
  | irq0 => timer_handler sp;; mret tt
  | irq1 => keyboard_handler
  | irq12 => mouse_handler
  | _ => lift Panic
  end.
Definition serve (line : nat) (sp : Z) : ST (Irqs D) (option Z) :=
  d ← gets device;
  match interrupt line (chips d) with
  | None => mret None
  | Some (vector, c) =>
      on_device (modify (put_chips c));;
      match handler_of (Z.to_nat vector) with
      | Some h => dispatch h sp;; mret (Some vector)
      | None => lift Panic
      end
  end.
Fixpoint serve_all (requests : list (nat * Z)) : ST (Irqs D) (list (option Z)) :=
  match requests with
  | [] => mret []
  | (line, sp) :: requests => v ← serve line sp; vs ← serve_all requests; mret (v :: vs)
  end.
Definition set_up : ST (Irqs D) unit := on_device (init_pic;; timer_init).

(** ** Proofs *)

Definition programmed : Chips := mkChips (mkPic 0 0xFC 0x20 0) (mkPic 0 0xEF 0x28 0) (mkPit 3 1193 None).

Lemma set_up_spec s : wp set_up (λ _ s', chips (device s') = programmed ∧ TICKS s' = TICKS s ∧
  tasks s' = tasks s ∧ kbd s' = kbd s ∧ mouse s' = mouse s) s.
Proof.
  unfold set_up, init_pic, timer_init. apply wp_zoom. cbn [device TICKS tasks kbd mouse]. apply wp_bind.
  do 9 (apply wp_bind; eapply wp_mono; [apply chips_outb|intros [] ? ?]).
  eapply wp_mono; [apply chips_outb|intros [] ? ?].
  do 2 (apply wp_bind; eapply wp_mono; [apply chips_outb|intros [] ? ?]).
  eapply wp_mono; [apply chips_outb|intros [] d' Hd].
  split_and!; try done. rewrite Hd. repeat match goal with E : chips ?d = chips_out _ _ _ |- _ => rewrite E; clear E end.
  by destruct (chips (device s)) as [[] [] []].
Qed.

(** Nothing is being served and the lines are masked as programmed. *)
Record quiet (s : Irqs D) : Prop := {
  quiet_chips : chips (device s) = programmed;
  quiet_tasks : inv (tasks s);
  quiet_kbd : IrqProps.wf (kbd s);
  quiet_ticks : fits 32 (TICKS s);
}.

Definition in_service_of (line : nat) : Chips :=
  mkChips (mkPic (Z.shiftl 1 line) 0xFC 0x20 0) (mkPic 0 0xEF 0x28 0) (mkPit 3 1193 None).

Lemma interrupt_programmed line : (line < 16)%nat →
  interrupt line programmed =
    if decide (line < 2)%nat then Some (0x20 + line, in_service_of line) else None.
Proof. intros Hl. do 16 (destruct line as [|line]; [done|]). lia. Qed.

Lemma eoi_spec line d : (line < 2)%nat → chips d = in_service_of line →
  wp (eoi line) (λ _ d', chips d' = programmed) d.
Proof.
  intros Hl Hd. unfold eoi. rewrite decide_False by lia. apply wp_bind, wp_ret.
  eapply wp_mono; [apply chips_outb|]. intros [] d' ->. rewrite Hd.
  destruct line as [|[|]]; [done|done|lia].
Qed.

Lemma timer_handler_spec sp s : inv (tasks s) → IrqProps.wf (kbd s) → chips (device s) = in_service_of 0 →
  wp (timer_handler sp) (λ _ s', quiet s' ∧ TICKS s' = wadd 32 (TICKS s) 1 ∧ mouse s' = mouse s) s.
Proof.
  intros Ht Hk Hd. unfold timer_handler. apply wp_bind, wp_modify, wp_bind, wp_zoom.
  eapply wp_mono; [by apply schedule_wp|]. intros r t [Hinv _]. apply wp_bind, wp_zoom.
  eapply wp_mono; [apply (eoi_spec 0); [lia|exact Hd]|]. intros [] d' Hd'. apply wp_ret. split; [|done]. split; [done..|]. by apply wadd_fits.
Qed.

Lemma keyboard_handler_spec s : fits 32 (TICKS s) → inv (tasks s) → IrqProps.wf (kbd s) → chips (device s) = in_service_of 1 →
  wp keyboard_handler (λ _ s', quiet s' ∧ TICKS s' = TICKS s ∧ mouse s' = mouse s) s.
Proof.
  intros HT Ht Hk Hd. unfold keyboard_handler, keyboard_irq. apply wp_bind, wp_bind, wp_zoom.
  eapply wp_mono; [apply chips_inb|]. intros status d1 [_ E1].
  assert (∀ k d, IrqProps.wf k → chips d = in_service_of 1 → wp (on_device (eoi 1))
    (λ _ s', quiet s' ∧ TICKS s' = TICKS s ∧ mouse s' = mouse s)
    (mkIrqs (TICKS s) (tasks s) k (mouse s) d)) as Hend.
  { intros k d Hk' Hd'. apply wp_zoom. eapply wp_mono; [apply (eoi_spec 1); [lia|exact Hd']|].
    intros [] d' Hd''. by split_and!. }
  destruct (decide (Z.land status 0x20 ≠ 0)) as [Hs|Hs]; [apply wp_ret, Hend; [done|by etrans]|]. apply wp_bind, wp_zoom.
  eapply wp_mono; [apply chips_inb|]. intros sc d2 [Hsc E2]. apply wp_zoom. cbn [kbd device].
  eapply wp_mono; [apply (KeyboardProps.handle_irq_spec status sc (kbd s)); [done|done|by apply dec_stable]|].
  intros [] k (Hk' & _). apply Hend; [done|etrans; [exact E2|by etrans]].
Qed.

Lemma serve_spec line sp s : (line < 16)%nat → quiet s →
  wp (serve line sp) (λ v s', quiet s' ∧
    v = (if decide (line < 2)%nat then Some (0x20 + line) else None) ∧
    TICKS s' = wadd 32 (TICKS s) (if decide (line = 0)%nat then 1 else 0) ∧ mouse s' = mouse s) s.
Proof.
  intros Hl [Hc Ht Hk Hticks]. unfold serve. apply wp_bind, wp_gets. rewrite Hc, interrupt_programmed by done.
  destruct (decide (line < 2)%nat) as [Hlt|Hge].
  2:{ apply wp_ret. rewrite decide_False by lia. split_and!; [done|done| |done].
      unfold wadd. rewrite Z.add_0_r. symmetry. apply wrap_id, Hticks. }
  apply wp_bind, wp_zoom, wp_modify.
  destruct line as [|[|]]; [| |lia].
  - change (handler_of (Z.to_nat (0x20 + 0%nat))) with (Some irq0). apply wp_bind, wp_bind.
    eapply wp_mono; [by apply timer_handler_spec; [..|apply chips_put]|].
    intros r s' (Hq & HT & Hm). by apply wp_ret, wp_ret.
  - change (handler_of (Z.to_nat (0x20 + 1%nat))) with (Some irq1). apply wp_bind.
    eapply wp_mono; [by apply keyboard_handler_spec; [..|apply chips_put]|].
    intros [] s' (Hq & HT & Hm). apply wp_ret. split_and!; [done|done| |done].
    rewrite HT. unfold wadd. rewrite Z.add_0_r. symmetry. apply wrap_id, Hticks.
Qed.

Definition vector_of (line : nat) : option Z := if decide (line < 2)%nat then Some (0x20 + line) else None.
Definition ticks_in (requests : list (nat * Z)) : Z :=
  foldr (λ r n, (if decide (r.1 = 0)%nat then 1 else 0) + n) 0 requests.

Lemma serve_all_spec requests s : Forall (λ r, (r.1 < 16)%nat) requests → quiet s →
  wp (serve_all requests) (λ vs s', quiet s' ∧ vs = (λ r, vector_of r.1) <$> requests ∧
    TICKS s' = wadd 32 (TICKS s) (ticks_in requests) ∧ mouse s' = mouse s) s.
Proof.
  revert s. induction requests as [|[line sp] requests IH]; intros s Hr Hq; cbn [serve_all].
  { apply wp_ret. split_and!; [done|done| |done]. unfold wadd. cbn. rewrite Z.add_0_r.
    symmetry. apply wrap_id, Hq. }
  apply Forall_cons in Hr as [Hl Hr]. apply wp_bind. eapply wp_mono; [by apply serve_spec|].
  intros v s1 (Hq1 & -> & HT1 & Hm1). apply wp_bind. eapply wp_mono; [by apply IH|].
  intros vs s2 (Hq2 & -> & HT2 & Hm2). apply wp_ret. split_and!; [done|done| |congruence].
  rewrite HT2, HT1. unfold wadd. rewrite wrap_add_l.
  change (ticks_in ((line, sp) :: requests)) with ((if decide (line = 0)%nat then 1 else 0) + ticks_in requests).
  f_equal. lia.
Qed.
End serve.

(** C38: interrupts.  After [init_pic] and [timer::init], whatever state the
    chips were in, every request of any sequence of requests on the sixteen
    lines is served as programmed: the timer through vector 32, the keyboard
    through vector 33, the vectors whose gates lead to their stubs, and no
    handler panics, forgets its end of interrupt or blocks a later request; the
    tick counter counts the timer's requests modulo 2^32 and the timer runs at
    1193182 / 1193 Hz.  The other lines are masked, and that includes line 12:
    the mouse handler never runs, although the slave's mask is opened for it,
    because the line of the master the slave is wired to is masked. *)
Theorem interrupts_served {D} `{InterruptChips D} requests (s : Irqs D) :
  Forall (λ r, (r.1 < 16)%nat) requests → fits 32 (TICKS s) → inv (tasks s) → IrqProps.wf (kbd s) →
  wp (set_up;; serve_all requests) (λ vectors s',
    vectors = (λ r, vector_of r.1) <$> requests ∧
    chips (device s') = programmed ∧
    TICKS s' = wadd 32 (TICKS s) (ticks_in requests) ∧
    inv (tasks s') ∧ IrqProps.wf (kbd s') ∧ mouse s' = mouse s) s.
Proof.
  intros Hr HT Ht Hk. apply wp_bind. eapply wp_mono; [apply set_up_spec|].
  intros [] s1 (Hc & HT1 & Ht1 & Hk1 & Hm1). eapply wp_mono; [apply serve_all_spec; [done|]|].
  - split; [done|by rewrite Ht1|by rewrite Hk1|by rewrite HT1].
  - intros vs s2 ([Hc2 Ht2 Hk2 _] & -> & HT2 & Hm2). split_and!; try done; congruence.
Qed.

(** A machine that consists of the chips, and a keyboard that sends nothing. *)
#[export] Instance chips_ports : Ports Chips := {
  inb _ c := Done (0, c); outb p v c := Done (tt, chips_out p v c);
  inw _ c := Done (0, c); outw _ _ c := Done (tt, c : Chips);
  inl _ c := Done (0, c); outl _ _ c := Done (tt, c : Chips);
}.
#[export, refine] Instance chips_machine : InterruptChips Chips := { chips c := c; put_chips c _ := c }.
Proof. all: done. Defined.

Definition idle_irqs : Irqs Chips :=
  mkIrqs 0xFFFFFFFF SchedulerProps.two_tasks Irq.init Mouse_new (mkChips (mkPic 0xFF 0 8 0) (mkPic 0xFF 0 0x70 3) (mkPit 0 0 None)).

Lemma interrupts_served_witness :
  wp (set_up;; serve_all [(0%nat, 0x1000); (12%nat, 0); (1%nat, 0); (0%nat, 0x2000)]) (λ vectors s',
    vectors = [Some 32; None; Some 33; Some 32] ∧ TICKS s' = 1) idle_irqs.
Proof.
  eapply wp_mono; [refine (interrupts_served [(0%nat, 0x1000); (12%nat, 0); (1%nat, 0); (0%nat, 0x2000)] idle_irqs _ _ _ _)|].
  - apply (bool_decide_unpack _). by vm_compute.
  - done.
  - apply SchedulerProps.two_tasks_inv.
  - split_and!; apply (bool_decide_unpack _); by vm_compute.
  - intros vs s' (Hv & _ & HT & _). split; [exact Hv|exact HT].
Defined.
