(* ===== verification/Heap.v ===== *)
(** * The kernel heap (src/src/memory/bucket_allocator.rs, memory/mod.rs)

    The allocator keeps its free blocks in the heap itself: a free bucket block
    starts with the pointer to the next one ([FreeNode]), a free large region
    with its size and the pointer to the next one ([LargeNode], fields in the
    order of their declaration).  The model therefore has the bytes of memory,
    and every access of the code to a node is a read or write there. *)
From S2P Require Import Prelude Words Memory.
Local Open Scope Z_scope.

Definition BUCKET_SIZES : list Z := [8; 16; 32; 64; 128; 256; 512; 1024; 2048].
Definition BUCKET_COUNT : nat := 9.
Definition BLOCKS_PER_BUCKET : Z := 256.
Definition HEAP_SIZE : Z := 2 * 1024 * 1024.
Definition LARGE_NODE_SIZE : Z := 16. (* [size_of::<LargeNode>()] *)
Definition USIZE_MAX : Z := 2 ^ 64 - 1.

(** [core::alloc::Layout]: the alignment is a power of two. *)
Record Layout := mkLayout { size : Z; align : Z }.

Record Bucket := mkBucket {
  block_size : Z;
  free_list : Z;
  total_blocks : Z;
  free_blocks : Z;
}.
Definition Bucket_new (block_size : Z) : Bucket := mkBucket block_size 0 0 0.

Definition set_block_size (n : Z) (b : Bucket) : Bucket :=
  mkBucket n (free_list b) (total_blocks b) (free_blocks b).

Record BucketAllocator := mkAllocator {
  buckets : list Bucket;
  large_next : Z; (* [large_head.next] *)
  used : Z;
  heap_start : Z;
  heap_end : Z;
  mem : memory;
}.
Definition BucketAllocator_new (m : memory) : BucketAllocator :=
  mkAllocator (replicate BUCKET_COUNT (Bucket_new 0)) 0 0 0 0 m.

Definition set_bucket (i : nat) (b : Bucket) (h : BucketAllocator) : BucketAllocator :=
  mkAllocator (<[i := b]> (buckets h)) (large_next h) (used h) (heap_start h) (heap_end h) (mem h).
Definition set_large_next (p : Z) (h : BucketAllocator) : BucketAllocator :=
  mkAllocator (buckets h) p (used h) (heap_start h) (heap_end h) (mem h).
Definition set_used (u : Z) (h : BucketAllocator) : BucketAllocator :=
  mkAllocator (buckets h) (large_next h) u (heap_start h) (heap_end h) (mem h).
Definition set_mem (m : memory) (h : BucketAllocator) : BucketAllocator :=
  mkAllocator (buckets h) (large_next h) (used h) (heap_start h) (heap_end h) m.

Abbreviation heapM := (ST BucketAllocator).
Definition load (a : Z) : heapM Z := gets (λ h, read64 (mem h) a).
Definition save (a v : Z) : heapM unit := modify (λ h, set_mem (write64 (mem h) a v) h).
(** The fields of a [LargeNode] at address [p]. *)
Definition size_field (p : Z) : Z := p.
Definition next_field (p : Z) : Z := p + 8.
Definition end_addr (p : Z) : heapM Z := n ← load (size_field p); mret (wadd 64 p n).
(** [Option::take] on the [next] field. *)
Definition take_next (p : Z) : heapM Z :=
  n ← load (next_field p); save (next_field p) 0;; mret n.

(** ** Buckets *)

(** The loop of [Bucket::init]: node after node, the last one without a next. *)
Fixpoint link_blocks (block_size current : Z) (count : nat) (m : memory) : memory :=
  match count with
  | O => m
  | S count =>
      let next := match count with O => 0 | S _ => wadd 64 current block_size end in
      link_blocks block_size (wadd 64 current block_size) count (write64 m current next)
  end.
Definition Bucket_init (b : Bucket) (start sz : Z) (m : memory) : Bucket * memory :=
  let block_count := sz / block_size b in
  (mkBucket (block_size b) start block_count block_count,
   link_blocks (block_size b) start (Z.to_nat block_count) m).

Definition Bucket_alloc (b : Bucket) (m : memory) : option Z * Bucket :=
  if decide (free_list b = 0) then (None, b)
  else (Some (free_list b),
        mkBucket (block_size b) (read64 m (free_list b)) (total_blocks b)
          (wsub 64 (free_blocks b) 1)).

Definition Bucket_dealloc (b : Bucket) (ptr : Z) (m : memory) : Bucket * memory :=
  (mkBucket (block_size b) ptr (total_blocks b) (wadd 64 (free_blocks b) 1),
   write64 m ptr (free_list b)).

(** The loop of [init] over the buckets from number [i] on; it stops at the
    first one that does not fit. *)
Fixpoint init_buckets (sizes : list Z) (i : nat) (current remaining : Z)
    (bs : list Bucket) (m : memory) : list Bucket * (Z * Z) * memory :=
  match sizes with
  | [] => (bs, (current, remaining), m)
  | n :: sizes =>
      let b := set_block_size n (default (Bucket_new 0) (bs !! i)) in
      let bucket_size := n * BLOCKS_PER_BUCKET in
      if decide (remaining < bucket_size) then (<[i := b]> bs, (current, remaining), m)
      else let '(b, m) := Bucket_init b current bucket_size m in
           init_buckets sizes (S i) (wadd 64 current bucket_size) (remaining - bucket_size)
             (<[i := b]> bs) m
  end.

Definition init (start heap_size : Z) (h : BucketAllocator) : BucketAllocator :=
  let '(bs, (current, remaining), m) :=
    init_buckets BUCKET_SIZES 0 start heap_size (buckets h) (mem h) in
  if decide (LARGE_NODE_SIZE < remaining)
  then mkAllocator bs current (used h) start (wadd 64 start heap_size)
         (write64 (write64 m (size_field current) remaining) (next_field current) 0)
  else mkAllocator bs (large_next h) (used h) start (wadd 64 start heap_size) m.
(** [init_heap]: the static [HEAP] lies at [start]. *)
Definition init_heap (start : Z) (m : memory) : BucketAllocator :=
  init start HEAP_SIZE (BucketAllocator_new m).

(** [bucket_index]: the first bucket whose blocks are large enough. *)
Definition bucket_index (sz : Z) : option nat :=
  fst <$> list_find (λ n, sz ≤ n) BUCKET_SIZES.

(** ** Large regions *)

(** The bit mask as written; for a power of two it rounds up. *)
Definition align_up (addr al : Z) : Z :=
  Z.land (wsub 64 (wadd 64 addr al) 1) (wnot 64 (wsub 64 al 1)).

#[global] Arguments align_up : simpl never.

(** [cursor] is the address of an [Option<NonNull<LargeNode>>]: the list head
    or the [next] field of a node. *)
Inductive cursor := Head | NextOf (p : Z).
Definition read_cursor (c : cursor) : heapM Z :=
  match c with Head => gets large_next | NextOf p => load (next_field p) end.
Definition write_cursor (c : cursor) (v : Z) : heapM unit :=
  match c with Head => modify (set_large_next v) | NextOf p => save (next_field p) v end.

Definition checked_add (a b : Z) : option Z := if decide (a + b < 2 ^ 64) then Some (a + b) else None.

(** The body of the loop when the region at [p] is large enough. *)
Definition carve (c : cursor) (p alloc_start alloc_end sz : Z) : heapM (option Z) :=
  modify (λ h, set_used (wadd 64 (used h) sz) h);;
  e ← end_addr p;
  let excess := wsub 64 e alloc_end in
  (if decide (LARGE_NODE_SIZE ≤ excess) then
     save (size_field alloc_end) excess;;
     if decide (alloc_start = p) then
       n ← take_next p; save (next_field alloc_end) n;;
       write_cursor c alloc_end
     else
       save (size_field p) (wsub 64 alloc_start p);;
       n ← take_next p; save (next_field alloc_end) n;;
       save (next_field p) alloc_end
   else n ← take_next p; write_cursor c n);;
  mret (if decide (alloc_start = 0) then None else Some alloc_start).

Fixpoint alloc_large_from (fuel : nat) (c : cursor) (sz al : Z) : heapM (option Z) :=
  match fuel with
  | O => diverge
  | S fuel =>
      p ← read_cursor c;
      if decide (p = 0) then mret None
      else
        let alloc_start := align_up p al in
        match checked_add alloc_start sz with
        | None => mret None
        | Some alloc_end =>
            e ← end_addr p;
            if decide (alloc_end ≤ e) then carve c p alloc_start alloc_end sz
            else alloc_large_from fuel (NextOf p) sz al
        end
  end.

(** No more regions than fit into the heap: enough unless the list has been
    overwritten. *)
Definition list_fuel (h : BucketAllocator) : nat :=
  S (Z.to_nat ((heap_end h - heap_start h) / LARGE_NODE_SIZE)).
Definition alloc_large (sz al : Z) : heapM (option Z) :=
  h ← get; alloc_large_from (list_fuel h) Head sz al.

Definition alloc (layout : Layout) : heapM (option Z) :=
  let sz := Z.max (size layout) 8 in
  let al := Z.max (align layout) 8 in
  match bucket_index sz with
  | None => alloc_large sz al
  | Some idx =>
      h ← get;
      b ← lift (index idx (buckets h));
      if decide (al ≤ block_size b) then
        match Bucket_alloc b (mem h) with
        | (Some ptr, b') =>
            modify (set_bucket idx b');;
            modify (λ h, set_used (wadd 64 (used h) (block_size b)) h);;
            mret (Some ptr)
        | (None, _) => alloc_large sz al
        end
      else alloc_large sz al
  end.

(** [link prev p]: make [p] the successor of [prev], or the first region. *)
Definition link (prev p : Z) : heapM unit :=
  if decide (prev = 0) then modify (set_large_next p) else save (next_field prev) p.

(** Merge with prev: it grows by [sz], and by [curr] if it now reaches it. *)
Definition merge_prev (sz prev curr : Z) : heapM unit :=
  n ← load (size_field prev); save (size_field prev) (wadd 64 n sz);;
  if decide (curr = 0) then mret tt
  else
    p_end ← end_addr prev;
    if decide (p_end = curr) then
      n ← load (size_field prev); k ← load (size_field curr);
      save (size_field prev) (wadd 64 n k);;
      next ← take_next curr; save (next_field prev) next
    else mret tt.
(** Merge with curr, or no merge. *)
Definition merge_curr (addr sz prev curr : Z) : heapM unit :=
  if decide (curr ≠ 0 ∧ wadd 64 addr sz = curr) then
    curr_next ← take_next curr; k ← load (size_field curr);
    save (size_field addr) (wadd 64 sz k);; save (next_field addr) curr_next;;
    link prev addr
  else save (next_field addr) curr;; link prev addr.

(** The body of the loop once the place between [prev] and [curr] is found. *)
Definition insert_free (addr sz prev curr : Z) : heapM unit :=
  if decide (prev = 0) then merge_curr addr sz prev curr
  else
    prev_end ← end_addr prev;
    if decide (prev_end = addr) then merge_prev sz prev curr
    else merge_curr addr sz prev curr.

Fixpoint dealloc_from (fuel : nat) (addr sz prev curr : Z) : heapM unit :=
  match fuel with
  | O => diverge
  | S fuel =>
      let curr_addr := if decide (curr = 0) then USIZE_MAX else curr in
      if decide (addr < curr_addr) then insert_free addr sz prev curr
      else if decide (addr = curr_addr) then mret tt
      else next ← (if decide (curr = 0) then mret 0 else load (next_field curr));
           dealloc_from fuel addr sz curr next
  end.

Definition saturating_sub (a b : Z) : Z := Z.max 0 (a - b).

Definition dealloc_large (addr sz : Z) : heapM unit :=
  h ← get;
  if decide (addr < heap_start h ∨ checked_add addr sz = None ∨ heap_end h < addr + sz)
  then mret tt
  else
    modify (λ h, set_used (saturating_sub (used h) sz) h);;
    save (size_field addr) sz;;
    curr ← gets large_next;
    dealloc_from (S (list_fuel h)) addr sz 0 curr.

Definition dealloc (ptr : Z) (layout : Layout) : heapM unit :=
  let sz := Z.max (size layout) 8 in
  match bucket_index sz with
  | Some idx =>
      h ← get;
      b ← lift (index idx (buckets h));
      modify (λ h, set_used (saturating_sub (used h) (block_size b)) h);;
      let '(b', m) := Bucket_dealloc b ptr (mem h) in
      modify (λ h, set_mem m (set_bucket idx b' h))
  | None => dealloc_large ptr sz
  end.

(** [GlobalAlloc]: a null pointer for [None], and no work on null. *)
Definition global_alloc (layout : Layout) : heapM Z :=
  p ← alloc layout; mret (default 0 p).
Definition global_dealloc (ptr : Z) (layout : Layout) : heapM unit :=
  if decide (ptr = 0) then mret tt else dealloc ptr layout.

Definition heap_stats (h : BucketAllocator) : Z * Z :=
  (used h, saturating_sub HEAP_SIZE (used h)).
