(* ===== verification/HeapLists.v ===== *)
(** * The kernel heap: free lists in memory

    [bchain] and [lchain] relate the pointer chains of the free lists to lists
    of blocks and regions.  On these, allocation from the large list is shown
    to compute [first_fit], insertion to compute [insert_region], and neither
    to touch memory outside the regions involved. *)
From S2P Require Import Prelude Words Memory Heap.
Local Open Scope Z_scope.

#[local] Arguments wadd : simpl never.
#[local] Arguments wsub : simpl never.
#[local] Arguments wrap : simpl never.

(** ** Free lists *)

Fixpoint bchain (m : memory) (a : Z) (l : list Z) : Prop :=
  match l with
  | [] => a = 0
  | x :: l => a = x ∧ x ≠ 0 ∧ bchain m (read64 m x) l
  end.
Fixpoint lchain (m : memory) (a : Z) (R : list region) : Prop :=
  match R with
  | [] => a = 0
  | (x, n) :: R => a = x ∧ x ≠ 0 ∧ read64 m (size_field x) = n ∧ lchain m (read64 m (next_field x)) R
  end.

Lemma bchain_same m m' a l : Forall (λ x, same_bytes x (x + 8) m m') l →
  bchain m a l → bchain m' a l.
Proof.
  intros Hl. revert a. induction Hl as [|x l Hx Hl IH]; intros a; cbn; [done|].
  intros (? & ? & ?). rewrite (read64_same m m') by done. auto.
Qed.

Lemma lchain_same m m' a R : Forall (λ x, same_bytes x.1 (x.1 + 16) m m') R →
  lchain m a R → lchain m' a R.
Proof.
  intros Hl. revert a. induction Hl as [|[x n] R Hx Hl IH]; intros a; cbn; [done|].
  intros (? & ? & ? & ?). unfold size_field, next_field in *. cbn in Hx.
  rewrite !(read64_same m m') by (eapply same_bytes_weaken; [| |exact Hx]; lia). auto.
Qed.

Lemma read64_write64_eq m a v : fits 64 v → read64 (write64 m a v) a = v.
Proof. intros. by rewrite read64_write64, wrap_id. Qed.

Lemma read64_write64_ne m a b v : a + 8 ≤ b ∨ b + 8 ≤ a →
  read64 (write64 m b v) a = read64 m a.
Proof. intros. apply read64_same, write64_same. lia. Qed.

(** Memory outside the regions [l] is as before. *)
Definition untouched (l : list region) (m m' : memory) : Prop :=
  ∀ lo hi, lo < hi → Forall (disj (lo, hi - lo)) l → same_bytes lo hi m m'.

Lemma untouched_refl l m : untouched l m m.
Proof. intros lo hi _ _. apply same_bytes_refl. Qed.

Lemma untouched_trans l m1 m2 m3 : untouched l m1 m2 → untouched l m2 m3 → untouched l m1 m3.
Proof. intros H1 H2 lo hi ? ?. eapply same_bytes_trans; [by apply H1|by apply H2]. Qed.

Lemma untouched_write64 l m m' a v x : untouched l m m' → x ∈ l →
  x.1 ≤ a → a + 8 ≤ x.1 + x.2 → untouched l m (write64 m' a v).
Proof.
  intros Hu Hx ? ? lo hi Hlo Hd. eapply same_bytes_trans; [by apply Hu|].
  rewrite Forall_forall in Hd. specialize (Hd x Hx). unfold disj in Hd. cbn in Hd.
  apply write64_same. lia.
Qed.

Lemma untouched_mono l l' m m' : untouched l m m' → l ⊆ l' → untouched l' m m'.
Proof.
  intros H Hl lo hi ? Hd. apply H; [done|]. rewrite Forall_forall in *. auto.
Qed.

(** ** Computing with nodes *)

Lemma wp_load a (Q : Z → BucketAllocator → Prop) h : Q (read64 (mem h) a) h → wp (load a) Q h.
Proof. done. Qed.
Lemma wp_save a v (Q : unit → BucketAllocator → Prop) h :
  Q tt (set_mem (write64 (mem h) a v) h) → wp (save a v) Q h.
Proof. done. Qed.
Lemma wp_end_addr p (Q : Z → BucketAllocator → Prop) h :
  Q (wadd 64 p (read64 (mem h) (size_field p))) h → wp (end_addr p) Q h.
Proof. done. Qed.
Lemma wp_take_next p (Q : Z → BucketAllocator → Prop) h :
  Q (read64 (mem h) (next_field p)) (set_mem (write64 (mem h) (next_field p) 0) h) →
  wp (take_next p) Q h.
Proof. done. Qed.

Ltac heap_op m :=
  lazymatch m with
  | load _ => apply wp_load
  | save _ _ => apply wp_save
  | end_addr _ => apply wp_end_addr
  | take_next _ => apply wp_take_next
  | modify _ => apply wp_modify
  | gets _ => apply wp_gets
  | get => apply wp_get
  | mret _ => apply wp_ret
  end.
Ltac heap_step :=
  lazymatch goal with
  | |- wp (mbind _ (mbind _ _)) _ _ => apply wp_bind
  | |- wp (mbind _ ?m) _ _ => apply wp_bind; heap_op m
  | |- wp ?m _ _ => heap_op m
  end;
  cbn [mem large_next buckets used heap_start heap_end set_mem set_large_next set_used].

(** Reads of a memory that has been written to. *)
Ltac mem_simpl :=
  repeat first
    [ rewrite read64_write64_eq by (unfold fits; lia)
    | rewrite read64_write64_ne by (unfold size_field, next_field; lia) ].

(** The writes of a step all lie in the region [x]. *)
Ltac touch x :=
  repeat lazymatch goal with
  | |- untouched _ _ (write64 _ _ _) => eapply (untouched_write64 _ _ _ _ _ x);
      [|set_solver|cbn; unfold next_field, size_field; lia..]
  | |- untouched _ _ _ => apply untouched_refl
  end.

(** What the code relies on for a large region: it is below [2 ^ 62] and has
    room for a node. *)
Definition node_ok (x : region) : Prop := 0 < x.1 ∧ 16 ≤ x.2 ∧ x.1 + x.2 ≤ 2 ^ 62.

Lemma wadd_small a b : 0 ≤ a → 0 ≤ b → a + b < 2 ^ 64 → wadd 64 a b = a + b.
Proof. intros. apply wrap_id. unfold fits. lia. Qed.
Lemma wsub_small a b : b ≤ a → a - b < 2 ^ 64 → wsub 64 a b = a - b.
Proof. intros. apply wrap_id. unfold fits. lia. Qed.

Lemma align_up_spec p k : 0 ≤ p → 0 ≤ k < 64 → p + 2 ^ k ≤ 2 ^ 64 →
  p ≤ align_up p (2 ^ k) < p + 2 ^ k ∧ (2 ^ k | align_up p (2 ^ k)).
Proof.
  intros Hp Hk Hr. pose proof (pow2_pos k ltac:(lia)) as Hpos.
  assert (2 ^ k ≤ 2 ^ 63) as Hle by (apply Z.pow_le_mono_r; lia).
  unfold align_up.
  assert (wsub 64 (wadd 64 p (2 ^ k)) 1 = p + 2 ^ k - 1) as ->.
  { unfold wsub, wadd, wrap. rewrite Zminus_mod_idemp_l. apply Z.mod_small. lia. }
  assert (wnot 64 (wsub 64 (2 ^ k) 1) = Z.shiftl (Z.ones (64 - k)) k) as ->.
  { rewrite wsub_small by lia. rewrite wnot_spec by (unfold fits; lia).
    rewrite Z.shiftl_mul_pow2, Z.ones_equiv by lia.
    replace (2 ^ 64) with (2 ^ (64 - k) * 2 ^ k) by (rewrite <- Z.pow_add_r by lia; f_equal; lia).
    lia. }
  assert (Z.land (p + 2 ^ k - 1) (Z.shiftl (Z.ones (64 - k)) k) = (p + 2 ^ k - 1) / 2 ^ k * 2 ^ k) as ->.
  { rewrite <- Z.shiftl_mul_pow2, <- Z.shiftr_div_pow2 by lia.
    apply Z.bits_inj'. intros n Hn. rewrite Z.land_spec, !Z.shiftl_spec by lia.
    destruct (decide (n < k)).
    - by rewrite !(Z.testbit_neg_r _ (n - k)), andb_false_r by lia.
    - rewrite Z.shiftr_spec by lia. replace (n - k + k) with n by lia.
      destruct (decide (n < 64)).
      + rewrite Z.ones_spec_low by lia. by rewrite andb_true_r.
      + rewrite Z.ones_spec_high by lia. rewrite andb_false_r. symmetry.
        assert (2 ^ 64 ≤ 2 ^ n) by (apply Z.pow_le_mono_r; lia).
        rewrite <- (Z.mod_small (p + 2 ^ k - 1) (2 ^ n)) by lia.
        apply Z.mod_pow2_bits_high. lia. }
  split; [|by apply Z.divide_factor_r].
  pose proof (Z.div_mod (p + 2 ^ k - 1) (2 ^ k) ltac:(lia)).
  pose proof (Z.mod_pos_bound (p + 2 ^ k - 1) (2 ^ k) Hpos). lia.
Qed.

(** ** First fit *)

(** What is left of a region of [n] bytes at [a] when [sz] bytes are taken at
    [s]: a tail too small for a node is given up, and then also the gap in
    front. *)
Definition pieces (a n s sz : Z) : list region :=
  let excess := a + n - (s + sz) in
  if decide (LARGE_NODE_SIZE ≤ excess)
  then (if decide (s = a) then [] else [(a, s - a)]) ++ [(s + sz, excess)]
  else [].

Fixpoint first_fit (sz al : Z) (R : list region) : option (Z * list region) :=
  match R with
  | [] => None
  | (a, n) :: R =>
      let s := align_up a al in
      if decide (s + sz ≤ a + n) then Some (s, pieces a n s sz ++ R)
      else '(p, R') ← first_fit sz al R; Some (p, (a, n) :: R')
  end.

(** A request: the size a multiple of 16, the alignment 8 or more, as
    [alloc_large] gets them. *)
Definition request_ok (sz al : Z) : Prop :=
  16 ≤ sz ∧ (16 | sz) ∧ ∃ k, 3 ≤ k < 63 ∧ al = 2 ^ k ∧ sz + al ≤ 2 ^ 63 + 2 ^ 62.

(** Regions whose size and address are multiples of 16, in pairwise different
    places. *)
Definition large_ok (R : list region) : Prop :=
  Forall (λ x, node_ok x ∧ (16 | x.1) ∧ (16 | x.2)) R ∧ sep R.

Lemma align_up_16 p k : 3 ≤ k < 63 → 0 < p ≤ 2 ^ 62 → (16 | p) →
  p ≤ align_up p (2 ^ k) < p + 2 ^ k ∧ (2 ^ k | align_up p (2 ^ k)) ∧
  (16 | align_up p (2 ^ k)).
Proof.
  intros Hk Hp Hd. assert (2 ^ k ≤ 2 ^ 62) as Hle by (apply Z.pow_le_mono_r; lia).
  destruct (align_up_spec p k) as [Hr Ha]; [lia..|]. split_and!; [lia..|done|].
  destruct (decide (k = 3)) as [->|].
  - change (2 ^ 3) with 8 in *. destruct Hd as [q ->], Ha as [q' Hq']. rewrite Hq' in Hr.
    rewrite Hq'. exists q. lia.
  - etrans; [|exact Ha]. exists (2 ^ (k - 4)). change 16 with (2 ^ 4).
    rewrite <- Z.pow_add_r by lia. f_equal. lia.
Qed.

Definition cursor_val (c : cursor) (h : BucketAllocator) : Z :=
  match c with Head => large_next h | NextOf q => read64 (mem h) (next_field q) end.
Definition cursor_cell (c : cursor) : list region :=
  match c with Head => [] | NextOf q => [(next_field q, 8)] end.
(** A cursor into the list in front of [R]. *)
Definition cursor_ok (c : cursor) (R : list region) : Prop :=
  match c with
  | Head => True
  | NextOf q => 0 < q ∧ q + 16 ≤ 2 ^ 62 ∧ Forall (disj (q, 16)) R
  end.

(** The effect of an operation on the large list from cursor [c] on: the chain
    is [R'], memory changes only in the regions [touched] and the cursor, and
    [used] becomes [u]. *)
Record large_effect (c : cursor) (h h' : BucketAllocator) (u : Z)
    (touched R' : list region) : Prop := {
  eff_chain : lchain (mem h') (cursor_val c h') R';
  eff_mem : untouched (cursor_cell c ++ touched) (mem h) (mem h');
  eff_used : used h' = u;
  eff_head : c ≠ Head → large_next h' = large_next h;
  eff_buckets : buckets h' = buckets h;
  eff_start : heap_start h' = heap_start h;
  eff_end : heap_end h' = heap_end h;
}.

Lemma untouched_lchain l m m' a R : untouched l m m' →
  Forall (λ x, 16 ≤ x.2) R → Forall (λ x, Forall (disj x) l) R → lchain m a R → lchain m' a R.
Proof.
  intros Hu Hn Hd. apply lchain_same. rewrite Forall_forall in *. intros x Hx. cbn beta.
  apply Hu; [lia|]. specialize (Hn x Hx). specialize (Hd x Hx). eapply Forall_impl; [exact Hd|].
  intros y. apply disj_inside. unfold inside. cbn. cbn in Hn. lia.
Qed.

Lemma large_ok_cons a n R : large_ok ((a, n) :: R) →
  (0 < a ∧ 16 ≤ n ∧ a + n ≤ 2 ^ 62) ∧ (16 | a) ∧ (16 | n) ∧ Forall (disj (a, n)) R ∧ large_ok R ∧
  Forall (λ x, 16 ≤ x.2) R.
Proof.
  intros [([Hn [Ha Hb]] & Hf)%Forall_cons [Hd Hs]]. unfold node_ok in Hn. cbn in *.
  split_and!; try done; try lia.
  eapply Forall_impl; [exact Hf|]. intros x [(? & ? & ?) _]. done.
Qed.

(** The regions behind the one being worked on are not touched. *)
Lemma tail_disjoint c a n R : large_ok ((a, n) :: R) → cursor_ok c ((a, n) :: R) →
  Forall (λ x, Forall (disj x) (cursor_cell c ++ [(a, n)])) R.
Proof.
  intros (_ & _ & _ & Hd & _)%large_ok_cons Hc. rewrite Forall_forall in *. intros x Hx.
  apply Forall_app. split; [|constructor; [by apply disj_sym, Hd|done]].
  destruct c as [|q]; cbn; [done|]. destruct Hc as (_ & _ & [_ Hc]%Forall_cons).
  rewrite Forall_forall in Hc. constructor; [|done]. apply disj_sym.
  eapply disj_inside; [|by apply Hc]. unfold inside, next_field. cbn. lia.
Qed.

Lemma wp_write_cursor c v (Q : unit → BucketAllocator → Prop) h :
  Q tt (match c with
        | Head => set_large_next v h
        | NextOf q => set_mem (write64 (mem h) (next_field q) v) h
        end) → wp (write_cursor c v) Q h.
Proof. by destruct c. Qed.

(** Writing the cursor last: the chain is then what hangs below [v]. *)
Lemma write_cursor_effect c h h0 m u v a n R R' :
  large_ok ((a, n) :: R) → cursor_ok c ((a, n) :: R) →
  fits 64 v → untouched [(a, n)] (mem h) m →
  h0 = set_mem m (set_used u h) →
  (∀ m', untouched (cursor_cell c) m m' → lchain m' v R') →
  large_effect c h (match c with
        | Head => set_large_next v h0
        | NextOf q => set_mem (write64 (mem h0) (next_field q) v) h0
        end) u ((a, n) :: R) R'.
Proof.
  intros Hl Hc Hv Hm -> Hch. destruct c as [|q]; split; try done; cbn.
  - apply Hch, untouched_refl.
  - eapply untouched_mono; [exact Hm|set_solver].
  - rewrite read64_write64_eq by done. apply Hch.
    eapply (untouched_write64 _ _ _ _ _ (next_field q, 8)); [apply untouched_refl|set_solver|cbn; lia..].
  - eapply (untouched_write64 _ _ _ _ _ (next_field q, 8)); [|set_solver|cbn; lia..].
    eapply untouched_mono; [exact Hm|set_solver].
Qed.

(** The pieces and the rest of the list keep clear of the cursor. *)
Lemma pieces_cursor c a n R ps : cursor_ok c ((a, n) :: R) →
  Forall (λ p, inside p (a, n)) ps → Forall (λ x, Forall (disj x) (cursor_cell c)) (ps ++ R).
Proof.
  intros Hc Hin. destruct c as [|q]; [by apply Forall_true|].
  destruct Hc as (_ & _ & [Ha HR]%Forall_cons). cbn.
  assert (∀ y, disj (q, 16) y → Forall (disj y) [(next_field q, 8)]) as Hq.
  { intros y Hy. constructor; [|done]. apply disj_sym. eapply disj_inside; [|exact Hy].
    unfold inside, next_field. cbn. lia. }
  apply Forall_app. split.
  - eapply Forall_impl; [exact Hin|]. intros p Hp. apply Hq. apply disj_sym.
    eapply disj_inside; [exact Hp|]. by apply disj_sym.
  - eapply Forall_impl; [exact HR|]. intros y. apply Hq.
Qed.

Lemma carve_wp c a n R s sz h : large_ok ((a, n) :: R) → cursor_ok c ((a, n) :: R) →
  lchain (mem h) (cursor_val c h) ((a, n) :: R) →
  a ≤ s → (16 | s) → 16 ≤ sz → (16 | sz) → s + sz ≤ a + n →
  wp (carve c a s (s + sz) sz) (λ r h', r = Some s ∧
    large_effect c h h' (wadd 64 (used h) sz) ((a, n) :: R) (pieces a n s sz ++ R)) h.
Proof.
  intros Hl Hc Hch Has Hds Hsz Hdz Hfit.
  pose proof (large_ok_cons _ _ _ Hl) as ((Ha & Hn & Hmax) & Hda & Hdn & Hdisj & HlR & H16).
  pose proof (pieces_cursor c a n R) as Hpc. pose proof (tail_disjoint c a n R Hl Hc) as Htail.
  destruct Hch as (Hcur & _ & Hsize & Hrest).
  assert (s = a ∨ a + 16 ≤ s) as Hgap.
  { destruct Hda as [x ->], Hds as [y ->]. lia. }
  assert (∀ m, untouched [(a, n)] (mem h) m → lchain m (read64 (mem h) (next_field a)) R) as HchR.
  { intros m Hm. eapply untouched_lchain; [exact Hm|exact H16| |exact Hrest].
    eapply Forall_impl; [exact Htail|]. intros x [_ ?]%Forall_app. done. }
  set (nx := read64 (mem h) (next_field a)) in *.
  assert (fits 64 nx) as Hfn.
  { destruct R as [|[b k] R]; [by cbn in Hrest; rewrite Hrest|].
    destruct Hrest as (-> & _). apply large_ok_cons in HlR as ((? & ? & ?) & _).
    unfold fits. lia. }
  unfold carve. heap_step. heap_step. rewrite Hsize.
  rewrite (wadd_small a n), (wsub_small (a + n)) by lia.
  rewrite (decide_False (P:=s = 0)) by lia.
  unfold pieces. case_decide as Hex; unfold LARGE_NODE_SIZE in Hex.
  - set (e := s + sz) in *. set (x := a + n - e) in *.
    assert (fits 64 e ∧ fits 64 x) as [Hfe Hfx] by (unfold fits; lia).
    heap_step. destruct (decide (s = a)) as [->|Hne].
    + do 3 heap_step. rewrite !read64_write64_ne by (unfold next_field, size_field; lia).
      fold nx. apply wp_write_cursor, wp_ret. split; [done|].
      set (m := write64 _ (next_field e) nx).
      assert (untouched [(a, n)] (mem h) m) as Hum by (unfold m; touch (a, n)).
      eapply (write_cursor_effect c h _ m); [exact Hl|exact Hc|done|exact Hum|reflexivity|].
      intros m' Hm'. eapply untouched_lchain; [exact Hm'| | |].
      * constructor; [cbn; lia|done].
      * apply (Hpc [(e, x)]); [done|]. constructor; [|done]. unfold inside. cbn. lia.
      * assert (read64 m (size_field e) = x) as E1 by (unfold m; by mem_simpl).
        assert (read64 m (next_field e) = nx) as E2 by (by apply read64_write64_eq).
        cbn. rewrite E1, E2. split_and!; [done|lia|done|by apply HchR].
    + do 4 heap_step. rewrite !read64_write64_ne by (unfold next_field, size_field; lia).
      fold nx. rewrite (wsub_small s) by lia. apply wp_ret. split; [done|].
      cbn [mem large_next buckets used heap_start heap_end set_mem set_large_next set_used].
      set (m := write64 _ (next_field a) e).
      assert (untouched [(a, n)] (mem h) m) as Hum by (unfold m; touch (a, n)).
      assert (lchain m a ((a, s - a) :: (e, x) :: R)) as Hchm.
      { assert (read64 m (size_field a) = s - a) as E1 by (unfold m; by mem_simpl).
        assert (read64 m (next_field a) = e) as E2 by (by apply read64_write64_eq).
        assert (read64 m (size_field e) = x) as E3 by (unfold m; by mem_simpl).
        assert (read64 m (next_field e) = nx) as E4.
        { unfold m. rewrite read64_write64_ne by (unfold next_field; lia).
          by apply read64_write64_eq. }
        cbn. rewrite E1, E2, E3, E4. split_and!; try done; [lia..|by apply HchR]. }
      split; try done.
      * replace (cursor_val c _) with a; [exact Hchm|].
        rewrite <- Hcur. destruct c as [|q]; [done|]. symmetry. apply read64_same, Hum; [lia|].
        destruct Hc as (_ & _ & [Hq _]%Forall_cons). constructor; [|done].
        eapply disj_inside; [|exact Hq]. unfold inside, next_field. cbn. lia.
      * eapply untouched_mono; [exact Hum|set_solver].
  - heap_step. apply wp_bind. heap_step.
    unfold LARGE_NODE_SIZE in Hex.
    apply wp_write_cursor, wp_ret. split; [done|].
    eapply write_cursor_effect; [exact Hl|exact Hc|exact Hfn| |reflexivity|].
    + touch (a, n).
    + intros m' Hm'. eapply untouched_lchain; [exact Hm'|done|by apply (Hpc [])|].
      apply HchR. touch (a, n).
Qed.

(** The loop of [alloc_large] finds the first region that fits. *)
Lemma alloc_large_from_wp fuel c sz al R h : request_ok sz al → large_ok R →
  cursor_ok c R → (length R < fuel)%nat → lchain (mem h) (cursor_val c h) R →
  wp (alloc_large_from fuel c sz al) (λ r h',
    match first_fit sz al R with
    | None => r = None ∧ h' = h
    | Some (s, R') => r = Some s ∧ large_effect c h h' (wadd 64 (used h) sz) R R'
    end) h.
Proof.
  intros Hreq. pose proof Hreq as (Hsz & Hdz & k & Hk & -> & Hsum).
  revert c R h. induction fuel as [|fuel IH]; intros c R h Hl Hc Hf Hch; [lia|].
  cbn [alloc_large_from]. apply wp_bind.
  assert (wp (read_cursor c) (λ p h', p = cursor_val c h ∧ h' = h) h) as Hrd by by destruct c.
  eapply wp_mono; [exact Hrd|]. intros p h' [-> ->].
  destruct R as [|[a n] R]; [rewrite Hch; by apply wp_ret|].
  pose proof Hch as (Hcur & Ha0 & Hsize & Hrest). rewrite Hcur.
  pose proof (large_ok_cons _ _ _ Hl) as ((Ha & Hn & Hmax) & Hda & Hdn & Hdisj & HlR & H16).
  rewrite decide_False by done.
  destruct (align_up_16 a k) as (Hup & Hal & H16s); [lia..|done|].
  cbn [first_fit]. set (s := align_up a (2 ^ k)) in *.
  unfold checked_add. rewrite decide_True by lia. heap_step. rewrite Hsize, wadd_small by lia.
  case_decide as Hfit.
  - apply carve_wp; try done. lia.
  - eapply wp_mono; [apply (IH (NextOf a)); try done; [|cbn in Hf; lia]|].
    { cbn. split_and!; [lia..|]. eapply Forall_impl; [exact Hdisj|]. intros y.
      apply disj_inside. unfold inside. cbn. lia. }
    intros r h'. cbn beta. destruct (first_fit sz (2 ^ k) R) as [[s' R']|]; cbn; [|done].
    intros [-> E]. split; [done|]. destruct E as [E1 E2 E3 E4 E5 E6 E7]. cbn in E1, E2.
    assert (Forall (disj (size_field a, 8)) ((next_field a, 8) :: R)) as Hsep1.
    { constructor; [unfold disj, size_field, next_field; cbn; lia|].
      eapply Forall_impl; [exact Hdisj|]. intros y. apply disj_inside.
      unfold inside, size_field. cbn. lia. }
    split; try done.
    + replace (cursor_val c h') with a.
      * cbn. split_and!; [done..| |done]. rewrite (read64_same (mem h)); [done|].
        apply E2; [lia|]. by replace (size_field a + 8 - size_field a) with 8 by lia.
      * rewrite <- Hcur. destruct c as [|q]; cbn; [by rewrite E4|]. symmetry.
        apply read64_same, E2; [lia|]. destruct Hc as (_ & _ & [Hq HqR]%Forall_cons).
        constructor.
        { unfold disj, next_field in *. cbn in *. lia. }
        eapply Forall_impl; [exact HqR|]. intros y. apply disj_inside.
        unfold inside, next_field. cbn. lia.
    + intros lo hi Hlo Hd. apply E2; [done|]. apply Forall_app in Hd as [_ [Hd1 Hd2]%Forall_cons].
      constructor; [|done]. unfold disj, next_field in *. cbn in *. lia.
    + intros _. by apply E4.
Qed.

(** ** Insertion with coalescing *)

Definition head_addr (R : list region) : Z :=
  match R with [] => USIZE_MAX | (c, _) :: _ => c end.

(** [(a, n)] in front of [R], joined with its first region if it touches it. *)
Definition place (a n : Z) (R : list region) : list region :=
  match R with
  | (c, j) :: R' => if decide (a + n = c) then (a, n + j) :: R' else (a, n) :: R
  | [] => [(a, n)]
  end.
Fixpoint insert_region (a n : Z) (R : list region) : list region :=
  match R with
  | [] => [(a, n)]
  | (b, k) :: R' =>
      if decide (a < b) then place a n R
      else if decide (a = b) then R
      else if decide (b + k = a ∧ a < head_addr R') then place b (k + n) R'
      else (b, k) :: insert_region a n R'
  end.

(** The node before the insertion point, if any, and the value that leads to it. *)
Definition list_head (P : list region) (h : BucketAllocator) : Z :=
  match P with [] => large_next h | (b, _) :: _ => b end.
Definition prev_addr (P : list region) : Z := match P with [] => 0 | (b, _) :: _ => b end.

Record insert_effect (P : list region) (h h' : BucketAllocator)
    (touched R' : list region) : Prop := {
  ins_chain : lchain (mem h') (list_head P h') R';
  ins_mem : untouched touched (mem h) (mem h');
  ins_used : used h' = used h;
  ins_head : P ≠ [] → large_next h' = large_next h;
  ins_buckets : buckets h' = buckets h;
  ins_start : heap_start h' = heap_start h;
  ins_end : heap_end h' = heap_end h;
}.

Section insert.
Context (a n : Z) (Han : node_ok (a, n)).

(** The situation of the loop: the regions from the previous node on. *)
Definition insert_pre (P R : list region) (h : BucketAllocator) : Prop :=
  large_ok (P ++ R) ∧ Forall (disj (a, n)) (P ++ R) ∧ (length P ≤ 1)%nat ∧
  Forall (λ x, x.1 < a) P ∧ lchain (mem h) (list_head P h) (P ++ R) ∧
  read64 (mem h) (size_field a) = n.

Lemma link_wp P R X h h0 m : insert_pre P R h →
  h0 = set_mem m h → untouched ((a, n) :: R) (mem h) m →
  lchain m a X → Forall (λ x, 16 ≤ x.2) X →
  Forall (λ x, Forall (disj x) P) X →
  wp (link (prev_addr P) a)
    (λ _ h', insert_effect P h h' ((a, n) :: P ++ R) (P ++ X)) h0.
Proof.
  intros (Hl & Hd & HP & HPa & Hch & _) -> Hm HX H16 Hsep. unfold link, node_ok in *.
  destruct P as [|[b k] [|]]; cbn in *; [| |lia].
  - split; try done.
  - apply Forall_cons in HPa as [Hb _]. cbn in Hb.
    apply large_ok_cons in Hl as ((? & ? & ?) & _ & _ & HbR & _).
    apply Forall_cons in Hd as [Hab _]. destruct Hch as (_ & _ & Hk & _).
    rewrite decide_False by lia. apply wp_save. split; try done; cbn.
    + split_and!; [done|lia| |].
      * rewrite read64_write64_ne by (unfold size_field, next_field; lia).
        rewrite (read64_same (mem h)); [done|]. apply Hm; [lia|].
        replace (size_field b + 8 - size_field b) with 8 by lia.
        constructor; [unfold disj, size_field in *; cbn in *; lia|].
        eapply Forall_impl; [exact HbR|]. intros y. apply disj_inside.
        unfold inside, size_field. cbn. lia.
      * rewrite read64_write64_eq by (unfold fits; lia).
        eapply (untouched_lchain [(b, k)]); [|done|done|exact HX].
        eapply (untouched_write64 _ _ _ _ _ (b, k));
          [apply untouched_refl|set_solver|cbn; unfold next_field; lia..].
    + eapply (untouched_write64 _ _ _ _ _ (b, k)); [|set_solver|cbn; unfold next_field; lia..].
      eapply untouched_mono; [exact Hm|set_solver].
Qed.

Definition first_addr (R : list region) : Z := match R with [] => 0 | (c, _) :: _ => c end.

Lemma insert_pre_cons P c j R h : insert_pre P ((c, j) :: R) h →
  (0 < c ∧ 16 ≤ j ∧ c + j ≤ 2 ^ 62) ∧ disj (a, n) (c, j) ∧ large_ok R ∧
  Forall (λ x, 16 ≤ x.2) R ∧ Forall (disj (c, j)) R ∧ Forall (disj (a, n)) R ∧
  Forall (λ x, Forall (disj x) P) ((c, j) :: R) ∧ Forall (λ x, 16 ≤ x.2) P.
Proof.
  intros ([Hf Hs] & Hd & _).
  apply Forall_app in Hf as [HfP HfR]. apply Forall_app in Hd as [_ [? ?]%Forall_cons].
  apply sep_app in Hs as (_ & HsR & Hx).
  destruct (large_ok_cons c j R) as (? & _ & _ & ? & ? & ?); [by split|].
  do 6 (split; [done|]). split; [by apply clear_sym|].
  eapply Forall_impl; [exact HfP|]. intros x [(_ & ? & _) _]. done.
Qed.

Lemma insert_pre_chain P R h : insert_pre P R h → ∃ p, lchain (mem h) p R ∧ p = first_addr R ∧
  (P = [] → large_next h = p) ∧
  (∀ b k, P = [(b, k)] → read64 (mem h) (next_field b) = p ∧ read64 (mem h) (size_field b) = k).
Proof.
  intros (_ & _ & HP & _ & Hch & _). destruct P as [|[b k] [|]]; cbn in *; [| |lia].
  - exists (large_next h). split_and!; try done. by destruct R as [|[c j] R]; [|destruct Hch].
  - destruct Hch as (_ & _ & Hk & Hch). exists (read64 (mem h) (next_field b)). split_and!; try done.
    + by destruct R as [|[c j] R]; [|destruct Hch].
    + intros b' k' [= <- <-]. done.
Qed.

(** What lies in the place of the new region keeps clear of the others. *)
Lemma new_clear P R h : insert_pre P R h →
  Forall (λ x, Forall (disj x) P) [(a, n)] ∧ Forall (λ x, Forall (disj x) P) R.
Proof.
  intros ([Hf Hs] & Hd & _). apply Forall_app in Hd as [HdP _].
  apply sep_app in Hs as (_ & _ & Hx). split; [by constructor|].
  by apply clear_sym.
Qed.

Lemma merge_curr_wp P R h : insert_pre P R h →
  wp (merge_curr a n (prev_addr P) (first_addr R))
    (λ _ h', insert_effect P h h' ((a, n) :: P ++ R) (P ++ place a n R)) h.
Proof.
  intros Hpre. pose proof Hpre as (_ & _ & _ & _ & _ & Hsz).
  destruct (insert_pre_chain _ _ _ Hpre) as (p & Hch & -> & _).
  destruct (new_clear _ _ _ Hpre) as [Hca HcR].
  unfold merge_curr, node_ok in *. cbn in Han.
  destruct R as [|[c j] R]; cbn [first_addr place] in *.
  - rewrite decide_False by naive_solver. heap_step.
    eapply link_wp; [exact Hpre|reflexivity|touch (a, n)| |by repeat constructor; cbn; lia|done].
    cbn. rewrite read64_write64_ne, read64_write64_eq by (unfold fits, size_field, next_field; lia).
    split_and!; [done|lia|done..].
  - destruct (insert_pre_cons _ _ _ _ _ Hpre) as ((? & ? & ?) & Hac & HlR & H16 & HcR' & HaR & _).
    destruct Hch as (_ & Hc0 & Hj & Hch). rewrite wadd_small by lia.
    unfold disj in Hac; cbn in Hac.
    assert (Forall (λ x, Forall (disj x) [(a, n); (c, j)]) R) as Hboth.
    { rewrite Forall_forall in *. intros x Hx.
      constructor; [by apply disj_sym, HaR|]. constructor; [by apply disj_sym, HcR'|done]. }
    destruct (decide (a + n = c)) as [Heq|Hne].
    + rewrite decide_True by lia. do 3 heap_step.
      rewrite !read64_write64_ne by (unfold size_field, next_field; lia).
      rewrite Hj, wadd_small by lia. heap_step.
      eapply link_wp; [exact Hpre|reflexivity| | | |].
      * eapply untouched_write64 with (x := (a, n)); [|set_solver|cbn; unfold next_field; lia..].
        eapply untouched_write64 with (x := (a, n)); [|set_solver|cbn; unfold size_field; lia..].
        touch (c, j).
      * set (m := write64 _ _ (read64 _ _)).
        assert (untouched [(a, n); (c, j)] (mem h) m) as Hum.
        { eapply untouched_write64 with (x := (a, n)); [|set_solver|cbn; unfold next_field; lia..].
          eapply untouched_write64 with (x := (a, n)); [|set_solver|cbn; unfold size_field; lia..].
          touch (c, j). }
        assert (read64 m (size_field a) = n + j) as E1 by (unfold m; by mem_simpl).
        assert (read64 m (next_field a) = read64 (mem h) (next_field c)) as E2.
        { unfold m. rewrite read64_write64, wrap_id; [done|].
          destruct R as [|[d i] R]; [by cbn in Hch; rewrite Hch|].
          destruct Hch as (-> & _). apply large_ok_cons in HlR as ((? & ? & ?) & _).
          unfold fits. lia. }
        cbn. rewrite E1, E2. split_and!; [done|lia|done|].
        eapply (untouched_lchain [(a, n); (c, j)]); [exact Hum|done..].
      * constructor; [cbn; lia|done].
      * apply Forall_cons in HcR as [Hc1 Hc2]. constructor; [|done].
        apply Forall_cons in Hca as [Ha1 _]. rewrite Forall_forall in *. intros y Hy.
        specialize (Hc1 y Hy). specialize (Ha1 y Hy).
        destruct (insert_pre_cons _ _ _ _ _ Hpre) as (_ & _ & _ & _ & _ & _ & _ & HP16).
        rewrite Forall_forall in HP16. specialize (HP16 y Hy).
        unfold disj in *. cbn in *. lia.
    + rewrite decide_False by lia. heap_step.
      eapply link_wp; [exact Hpre|reflexivity|touch (a, n)| | |].
      * cbn. rewrite read64_write64_ne, read64_write64_eq by (unfold fits, size_field, next_field; lia).
        split_and!; [done|lia|done|done|lia| |].
        { rewrite read64_write64_ne by (unfold size_field, next_field; lia). done. }
        rewrite read64_write64_ne by (unfold size_field, next_field; lia).
        eapply (untouched_lchain [(a, n); (c, j)] (mem h)); [touch (a, n)|done..].
      * repeat constructor; [cbn; lia..|done].
      * apply Forall_cons in Hca as [Ha1 _]. by constructor.
Qed.

Lemma merge_prev_wp b k R h : insert_pre [(b, k)] R h → b + k = a →
  wp (merge_prev n b (first_addr R))
    (λ _ h', insert_effect [(b, k)] h h' ((a, n) :: (b, k) :: R) (place b (k + n) R)) h.
Proof.
  intros Hpre Hbk. pose proof Hpre as (Hl & _ & _ & _ & Hchain & _).
  destruct (insert_pre_chain _ _ _ Hpre) as (p & Hch & -> & _ & Hb).
  destruct (Hb b k eq_refl) as [Hnext Hk]. clear Hb. unfold node_ok in Han. cbn in Han.
  apply large_ok_cons in Hl as ((? & ? & ?) & _ & _ & HbR & HlR & H16).
  unfold merge_prev. do 2 heap_step. rewrite Hk, wadd_small by lia.
  set (m1 := write64 (mem h) (size_field b) (k + n)).
  assert (read64 m1 (size_field b) = k + n) as Hs1 by (unfold m1; by mem_simpl).
  assert (read64 m1 (next_field b) = first_addr R) as Hn1 by (unfold m1; by mem_simpl).
  assert (untouched [(b, k)] (mem h) m1) as Hu1 by (unfold m1; touch (b, k)).
  assert (lchain m1 (first_addr R) R) as Hch1.
  { eapply (untouched_lchain [(b, k)]); [exact Hu1|done| |done].
    eapply Forall_impl; [exact HbR|]. intros y Hy. constructor; [by apply disj_sym|done]. }
  assert (∀ X, lchain m1 b X →
    insert_effect [(b, k)] h (set_mem m1 h) ((a, n) :: (b, k) :: R) X) as Hdone.
  { intros X HX. split; try done. eapply untouched_mono; [exact Hu1|set_solver]. }
  destruct R as [|[c j] R]; cbn [first_addr place] in *.
  { rewrite decide_True by done. apply wp_ret, Hdone. cbn. rewrite Hs1, Hn1. split_and!; [done|lia|done..]. }
  destruct (insert_pre_cons _ _ _ _ _ Hpre) as ((? & ? & ?) & Hac & _ & H16' & HcR & _).
  rewrite decide_False by lia. heap_step. rewrite Hs1, wadd_small by lia.
  destruct (decide (b + (k + n) = c)) as [Heq|Hne].
  - destruct Hch1 as (_ & _ & Hj & Hch1). do 4 heap_step.
    rewrite Hs1, Hj, wadd_small by lia. set (m2 := write64 m1 (size_field b) (k + n + j)).
    assert (read64 m2 (next_field c) = read64 m1 (next_field c)) as Hn2
      by (unfold m2; mem_simpl; done).
    rewrite Hn2. heap_step. set (m3 := write64 (write64 m2 (next_field c) 0) (next_field b) _).
    assert (read64 m3 (size_field b) = k + n + j) as E1 by (unfold m3, m2; by mem_simpl).
    assert (fits 64 (read64 m1 (next_field c))) as Hfn.
    { destruct R as [|[d i] R]; [by cbn in Hch1; rewrite Hch1|].
      destruct Hch1 as (-> & _). destruct (large_ok_cons _ _ _ HlR) as (_ & _ & _ & _ & HlR' & _).
      apply large_ok_cons in HlR' as ((? & ? & ?) & _). unfold fits. lia. }
    assert (read64 m3 (next_field b) = read64 m1 (next_field c)) as E2
      by (unfold m3; by apply read64_write64_eq).
    assert (untouched [(b, k); (c, j)] m1 m3) as Hu3.
    { unfold m3, m2. eapply (untouched_write64 _ _ _ _ _ (b, k)); [|set_solver|cbn; unfold next_field; lia..].
      eapply (untouched_write64 _ _ _ _ _ (c, j)); [|set_solver|cbn; unfold next_field; lia..].
      touch (b, k). }
    assert (lchain m3 b ((b, k + n + j) :: R)) as Hch3.
    { cbn. rewrite E1, E2. split_and!; [done|lia|done|].
      eapply (untouched_lchain [(b, k); (c, j)] m1); [exact Hu3|done| |exact Hch1].
      apply Forall_cons in HbR as [_ HbR]. rewrite Forall_forall in *. intros y Hy.
      constructor; [by apply disj_sym, HbR|]. constructor; [by apply disj_sym, HcR|done]. }
    split; try done.
    cbn. eapply untouched_trans; [eapply untouched_mono; [exact Hu1|set_solver]|].
    eapply untouched_mono; [exact Hu3|set_solver].
  - apply wp_ret, Hdone.
    split; [done|]. split; [lia|]. split; [exact Hs1|]. by rewrite Hn1.
Qed.

Lemma insert_free_wp P R h : insert_pre P R h → a < head_addr R →
  wp (insert_free a n (prev_addr P) (first_addr R))
    (λ _ h', insert_effect P h h' ((a, n) :: P ++ R) (insert_region a n (P ++ R))) h.
Proof.
  intros Hpre Hhd. pose proof Hpre as (Hl & _ & HP & HPa & _ & _).
  assert (insert_region a n R = place a n R) as Hplace.
  { destruct R as [|[c j] R]; [done|]. cbn in Hhd |- *. by rewrite decide_True by done. }
  unfold insert_free. destruct P as [|[b k] [|]]; cbn in HP |- *; [| |lia].
  - rewrite decide_True, Hplace by done. by apply (merge_curr_wp []).
  - destruct (insert_pre_chain _ _ _ Hpre) as (p & _ & _ & _ & Hb).
    destruct (Hb b k eq_refl) as [_ Hk]. apply Forall_cons in HPa as [Hba _]. cbn in Hba.
    apply large_ok_cons in Hl as ((? & ? & ?) & _).
    rewrite decide_False by lia. heap_step. rewrite Hk, wadd_small by lia.
    rewrite (decide_False (P:=a < b)), (decide_False (P:=a = b)) by lia.
    destruct (decide (b + k = a)) as [Heq|Hne].
    + rewrite decide_True by done. by apply merge_prev_wp.
    + rewrite decide_False by tauto. rewrite Hplace. by apply (merge_curr_wp [(b, k)]).
Qed.

Lemma insert_region_skip b k c j R : b < a → c ≤ a →
  insert_region a n ((b, k) :: (c, j) :: R) = (b, k) :: insert_region a n ((c, j) :: R).
Proof.
  intros. change (insert_region a n ((b, k) :: (c, j) :: R)) with
    (if decide (a < b) then place a n ((b, k) :: (c, j) :: R)
     else if decide (a = b) then (b, k) :: (c, j) :: R
     else if decide (b + k = a ∧ a < c) then place b (k + n) ((c, j) :: R)
     else (b, k) :: insert_region a n ((c, j) :: R)).
  by rewrite !decide_False by lia.
Qed.

(** The loop of [dealloc_large] inserts the region; it ends with the list. *)
Lemma dealloc_from_wp fuel P R h : insert_pre P R h → (length R < fuel)%nat →
  wp (dealloc_from fuel a n (prev_addr P) (first_addr R))
    (λ _ h', insert_effect P h h' ((a, n) :: P ++ R) (insert_region a n (P ++ R))) h.
Proof.
  revert P R h. induction fuel as [|fuel IH]; intros P R h Hpre Hf; [lia|].
  pose proof Hpre as (Hl & Hd & HP & HPa & Hchain & Hsz). cbn [dealloc_from].
  unfold node_ok in Han. cbn in Han.
  destruct (decide (a < head_addr R)) as [Hlt|Hge].
  { rewrite decide_True.
    - by apply insert_free_wp.
    - destruct R as [|[c j] R]; [done|]. destruct (insert_pre_cons _ _ _ _ _ Hpre) as ((? & _) & _).
      cbn. by rewrite decide_False by lia. }
  destruct R as [|[c j] R]; [exfalso; cbn in Hge; unfold USIZE_MAX in Hge; lia|].
  destruct (insert_pre_cons _ _ _ _ _ Hpre)
    as ((? & ? & ?) & Hac & HlR & H16 & HcR & HaR & HclR & HP16).
  destruct (insert_pre_chain _ _ _ Hpre) as (p & Hch & -> & Hhd & Hb).
  destruct Hch as (_ & _ & Hj & Hch). cbn [head_addr] in Hge. cbn [first_addr] in *.
  assert (c < a) as Hca by (unfold disj in Hac; cbn in Hac; lia).
  rewrite !(decide_False (P:=c = 0)) by lia.
  rewrite (decide_False (P:=a < c)), (decide_False (P:=a = c)) by lia. heap_step.
  assert (insert_pre [(c, j)] R h) as Hpre'.
  { split; [split; [destruct Hl as [Hl _]; apply Forall_app in Hl as [_ Hl]; exact Hl|]|].
    { split; [exact HcR|exact (proj2 HlR)]. }
    split; [by constructor|]. split; [cbn; lia|]. split; [by constructor|].
    split; [|done]. cbn. split_and!; [done|lia|done|done]. }
  replace (read64 (mem h) (next_field c)) with (first_addr R)
    by (destruct (insert_pre_chain _ _ _ Hpre') as (q & _ & -> & _ & Hq); by rewrite (proj1 (Hq c j eq_refl))).
  eapply wp_mono; [apply (IH [(c, j)] R h Hpre'); cbn in Hf; lia|].
  intros _ h' [E1 E2 E3 E4 E5 E6 E7]. cbn [list_head app] in E1.
  specialize (E4 ltac:(done)).
  assert (Forall (λ x, Forall (disj x) ((a, n) :: [(c, j)] ++ R)) P) as HPc.
  { apply clear_sym. apply Forall_app in Hd as [HdP _]. by constructor. }
  split; try done.
  - destruct P as [|[b k] [|]]; [| |cbn in HP; lia].
    + cbn [app list_head]. rewrite E4, (Hhd eq_refl). exact E1.
    + destruct (Hb b k eq_refl) as [Hnb Hkb].
      apply Forall_cons in HPa as [Hba _]. cbn in Hba. apply Forall_cons in HP16 as [Hk16 _].
      cbn in Hk16. apply Forall_cons in HPc as [HPc _].
      assert (∀ x, x = b ∨ x = b + 8 → read64 (mem h') x = read64 (mem h) x) as Hsame.
      { intros x Hx. apply read64_same, E2; [lia|]. eapply Forall_impl; [exact HPc|].
        intros y. apply disj_inside. unfold inside. cbn. lia. }
      cbn [app]. rewrite insert_region_skip by lia. cbn [list_head lchain]. unfold size_field, next_field in *.
      rewrite !Hsame by auto. rewrite Hnb, Hkb. split_and!; [done| |done|exact E1].
      destruct Hl as [Hl _]. apply Forall_cons in Hl as [[(? & _) _] _]. cbn in *. lia.
  - eapply untouched_mono; [exact E2|set_solver].
Qed.
End insert.
