(* ===== verification/HeapProps.v ===== *)
(** * The kernel heap: exclusive ownership

    [heap_ok] ties the state of the allocator to the free regions and the live
    blocks of the clients, which never overlap.  It is kept by every step of
    clients whose small requests are served by a bucket and whose large ones
    are multiples of 16 bytes.  The two theorems at the end show what happens
    to other clients. *)
From stdpp Require Import relations.
From S2P Require Import Prelude Words Memory Heap HeapLists.
Local Open Scope Z_scope.

#[local] Arguments wadd : simpl never.
#[local] Arguments wsub : simpl never.
#[local] Arguments wrap : simpl never.

(** ** The list operations keep regions apart *)

Section regions.
Context (P : region → Prop).
Context (P_join : ∀ a n j, P (a, n) → P (a + n, j) → P (a, n + j)).
Context (P_part : ∀ a n s sz, P (a, n) → a ≤ s → s + sz ≤ a + n → 16 ≤ sz → (16 | s) → (16 | sz) →
  P (s, sz)).

Lemma place_Forall a n R : P (a, n) → Forall P R → Forall P (place a n R).
Proof.
  intros Ha HR. destruct R as [|[c j] R]; cbn; [by constructor|].
  apply Forall_cons in HR as [Hc HR]. case_decide; subst; repeat constructor; auto.
Qed.

Lemma insert_region_Forall a n R : P (a, n) → Forall P R → Forall P (insert_region a n R).
Proof using P_join.
  intros Ha HR. induction HR as [|[b k] R Hb HR IH]; cbn; [by constructor|].
  case_decide as E1; [change (Forall P (place a n ((b, k) :: R))); apply place_Forall; [done|by constructor]|].
  case_decide as E2; [by constructor|]. case_decide as E3; [|by constructor].
  apply place_Forall; [|done]. destruct E3 as [<- _]. auto.
Qed.

Lemma pieces_Forall a n s sz : P (a, n) → a ≤ s → s + sz ≤ a + n → 16 ≤ sz →
  (16 | a) → (16 | n) → (16 | s) → (16 | sz) → Forall P (pieces a n s sz).
Proof using P_part.
  intros Ha ? ? ? [x Hx] [y Hy] [z Hz] [w Hw]. unfold pieces, LARGE_NODE_SIZE.
  case_decide; [|constructor]. apply Forall_app. split.
  - case_decide; [constructor|]. constructor; [|done]. apply (P_part a n); try done; try lia.
    + by exists x.
    + exists (z - x). lia.
  - constructor; [|done]. apply (P_part a n); try done; try lia.
    + exists (z + w). lia.
    + exists (x + y - (z + w)). lia.
Qed.
End regions.

Lemma place_sep a n R l : 0 < n → Forall (λ x, 0 < x.2) (R ++ l) →
  sep ((a, n) :: R ++ l) → sep (place a n R ++ l).
Proof.
  intros Hn Hp Hs. destruct R as [|[c j] R]; cbn [place]; [done|].
  case_decide as Hc; [|done]. subst c. cbn in Hp. apply Forall_cons in Hp as [Hj Hp]. cbn in Hj.
  by apply (sep_join a n j (R ++ l)); [lia..| |].
Qed.

Lemma insert_region_sep a n R l : 0 < n → Forall (λ x, 0 < x.2) (R ++ l) →
  sep ((a, n) :: R ++ l) → sep (insert_region a n R ++ l).
Proof.
  intros Hn. revert l. induction R as [|[b k] R IH]; intros l Hp Hs; [done|]. cbn [insert_region].
  case_decide as E1; [by apply place_sep|].
  pose proof Hp as [Hk Hp']%Forall_cons. cbn in Hk.
  pose proof Hs as [[Hab _]%Forall_cons _]. unfold disj in Hab. cbn in Hab.
  case_decide as E2; [lia|]. case_decide as E3.
  - destruct E3 as [<- _]. apply place_sep; [lia|done|].
    apply (sep_join b k n (R ++ l)); [lia..|done|]. by rewrite perm_swap.
  - cbn [app]. rewrite Permutation_middle. apply IH.
    + by rewrite <- Permutation_middle.
    + by rewrite <- Permutation_middle.
Qed.

(** Taking from the large list: the block and what remains are parts of what
    was there. *)
Lemma pieces_sep a n s sz : a ≤ s → s + sz ≤ a + n → 0 < sz →
  sep ((s, sz) :: pieces a n s sz) ∧
  Forall (λ x, inside x (a, n)) ((s, sz) :: pieces a n s sz).
Proof.
  intros. unfold pieces, LARGE_NODE_SIZE, inside.
  case_decide; [case_decide|]; cbn; (split; [|repeat constructor; cbn; lia]);
    repeat split; try repeat constructor; unfold disj; cbn; lia.
Qed.

Lemma first_fit_facts sz al R s R' l : request_ok sz al →
  Forall (λ x, node_ok x ∧ (16 | x.1) ∧ (16 | x.2)) R →
  first_fit sz al R = Some (s, R') → sep (R ++ l) →
  sep ((s, sz) :: R' ++ l) ∧ (al | s) ∧ (16 | s) ∧ ∃ x, x ∈ R ∧ inside (s, sz) x.
Proof.
  intros (Hsz & Hdz & k & Hk & -> & Hsum) HR. revert l R'.
  induction HR as [|[a n] R [Hn [Ha Hd]] HR IH]; intros l R'; cbn [first_fit]; [done|].
  unfold node_ok in Hn. cbn in Hn, Ha, Hd.
  destruct (align_up_16 a k) as (Hup & Hal & H16); [lia..|done|].
  case_decide as Hfit.
  - intros [= <- <-] Hs. destruct (pieces_sep a n (align_up a (2 ^ k)) sz) as [Hp1 Hp2]; [lia..|].
    split_and!; [|done|done|].
    + rewrite <- app_assoc. exact (sep_replace (a, n) _ _ Hs Hp1 Hp2).
    + exists (a, n). split; [set_solver|]. unfold inside. cbn. lia.
  - intros ([s' R''] & E & [= <- <-])%bind_Some Hs.
    destruct (IH ((a, n) :: l) R'' E) as (H1 & H2 & H3 & x & Hx & Hin).
    + by rewrite <- Permutation_middle.
    + split_and!; try done; [|exists x; split; [set_solver|done]].
      cbn [app]. by rewrite Permutation_middle.
Qed.

Lemma first_fit_Forall (P : region → Prop) sz al R s R' : request_ok sz al →
  (∀ a n s sz, P (a, n) → a ≤ s → s + sz ≤ a + n → 16 ≤ sz → (16 | s) → (16 | sz) → P (s, sz)) →
  Forall (λ x, node_ok x ∧ (16 | x.1) ∧ (16 | x.2)) R → Forall P R →
  first_fit sz al R = Some (s, R') → P (s, sz) ∧ Forall P R'.
Proof.
  intros (Hsz & Hdz & k & Hk & -> & Hsum) Hpart HR HP. revert R'.
  induction HR as [|[a n] R [Hn [Ha Hd]] HR IH]; intros R'; cbn [first_fit]; [done|].
  unfold node_ok in Hn. cbn in Hn, Ha, Hd. apply Forall_cons in HP as [HPa HP].
  destruct (align_up_16 a k) as (Hup & Hal & H16); [lia..|done|].
  case_decide as Hfit.
  - intros [= <- <-]. split; [by apply (Hpart a n); try lia|].
    apply Forall_app. split; [|done]. apply pieces_Forall; try done; lia.
  - intros ([s' R''] & E & [= <- <-])%bind_Some.
    destruct (IH HP R'' E) as [H1 H2]. split; [done|]. by constructor.
Qed.

(** ** The invariant *)

(** The bytes the allocator sets aside for a request. *)
Definition reserved (lay : Layout) : Z :=
  match bucket_index (Z.max (size lay) 8) with
  | Some i => BUCKET_SIZES !!! i
  | None => Z.max (size lay) 8
  end.
Definition live (L : list (Z * Layout)) : list region := (λ b, (b.1, reserved b.2)) <$> L.

(** What [Layout] guarantees. *)
Definition layout_ok (lay : Layout) : Prop :=
  0 ≤ size lay ∧ (∃ k, 0 ≤ k < 63 ∧ align lay = 2 ^ k) ∧ size lay + align lay ≤ 2 ^ 63.
(** Requests the buckets are made for, and large ones in multiples of 16. *)
Definition tame (lay : Layout) : Prop :=
  match bucket_index (Z.max (size lay) 8) with
  | Some i => Z.max (align lay) 8 ≤ BUCKET_SIZES !!! i
  | None => (16 | size lay)
  end.
(** The bucket of a small request has a free block. *)
Definition served (h : BucketAllocator) (lay : Layout) : Prop :=
  match bucket_index (Z.max (size lay) 8) with
  | Some i => ∃ b, buckets h !! i = Some b ∧ free_list b ≠ 0
  | None => True
  end.

Fixpoint bucket_regions (sizes : list Z) (F : list (list Z)) : list region :=
  match sizes, F with
  | n :: sizes, l :: F => ((λ a, (a, n)) <$> l) ++ bucket_regions sizes F
  | _, _ => []
  end.

Definition bucket_ok (m : memory) (n : Z) (b : Bucket) (l : list Z) : Prop :=
  block_size b = n ∧ bchain m (free_list b) l ∧ free_blocks b = length l ∧
  Forall (λ a, (n | a)) l.

Definition regions (F : list (list Z)) (R : list region) (L : list (Z * Layout)) : list region :=
  bucket_regions BUCKET_SIZES F ++ R ++ live L.

(** A live block: aligned as requested, and so that it can be freed. *)
Definition block_ok (b : Z * Layout) : Prop :=
  layout_ok b.2 ∧ tame b.2 ∧ (align b.2 | b.1) ∧
  match bucket_index (Z.max (size b.2) 8) with
  | Some i => (BUCKET_SIZES !!! i | b.1)
  | None => (16 | b.1)
  end.

Record heap_ok (start : Z) (h : BucketAllocator) (F : list (list Z)) (R : list region)
    (L : list (Z * Layout)) : Prop := {
  ok_start : heap_start h = start;
  ok_end : heap_end h = start + HEAP_SIZE;
  ok_bounds : 0 < start ∧ start + HEAP_SIZE ≤ 2 ^ 62;
  ok_len : length (buckets h) = BUCKET_COUNT ∧ length F = BUCKET_COUNT;
  ok_buckets i n b l : BUCKET_SIZES !! i = Some n → buckets h !! i = Some b → F !! i = Some l →
    bucket_ok (mem h) n b l;
  ok_large : lchain (mem h) (large_next h) R;
  ok_16 : Forall (λ x, 16 ≤ x.2 ∧ (16 | x.1) ∧ (16 | x.2)) R;
  ok_sep : sep (regions F R L);
  ok_in : Forall (λ x, 0 < x.2 ∧ inside x (start, HEAP_SIZE)) (regions F R L);
  ok_live : Forall block_ok L;
  ok_used : used h = total_size (live L);
}.

Lemma bucket_index_Some sz i : bucket_index sz = Some i →
  ∃ n, BUCKET_SIZES !! i = Some n ∧ BUCKET_SIZES !!! i = n ∧ sz ≤ n ∧ 8 ≤ n ≤ 2048.
Proof.
  unfold bucket_index. intros ([j n] & E & ->)%fmap_Some. apply list_find_Some in E as (E & Hn & _). cbn.
  exists n. split_and!; [done|by apply list_lookup_total_correct|done|..];
    repeat (destruct j as [|j]; [injection E as <-; lia|]); done.
Qed.

Lemma bucket_index_None sz : bucket_index sz = None → 2048 < sz.
Proof.
  unfold bucket_index. intros H%fmap_None. apply list_find_None in H.
  rewrite Forall_forall in H. specialize (H 2048 ltac:(set_solver)). lia.
Qed.

Lemma bucket_regions_split sizes F i n l : sizes !! i = Some n → F !! i = Some l →
  ∃ rest, ∀ l', bucket_regions sizes (<[i := l']> F) ≡ₚ ((λ a, (a, n)) <$> l') ++ rest.
Proof.
  revert F i. induction sizes as [|k sizes IH]; intros [|l0 F] [|i] Hn Hl; try done; cbn in *.
  - injection Hn as ->. by exists (bucket_regions sizes F).
  - destruct (IH F i Hn Hl) as [rest Hrest]. exists (((λ a, (a, k)) <$> l0) ++ rest).
    intros l'. rewrite Hrest. by rewrite Permutation_app_swap_app.
Qed.

Lemma bucket_regions_elem sizes F i n l a : sizes !! i = Some n → F !! i = Some l → a ∈ l →
  (a, n) ∈ bucket_regions sizes F.
Proof.
  intros Hn Hl Ha. destruct (bucket_regions_split _ _ _ _ _ Hn Hl) as [rest H].
  specialize (H l). rewrite list_insert_id in H by done. rewrite H.
  apply elem_of_app. left. apply list_elem_of_fmap. by exists a.
Qed.

Lemma total_size_perm l l' : l ≡ₚ l' → total_size l = total_size l'.
Proof. induction 1; unfold total_size in *; cbn; lia. Qed.
Lemma total_size_app l l' : total_size (l ++ l') = total_size l + total_size l'.
Proof. unfold total_size. induction l; cbn in *; lia. Qed.
Lemma total_size_nonneg l : Forall (λ x, 0 < x.2) l → 0 ≤ total_size l.
Proof. unfold total_size. induction 1; cbn in *; lia. Qed.

Definition in_heap (start : Z) (x : region) : Prop := 0 < x.2 ∧ inside x (start, HEAP_SIZE).

Lemma in_heap_pos start l : Forall (in_heap start) l → Forall (λ x, 0 < x.2) l.
Proof. intros H. eapply Forall_impl; [exact H|]. by intros x []. Qed.

(** Regions that do not overlap fit into the heap together. *)
Lemma sep_fits start l l' : sep (l ++ l') → Forall (in_heap start) (l ++ l') →
  0 ≤ total_size l' ≤ HEAP_SIZE.
Proof.
  intros Hs Hin. assert (total_size (l ++ l') ≤ start + HEAP_SIZE - start).
  { apply sep_total; [unfold HEAP_SIZE; lia|done|].
    eapply Forall_impl; [exact Hin|]. intros x [? ?]. unfold inside in *. cbn in *. lia. }
  apply Forall_app in Hin as [H1 H2]. rewrite total_size_app in *.
  pose proof (total_size_nonneg l (in_heap_pos _ _ H1)).
  pose proof (total_size_nonneg l' (in_heap_pos _ _ H2)). lia.
Qed.

Section invariant.
Context {start h F R L} (Hok : heap_ok start h F R L).

Lemma ok_sep_parts : sep (bucket_regions BUCKET_SIZES F) ∧ sep (R ++ live L) ∧
  Forall (λ x, Forall (disj x) (R ++ live L)) (bucket_regions BUCKET_SIZES F).
Proof. by apply sep_app, Hok. Qed.

Lemma ok_large_list : large_ok R.
Proof.
  destruct ok_sep_parts as (_ & [HR _]%sep_app & _). split; [|done].
  pose proof (ok_in _ _ _ _ _ Hok) as Hin. unfold regions in Hin.
  apply Forall_app in Hin as [_ [Hin _]%Forall_app]. pose proof (ok_16 _ _ _ _ _ Hok) as H16.
  pose proof (ok_bounds _ _ _ _ _ Hok) as Hb.
  rewrite Forall_forall in *. intros x Hx. specialize (Hin x Hx). specialize (H16 x Hx).
  unfold node_ok, inside in *. cbn in Hin. split; [lia|tauto].
Qed.

Lemma ok_fuel : (length R < list_fuel h)%nat.
Proof.
  unfold list_fuel. rewrite (ok_start _ _ _ _ _ Hok), (ok_end _ _ _ _ _ Hok).
  pose proof (ok_in _ _ _ _ _ Hok) as Hin. pose proof (ok_sep _ _ _ _ _ Hok) as Hs.
  unfold regions in *. apply sep_app in Hs as (_ & Hs & _). apply Forall_app in Hin as [_ Hin].
  rewrite Permutation_app_comm in Hs, Hin. apply (sep_fits start) in Hs; [|done].
  assert (16 * length R ≤ total_size R) as Hlen.
  { pose proof (ok_16 _ _ _ _ _ Hok) as H16. clear -H16. unfold total_size.
    induction H16 as [|x R [H _] _ IH]; cbn in *; lia. }
  unfold LARGE_NODE_SIZE. replace (start + HEAP_SIZE - start) with HEAP_SIZE by lia.
  unfold HEAP_SIZE in *. lia.
Qed.

(** Writes into large regions and live blocks leave the buckets alone. *)
Lemma ok_buckets_untouched m' i n b l : untouched (R ++ live L) (mem h) m' →
  BUCKET_SIZES !! i = Some n → buckets h !! i = Some b → F !! i = Some l → bucket_ok m' n b l.
Proof.
  intros Hu Hn Hb Hl. destruct (ok_buckets _ _ _ _ _ Hok _ _ _ _ Hn Hb Hl) as (? & Hch & ? & ?).
  split_and!; try done. destruct ok_sep_parts as (_ & _ & Hd). eapply bchain_same; [|exact Hch].
  apply Forall_forall. intros a Ha. apply Hu; [lia|]. rewrite Forall_forall in Hd.
  specialize (Hd (a, n) (bucket_regions_elem _ _ _ _ _ _ Hn Hl Ha)). cbn beta in Hd.
  eapply Forall_impl; [exact Hd|]. intros y. apply disj_inside. unfold inside. cbn.
  repeat (destruct i as [|i]; [injection Hn as <-; lia|]); done.
Qed.
End invariant.

(** ** Allocation *)

Lemma bucket_align i n k p : BUCKET_SIZES !! i = Some n → 0 ≤ k → 2 ^ k ≤ n → (n | p) → (2 ^ k | p).
Proof.
  intros Hn Hk Hle Hd. assert (n = 2 ^ (3 + Z.of_nat i)) as ->
    by (repeat (destruct i as [|i]; [by injection Hn as <-|]); done).
  etrans; [|exact Hd]. apply Z.pow_le_mono_r_iff in Hle; [|lia..].
  exists (2 ^ (3 + i - k)). rewrite <- Z.pow_add_r by lia. f_equal. lia.
Qed.

(** Sizes set aside add up without overflow, in a bucket and altogether. *)
Lemma ok_count start F R L i n l : sep (regions F R L) → Forall (in_heap start) (regions F R L) →
  BUCKET_SIZES !! i = Some n → F !! i = Some l → (8 * length l ≤ HEAP_SIZE).
Proof.
  intros Hs Hin Hn Hl. destruct (bucket_regions_split _ _ _ _ _ Hn Hl) as [rest Hrest].
  specialize (Hrest l). rewrite list_insert_id in Hrest by done. unfold regions in *.
  rewrite Hrest, <- app_assoc, Permutation_app_comm in Hs, Hin.
  apply (sep_fits start) in Hs; [|done].
  assert (total_size ((λ a, (a, n)) <$> l) = n * length l) as E.
  { clear. unfold total_size. induction l; cbn in *; lia. }
  rewrite E in Hs.
  assert (8 ≤ n) by (clear -Hn; repeat (destruct i as [|i]; [injection Hn as <-; lia|]); done).
  nia.
Qed.

Lemma total_live_cons p lay L :
  total_size (live ((p, lay) :: L)) = reserved lay + total_size (live L).
Proof. done. Qed.

Lemma ok_total start F R L : sep (regions F R L) → Forall (in_heap start) (regions F R L) →
  0 ≤ total_size (live L) ≤ HEAP_SIZE.
Proof. intros Hs Hin. unfold regions in *. rewrite app_assoc in *. by apply (sep_fits start) in Hs. Qed.

Lemma heap_alloc_bucket start h F R L lay i : heap_ok start h F R L →
  bucket_index (Z.max (size lay) 8) = Some i → layout_ok lay → tame lay → served h lay →
  ∃ p h' F', global_alloc lay h = Done (p, h') ∧ p ≠ 0 ∧ heap_ok start h' F' R ((p, lay) :: L).
Proof.
  intros Hok Hi Hlay Ht Hs. pose proof Ht as Ht'. unfold tame in Ht'. rewrite Hi in Ht'.
  unfold served in Hs. rewrite Hi in Hs. destruct Hs as (b & Hb & Hfree).
  destruct (bucket_index_Some _ _ Hi) as (n & Hn & Hn' & Hsz & H8). rewrite Hn' in Ht'.
  destruct (ok_len _ _ _ _ _ Hok) as [Hlb HlF].
  destruct (lookup_lt_is_Some_2 F i) as [l Hl]; [apply lookup_lt_Some in Hb; lia|].
  destruct (ok_buckets _ _ _ _ _ Hok _ _ _ _ Hn Hb Hl) as (Hbs & Hch & Hcnt & Hal).
  destruct l as [|p l]; [by destruct Hfree|]. destruct Hch as (Hp & Hp0 & Hch).
  apply Forall_cons in Hal as [Hnp Hal]. 
  destruct (bucket_regions_split _ _ _ _ _ Hn Hl) as [rest Hrest].
  assert (reserved lay = n) as Hres by (unfold reserved; by rewrite Hi).
  assert (regions (<[i := l]> F) R ((p, lay) :: L) ≡ₚ regions F R L) as Hperm.
  { unfold regions. rewrite (Hrest l). rewrite <- (list_insert_id F i (p :: l)) by done.
    rewrite (Hrest (p :: l)). cbn. rewrite Hres. rewrite <- !app_assoc.
    by rewrite <- !Permutation_middle. }
  set (b' := mkBucket n (read64 (mem h) p) (total_blocks b) (wsub 64 (free_blocks b) 1)).
  set (h' := set_used (wadd 64 (used h) n) (set_bucket i b' h)).
  assert (sep (regions (<[i := l]> F) R ((p, lay) :: L))) as Hsep'
    by (rewrite Hperm; apply Hok).
  assert (Forall (in_heap start) (regions (<[i := l]> F) R ((p, lay) :: L))) as Hin'
    by (rewrite Hperm; apply Hok).
  exists p, h', (<[i := l]> F). split_and!; [|done|].
  - unfold global_alloc, alloc. cbn beta. rewrite Hi. unfold mbind, st_bind, get, lift.
    rewrite (index_done _ _ _ Hb). rewrite Hbs, decide_True by lia.
    unfold Bucket_alloc. rewrite decide_False by done. rewrite Hp. cbn. rewrite Hbs. done.
  - split; cbn; try apply Hok; try done.
    + by rewrite !length_insert.
    + intros j nj bj lj Hnj Hbj Hlj. destruct (decide (j = i)) as [->|Hne].
      * rewrite list_lookup_insert_eq in Hbj by (apply lookup_lt_Some in Hb; done).
        rewrite list_lookup_insert_eq in Hlj by (apply lookup_lt_Some in Hl; done).
        injection Hbj as <-. injection Hlj as <-. rewrite Hn in Hnj. injection Hnj as <-.
        pose proof (ok_count _ _ _ _ _ _ _ (ok_sep _ _ _ _ _ Hok) (ok_in _ _ _ _ _ Hok) Hn Hl) as Hlen.
        split_and!; try done. cbn. rewrite Hcnt. cbn in Hlen |- *. unfold HEAP_SIZE in Hlen.
        rewrite wsub_small; lia.
      * rewrite list_lookup_insert_ne in Hbj by done. rewrite list_lookup_insert_ne in Hlj by done.
        by eapply Hok.
    + constructor; [|apply Hok]. split_and!; [done|done| |].
      * cbn. destruct Hlay as (_ & (k & Hk & Hk2) & _). rewrite Hk2 in *.
        eapply bucket_align; [exact Hn|lia|lia|done].
      * cbn [fst snd]. by rewrite Hi, Hn'.
    + rewrite (ok_used _ _ _ _ _ Hok). pose proof (ok_total _ _ _ _ Hsep' Hin') as Htot.
      pose proof (ok_total _ _ _ _ (ok_sep _ _ _ _ _ Hok) (ok_in _ _ _ _ _ Hok)) as Htot0.
      rewrite total_live_cons in *. rewrite Hres in *. unfold HEAP_SIZE in *.
      change (wadd 64 (total_size (live L)) n = n + total_size (live L)).
      rewrite wadd_small; lia.
Qed.

(** Requests as the large list gets them. *)
Lemma tame_request lay : layout_ok lay → tame lay → bucket_index (Z.max (size lay) 8) = None →
  request_ok (Z.max (size lay) 8) (Z.max (align lay) 8) ∧
  (align lay | Z.max (align lay) 8) ∧ reserved lay = Z.max (size lay) 8.
Proof.
  intros (Hs & (k & Hk & Hk2) & Hsum) Ht Hi. unfold tame in Ht. unfold reserved. rewrite Hi in *.
  apply bucket_index_None in Hi. rewrite Hk2 in *.
  assert (Z.max (size lay) 8 = size lay) as Hmax by lia. rewrite Hmax in *.
  split_and!; [| |done].
  - split; [lia|]. split; [done|]. destruct (decide (k < 3)).
    + exists 3. assert (2 ^ k ≤ 2 ^ 2) by (apply Z.pow_le_mono_r; lia).
      change (2 ^ 2) with 4 in *. split; [lia|]. split; [change (2 ^ 3) with 8; lia|].
      pose proof (pow2_pos k). lia.
    + exists k. assert (2 ^ 3 ≤ 2 ^ k) by (apply Z.pow_le_mono_r; lia).
      change (2 ^ 3) with 8 in *. split; [lia|]. split; [lia|]. lia.
  - destruct (decide (k < 3)).
    + assert (2 ^ k ≤ 2 ^ 2) by (apply Z.pow_le_mono_r; lia). change (2 ^ 2) with 4 in *.
      rewrite Z.max_r by lia. exists (2 ^ (3 - k)). change 8 with (2 ^ 3).
      rewrite <- Z.pow_add_r by lia. f_equal. lia.
    + assert (2 ^ 3 ≤ 2 ^ k) by (apply Z.pow_le_mono_r; lia). change (2 ^ 3) with 8 in *.
      by rewrite Z.max_l by lia.
Qed.

Lemma in_heap_part start a n s sz : in_heap start (a, n) → a ≤ s → s + sz ≤ a + n → 16 ≤ sz →
  in_heap start (s, sz).
Proof. unfold in_heap, inside. cbn. lia. Qed.

Lemma regions_large F R L : regions F R L ≡ₚ R ++ bucket_regions BUCKET_SIZES F ++ live L.
Proof. unfold regions. by rewrite Permutation_app_swap_app. Qed.

Lemma heap_alloc_large start h F R L lay : heap_ok start h F R L →
  bucket_index (Z.max (size lay) 8) = None → layout_ok lay → tame lay →
  ∃ p h', global_alloc lay h = Done (p, h') ∧
    ((p = 0 ∧ h' = h) ∨ (p ≠ 0 ∧ ∃ R', heap_ok start h' F R' ((p, lay) :: L))).
Proof.
  intros Hok Hi Hlay Ht. destruct (tame_request lay Hlay Ht Hi) as (Hreq & Hal & Hres).
  set (sz := Z.max (size lay) 8) in *. set (al := Z.max (align lay) 8) in *.
  pose proof (ok_large_list Hok) as HlR. pose proof (ok_large _ _ _ _ _ Hok) as Hch.
  assert (wp (alloc lay) (λ r h', match first_fit sz al R with
    | None => r = None ∧ h' = h
    | Some (s, R') => r = Some s ∧ large_effect Head h h' (wadd 64 (used h) sz) R R' end) h) as Hwp.
  { unfold alloc. fold sz al. rewrite Hi. unfold alloc_large. apply wp_bind, wp_get.
    apply alloc_large_from_wp; try done. apply (ok_fuel Hok). }
  apply wp_inv in Hwp as (r & h' & Hrun & Hpost).
  exists (default 0 r), h'. split; [unfold global_alloc, mbind, st_bind; by rewrite Hrun|].
  destruct (first_fit sz al R) as [[p R']|] eqn:Hff; [|left; by destruct Hpost as [-> ->]].
  destruct Hpost as [-> E]. destruct E as [Ech Emem Eused _ Eb Es Ee]. cbn in Ech, Emem.
  destruct HlR as [HlR HsR].
  destruct (first_fit_facts sz al R p R' (bucket_regions BUCKET_SIZES F ++ live L) Hreq HlR Hff)
    as (Hsep & Halp & H16p & _).
  { rewrite <- regions_large. apply Hok. }
  destruct (first_fit_Forall (in_heap start) sz al R p R' Hreq) as [HinP HinR']; try done.
  { intros a n s z Ha ? ? ? _ _. by apply (in_heap_part start a n). }
  { pose proof (ok_in _ _ _ _ _ Hok) as H. by apply Forall_app in H as [_ [H _]%Forall_app]. }
  destruct (first_fit_Forall (λ x, 16 ≤ x.2 ∧ (16 | x.1) ∧ (16 | x.2)) sz al R p R' Hreq)
    as [_ H16R']; [by intros a n s z|done|apply Hok|done|].
  assert (regions F R' ((p, lay) :: L)
    ≡ₚ (p, sz) :: R' ++ bucket_regions BUCKET_SIZES F ++ live L) as Hperm.
  { rewrite regions_large. cbn. fold (live L). rewrite Hres. by rewrite <- !Permutation_middle. }
  assert (sep (regions F R' ((p, lay) :: L))) as Hsep' by by rewrite Hperm.
  assert (Forall (in_heap start) (regions F R' ((p, lay) :: L))) as Hin'.
  { rewrite Hperm. constructor; [done|]. pose proof (ok_in _ _ _ _ _ Hok) as H.
    rewrite regions_large in H. apply Forall_app in H as [_ H]. by apply Forall_app. }
  right. cbn. split.
  { pose proof (ok_bounds _ _ _ _ _ Hok). destruct HinP as [_ [? _]]. cbn in *. lia. }
  exists R'. split; try done; rewrite ?Eb, ?Es, ?Ee; try apply Hok.
  - intros i n b l Hn Hb Hl. eapply (ok_buckets_untouched Hok); try done.
    eapply untouched_mono; [exact Emem|set_solver].
  - constructor; [|apply Hok]. split; [done|]. split; [done|]. cbn [fst snd]. fold sz. rewrite Hi.
    split; [by etrans|done].
  - rewrite Eused, (ok_used _ _ _ _ _ Hok), total_live_cons, Hres.
    pose proof (ok_total _ _ _ _ Hsep' Hin') as Htot.
    pose proof (ok_total _ _ _ _ (ok_sep _ _ _ _ _ Hok) (ok_in _ _ _ _ _ Hok)).
    rewrite total_live_cons, Hres in Htot. destruct Hreq as [? _]. unfold HEAP_SIZE in *.
    rewrite wadd_small; lia.
Qed.

(** ** Deallocation *)

Lemma heap_ok_perm start h F R L L' : L ≡ₚ L' → heap_ok start h F R L → heap_ok start h F R L'.
Proof.
  intros HL Hok. assert (live L ≡ₚ live L') as Hlive by (unfold live; by rewrite HL).
  split; try apply Hok; unfold regions.
  - rewrite <- Hlive. apply Hok.
  - rewrite <- Hlive. apply Hok.
  - rewrite <- HL. apply Hok.
  - rewrite (ok_used _ _ _ _ _ Hok). by apply total_size_perm.
Qed.

Lemma live_block_bounds start h F R p lay L : heap_ok start h F R ((p, lay) :: L) →
  block_ok (p, lay) ∧ in_heap start (p, reserved lay) ∧
  Forall (disj (p, reserved lay)) (bucket_regions BUCKET_SIZES F ++ R ++ live L).
Proof.
  intros Hok. pose proof (ok_live _ _ _ _ _ Hok) as Hl. apply Forall_cons in Hl as [Hl _].
  split; [done|].
  assert (regions F R ((p, lay) :: L)
    ≡ₚ (p, reserved lay) :: bucket_regions BUCKET_SIZES F ++ R ++ live L) as Hp.
  { unfold regions. cbn. fold (live L). by rewrite <- !Permutation_middle. }
  pose proof (ok_in _ _ _ _ _ Hok) as Hin. rewrite Hp in Hin. apply Forall_cons in Hin as [Hin _].
  pose proof (ok_sep _ _ _ _ _ Hok) as Hs. rewrite Hp in Hs. by destruct Hs.
Qed.

Lemma used_minus start h F R p lay L : heap_ok start h F R ((p, lay) :: L) →
  saturating_sub (used h) (reserved lay) = total_size (live L).
Proof.
  intros Hok. rewrite (ok_used _ _ _ _ _ Hok), total_live_cons. unfold saturating_sub.
  pose proof (ok_in _ _ _ _ _ Hok) as Hin. unfold regions in Hin.
  apply Forall_app in Hin as [_ [_ Hin]%Forall_app]. cbn in Hin.
  apply Forall_cons in Hin as [_ Hin]. fold (live L) in Hin.
  pose proof (total_size_nonneg _ (in_heap_pos _ _ Hin)). lia.
Qed.

Lemma heap_dealloc_bucket start h F R p lay L i : heap_ok start h F R ((p, lay) :: L) →
  bucket_index (Z.max (size lay) 8) = Some i →
  ∃ h' F', dealloc p lay h = Done (tt, h') ∧ heap_ok start h' F' R L.
Proof.
  intros Hok Hi. destruct (bucket_index_Some _ _ Hi) as (n & Hn & Hn' & Hsz & H8).
  destruct (live_block_bounds _ _ _ _ _ _ _ Hok) as ((_ & _ & _ & Hnp) & [_ Hin] & Hdisj).
  cbn [fst snd] in Hnp. rewrite Hi, Hn' in Hnp.
  pose proof (used_minus _ _ _ _ _ _ _ Hok) as Hused.
  assert (reserved lay = n) as Hres by (unfold reserved; by rewrite Hi).
  rewrite Hres in *. destruct (ok_len _ _ _ _ _ Hok) as [Hlb HlF].
  assert (i < BUCKET_COUNT)%nat as Hi9 by (apply lookup_lt_Some in Hn; done).
  destruct (lookup_lt_is_Some_2 (buckets h) i) as [b Hb]; [lia|].
  destruct (lookup_lt_is_Some_2 F i) as [l Hl]; [lia|].
  destruct (ok_buckets _ _ _ _ _ Hok _ _ _ _ Hn Hb Hl) as (Hbs & Hch & Hcnt & Hal).
  pose proof (ok_bounds _ _ _ _ _ Hok) as Hbd. unfold inside in Hin. cbn in Hin.
  set (b' := mkBucket n p (total_blocks b) (wadd 64 (free_blocks b) 1)).
  set (m' := write64 (mem h) p (free_list b)).
  assert (untouched [(p, n)] (mem h) m') as Hum.
  { eapply (untouched_write64 _ _ _ _ _ (p, n)); [apply untouched_refl|set_solver|cbn; lia..]. }
  apply Forall_app in Hdisj as [HdF HdR]. apply Forall_app in HdR as [HdR _].
  destruct (bucket_regions_split _ _ _ _ _ Hn Hl) as [rest Hrest].
  assert (regions (<[i := p :: l]> F) R L ≡ₚ regions F R ((p, lay) :: L)) as Hperm.
  { unfold regions. rewrite (Hrest (p :: l)). rewrite <- (list_insert_id F i l) by done.
    rewrite (Hrest l). cbn. fold (live L). rewrite Hres. rewrite <- !app_assoc.
    by rewrite <- !Permutation_middle. }
  assert (sep (regions (<[i := p :: l]> F) R L)) as Hsep' by (rewrite Hperm; apply Hok).
  assert (Forall (in_heap start) (regions (<[i := p :: l]> F) R L)) as Hin'
    by (rewrite Hperm; apply Hok).
  assert (∀ j nj bj lj, BUCKET_SIZES !! j = Some nj → buckets h !! j = Some bj →
    F !! j = Some lj → bucket_ok m' nj bj lj) as Hothers.
  { intros j nj bj lj Hnj Hbj Hlj.
    destruct (ok_buckets _ _ _ _ _ Hok _ _ _ _ Hnj Hbj Hlj) as (? & Hchj & ? & ?).
    split_and!; try done. eapply bchain_same; [|exact Hchj]. apply Forall_forall. intros a Ha.
    apply Hum; [lia|]. constructor; [|done]. rewrite Forall_forall in HdF. apply disj_sym.
    specialize (HdF _ (bucket_regions_elem _ _ _ _ _ _ Hnj Hlj Ha)).
    assert (8 ≤ nj) by (clear -Hnj; repeat (destruct j as [|j]; [injection Hnj as <-; lia|]); done).
    unfold disj in *. cbn in *. lia. }
  exists (set_mem m' (set_bucket i b' (set_used (saturating_sub (used h) n) h))), (<[i := p :: l]> F).
  split.
  { unfold dealloc. rewrite Hi. unfold mbind, st_bind, get, lift.
    rewrite (index_done _ _ _ Hb). rewrite Hbs. cbn. rewrite Hbs. done. }
  split; cbn; try apply Hok; try done.
  - by rewrite !length_insert.
  - intros j nj bj lj Hnj Hbj Hlj. destruct (decide (j = i)) as [->|Hne].
    + rewrite list_lookup_insert_eq in Hbj by lia. rewrite list_lookup_insert_eq in Hlj by lia.
      injection Hbj as <-. injection Hlj as <-. rewrite Hn in Hnj. injection Hnj as <-.
      destruct (Hothers _ _ _ _ Hn Hb Hl) as (_ & Hch' & _).
      pose proof (ok_count _ _ _ _ _ _ (p :: l) Hsep' Hin' Hn) as Hlen.
      rewrite list_lookup_insert_eq in Hlen by lia. specialize (Hlen eq_refl).
      split_and!; [done| |cbn in *; unfold HEAP_SIZE in *; rewrite wadd_small; lia|by constructor].
      cbn. split_and!; [done|lia|]. unfold m' at 2. rewrite read64_write64_eq; [done|].
      destruct l as [|a l]; [cbn in Hch; by rewrite Hch|]. destruct Hch as (-> & _).
      pose proof (ok_in _ _ _ _ _ Hok) as Hin0. unfold regions in Hin0.
      apply Forall_app in Hin0 as [Hin0 _]. rewrite Forall_forall in Hin0.
      destruct (Hin0 (a, n)) as [_ Ha]; [by eapply bucket_regions_elem; [| |apply list_elem_of_here]|].
      unfold inside in Ha. cbn in Ha. unfold fits, HEAP_SIZE in *. lia.
    + rewrite list_lookup_insert_ne in Hbj by done. rewrite list_lookup_insert_ne in Hlj by done. eauto.
  - eapply (untouched_lchain [(p, n)]); [exact Hum| | |apply Hok].
    + eapply Forall_impl; [apply Hok|]. cbn. tauto.
    + eapply Forall_impl; [exact HdR|]. intros y Hy. constructor; [by apply disj_sym|done].
  - pose proof (ok_live _ _ _ _ _ Hok) as H. by apply Forall_cons in H as [_ H].
Qed.

Lemma heap_dealloc_large start h F R p lay L : heap_ok start h F R ((p, lay) :: L) →
  bucket_index (Z.max (size lay) 8) = None →
  ∃ h' R', dealloc p lay h = Done (tt, h') ∧ heap_ok start h' F R' L.
Proof.
  intros Hok Hi.
  destruct (live_block_bounds _ _ _ _ _ _ _ Hok) as ((Hlay & Ht & _ & H16p) & Hin & Hdisj).
  cbn [fst snd] in *. rewrite Hi in H16p.
  destruct (tame_request lay Hlay Ht Hi) as (Hreq & _ & Hres). rewrite Hres in *.
  pose proof (used_minus _ _ _ _ _ _ _ Hok) as Hused. rewrite Hres in Hused.
  set (sz := Z.max (size lay) 8) in *. destruct Hreq as (Hsz & H16sz & _).
  pose proof (ok_bounds _ _ _ _ _ Hok) as Hbd.
  pose proof (ok_start _ _ _ _ _ Hok) as Hst. pose proof (ok_end _ _ _ _ _ Hok) as Hen.
  pose proof Hin as [_ Hins]. unfold inside in Hins. cbn in Hins.
  apply Forall_app in Hdisj as [HdF [HdR HdL]%Forall_app].
  set (h1 := set_mem (write64 (mem h) (size_field p) sz)
               (set_used (saturating_sub (used h) sz) h)).
  assert (untouched [(p, sz)] (mem h) (mem h1)) as Hum by (cbn; touch (p, sz)).
  assert (node_ok (p, sz)) as Hnode by (unfold node_ok; cbn; lia).
  assert (insert_pre p sz [] R h1) as Hpre.
  { split; [apply (ok_large_list Hok)|]. split; [done|]. split; [cbn; lia|]. split; [constructor|].
    split; [|apply read64_write64_eq; unfold fits, HEAP_SIZE in *; lia].
    eapply (untouched_lchain [(p, sz)]); [exact Hum| | |apply Hok].
    - eapply Forall_impl; [apply Hok|]. cbn. tauto.
    - eapply Forall_impl; [exact HdR|]. intros y Hy. constructor; [by apply disj_sym|done]. }
  assert (wp (dealloc p lay)
    (λ _ h', insert_effect [] h1 h' ((p, sz) :: [] ++ R) (insert_region p sz ([] ++ R))) h) as Hwp.
  { unfold dealloc. fold sz. rewrite Hi. unfold dealloc_large. apply wp_bind, wp_get.
    unfold checked_add. rewrite (decide_True (P:=p + sz < 2 ^ 64)) by (unfold HEAP_SIZE in *; lia).
    rewrite decide_False by (rewrite Hst, Hen; intros [?|[?|?]]; [lia|done|lia]).
    do 3 heap_step.
    destruct (insert_pre_chain _ _ _ _ _ Hpre) as (q & _ & Hq & Hq' & _).
    specialize (Hq' eq_refl). cbn in Hq'. rewrite Hq', Hq.
    apply (dealloc_from_wp p sz Hnode _ [] R); [exact Hpre|].
    pose proof (ok_fuel Hok). lia. }
  apply wp_inv in Hwp as ([] & h' & Hrun & [E1 E2 E3 _ E4 E5 E6]). cbn [app list_head] in *.
  exists h', (insert_region p sz R). split; [done|].
  assert (Forall (in_heap start) (R ++ bucket_regions BUCKET_SIZES F ++ live L)) as Hin0.
  { rewrite <- regions_large. pose proof (ok_in _ _ _ _ _ Hok) as H. unfold regions in *. cbn in H.
    fold (live L) in H. rewrite !app_assoc in *. by rewrite <- Permutation_middle in H; apply Forall_cons in H as [_ H]. }
  assert (sep ((p, sz) :: R ++ bucket_regions BUCKET_SIZES F ++ live L)) as Hs0.
  { rewrite <- regions_large. pose proof (ok_sep _ _ _ _ _ Hok) as H. unfold regions in *. cbn in H.
    fold (live L) in H. rewrite Hres, !app_assoc in *. by rewrite <- Permutation_middle in H. }
  pose proof Hin0 as [HinR HinF]%Forall_app.
  split; rewrite ?E3, ?E4, ?E5, ?E6; try apply Hok; try done.
  - intros i n b l Hn Hb Hl. eapply (ok_buckets_untouched Hok); try done.
    eapply (untouched_mono ((p, sz) :: R)); [|cbn; rewrite Hres; set_solver].
    eapply untouched_trans; [|exact E2]. eapply untouched_mono; [exact Hum|set_solver].
  - apply insert_region_Forall; [|done|apply Hok].
    cbn. intros a n j ? ?. destruct_and?. split_and!; [lia|done|by apply Z.divide_add_r].
  - rewrite regions_large. apply insert_region_sep; [lia|by eapply in_heap_pos|done].
  - rewrite regions_large. apply Forall_app. split; [|done].
    apply insert_region_Forall; [|done|done]. unfold in_heap, inside. cbn. lia.
  - pose proof (ok_live _ _ _ _ _ Hok) as H. by apply Forall_cons in H as [_ H].
Qed.

(** A client writing to its own block disturbs nothing. *)
Lemma heap_client_write start h F R L p lay a v : heap_ok start h F R L → (p, lay) ∈ L →
  p ≤ a < p + size lay → heap_ok start (set_mem (<[a := v]> (mem h)) h) F R L.
Proof.
  intros Hok Hp Ha.
  assert (size lay ≤ reserved lay) as Hle.
  { unfold reserved. destruct (bucket_index _) as [i|] eqn:Hi; [|lia].
    destruct (bucket_index_Some _ _ Hi) as (n & _ & -> & ? & _). lia. }
  assert (untouched (live L) (mem h) (<[a := v]> (mem h))) as Hum.
  { intros lo hi Hlo Hd x Hx. unfold read8. rewrite lookup_insert_ne; [done|]. intros ->.
    rewrite Forall_forall in Hd. specialize (Hd (p, reserved lay)).
    unfold disj in Hd. cbn in Hd. enough ((p, reserved lay) ∈ live L) by (specialize (Hd ltac:(done)); lia).
    apply list_elem_of_fmap. by exists (p, lay). }
  destruct (ok_sep_parts Hok) as (_ & Hs & _). apply sep_app in Hs as (_ & _ & Hd).
  split; try apply Hok.
  - intros i n b l Hn Hb Hl. eapply (ok_buckets_untouched Hok); try done.
    eapply untouched_mono; [exact Hum|set_solver].
  - eapply untouched_lchain; [exact Hum| |exact Hd|apply Hok].
    eapply Forall_impl; [apply Hok|]. cbn. tauto.
Qed.

(** ** Initialisation *)

Lemma untouched_node m p n v w : 16 ≤ n →
  untouched [(p, n)] m (write64 (write64 m (size_field p) v) (next_field p) w).
Proof. intros. touch (p, n). Qed.


Fixpoint blocks (n cur : Z) (count : nat) : list Z :=
  match count with O => [] | S count => cur :: blocks n (cur + n) count end.
Fixpoint block_lists (per : nat) (sizes : list Z) (cur : Z) : list (list Z) :=
  match sizes with
  | [] => []
  | n :: sizes => blocks n cur per :: block_lists per sizes (cur + n * 256)
  end.
Definition area (sizes : list Z) : Z := foldr (λ n x, n * 256 + x) 0 sizes.
Fixpoint aligned_from (cur : Z) (sizes : list Z) : Prop :=
  match sizes with [] => True | n :: sizes => (n | cur) ∧ aligned_from (cur + n * 256) sizes end.

Lemma length_blocks n cur count : length (blocks n cur count) = count.
Proof. revert cur. induction count; intros; cbn; auto. Qed.

Lemma blocks_aligned n cur count : (n | cur) → Forall (λ a, (n | a)) (blocks n cur count).
Proof.
  revert cur. induction count as [|count IH]; intros cur H; cbn; constructor; [done|].
  apply IH. by apply Z.divide_add_r.
Qed.

Lemma blocks_regions n cur count : 0 < n →
  sep ((λ a, (a, n)) <$> blocks n cur count) ∧
  Forall (λ x, 0 < x.2 ∧ inside x (cur, n * count)) ((λ a, (a, n)) <$> blocks n cur count).
Proof.
  intros Hn. revert cur. induction count as [|count IH]; intros cur; cbn; [done|].
  destruct (IH (cur + n)) as [Hs Hin]. unfold inside in *. cbn in *. split.
  - split; [|done]. eapply Forall_impl; [exact Hin|]. intros x Hx. unfold disj. cbn in *. lia.
  - constructor; [cbn; nia|]. eapply Forall_impl; [exact Hin|]. intros x Hx. cbn in *. nia.
Qed.

Lemma link_blocks_spec n cur count m : 8 ≤ n → 0 < cur → cur + n * S count ≤ 2 ^ 62 →
  bchain (link_blocks n cur (S count) m) cur (blocks n cur (S count)) ∧
  untouched [(cur, n * S count)] m (link_blocks n cur (S count) m).
Proof.
  intros Hn. revert cur m. induction count as [|count IH]; intros cur m Hc Hb.
  - cbn. split; [|touch (cur, n * 1)]. split_and!; [done|lia|]. by apply read64_write64_eq.
  - change (link_blocks n cur (S (S count)) m) with
      (link_blocks n (wadd 64 cur n) (S count) (write64 m cur (wadd 64 cur n))).
    change (blocks n cur (S (S count))) with (cur :: blocks n (cur + n) (S count)).
    rewrite wadd_small by lia.
    destruct (IH (cur + n) (write64 m cur (cur + n))) as [Hch Hu]; [lia|lia|]. split.
    + cbn [bchain]. split_and!; [done|lia|].
      rewrite (read64_same (write64 m cur (cur + n))), read64_write64_eq; [done|unfold fits; lia|].
      apply Hu; [lia|]. constructor; [unfold disj; cbn; lia|done].
    + apply (untouched_trans _ _ (write64 m cur (cur + n))); [touch (cur, n * S (S count))|].
      intros lo hi Hlo Hd. apply Hu; [done|]. apply Forall_cons in Hd as [Hd _].
      constructor; [|done]. unfold disj in *. cbn in *. lia.
Qed.

Lemma area_nonneg sizes : Forall (λ n, 8 ≤ n) sizes → 0 ≤ area sizes.
Proof. unfold area. induction 1; cbn in *; lia. Qed.

Section init_buckets.
(** The number of blocks in a bucket, as a variable. *)
Context (per : nat) (Hper : Z.of_nat per = 256).

Lemma block_lists_regions sizes cur : Forall (λ n, 8 ≤ n) sizes →
  sep (bucket_regions sizes (block_lists per sizes cur)) ∧
  Forall (λ x, 0 < x.2 ∧ inside x (cur, area sizes)) (bucket_regions sizes (block_lists per sizes cur)).
Proof using Hper.
  intros Hs. revert cur. induction Hs as [|n sizes Hn Hs IH]; intros cur; [done|].
  cbn [block_lists bucket_regions]. destruct (blocks_regions n cur per) as [H1 H2]; [lia|].
  destruct (IH (cur + n * 256)) as [H3 H4]. pose proof (area_nonneg _ Hs) as Hp.
  change (area (n :: sizes)) with (n * 256 + area sizes).
  unfold inside in *. cbn [fst snd] in *. split.
  - apply sep_app. split_and!; [done..|]. eapply Forall_impl; [exact H2|]. intros x Hx.
    eapply Forall_impl; [exact H4|]. intros y Hy. cbn beta in *. unfold disj. lia.
  - apply Forall_app. split; (eapply Forall_impl; [eassumption|]; intros x Hx; cbn beta in *; lia).
Qed.

Lemma init_buckets_spec sizes i cur remaining bs m : Forall (λ n, 8 ≤ n) sizes →
  (i + length sizes = length bs)%nat → 0 < cur → cur + remaining ≤ 2 ^ 62 →
  area sizes ≤ remaining → aligned_from cur sizes →
  ∃ bs' m', init_buckets sizes i cur remaining bs m
      = (bs', (cur + area sizes, remaining - area sizes), m') ∧
    length bs' = length bs ∧ untouched [(cur, area sizes)] m m' ∧
    (∀ j, (j < i)%nat → bs' !! j = bs !! j) ∧
    (∀ j n b l, sizes !! j = Some n → bs' !! (i + j)%nat = Some b →
       block_lists per sizes cur !! j = Some l → bucket_ok m' n b l).
Proof.
  intros Hs. destruct per as [|per'] eqn:Eper; [done|].
  revert i cur remaining bs m. induction Hs as [|n sizes Hn Hs IH];
    intros i cur remaining bs m Hlen Hcur Hmax Harea Hal.
  { exists bs, m. cbn. rewrite Z.add_0_r, Z.sub_0_r. split_and!; try done. }
  change (area (n :: sizes)) with (n * 256 + area sizes) in *. cbn in Hlen.
  pose proof (area_nonneg _ Hs) as Hp. destruct Hal as [Hnc Hal].
  cbn [init_buckets]. unfold BLOCKS_PER_BUCKET. rewrite decide_False by lia.
  unfold Bucket_init. cbn [block_size set_block_size].
  assert (n * 256 / n = 256) as -> by (rewrite Z.mul_comm; apply Z.div_mul; lia).
  replace (Z.to_nat 256) with (S per') by lia. rewrite wadd_small by lia.
  destruct (link_blocks_spec n cur per' m) as [Hch Hu]; [lia..|].
  set (b0 := mkBucket n cur 256 256). set (m0 := link_blocks n cur (S per') m) in *.
  destruct (IH (S i) (cur + n * 256) (remaining - n * 256) (<[i := b0]> bs) m0)
    as (bs' & m' & E & Hl' & Hu' & Hlow & Hall); try lia; [rewrite length_insert; lia|done|].
  exists bs', m'. split.
  { rewrite E. replace (cur + (n * 256 + area sizes)) with (cur + n * 256 + area sizes) by lia.
    by replace (remaining - (n * 256 + area sizes)) with (remaining - n * 256 - area sizes) by lia. }
  rewrite length_insert in Hl'. split; [done|]. split; [|split].
  - apply (untouched_trans _ _ m0); intros lo hi Hlo Hd;
      apply Forall_cons in Hd as [Hd _]; unfold disj in Hd; cbn in Hd;
      [apply Hu|apply Hu']; try done; (constructor; [|done]); unfold disj; cbn; lia.
  - intros j Hj. rewrite Hlow by lia. by rewrite list_lookup_insert_ne by lia.
  - intros [|j] nj b l Hnj Hb Hl.
    + injection Hnj as <-. rewrite Nat.add_0_r, Hlow, list_lookup_insert_eq in Hb by lia.
      injection Hb as <-. injection Hl as <-. split_and!;
        [done| |change (256 = Z.of_nat (length (blocks n cur (S per')))); rewrite length_blocks; lia
        |exact (blocks_aligned n cur (S per') Hnc)].
      eapply bchain_same; [|exact Hch]. destruct (blocks_regions n cur (S per')) as [_ Hin]; [lia|].
      apply Forall_forall. intros a Ha. apply Hu'; [lia|].
      assert ((a, n) ∈ (λ a, (a, n)) <$> blocks n cur (S per')) as Han
        by (apply list_elem_of_fmap; by exists a).
      rewrite Forall_forall in Hin. specialize (Hin _ Han). unfold inside in Hin. cbn [fst snd] in Hin.
      constructor; [|done]. unfold disj. cbn [fst snd]. lia.
    + eapply Hall; [exact Hnj| |exact Hl]. by replace (S i + j)%nat with (i + S j)%nat by lia.
Qed.
End init_buckets.

Lemma aligned_start start : (4096 | start) → aligned_from start BUCKET_SIZES.
Proof.
  intros [q ->]. cbn. split_and!; try done;
    repeat apply Z.divide_add_r; try (apply (Z.divide_mul_r _ q));
    (apply Z.mod_divide; [lia|reflexivity]).
Qed.

Lemma heap_init_ok start m : 0 < start → start + HEAP_SIZE ≤ 2 ^ 62 → (4096 | start) →
  ∃ F R, heap_ok start (init_heap start m) F R [].
Proof.
  intros Hs Hmax Hal. assert (∃ per, Z.of_nat per = 256) as [per Hper] by by exists 256%nat. assert (area BUCKET_SIZES = 1046528) as Harea by done.
  assert (Forall (λ n, 8 ≤ n) BUCKET_SIZES) as H8 by (repeat constructor; lia).
  destruct (init_buckets_spec per Hper BUCKET_SIZES 0 start HEAP_SIZE (replicate BUCKET_COUNT (Bucket_new 0)) m)
    as (bs & m1 & E & Hlen & Hu & _ & Hb);
    [exact H8|reflexivity|exact Hs|exact Hmax|rewrite Harea; unfold HEAP_SIZE; lia
    |by apply aligned_start|].
  rewrite Harea in *.
  assert (∃ cur sz, cur = start + 1046528 ∧ sz = HEAP_SIZE - 1046528 ∧ sz = 1050624)
    as (cur & sz & Ecur & Esz & Esz') by (by repeat eexists).
  rewrite <- Ecur, <- Esz in E.
  set (m2 := write64 (write64 m1 (size_field cur) sz) (next_field cur) 0).
  assert (init_heap start m = mkAllocator bs cur 0 start (wadd 64 start HEAP_SIZE) m2) as ->.
  { unfold init_heap, init. cbn [buckets mem BucketAllocator_new]. rewrite E.
    by rewrite decide_True by (unfold LARGE_NODE_SIZE; lia). }
  clear E.
  assert (untouched [(cur, sz)] m1 m2) as Hum by (apply untouched_node; lia).
  destruct (block_lists_regions per Hper BUCKET_SIZES start H8) as [Hsep Hin].
  rewrite Harea in Hin.
  assert (length (block_lists per BUCKET_SIZES start) = BUCKET_COUNT) as HlF by reflexivity.
  set (F := block_lists per BUCKET_SIZES start) in *. clearbody F.
  assert (Forall (λ x, Forall (disj x) [(cur, sz)]) (bucket_regions BUCKET_SIZES F)) as Hdr.
  { eapply Forall_impl; [exact Hin|]. intros x [? Hx]. constructor; [|done].
    unfold inside, disj in *. cbn [fst snd] in *. lia. }
  exists F, [(cur, sz)]. split; cbn [heap_start heap_end buckets mem large_next used].
  - done.
  - apply wadd_small; unfold HEAP_SIZE in *; lia.
  - done.
  - by rewrite Hlen.
  - intros i n b l Hn Hbi Hl. destruct (Hb i n b l Hn Hbi Hl) as (? & Hch & ? & ?).
    split_and!; try done. eapply bchain_same; [|exact Hch]. apply Forall_forall. intros a Ha.
    apply Hum; [lia|]. rewrite Forall_forall in Hdr.
    specialize (Hdr _ (bucket_regions_elem _ _ _ _ _ _ Hn Hl Ha)). cbn beta in Hdr.
    assert (8 ≤ n) by (rewrite Forall_forall in H8; apply H8; by eapply list_elem_of_lookup_2).
    eapply Forall_impl; [exact Hdr|]. intros y. apply disj_inside. unfold inside. cbn. lia.
  - cbn [lchain]. split; [done|]. split; [lia|]. unfold m2. mem_simpl.
    by split.
  - constructor; [|done]. cbn [fst snd]. split; [lia|]. split.
    + rewrite Ecur. apply Z.divide_add_r; [|by exists 65408]. etrans; [|exact Hal]. by exists 256.
    + rewrite Esz'. by exists 65664.
  - unfold regions. apply sep_app. by split_and!.
  - unfold regions. apply Forall_app. split.
    + eapply Forall_impl; [exact Hin|]. intros x [? Hx]. split; [done|].
      unfold inside, HEAP_SIZE in *. cbn [fst snd] in *. lia.
    + constructor; [|done]. unfold inside, HEAP_SIZE. cbn [fst snd]. lia.
  - constructor.
  - done.
Qed.

(** ** Clients *)

(** What clients do: allocate, free a block they hold, write into one. *)
Inductive heap_step : BucketAllocator * list (Z * Layout) → BucketAllocator * list (Z * Layout) → Prop :=
  | step_alloc h L lay p h' : layout_ok lay → tame lay → served h lay →
      global_alloc lay h = Done (p, h') →
      heap_step (h, L) (h', if decide (p = 0) then L else (p, lay) :: L)
  | step_dealloc h L L' p lay h' : L ≡ₚ (p, lay) :: L' →
      global_dealloc p lay h = Done (tt, h') → heap_step (h, L) (h', L')
  | step_write h L p lay a v : (p, lay) ∈ L → p ≤ a < p + size lay →
      heap_step (h, L) (set_mem (<[a := v]> (mem h)) h, L).

Lemma heap_alloc start h F R L lay : heap_ok start h F R L →
  layout_ok lay → tame lay → served h lay →
  ∃ p h', global_alloc lay h = Done (p, h') ∧
    ∃ F' R', heap_ok start h' F' R' (if decide (p = 0) then L else (p, lay) :: L).
Proof.
  intros Hok Hl Ht Hs. destruct (bucket_index (Z.max (size lay) 8)) as [i|] eqn:Hi.
  - destruct (heap_alloc_bucket _ _ _ _ _ _ _ Hok Hi Hl Ht Hs) as (p & h' & F' & E & Hp & Hok').
    exists p, h'. split; [done|]. exists F', R. by rewrite decide_False by done.
  - destruct (heap_alloc_large _ _ _ _ _ _ Hok Hi Hl Ht) as (p & h' & E & [[-> ->]|(Hp & R' & Hok')]).
    + exists 0, h. split; [done|]. exists F, R. by rewrite decide_True by done.
    + exists p, h'. split; [done|]. exists F, R'. by rewrite decide_False by done.
Qed.

Lemma heap_dealloc start h F R L L' p lay : heap_ok start h F R L → L ≡ₚ (p, lay) :: L' →
  ∃ h', global_dealloc p lay h = Done (tt, h') ∧ ∃ F' R', heap_ok start h' F' R' L'.
Proof.
  intros Hok HL. apply (heap_ok_perm _ _ _ _ _ _ HL) in Hok.
  destruct (live_block_bounds _ _ _ _ _ _ _ Hok) as (_ & [_ Hin] & _).
  pose proof (ok_bounds _ _ _ _ _ Hok) as Hb. unfold inside in Hin. cbn [fst snd] in Hin.
  unfold global_dealloc. rewrite decide_False by lia.
  destruct (bucket_index (Z.max (size lay) 8)) as [i|] eqn:Hi.
  - destruct (heap_dealloc_bucket _ _ _ _ _ _ _ _ Hok Hi) as (h' & F' & E & Hok'). eauto.
  - destruct (heap_dealloc_large _ _ _ _ _ _ _ Hok Hi) as (h' & R' & E & Hok'). eauto.
Qed.

Lemma heap_reachable start m s : 0 < start → start + HEAP_SIZE ≤ 2 ^ 62 → (4096 | start) →
  rtc heap_step (init_heap start m, []) s → ∃ F R, heap_ok start s.1 F R s.2.
Proof.
  intros H1 H2 H3 Hs. pose proof (heap_init_ok start m H1 H2 H3) as Hinit.
  remember (init_heap start m, []) as s0 eqn:Es0.
  assert (∃ F R, heap_ok start s0.1 F R s0.2) as Hok by by rewrite Es0. clear Es0 Hinit.
  induction Hs as [s|s s' s'' Hstep Hs IH]; [done|]. apply IH. destruct Hok as (F & R & Hok).
  destruct Hstep as [h L lay p h' Hl Ht Hsv E|h L L' p lay h' HL E|h L p lay a v Hin Ha]; cbn in *.
  - destruct (heap_alloc _ _ _ _ _ _ Hok Hl Ht Hsv) as (p' & h0 & E' & Hok').
    rewrite E in E'. by injection E' as <- <-.
  - destruct (heap_dealloc _ _ _ _ _ _ _ _ Hok HL) as (h0 & E' & Hok').
    rewrite E in E'. by injection E' as <-.
  - exists F, R. by eapply heap_client_write.
Qed.

Lemma reserved_size lay : layout_ok lay → 0 ≤ size lay ≤ reserved lay.
Proof.
  intros [Hs _]. split; [done|]. unfold reserved.
  destruct (bucket_index _) as [i|] eqn:Hi; [|lia].
  destruct (bucket_index_Some _ _ Hi) as (n & _ & -> & ? & _). lia.
Qed.

Lemma sep_lookup l i j x y : sep l → l !! i = Some x → l !! j = Some y → i ≠ j → disj x y.
Proof.
  revert i j. induction l as [|z l IH]; [done|].
  intros [|i] [|j] [Hz Hs] Hi Hj Hne; try done; cbn in *.
  - injection Hi as <-. rewrite Forall_forall in Hz. apply Hz. by eapply list_elem_of_lookup_2.
  - injection Hj as <-. rewrite Forall_forall in Hz. apply disj_sym, Hz. by eapply list_elem_of_lookup_2.
  - eapply IH; try done. congruence.
Qed.

(** C8: Exclusive ownership of heap blocks.  After any sequence of allocations,
    frees and writes of clients (whose small requests find a block in their
    bucket, and whose large requests are multiples of 16 bytes), no two live
    blocks overlap, each is aligned as requested and lies in the heap, and
    [used] is the number of bytes set aside; the next allocation returns, and
    any live block can be freed. *)
Theorem heap_exclusive start m h L :
  0 < start → start + HEAP_SIZE ≤ 2 ^ 62 → (4096 | start) →
  rtc heap_step (init_heap start m, []) (h, L) →
  (∀ i j b c, L !! i = Some b → L !! j = Some c → i ≠ j →
     disj (b.1, size b.2) (c.1, size c.2)) ∧
  Forall (λ b, (align b.2 | b.1) ∧ start ≤ b.1 ∧ b.1 + size b.2 ≤ start + HEAP_SIZE) L ∧
  used h = total_size (live L) ∧
  (∀ lay, layout_ok lay → tame lay → served h lay →
     ∃ p h', global_alloc lay h = Done (p, h')) ∧
  (∀ p lay, (p, lay) ∈ L → ∃ h', global_dealloc p lay h = Done (tt, h')).
Proof.
  intros H1 H2 H3 Hs. destruct (heap_reachable _ _ _ H1 H2 H3 Hs) as (F & R & Hok). cbn in Hok.
  pose proof (ok_live _ _ _ _ _ Hok) as Hl. rewrite Forall_forall in Hl.
  pose proof (ok_sep_parts Hok) as (_ & [_ [HsL _]]%sep_app & _).
  split_and!.
  - intros i j b c Hb Hc Hne.
    destruct (Hl b) as [Hlb _]; [by eapply list_elem_of_lookup_2|].
    destruct (Hl c) as [Hlc _]; [by eapply list_elem_of_lookup_2|].
    assert (disj (b.1, reserved b.2) (c.1, reserved c.2)) as Hd.
    { apply (sep_lookup _ i j _ _ HsL); [..|done]; unfold live;
        rewrite list_lookup_fmap; [by rewrite Hb|by rewrite Hc]. }
    pose proof (reserved_size _ Hlb). pose proof (reserved_size _ Hlc).
    unfold disj in *. cbn [fst snd] in *. lia.
  - apply Forall_forall. intros [p lay] Hp. destruct (Hl _ Hp) as (Hlay & _ & Hal & _).
    split; [done|]. pose proof (reserved_size _ Hlay).
    apply elem_of_Permutation in Hp as [L' Hp]. apply (heap_ok_perm _ _ _ _ _ _ Hp) in Hok.
    destruct (live_block_bounds _ _ _ _ _ _ _ Hok) as (_ & [_ Hin] & _).
    unfold inside in Hin. cbn [fst snd] in *. lia.
  - apply Hok.
  - intros lay ? ? ?. destruct (heap_alloc _ _ _ _ _ lay Hok) as (p & h' & E & _); eauto.
  - intros p lay [L' Hp]%elem_of_Permutation.
    destruct (heap_dealloc _ _ _ _ _ _ _ _ Hok Hp) as (h' & E & _). eauto.
Qed.


(** ** Other clients *)

Fixpoint allocs (n : nat) (lay : Layout) : heapM (list Z) :=
  match n with
  | O => mret []
  | S n => p ← global_alloc lay; ps ← allocs n lay; mret (p :: ps)
  end.

(** The bucket of 64-byte blocks is used up; 48 bytes then come from the large
    list.  Freed, they are put into the bucket, from where they are handed out
    as 64 bytes. *)
Definition misroute : heapM (Z * Z) :=
  allocs 256 (mkLayout 64 8);; p ← global_alloc (mkLayout 48 8);
  q ← global_alloc (mkLayout 4096 8);
  global_dealloc p (mkLayout 48 8);; r ← global_alloc (mkLayout 64 8);
  mret (q, r).


(** A request of 8 bytes served by the large list writes the size of the
    remaining region over the [next] field it is about to read: after the 256
    blocks of the first bucket one more 8-byte request makes the whole large
    region unreachable: a request for 4096 bytes fails, although more than a
    megabyte is free. *)
Theorem eight_byte_fallback_loses_region : ∃ p u,
  value_of ((allocs 256 (mkLayout 8 8);; global_alloc (mkLayout 4096 8))
    (init_heap 0x200000 ∅)) = Some p ∧ p ≠ 0 ∧
  value_of ((allocs 257 (mkLayout 8 8);; u ← gets used; q ← global_alloc (mkLayout 4096 8);
    mret (u, q)) (init_heap 0x200000 ∅)) = Some (u, 0) ∧
  u + 1024 * 1024 ≤ HEAP_SIZE.
Proof.
  exists 3143680, 2056. split; [vm_compute; reflexivity|]. split; [done|].
  split; [vm_compute; reflexivity|]. unfold HEAP_SIZE. lia.
Qed.

(** ** Witnesses *)

(** A heap with one large block and one of a bucket. *)
Definition sample_heap : BucketAllocator := init_heap 0x200000 ∅.
Definition sample_layout : Layout := mkLayout 4096 64.

Lemma sample_layout_ok : layout_ok sample_layout ∧ tame sample_layout.
Proof.
  split; [|by exists 256]. split; [done|]. split; [by exists 6|]. done.
Qed.

Lemma sample_step : ∃ p h, p ≠ 0 ∧ global_alloc sample_layout sample_heap = Done (p, h) ∧
  rtc heap_step (sample_heap, []) (h, [(p, sample_layout)]).
Proof.
  destruct sample_layout_ok as [Hl Ht].
  destruct (heap_init_ok 0x200000 ∅) as (F & R & Hok); [done|done|by exists 512|].
  destruct (heap_alloc _ sample_heap _ _ _ sample_layout Hok Hl Ht I) as (p & h & E & _).
  assert (p ≠ 0) as Hp.
  { assert (value_of (global_alloc sample_layout sample_heap) = Some 3143680) as H
      by (vm_compute; reflexivity).
    rewrite E in H. by injection H as ->. }
  exists p, h. split_and!; [done..|]. apply rtc_once.
  pose proof (step_alloc sample_heap [] sample_layout p h Hl Ht I E) as Hstep.
  by rewrite decide_False in Hstep by done.
Qed.

Lemma heap_exclusive_witness : ∃ p h, p ≠ 0 ∧ (64 | p) ∧ used h = 4096 ∧
  rtc heap_step (sample_heap, []) (h, [(p, sample_layout)]).
Proof.
  destruct sample_step as (p & h & Hp & _ & Hs).
  destruct (heap_exclusive 0x200000 ∅ h [(p, sample_layout)]) as (_ & Hl & Hu & _).
  - done.
  - done.
  - by exists 512.
  - exact Hs.
  - apply Forall_cons in Hl as [(Ha & _) _]. by exists p, h.
Defined.

Definition two_regions : BucketAllocator :=
  mkAllocator [] 0x1000 0 0x1000 0x3000
    (write64 (write64 (write64 (write64 ∅ 0x1000 0x40) 0x1008 0x2000) 0x2000 0x1000) 0x2008 0).

