(* ===== verification/Kernel.v ===== *)
(** * The kernel's state, and printing

    [Kernel] puts the global variables of the parts together; code of a part
    runs on its field.  [Machine] is the hardware and what interrupt handlers
    leave for the code that polls.  [print] is the macro of src/src/vga.rs, [log]
    the function of src/src/log.rs. *)
From stdpp Require Import strings.
From S2P Require Import Prelude Words Str Fmt Hardware Scheduler Paging Heap Pci Rtc Mouse Keyboard.
From S2P Require Import Disk Ext3 Vfs Ramfs Net Tcp Serial Cpu VgaProps Vga Framebuffer.
Local Open Scope Z_scope.
Local Open Scope list_scope.

(** What the polling code gets from the rings of the keyboard and mouse
    handlers, memory read through a pointer, the processor. *)
Class Inputs (D : Type) := {
  pop_key : ST D (option KeyEvent);
  flush_keys : ST D unit;
  pop_mouse : ST D (option MouseEvent);
  hlt : ST D unit;
  volatile_read : Z → ST D Z;
  cpuid : Z → CpuidResult;
  nic_base : D → Z;        (* [IO_BASE] and [INITIALIZED] of the card's driver *)
  nic_initialized : D → bool;
}.
Class Machine (D : Type) := {
  machine_ports :: Ports D;
  machine_nic :: Nic D;
  machine_disk :: BlockDevice D;
  machine_inputs :: Inputs D;
  uart_fuel : nat;     (* polls of the serial port *)
  task_stack : nat → Z; (* addresses the linker chose: the tasks' stacks, a task's entry *)
  test_task : Z;
}.

Record Kernel (D : Type) := mkKernel {
  screen : Vga;
  files : RamFs;
  stack : Tcp D;       (* the connections, the network configuration and the machine *)
  mounted : option Ext3Fs;
  tasks : Sched;
  heap : BucketAllocator;
  page_frames : Frames;
  serial_ready : bool;
  console : option FbConsole;
}.
Arguments mkKernel {D}.
Arguments screen {D}.
Arguments files {D}.
Arguments stack {D}.
Arguments mounted {D}.
Arguments tasks {D}.
Arguments heap {D}.
Arguments page_frames {D}.
Arguments serial_ready {D}.
Arguments console {D}.

Section kernel.
Context {D : Type} `{Machine D}.
Abbreviation K := (ST (Kernel D)).
Implicit Types (k : Kernel D).

Definition set_screen v k : Kernel D := mkKernel v (files k) (stack k) (mounted k) (tasks k) (heap k) (page_frames k) (serial_ready k) (console k).
Definition set_files f k : Kernel D := mkKernel (screen k) f (stack k) (mounted k) (tasks k) (heap k) (page_frames k) (serial_ready k) (console k).
Definition set_stack t k : Kernel D := mkKernel (screen k) (files k) t (mounted k) (tasks k) (heap k) (page_frames k) (serial_ready k) (console k).
Definition set_mounted e k : Kernel D := mkKernel (screen k) (files k) (stack k) e (tasks k) (heap k) (page_frames k) (serial_ready k) (console k).
Definition set_tasks s k : Kernel D := mkKernel (screen k) (files k) (stack k) (mounted k) s (heap k) (page_frames k) (serial_ready k) (console k).
Definition set_heap h k : Kernel D := mkKernel (screen k) (files k) (stack k) (mounted k) (tasks k) h (page_frames k) (serial_ready k) (console k).
Definition set_frames f k : Kernel D := mkKernel (screen k) (files k) (stack k) (mounted k) (tasks k) (heap k) f (serial_ready k) (console k).

(** The machine under the stack. *)
Definition machine k : D := dev (net (stack k)).
Definition with_machine (d : D) k : Kernel D :=
  set_stack (mkTcpState (CONNS (stack k)) (mkNet (NET_CFG (net (stack k))) (NET (net (stack k))) d)) k.

Definition on_screen {A} (m : vgaM A) : K A := zoom screen set_screen m.
Definition on_files {A} (m : ST RamFs A) : K A := zoom files set_files m.
Definition on_stack {A} (m : ST (Tcp D) A) : K A := zoom stack set_stack m.
Definition on_tasks {A} (m : ST Sched A) : K A := zoom tasks set_tasks m.
Definition on_frames {A} (m : ST Frames A) : K A := zoom page_frames set_frames m.
Definition on_machine {A} (m : ST D A) : K A := zoom machine with_machine m.
Definition on_serial {A} (m : ST (bool * D) A) : K A :=
  zoom (λ k, (serial_ready k, machine k)) (λ x k, with_machine x.2 k) m.

(** [print!] and [println!], given the pieces of the formatted text. *)
Definition print (pieces : list str) : K unit :=
  on_screen (write_fmt pieces);; on_serial (Serial.write_fmt uart_fuel pieces).
Definition println (pieces : list str) : K unit := print pieces;; print [[10]].

(** ** [log::log] *)

Inductive LogLevel := Info | Warn | Error | Debug.
Definition prefix (level : LogLevel) : str :=
  match level with Info => txt "I" | Warn => txt "W" | Error => txt "E" | Debug => txt "D" end.
Definition two (n : Z) : str := pad_zero 2 (dec n).
Definition log (level : LogLevel) (args : list str) : K unit :=
  on_screen (write_fmt ([txt "["; prefix level; txt "] "] ++ args ++ [[10]]));;
  t ← on_machine Rtc.read;
  '(sec, ms) ← on_machine elapsed;
  on_serial (Serial.write_fmt uart_fuel ([txt "["; two (hours t); txt ":"; two (minutes t); txt ":";
    two (seconds t); txt "] ["; dec sec; txt "."; pad_zero 3 (dec ms); txt "] ["; prefix level;
    txt "] "] ++ args ++ [[10]])).
End kernel.
Abbreviation KM D := (ST (Kernel D)).

(** ** What the parts may rely on

    Memory is mapped below 1 GiB (Boot.v). *)

Class MachineOk (D : Type) `{Machine D} := {
  machine_nic_ok :: NicOk D;
  machine_ports_ok :: PortsOk D;
  machine_disk_ok :: BlockDeviceOk D;
  machine_uart :: Uart D;
  uart_enough : (tx_limit < uart_fuel)%nat;
  pop_key_ok d : wp pop_key (λ r _, match r with Some ev => event_ok ev | None => True end) d;
  vendor_ascii : Forall (λ b, b < 0x80) (vendor_bytes cpuid);
  flush_keys_ok d : wp flush_keys (λ _ _, True) d;
  pop_mouse_ok d : wp pop_mouse (λ r _, match r with
    | Some (Scroll delta) => -128 ≤ delta < 128 | _ => True end) d;
  hlt_ok d : wp hlt (λ _ _, True) d;
  volatile_read_ok a d : 0 ≤ a < 2 ^ 30 → wp (volatile_read a) (λ v _, fits 8 v) d;
}.

(** Output changes the screen and the machine only. *)
Record output_only {D} (k k' : Kernel D) : Prop := {
  out_eq : k' = set_screen (screen k') (with_machine (machine k') k);
  out_screen : VgaProps.wf (screen k) → VgaProps.wf (screen k');
}.

#[export] Instance output_only_preorder {D} : PreOrder (@output_only D).
Proof.
  split.
  - intros k. split; [|done]. by destruct k as [? ? [? []] ? ? ? ? ? ?].
  - intros k1 k2 k3 [E1 W1] [E2 W2]. split; [|auto]. rewrite E2 at 1. by rewrite E1.
Qed.

(** Only the screen, the files and the machine change. *)
Definition files_only {D} (k k' : Kernel D) : Prop :=
  k' = set_files (files k') (set_screen (screen k') (with_machine (machine k') k)).

#[export] Instance files_only_preorder {D} : PreOrder (@files_only D).
Proof.
  split; unfold files_only.
  - intros k. by destruct k as [? ? [? []] ? ? ? ? ? ?].
  - intros k1 k2 k3 E1 E2. rewrite E2 at 1. by rewrite E1.
Qed.

Lemma output_files_only {D} (k k' : Kernel D) : output_only k k' → files_only k k'.
Proof. intros [E _]. unfold files_only. rewrite E at 1. by rewrite E. Qed.

Section output.
Context {D : Type} `{MachineOk D}.
Implicit Types (k : Kernel D).

Lemma wp_on_screen b (m : vgaM unit) k (Q : unit → Kernel D → Prop) : keeps b m →
  VgaProps.wf (screen k) →
  (∀ v, VgaProps.wf v → Q tt (set_screen v k)) → wp (on_screen m) Q k.
Proof.
  intros Hm Hk HQ. apply wp_zoom. eapply wp_mono; [by apply Hm|]. intros [] v [Hv _]. by apply HQ.
Qed.

Lemma wp_on_machine {A} (m : ST D A) k (Q : A → Kernel D → Prop) :
  wp m (λ a d, Q a (with_machine d k)) (machine k) → wp (on_machine m) Q k.
Proof. apply wp_zoom. Qed.

Lemma machine_output d k : output_only k (with_machine d k).
Proof. split; [|done]. by destruct k as [? ? [? []] ? ? ? ? ? ?]. Qed.

Lemma screen_output v k : VgaProps.wf v → output_only k (set_screen v k).
Proof. split; [|done]. by destruct k as [? ? [? []] ? ? ? ? ? ?]. Qed.

Lemma draw_ok c k (Q : unit → Kernel D → Prop) : VgaProps.wf (screen k) → call_ok c →
  (∀ k', output_only k k' → VgaProps.wf (screen k') → machine k' = machine k → Q tt k') →
  wp (on_screen (run_call c)) Q k.
Proof.
  intros Hk Hc HQ. eapply wp_on_screen; [by apply keeps_call|done|]. intros v Hv.
  apply HQ; [by apply screen_output|done|done].
Qed.

Lemma serial_ok pieces k (Q : unit → Kernel D → Prop) :
  (∀ d, Q tt (with_machine d k)) → wp (on_serial (Serial.write_fmt uart_fuel pieces)) Q k.
Proof.
  intros HQ. apply wp_zoom. pose proof uart_enough.
  eapply wp_mono; [apply write_fmt_spec; lia|]. intros [] [i d] _. apply HQ.
Qed.

Lemma print_ok pieces k (Q : unit → Kernel D → Prop) : VgaProps.wf (screen k) →
  (∀ k', output_only k k' → VgaProps.wf (screen k') → Q tt k') → wp (print pieces) Q k.
Proof.
  intros Hk HQ. unfold print. apply wp_bind. apply (draw_ok (WriteFmt pieces)); [done|done|].
  intros k1 H1 W1 _. apply serial_ok. intros d. apply HQ; [|done].
  etrans; [exact H1|]. apply machine_output.
Qed.

Lemma println_ok pieces k (Q : unit → Kernel D → Prop) : VgaProps.wf (screen k) →
  (∀ k', output_only k k' → VgaProps.wf (screen k') → Q tt k') → wp (println pieces) Q k.
Proof.
  intros Hk HQ. unfold println. apply wp_bind, print_ok; [done|]. intros k1 H1 W1.
  apply print_ok; [done|]. intros k2 H2 W2. apply HQ; [by etrans|done].
Qed.
End output.
