(* ===== verification/Editor.v ===== *)
(** * The text editor (src/src/shell/editor.rs)

    [run] loads a file of the file system in memory, handles keys until Escape
    and draws the text on the screen.  [KeyStream] says which keys arrive. *)
From stdpp Require Import strings.
From S2P Require Import Prelude Words Str Fmt Hardware Disk Keyboard Vfs Ramfs.
From S2P Require Import VgaProps Vga Kernel.
Local Open Scope Z_scope.
Local Open Scope list_scope.

(** ** [String::insert] and [String::remove] *)

Definition is_char_boundary (s : str) (i : nat) : bool :=
  bool_decide (i = 0 ∨ i = length s)%nat ||
  match s !! i with Some b => negb (continuation b) | None => false end.
Definition insert_at (i : nat) (ch : str) (s : str) : outcome str :=
  if is_char_boundary s i then Done (take i s ++ ch ++ drop i s) else Panic.
(** The length of the character that begins with this byte. *)
Definition char_len (b : Z) : nat :=
  if decide (b < 0x80) then 1 else if decide (b < 0xE0) then 2 else if decide (b < 0xF0) then 3 else 4.
Definition remove_at (i : nat) (s : str) : outcome str :=
  if is_char_boundary s i then
    match s !! i with Some b => Done (take i s ++ drop (i + char_len b) s) | None => Panic end
  else Panic.

(** ** Positions in the text *)

Definition EDITOR_ROWS : nat := 24.
Definition line_count (s : str) : nat := length (Fmt.lines s) `max` 1.
Definition line_len (s : str) (row : nat) : nat :=
  match Fmt.lines s !! row with Some l => length l | None => O end.
Fixpoint pos_from (ls : list str) (r i offset : nat) : option (nat * nat) :=
  match ls with
  | [] => None
  | line :: ls =>
      let line_bytes := (length line + 1)%nat in
      if decide (offset < i + line_bytes)%nat then Some (r, offset - i)%nat
      else pos_from ls (S r) (i + line_bytes) offset
  end.
Definition offset_to_pos (s : str) (offset : nat) : nat * nat :=
  match pos_from (Fmt.lines s) 0 0 offset with
  | Some p => p
  | None => let rows := line_count s in ((rows - 1)%nat, line_len s (rows - 1))
  end.

Definition redraw (buffer path : str) : vgaM unit :=
  Vga.for_each (seq 0 EDITOR_ROWS) (λ r,
    Vga.clear_line (Z.of_nat r);;
    match Fmt.lines buffer !! r with
    | Some line => Vga.write_at (Z.of_nat r) 0 line
    | None => mret tt
    end);;
  Vga.status_line (if decide (path = []) then txt "editor"
    else txt "edit: " ++ path ++ txt " | Esc=exit Ctrl+S=save").

(** ** Keys *)

(** The variables of [run]; [e_row] and [e_col] are the place of the cursor on
    the screen, [cursor] the place in the text. *)
Record Editor := mkEditor { text : str; cursor : nat; e_row : nat; e_col : nat; dirty : bool }.

Section editor.
Context {D : Type} `{Machine D} (path : str).
Abbreviation K := (ST (Kernel D)).

Definition show_cursor (e : Editor) : K Editor :=
  on_screen (Vga.set_cursor (Z.of_nat (e_row e)) (Z.of_nat (e_col e)));; mret e.
Definition move_to (row col : nat) (e : Editor) : K Editor :=
  show_cursor (mkEditor (text e) (cursor e) row col (dirty e)).
(** After a change of the text. *)
Definition edited (s : str) (c : nat) : K Editor :=
  let '(row, col) := offset_to_pos s c in
  on_screen (redraw s path);; show_cursor (mkEditor s c row col true).

Definition on_key (ev : KeyEvent) (e : Editor) : K Editor :=
  match ev with
  | Ctrl c =>
      if decide (c = 115 ∨ c = 83) then
        on_files (Ramfs_write path (text e));;
        on_screen (Vga.status_line (txt "Saved " ++ path));;
        mret (mkEditor (text e) (cursor e) (e_row e) (e_col e) false)
      else mret e
  | Up =>
      if decide (0 < e_row e)%nat then
        let row := (e_row e - 1)%nat in move_to row (e_col e `min` line_len (text e) row)%nat e
      else mret e
  | Down =>
      if decide (e_row e + 1 < line_count (text e))%nat then
        let row := (e_row e + 1)%nat in move_to row (e_col e `min` line_len (text e) row)%nat e
      else mret e
  | Left =>
      if decide (0 < e_col e)%nat then move_to (e_row e) (e_col e - 1) e
      else if decide (0 < e_row e)%nat then
        let row := (e_row e - 1)%nat in move_to row (line_len (text e) row) e
      else mret e
  | Right =>
      if decide (e_col e < line_len (text e) (e_row e))%nat then move_to (e_row e) (e_col e + 1) e
      else if decide (e_row e + 1 < line_count (text e))%nat then move_to (e_row e + 1) 0 e
      else mret e
  | Keyboard.Backspace =>
      if decide (0 < cursor e)%nat then
        s ← lift (remove_at (cursor e - 1) (text e)); edited s (cursor e - 1)
      else mret e
  | Enter => s ← lift (insert_at (cursor e) [10] (text e)); edited s (cursor e + 1)
  | Char c => s ← lift (insert_at (cursor e) (char_bytes c) (text e)); edited s (cursor e + 1)
  | Escape | PageUp | PageDown => mret e
  end.

(** [fuel] bounds the number of polls. *)
Fixpoint edit_loop (fuel : nat) (e : Editor) : K Editor :=
  match fuel with
  | O => diverge
  | S fuel =>
      ev ← on_machine pop_key;
      match ev with
      | Some Escape => mret e
      | None => on_machine hlt;; edit_loop fuel e
      | Some ev => e ← on_key ev e; edit_loop fuel e
      end
  end.

Definition run (fuel : nat) : K unit :=
  r ← on_files (Ramfs_read path);
  let buffer := match r with Ok data => from_utf8_lossy data | Err _ => [] end in
  let buffer := if negb (ends_with [10] buffer) && negb (bool_decide (buffer = []))
                then buffer ++ [10] else buffer in
  on_machine flush_keys;;
  on_screen (redraw buffer path);;
  on_screen (Vga.set_cursor 0 0);;
  e ← edit_loop fuel (mkEditor buffer (length buffer) 0 0 false);
  on_screen Vga.clear_screen;;
  if dirty e then println [txt "Editor closed (unsaved changes discarded unless Ctrl+S was used)"]
  else mret tt.
End editor.

(** ** The keys that arrive *)

Class KeyStream (D : Type) `{Machine D} := {
  arriving : D → list (option KeyEvent);       (* what the next polls return; then nothing *)
  after_flush : D → list (option KeyEvent);
  flush_stream d : wp flush_keys (λ _ d', arriving d' = after_flush d) d;
  pop_stream d : wp pop_key (λ r d', r = match arriving d with [] => None | ev :: _ => ev end ∧
    arriving d' = tail (arriving d)) d;
  hlt_stream d : wp hlt (λ _ d', arriving d' = arriving d) d;
}.

(** ** What a session does *)

(** The text after a key: everything happens at the end. *)
Definition typed (ev : KeyEvent) (t : str) : str :=
  match ev with
  | Char c => t ++ [c]
  | Enter => t ++ [10]
  | Keyboard.Backspace => take (length t - 1) t
  | _ => t
  end.
Definition saves (ev : KeyEvent) : bool :=
  match ev with Ctrl c => bool_decide (c = 115 ∨ c = 83) | _ => false end.
(** The text and the files after some polls. *)
Fixpoint session (path : str) (evs : list (option KeyEvent)) (t : str) (m : gmap str (list Z)) :
    str * gmap str (list Z) :=
  match evs with
  | [] => (t, m)
  | None :: evs => session path evs t m
  | Some ev :: evs => session path evs (typed ev t)
      (if saves ev then match ram_key path with Some k => <[k := t]> m | None => m end else m)
  end.
(** A file's contents as the editor loads them. *)
Definition loaded (path : str) (m : gmap str (list Z)) : str :=
  match ram_key path ≫= (m !!.) with
  | Some t => if decide (t = [] ∨ last t = Some 10) then t else t ++ [10]
  | None => []
  end.

(** ** Proofs *)

Definition ascii (t : str) : Prop := Forall (λ b, 0 ≤ b < 0x80) t.

Lemma ascii_not_continuation t i b : ascii t → t !! i = Some b → continuation b = false.
Proof.
  intros Ht Hi. eapply Forall_lookup_1 in Ht; [|done]. apply bool_decide_eq_false. cbn in Ht. lia.
Qed.

Lemma ascii_boundary t i : ascii t → (i ≤ length t)%nat → is_char_boundary t i = true.
Proof.
  intros Ht Hi. unfold is_char_boundary. destruct (t !! i) as [b|] eqn:E.
  - rewrite (ascii_not_continuation t i b) by done. apply orb_true_r.
  - rewrite bool_decide_eq_true_2; [done|]. apply lookup_ge_None in E. lia.
Qed.

Lemma insert_end t ch : ascii t → insert_at (length t) ch t = Done (t ++ ch).
Proof.
  intros Ht. unfold insert_at. rewrite ascii_boundary by done.
  by rewrite take_ge, drop_ge, app_nil_r by lia.
Qed.

Lemma remove_end t : ascii t → t ≠ [] → remove_at (length t - 1) t = Done (take (length t - 1) t).
Proof.
  intros Ht Hne. unfold remove_at. rewrite ascii_boundary by (done || lia).
  destruct (lookup_lt_is_Some_2 t (length t - 1)) as [b Hb].
  { destruct t; [done|cbn; lia]. }
  rewrite Hb. f_equal. eapply Forall_lookup_1 in Ht; [|done]. unfold char_len.
  rewrite decide_True by apply Ht. rewrite drop_ge by lia. apply app_nil_r.
Qed.

(** The key arrives from the keyboard: its characters are ASCII. *)
Definition key_ok (ev : option KeyEvent) : Prop :=
  match ev with Some (Char c) => 0 ≤ c < 0x80 | Some Escape => False | _ => True end.

Lemma typed_ascii ev t : ascii t → key_ok (Some ev) → ascii (typed ev t).
Proof.
  intros Ht Hk. destruct ev; cbn in *; try done.
  - apply Forall_app. split; [done|]. by constructor.
  - by apply Forall_take.
  - apply Forall_app. split; [done|]. repeat constructor; lia.
Qed.

Lemma typed_length ev t : (length (typed ev t) ≤ S (length t))%nat.
Proof. destruct ev; cbn; rewrite ?length_app, ?length_take; cbn; lia. Qed.

Lemma keeps_editor_redraw buffer path : keeps true (redraw buffer path).
Proof.
  apply (keeps_bind true); [|apply keeps_status_line]. apply keeps_for_each. intros r _.
  apply (keeps_bind true).
  - eapply keeps_weaken, keeps_clear_line. lia.
  - destruct (_ !! r); [|apply keeps_ret].
    eapply keeps_weaken, keeps_write_at; lia.
Qed.

Section session.
Context {D : Type} `{MachineOk D} `{!KeyStream D} (path : str).
Implicit Types (k : Kernel D) (e : Editor).

Record ready e k : Prop := {
  ready_text : ascii (text e);
  ready_cursor : cursor e = length (text e);
  ready_screen : VgaProps.wf (screen k);
  ready_files : sorted (file_tree (files k));
}.

(** What a key has done to the editor and the kernel. *)
Record key_done (ev : KeyEvent) e k e' k' : Prop := {
  done_ready : ready e' k';
  done_text : text e' = typed ev (text e);
  done_files : ram_files (files k') = (session path [Some ev] (text e) (ram_files (files k))).2;
  done_frame : k' = set_files (files k') (set_screen (screen k') k);
}.

Lemma screen_done ev e k v e' : ready e k → VgaProps.wf v → text e' = typed ev (text e) →
  cursor e' = length (text e') → key_ok (Some ev) → saves ev = false →
  key_done ev e k e' (set_screen v k).
Proof.
  intros [Ht Hc Hs Hf] Hv E Ec Hk Hsave. split.
  - split; [|done..]. rewrite E. by apply typed_ascii.
  - done.
  - cbn. by rewrite Hsave.
  - by destruct k.
Qed.

Lemma self_done ev e k : ready e k → typed ev (text e) = text e → key_ok (Some ev) → saves ev = false →
  key_done ev e k e k.
Proof.
  intros Hr Ht Hk Hsave. replace k with (set_screen (screen k) k) at 2 by by destruct k.
  apply screen_done; try done; apply Hr.
Qed.

Lemma move_ok ev row col e k : ready e k → typed ev (text e) = text e → key_ok (Some ev) →
  saves ev = false → wp (move_to row col e) (key_done ev e k) k.
Proof.
  intros Hr Ht Hk Hsave. unfold move_to, show_cursor. apply wp_bind.
  eapply wp_on_screen; [apply keeps_set_cursor; lia|apply Hr|].
  intros v Hv. apply wp_ret. apply screen_done; try done. apply Hr.
Qed.

Lemma edited_ok ev e k s : ready e k → s = typed ev (text e) → key_ok (Some ev) → saves ev = false →
  wp (edited path s (length s)) (key_done ev e k) k.
Proof.
  intros Hr -> Hk Hsave. unfold edited. destruct (offset_to_pos _ _) as [row col].
  apply wp_bind. eapply wp_on_screen; [apply keeps_editor_redraw|apply Hr|]. intros v Hv.
  unfold show_cursor. apply wp_bind.
  eapply wp_on_screen; [apply keeps_set_cursor; lia|done|].
  intros v' Hv'. apply wp_ret. change (set_screen v' (set_screen v k)) with (set_screen v' k).
  by apply screen_done.
Qed.

Lemma save_ok c e k : ready e k → c = 115 ∨ c = 83 → wp (on_key path (Ctrl c) e) (key_done (Ctrl c) e k) k.
Proof.
  intros Hr Hc. cbn [on_key]. rewrite decide_True by done. apply wp_bind, wp_zoom.
  eapply wp_mono; [apply Ramfs_write_ok, Hr|]. intros r f [Hf Hm].
  apply wp_bind. eapply wp_on_screen; [apply keeps_status_line|apply Hr|]. intros v Hv.
  apply wp_ret. split; [|done| |by destruct k].
  - split; [apply Hr|apply Hr|done|done].
  - cbn. rewrite bool_decide_eq_true_2 by done.
    by destruct (ram_key path); destruct Hm as [_ ?].
Qed.

Lemma on_key_ok ev e k : ready e k → key_ok (Some ev) → wp (on_key path ev e) (key_done ev e k) k.
Proof.
  intros Hr Hk. pose proof (ready_text _ _ Hr) as Ht. pose proof (ready_cursor _ _ Hr) as Ec.
  destruct ev; try (cbn [on_key]; repeat case_decide; first [by apply move_ok | by apply wp_ret, self_done]).
  - cbn [on_key]. rewrite Ec, insert_end by done. apply wp_bind. cbn in Hk. unfold char_bytes.
    rewrite decide_True by lia. change (wp (edited path (text e ++ [c]) (length (text e) + 1)) (key_done (Char c) e k) k).
    replace (length (text e) + 1)%nat with (length (text e ++ [c])) by (rewrite length_app; cbn; lia).
    by apply edited_ok.
  - cbn [on_key]. rewrite Ec. case_decide as Hpos.
    + rewrite remove_end by (done || by intros E; rewrite E in Hpos; cbn in Hpos; lia).
      set (s := take (length (text e) - 1) (text e)).
      change (wp (edited path s (length (text e) - 1)) (key_done Keyboard.Backspace e k) k).
      replace (length (text e) - 1)%nat with (length s) by (unfold s; rewrite length_take; lia).
      by apply edited_ok.
    + apply wp_ret. apply self_done; [done| |done..]. destruct (text e) as [|b t]; [done|]. cbn in Hpos. lia.
  - cbn [on_key]. rewrite Ec, insert_end by done.
    change (wp (edited path (text e ++ [10]) (length (text e) + 1)) (key_done Enter e k) k).
    replace (length (text e) + 1)%nat with (length (text e ++ [10])) by (rewrite length_app; cbn; lia).
    by apply edited_ok.
  - destruct (decide (c = 115 ∨ c = 83)) as [Hc|Hc]; [by apply save_ok|].
    cbn [on_key]. rewrite decide_False by done. apply wp_ret, self_done; try done.
    by apply bool_decide_eq_false.
Qed.

Lemma session_cons ev evs t m :
  session path (Some ev :: evs) t m =
  session path evs (typed ev t) (session path [Some ev] t m).2.
Proof. done. Qed.

Lemma edit_loop_ok fuel evs rest e k : ready e k → Forall key_ok evs →
  arriving (machine k) = evs ++ Some Escape :: rest → (length evs < fuel)%nat →
  wp (edit_loop path fuel e) (λ e' k', ready e' k' ∧ files_only k k' ∧
    (text e', ram_files (files k')) = session path evs (text e) (ram_files (files k))) k.
Proof.
  revert fuel e k. induction evs as [|ev evs IH]; intros fuel e k Hr Hk Hin Hf;
    (destruct fuel as [|fuel]; [cbn in Hf; lia|]); cbn [edit_loop].
  - apply wp_bind, wp_on_machine. eapply wp_mono; [apply pop_stream|]. intros r d [-> Hd].
    rewrite Hin. cbn [app]. apply wp_ret. split; [|split; [|done]].
    + by destruct Hr.
    + apply output_files_only, machine_output.
  - apply Forall_cons in Hk as [Hev Hk]. apply wp_bind, wp_on_machine.
    eapply wp_mono; [apply pop_stream|]. intros r d [-> Hd]. rewrite Hin in Hd |- *. cbn [app tail] in *.
    set (k1 := with_machine d k). assert (ready e k1) as Hr1 by by destruct Hr.
    assert (files_only k k1) as F1 by apply output_files_only, machine_output.
    cbn in Hf. destruct ev as [ev|].
    + assert (wp (e' ← on_key path ev e; edit_loop path fuel e') (λ e' k', ready e' k' ∧ files_only k k' ∧
        (text e', ram_files (files k')) = session path (Some ev :: evs) (text e) (ram_files (files k))) k1) as Hgoal.
      { apply wp_bind. eapply wp_mono; [by apply on_key_ok|]. intros e2 k2 [Hr2 Ht2 Hm2 F2].
        eapply wp_mono; [apply IH; [done|done| |lia]|].
        - rewrite F2. exact Hd.
        - intros e3 k3 (Hr3 & F3 & E3). split; [done|]. split.
          + etrans; [exact F1|]. etrans; [|exact F3]. unfold files_only. rewrite F2 at 1. by rewrite F2.
          + rewrite E3, session_cons, Ht2, Hm2. done. }
      destruct ev; try exact Hgoal. done.
    + apply wp_bind, wp_on_machine. eapply wp_mono; [apply hlt_stream|]. intros [] d2 Hd2.
      eapply wp_mono; [apply (IH fuel e (with_machine d2 k1)); [by destruct Hr|done| |lia]|].
      * cbn. rewrite Hd2. exact Hd.
      * intros e3 k3 (Hr3 & F3 & E3). split; [done|]. split; [|exact E3].
        etrans; [exact F1|]. etrans; [|exact F3]. apply output_files_only, machine_output.
Qed.
End session.

Lemma from_utf8_lossy_ascii t : ascii t → from_utf8_lossy t = t.
Proof. induction 1 as [|b t Hb Ht IH]; [done|]. cbn. rewrite decide_True by apply Hb. by rewrite IH. Qed.

Lemma ends_with_last t : ends_with [10] t = bool_decide (last t = Some 10).
Proof.
  unfold ends_with. apply bool_decide_ext. destruct t as [|b t _] using rev_ind; [done|].
  rewrite last_snoc, length_app. cbn [length]. rewrite Nat.add_sub, drop_app_length. naive_solver.
Qed.

Lemma loaded_eq path m t : ascii (loaded path m) → ram_key path ≫= (m !!.) = Some t →
  (let b := from_utf8_lossy t in
   if negb (ends_with [10] b) && negb (bool_decide (b = [])) then b ++ [10] else b) = loaded path m.
Proof.
  unfold loaded. intros Ha E0. rewrite E0 in Ha |- *. cbn zeta. rewrite ends_with_last.
  destruct (decide (t = [] ∨ last t = Some 10)) as [E|E].
  - rewrite from_utf8_lossy_ascii by done. destruct E as [->|E]; [done|].
    by rewrite (bool_decide_eq_true_2 (last t = Some 10)).
  - apply Forall_app in Ha as [Ha _]. rewrite from_utf8_lossy_ascii by done.
    rewrite !bool_decide_eq_false_2 by tauto. done.
Qed.

