(* ===== verification/Simulator.v ===== *)
(** * A simulated machine

    A scripted network card, a disk in memory, a serial port that is always
    ready, keys from a list: an instance of [Machine] with all the laws, on which
    the theorems about the kernel's state are evaluated. *)
From stdpp Require Import strings.
From S2P Require Import Prelude Words Str Fmt Hardware Scheduler Paging Heap Pci Rtc Mouse Keyboard.
From S2P Require Import Disk Ext3 Vfs Ramfs Net Rtl8139 Tcp Serial Cpu VgaProps Vga Kernel Editor.
Local Open Scope Z_scope.
Local Open Scope list_scope.

(** The variables of the drivers and the selected PCI register. *)
Record Vars := mkVars { v_rtl : Rtl; v_mouse : Mouse; v_ata : bool; v_pci : Z }.
Definition no_vars : Vars := mkVars (mkRtl false 0 0) Mouse_new false 0.
Record SimMachine := mkSimMachine {
  sim_nic : Script;
  sim_disk : RamDisk;
  sim_keys : list (option KeyEvent);
  sim_sent : list Z;
  sim_vars : Vars;
}.
Definition put_nic (n : Script) (m : SimMachine) : SimMachine :=
  mkSimMachine n (sim_disk m) (sim_keys m) (sim_sent m) (sim_vars m).
Definition put_disk (d : RamDisk) (m : SimMachine) : SimMachine :=
  mkSimMachine (sim_nic m) d (sim_keys m) (sim_sent m) (sim_vars m).

Definition put_vars (v : Vars) (m : SimMachine) : SimMachine :=
  mkSimMachine (sim_nic m) (sim_disk m) (sim_keys m) (sim_sent m) v.
(** The configuration space of a bus with an RTL8139 in slot 3. *)
Definition sim_config (a : Z) : Z :=
  if decide (Z.land a 0xFC = 0x10) then 0xC001
  else if decide (Z.land (Z.shiftr a 11) 31 = 3) then
    if decide (Z.land a 0xFC = 0) then 0x813910EC else if decide (Z.land a 0xFC = 8) then 0x02000000 else 0
  else 0xFFFFFFFF.

#[export] Instance sim_machine_ports : Ports SimMachine := {
  inb p m := Done (if decide (p = COM1 + 5) then 0x20 else 0, m);
  outb p v m := Done (tt, if decide (p = COM1)
    then mkSimMachine (sim_nic m) (sim_disk m) (sim_keys m) (sim_sent m ++ [v]) (sim_vars m) else m);
  inw _ m := Done (0, m); outw _ _ m := Done (tt, m);
  inl p m := Done (if decide (p = CONFIG_DATA) then wrap 32 (sim_config (v_pci (sim_vars m))) else 0, m);
  outl p v m := Done (tt, if decide (p = CONFIG_ADDRESS)
    then put_vars (mkVars (v_rtl (sim_vars m)) (v_mouse (sim_vars m)) (v_ata (sim_vars m)) v) m else m);
}.
#[export] Instance sim_machine_nic : Nic SimMachine := {
  nic_timer := {| millis := zoom sim_nic put_nic millis |};
  nic_send f := zoom sim_nic put_nic (nic_send f);
  nic_poll_rx := zoom sim_nic put_nic nic_poll_rx;
  sent m := tx_log (sim_nic m);
}.
#[export] Instance sim_machine_disk : BlockDevice SimMachine := {
  ata_read l c b := zoom sim_disk put_disk (ata_read l c b);
  ata_write l c b := zoom sim_disk put_disk (ata_write l c b);
}.
(** Only events the keyboard handler can queue arrive. *)
Definition sim_key (r : option KeyEvent) : option KeyEvent :=
  match r with Some ev => if decide (event_ok ev) then Some ev else None | None => None end.
#[export] Instance sim_machine_inputs : Inputs SimMachine := {
  pop_key m := Done (match sim_keys m with r :: _ => sim_key r | [] => None end,
    mkSimMachine (sim_nic m) (sim_disk m) (drop 1 (sim_keys m)) (sim_sent m) (sim_vars m));
  flush_keys m := Done (tt, m);
  pop_mouse m := Done (None, m);
  hlt m := Done (tt, m);
  volatile_read a m := Done (wrap 8 a, m);
  cpuid _ := mkCpuid 0 0 0 0;
  nic_base m := IO_BASE (v_rtl (sim_vars m)); nic_initialized m := INITIALIZED (v_rtl (sim_vars m));
}.
#[export] Instance sim_machine : Machine SimMachine := {
  uart_fuel := 1; task_stack i := 0x400000 + i * STACK_SIZE; test_task := 0x200000 }.

#[export] Instance sim_machine_ports_ok : PortsOk SimMachine.
Proof.
  split; intros; unfold wp; cbn; try done; case_decide; try (by apply (bool_decide_unpack _)). by apply wrap_fits.
Qed.

#[export] Instance sim_machine_nic_ok : NicOk SimMachine.
Proof.
  split; intros.
  - apply wp_zoom. eapply wp_mono; [apply nic_send_ok|]. intros [[]|[]] s' Hs; exact Hs.
  - apply wp_zoom. eapply wp_mono; [apply nic_poll_rx_ok|]. intros r s' Hs; exact Hs.
  - apply wp_zoom. eapply wp_mono; [apply millis_ok|]. intros r s' Hs; exact Hs.
  - apply wp_zoom. eapply wp_mono; [apply nic_frame_ok|]. intros r s' Hs; exact Hs.
Qed.

#[export, refine] Instance sim_machine_uart : Uart SimMachine := {
  transmitted := sim_sent; tx_wait _ := O; tx_limit := O;
}.
Proof. all: try done. Defined.

#[export] Instance sim_machine_clock : Clock SimMachine := {
  uptime m := uptime (sim_nic m);
  patience dl m := patience dl (sim_nic m);
  millis_clock m := wp_zoom sim_nic put_nic millis _ m (millis_clock (sim_nic m));
  poll_rx_clock m := wp_zoom sim_nic put_nic nic_poll_rx _ m (poll_rx_clock (sim_nic m));
  send_clock f m := wp_zoom sim_nic put_nic (nic_send f) _ m (send_clock f (sim_nic m));
}.

#[export, refine] Instance sim_machine_disk_ok : BlockDeviceOk SimMachine := {
  sector m := sector (sim_disk m); capacity m := capacity (sim_disk m); reliable _ := True;
}.
Proof.
  - intros m l. apply (sector_ok (sim_disk m)).
  - intros lba count buf m Hl Hc. apply wp_zoom.
    eapply wp_mono; [by apply (ata_read_ok lba count buf (sim_disk m))|]. intros [r b] d Hd. exact Hd.
  - intros lba count buf m Hl Hc Hb. apply wp_zoom.
    eapply wp_mono; [by apply (ata_write_ok lba count buf (sim_disk m))|]. intros r d Hd. exact Hd.
Defined.

#[export, refine] Instance sim_machine_ok : MachineOk SimMachine := {}.
Proof.
  - cbn. lia.
  - intros m. unfold wp. cbn. destruct (sim_keys m) as [|[ev|] l]; try done. cbn. by case_decide.
  - apply (bool_decide_unpack _). by vm_compute.
  - done.
  - done.
  - done.
  - intros a m _. by apply wrap_fits.
Defined.

#[export, refine] Instance sim_machine_keys : KeyStream SimMachine := {
  arriving m := sim_key <$> sim_keys m; after_flush m := sim_key <$> sim_keys m;
}.
Proof.
  - done.
  - intros m. unfold wp. cbn. destruct (sim_keys m); done.
  - done.
Defined.

(** The kernel on this machine, after boot, with these keys and files. *)
Definition sim_kernel (keys : list (option KeyEvent)) (fs : list (str * list Z)) : Kernel SimMachine :=
  mkKernel boot_screen (mkRamFs fs)
    (mkTcpState (replicate MAX_CONNS new) (mkNet None (mkStatus NicNone false (replicate 6 0) None)
      (mkSimMachine (mkScript [] 0 0 []) (mkRamDisk ∅ 0) keys [] no_vars)))
    None (set_task 0 (with_state Ready Task_new) Scheduler.boot) (Heap.init_heap 0x200000 ∅) Paging.zeroed true None.

Lemma boot_screen_wf : VgaProps.wf boot_screen.
Proof. by apply (screen_wf 0). Qed.

(** Two keys are typed behind the text although the cursor was moved to the
    first line; the second line is saved without its newline. *)
Definition typed_keys : list (option KeyEvent) :=
  [Some Up; None; Some Keyboard.Backspace; Some (Char 33); Some (Ctrl 115); Some (Char 63)].
Definition hi_kernel : Kernel SimMachine :=
  sim_kernel (typed_keys ++ [Some Escape]) [([97], [72; 105])].
