(* ===== verification/Shell.v ===== *)
(** * The shell: history and the input line (src/src/shell/mod.rs)

    [History], [load_line] and one round of the input loop of [run].  The
    history is a list with a position in it; its invariant and the walk through
    it are the first part, the round the second. *)
From stdpp Require Import strings.
From S2P Require Import Prelude Words Str Fmt Hardware Keyboard Mouse Net Tcp Serial VgaProps Vga Kernel.
From S2P Require Import Simulator.
Local Open Scope Z_scope.
Local Open Scope list_scope.

Definition PROMPT : str := txt "kernel> ".
Definition MAX_HISTORY : nat := 16.

(** ** The history *)

Record History := mkHistory { items : list str; position : Z }.
Definition History_new : History := mkHistory [] (-1).

Definition push (cmd : str) (h : History) : History :=
  if decide (cmd = []) then mkHistory (items h) (-1)
  else if decide (last (items h) = Some cmd) then mkHistory (items h) (-1)
  else
    let items := items h ++ [cmd] in
    mkHistory (if decide (MAX_HISTORY < length items)%nat then drop 1 items else items) (-1).

(** Indexing with [self.index as usize]. *)
Definition item (i : Z) (h : History) : outcome str :=
  if decide (0 ≤ i) then index (Z.to_nat i) (items h) else Panic.

Definition prev (h : History) : outcome (option str * History) :=
  let len := length (items h) in
  if decide (len = 0)%nat then mret (None, h) else
  let i := if decide (position h < 0) then len - 1
           else if decide (0 < position h) then position h - 1 else position h in
  s ← item i h; mret (Some s, mkHistory (items h) i).

Definition next (h : History) : outcome (option str * History) :=
  let len := length (items h) in
  if decide (len = 0%nat ∨ position h < 0) then mret (None, h)
  else if decide (len - 1 ≤ position h) then mret (None, mkHistory (items h) (-1))
  else
    let i := position h + 1 in
    s ← item i h; mret (Some s, mkHistory (items h) i).

(** At most sixteen commands, none empty, no two equal ones in a row, and the
    position, when there is one, inside. *)
Fixpoint no_repeats (l : list str) : Prop :=
  match l with a :: (b :: _) as l' => a ≠ b ∧ no_repeats l' | _ => True end.
Record history_wf (h : History) : Prop := {
  hist_length : (length (items h) ≤ MAX_HISTORY)%nat;
  hist_nonempty : Forall (λ s, s ≠ []) (items h);
  hist_repeats : no_repeats (items h);
  hist_position : -1 ≤ position h < length (items h) ∨ position h = -1;
}.

Lemma History_new_wf : history_wf History_new.
Proof. split; cbn; [unfold MAX_HISTORY; lia|done|done|by right]. Qed.

Lemma no_repeats_snoc l x : no_repeats l → last l ≠ Some x → no_repeats (l ++ [x]).
Proof.
  induction l as [|a [|b l] IH]; intros Hl Hx; [done| |].
  - cbn. split; [|done]. intros ->. by apply Hx.
  - destruct Hl as [Hab Hl]. cbn [app no_repeats]. split; [done|]. apply IH; [done|]. exact Hx.
Qed.
Lemma no_repeats_drop l : no_repeats l → no_repeats (drop 1 l).
Proof. destruct l as [|a [|b l]]; [done..|]. by intros [_ Hl]. Qed.

Lemma push_wf cmd h : history_wf h → history_wf (push cmd h).
Proof.
  intros [Hlen Hne Hrep Hpos]. unfold push. case_decide as Hc; [split; try done; by right|].
  case_decide as Hl; [split; try done; by right|]. split; cbn [items position].
  - case_decide; rewrite ?length_drop, length_app in *; cbn [length] in *; unfold MAX_HISTORY in *; lia.
  - assert (Forall (λ s, s ≠ []) (items h ++ [cmd])) by (apply Forall_app; by repeat constructor).
    case_decide; [by apply Forall_drop|done].
  - pose proof (no_repeats_snoc _ _ Hrep Hl). case_decide; [by apply no_repeats_drop|done].
  - by right.
Qed.

(** The commands in the order [prev] offers them: newest first. *)
Definition newest_first (h : History) : list str := reverse (items h).
(** How many steps back the position is: 0 when not in the history. *)
Definition back (h : History) : nat := if decide (position h < 0) then 0 else length (items h) - Z.to_nat (position h).

Lemma item_spec i h : 0 ≤ i < length (items h) → ∃ s, items h !! Z.to_nat i = Some s ∧ item i h = Done s.
Proof.
  intros Hi. destruct (lookup_lt_is_Some_2 (items h) (Z.to_nat i)) as [s Hs]; [lia|].
  exists s. split; [done|]. unfold item, index. by rewrite decide_True, Hs by lia.
Qed.

Lemma newest_lookup h (k : nat) : (k < length (items h))%nat →
  newest_first h !! k = items h !! (length (items h) - 1 - k)%nat.
Proof. intros Hk. unfold newest_first. rewrite reverse_lookup by done. f_equal. lia. Qed.

(** A step back ends at the oldest command; a step forward from the newest
    leaves the history. *)
Lemma prev_spec h : history_wf h →
  runs (prev h) (λ '(r, h'), history_wf h' ∧ items h' = items h ∧
    back h' = (S (back h) `min` length (items h))%nat ∧ r = newest_first h !! (back h' - 1)%nat ∧
    (items h = [] → h' = h)).
Proof.
  intros [Hlen Hne Hrep Hpos]. unfold prev. case_decide as H0.
  { cbn. assert (items h = []) as E by by apply nil_length_inv. split_and!; try done.
    - unfold back. rewrite H0. case_decide; lia.
    - unfold newest_first. by rewrite E. }
  set (i := if decide _ then _ else _).
  assert (0 ≤ i < length (items h)) as Hi by (unfold i; repeat case_decide; lia).
  destruct (item_spec i h Hi) as (s & Hs & ->). cbn [mbind outcome_bind runs]. split_and!.
  - split; try done. cbn [position items]. lia.
  - done.
  - unfold back. cbn [position items]. rewrite (decide_False (P := i < 0)) by lia. unfold i. repeat case_decide; lia.
  - unfold back. cbn [position items]. rewrite (decide_False (P := i < 0)) by lia.
    rewrite newest_lookup by lia. rewrite <- Hs. f_equal. lia.
  - intros E. rewrite E in Hi. cbn in Hi. lia.
Qed.

Lemma next_spec h : history_wf h →
  runs (next h) (λ '(r, h'), history_wf h' ∧ items h' = items h ∧ back h' = (back h - 1)%nat ∧
    r = if decide (back h' = 0)%nat then None else newest_first h !! (back h' - 1)%nat).
Proof.
  intros [Hlen Hne Hrep Hpos]. unfold next. case_decide as H0.
  { cbn. assert (back h = 0)%nat as Hb by (unfold back; case_decide; lia).
    rewrite Hb. split_and!; done. }
  case_decide as H1.
  { cbn. split_and!; [split; try done; by right|done| |done]. unfold back. cbn [position items].
    rewrite (decide_True (P := -1 < 0)), decide_False by lia. lia. }
  destruct (item_spec (position h + 1) h) as (s & Hs & ->); [lia|]. cbn.
  assert (back (mkHistory (items h) (position h + 1)) = (length (items h) - Z.to_nat (position h + 1))%nat) as Hb.
  { unfold back. cbn [position items]. by rewrite decide_False by lia. }
  split_and!.
  - split; try done. cbn [position items]. lia.
  - done.
  - rewrite Hb. unfold back. rewrite decide_False by lia. lia.
  - rewrite Hb, decide_False by lia. rewrite newest_lookup by lia. rewrite <- Hs. f_equal. lia.
Qed.

(** ** Using the history *)

Inductive history_op := Push (cmd : str) | Prev | Next.
Definition apply_op (op : history_op) (h : History) : outcome (option str * History) :=
  match op with Push cmd => Done (None, push cmd h) | Prev => prev h | Next => next h end.
Fixpoint apply_ops (ops : list history_op) (h : History) : outcome (list (option str) * History) :=
  match ops with
  | [] => Done ([], h)
  | op :: ops => '(r, h) ← apply_op op h; '(rs, h) ← apply_ops ops h; Done (r :: rs, h)
  end.

(** The specification: the commands, newest first, and how far back one is. *)
Definition spec_push (cmd : str) (l : list str) : list str :=
  if decide (cmd = [] ∨ hd_error l = Some cmd) then l else take MAX_HISTORY (cmd :: l).
Fixpoint spec_ops (ops : list history_op) (l : list str) (k : nat) : list (option str) :=
  match ops with
  | [] => []
  | Push cmd :: ops => None :: spec_ops ops (spec_push cmd l) 0
  | Prev :: ops => let k := (S k `min` length l)%nat in l !! (k - 1)%nat :: spec_ops ops l k
  | Next :: ops => let k := (k - 1)%nat in
      (if decide (k = 0)%nat then None else l !! (k - 1)%nat) :: spec_ops ops l k
  end.

Lemma push_newest cmd h : history_wf h → newest_first (push cmd h) = spec_push cmd (newest_first h).
Proof.
  intros [Hlen _ _ _]. unfold push, spec_push, newest_first. rewrite head_reverse.
  case_decide as Hc; [by rewrite decide_True by by left|].
  case_decide as Hl; [by rewrite decide_True by by right|]. rewrite (decide_False (P := _ ∨ _)) by tauto. cbn [items].
  rewrite length_app. cbn [length]. case_decide as Hlong.
  - destruct (items h) as [|a l]; [cbn in Hlong; unfold MAX_HISTORY in *; lia|]. cbn [app drop skipn].
    rewrite drop_0, reverse_snoc, reverse_cons. cbn [length] in *. unfold MAX_HISTORY in *.
    cbn [take]. f_equal. symmetry. apply take_app_length'. rewrite length_reverse. lia.
  - rewrite reverse_snoc, take_ge; [done|]. cbn [length]. rewrite length_reverse. lia.
Qed.

(** C7: command history.  The invariant holds in the new history and every
    operation keeps it: at most sixteen commands, none empty, no two equal
    neighbours, the position inside; so no operation panics.  What [prev] and
    [next] return is what walking back and forth through the commands, newest
    first, gives: [prev] stops at the oldest, [next] leaves the history behind
    the newest, and a new command starts over. *)
Theorem history_walks ops h : history_wf h →
  runs (apply_ops ops h) (λ '(rs, h'), history_wf h' ∧ rs = spec_ops ops (newest_first h) (back h)).
Proof.
  revert h. induction ops as [|op ops IH]; intros h Hh; cbn [apply_ops spec_ops]; [done|].
  apply runs_bind. destruct op as [cmd| |]; cbn [apply_op].
  - cbn [runs]. apply runs_bind. eapply runs_mono; [apply IH, push_wf, Hh|].
    intros [rs h'] [Hh' ->]. cbn. split; [done|]. rewrite push_newest by done.
    assert (back (push cmd h) = 0)%nat as -> by (unfold back, push; by repeat case_decide). done.
  - eapply runs_mono; [by apply prev_spec|]. intros [r h1] (Hh1 & Ei & Eb & -> & _).
    apply runs_bind. eapply runs_mono; [by apply IH|]. intros [rs h'] [Hh' ->]. cbn. split; [done|].
    unfold newest_first in *. rewrite Ei, Eb, length_reverse. done.
  - eapply runs_mono; [by apply next_spec|]. intros [r h1] (Hh1 & Ei & Eb & ->).
    apply runs_bind. eapply runs_mono; [by apply IH|]. intros [rs h'] [Hh' ->]. cbn. split; [done|].
    unfold newest_first in *. by rewrite Ei, Eb.
Qed.

Lemma history_walks_witness : history_wf History_new ∧
  runs (apply_ops [Push [108]; Push [109]; Push [109]; Prev; Prev; Prev; Next; Next] History_new)
    (λ '(rs, h'), history_wf h' ∧ rs = [None; None; None; Some [109]; Some [108]; Some [108]; Some [109]; None]).
Proof.
  split; [exact History_new_wf|].
  exact (history_walks [Push [108]; Push [109]; Push [109]; Prev; Prev; Prev; Next; Next] _ History_new_wf).
Defined.

(** ** The input line *)

(** [line_buf] and [line_len]. *)
Record Line := mkLine { line_buf : list Z; line_len : nat }.
Definition empty_line : Line := mkLine (replicate 256 0) 0.

(** What the loop goes on with: more input, or a finished line. *)
Record Input := mkInput { finished : bool; hist : History; typed : Line }.

Section code.
Context {D : Type} `{Machine D}.
Abbreviation K := (KM D).

Fixpoint backspaces (n : nat) : K unit :=
  match n with O => mret tt | S n => on_screen backspace;; backspaces n end.

Definition type_char (c : Z) (l : Line) : K Line :=
  if decide (line_len l < length (line_buf l))%nat then
    b ← lift (store (line_len l) c (line_buf l)); print [char_bytes c];; mret (mkLine b (S (line_len l)))
  else mret l.
Fixpoint type_all (s : str) (l : Line) : K Line :=
  match s with [] => mret l | b :: s => l ← type_char b l; type_all s l end.
Definition load_line (s : str) (l : Line) : K Line :=
  backspaces (line_len l);; type_all s (mkLine (line_buf l) 0).

Definition rub_out (l : Line) : K Line :=
  if decide (0 < line_len l)%nat then on_screen backspace;; mret (mkLine (line_buf l) (line_len l - 1))
  else mret l.
Definition cancel (h : History) (l : Line) : K Input :=
  backspaces (line_len l);; println [txt "^C"];; mret (mkInput true h (mkLine (line_buf l) 0)).

(** The match on the key event. *)
Definition on_key (ev : option KeyEvent) (h : History) (l : Line) : K Input :=
  match ev with
  | Some (Char c) => l ← type_char c l; mret (mkInput false h l)
  | Some Keyboard.Backspace => l ← rub_out l; mret (mkInput false h l)
  | Some Enter => println [];; mret (mkInput true h l)
  | Some Up =>
      '(cmd, h) ← lift (prev h);
      match cmd with
      | Some cmd => l ← load_line cmd l; mret (mkInput false h l)
      | None => mret (mkInput false h l)
      end
  | Some Down =>
      '(cmd, h) ← lift (next h);
      match cmd with
      | Some cmd => l ← load_line cmd l; mret (mkInput false h l)
      | None => backspaces (line_len l);; mret (mkInput false h (mkLine (line_buf l) 0))
      end
  | Some PageUp => on_screen (scroll_display_up 10);; mret (mkInput false h l)
  | Some PageDown => on_screen (scroll_display_down 10);; mret (mkInput false h l)
  | Some (Ctrl 99) => cancel h l
  | _ => mret (mkInput false h l)
  end.

(** The match on a byte from the serial line. *)
Definition on_byte (byte : Z) (h : History) (l : Line) : K Input :=
  if decide (byte = 13 ∨ byte = 10) then println [];; mret (mkInput true h l)
  else if decide (byte = 0x7F ∨ byte = 0x08) then l ← rub_out l; mret (mkInput false h l)
  else if decide (byte = 0x03) then cancel h l
  else if decide (0x20 ≤ byte ≤ 0x7E) then l ← type_char byte l; mret (mkInput false h l)
  else mret (mkInput false h l).

(** The wheel; [-delta] is an [i8], made a [usize]. *)
Definition on_mouse (ev : MouseEvent) : K unit :=
  match ev with
  | Scroll delta =>
      if decide (0 < delta) then on_screen (scroll_display_down delta)
      else on_screen (scroll_display_up (wrap 64 (as_i8 (wrap 8 (- delta)))))
  | _ => mret tt
  end.
Fixpoint mouse_events (fuel : nat) : K unit :=
  match fuel with
  | O => diverge
  | S fuel =>
      ev ← on_machine pop_mouse;
      match ev with Some ev => on_mouse ev;; mouse_events fuel | None => mret tt end
  end.

(** One round of the inner loop of [run]. *)
Definition round (fuel : nat) (h : History) (l : Line) : K Input :=
  ev ← on_machine pop_key;
  i ← on_key ev h l;
  if finished i then mret i else
  byte ← on_serial poll_char;
  i ← (match byte with Some b => on_byte b (hist i) (typed i) | None => mret i end);
  if finished i then mret i else
  mouse_events fuel;;
  on_stack (poll_and_dispatch fuel);;
  on_machine hlt;;
  mret i.
Fixpoint read_line (rounds fuel : nat) (h : History) (l : Line) : K Input :=
  match rounds with
  | O => diverge
  | S rounds => i ← round fuel h l; if finished i then mret i else read_line rounds fuel (hist i) (typed i)
  end.

(** [from_utf8(&line_buf[..line_len]).unwrap_or("").trim()] *)
Definition line_text (l : Line) : outcome str :=
  s ← slice 0 (line_len l) (line_buf l); Done (trim (if valid_utf8 s then s else [])).
(** Every character is neither NUL nor a control character other than newline
    and tabulator; the controls above U+007F are two bytes in UTF-8. *)
Fixpoint acceptable (s : str) : bool :=
  match s with
  | [] => true
  | b :: s =>
      (if decide (b < 0x20) then bool_decide (b = 10 ∨ b = 9)
       else if decide (b = 0x7F) then false
       else if decide (b = 0xC2) then match s with b' :: _ => negb (bool_decide (0x80 ≤ b' < 0xA0)) | [] => true end
       else true) && acceptable s
  end.
End code.

(** ** What the input line does *)

Inductive input := Key (ev : KeyEvent) | Byte (b : Z).
Section feed.
Context {D : Type} `{Machine D}.
(** Inputs are handled until the line is finished. *)
Fixpoint feed (ins : list input) (h : History) (l : Line) : KM D Input :=
  match ins with
  | [] => mret (mkInput false h l)
  | i :: ins =>
      r ← (match i with Key ev => on_key (Some ev) h l | Byte b => on_byte b h l end);
      if finished r then mret r else feed ins (hist r) (typed r)
  end.
End feed.

(** The specification: the text typed, the commands newest first, and how far
    back in them one is. *)
Record Session := mkSession { text : str; commands : list str; steps_back : nat }.
Definition type_at_end (b : Z) (s : Session) : Session :=
  mkSession (take 256 (text s ++ [b])) (commands s) (steps_back s).
Definition rub_last (s : Session) : Session := mkSession (removelast (text s)) (commands s) (steps_back s).
Definition recall (k : nat) (s : Session) : Session :=
  mkSession (match k with O => [] | S k => take 256 (default [] (commands s !! k)) end) (commands s) k.
Definition abandon (s : Session) : Session := mkSession [] (commands s) (steps_back s).
Definition spec_input (i : input) (s : Session) : bool * Session :=
  match i with
  | Key (Char c) => (false, type_at_end c s)
  | Key Keyboard.Backspace => (false, rub_last s)
  | Key Enter => (true, s)
  | Key Up => (false, if decide (commands s = []) then s
                      else recall (S (steps_back s) `min` length (commands s)) s)
  | Key Down => (false, recall (steps_back s - 1) s)
  | Key (Ctrl c) => if decide (c = 99) then (true, abandon s) else (false, s)
  | Key _ => (false, s)
  | Byte b =>
      if decide (b = 13 ∨ b = 10) then (true, s)
      else if decide (b = 0x7F ∨ b = 0x08) then (false, rub_last s)
      else if decide (b = 0x03) then (true, abandon s)
      else if decide (0x20 ≤ b ≤ 0x7E) then (false, type_at_end b s)
      else (false, s)
  end.
Fixpoint spec_feed (ins : list input) (s : Session) : bool * Session :=
  match ins with
  | [] => (false, s)
  | i :: ins => let r := spec_input i s in if r.1 : bool then r else spec_feed ins r.2
  end.

Record shows (h : History) (l : Line) (s : Session) : Prop := {
  shows_hist : history_wf h;
  shows_buf : length (line_buf l) = 256%nat;
  shows_len : (line_len l ≤ 256)%nat;
  shows_text : take (line_len l) (line_buf l) = text s;
  shows_commands : newest_first h = commands s;
  shows_back : back h = steps_back s;
}.

Section line_props.
Context {D : Type} `{MachineOk D}.
Implicit Types (k : Kernel D).

(** Code that only draws and prints, and leaves the screen in order. *)
Definition draws {A} (m : KM D A) (P : A → Prop) : Prop := ∀ k, VgaProps.wf (screen k) →
  wp m (λ a k', output_only k k' ∧ VgaProps.wf (screen k') ∧ P a) k.

Lemma draws_done {A} (a : A) (P : A → Prop) : P a → draws (mret a) P.
Proof. intros Ha k Hk. by apply wp_ret. Qed.
Lemma draws_then {A B} (m : KM D A) (f : A → KM D B) P Q :
  draws m P → (∀ a, P a → draws (f a) Q) → draws (m ≫= f) Q.
Proof.
  intros Hm Hf k Hk. apply wp_bind. eapply wp_mono; [by apply Hm|]. intros a k1 (O1 & W1 & Ha).
  eapply wp_mono; [by apply (Hf a Ha)|]. intros b k2 (O2 & W2 & Hb). split; [by etrans|done].
Qed.
Lemma draws_lift {A} (m : outcome A) (P : A → Prop) : runs m P → draws (lift m) P.
Proof. intros Hm k Hk. apply wp_lift. eapply runs_mono; [exact Hm|done]. Qed.
Lemma draws_mono {A} (m : KM D A) (P Q : A → Prop) : draws m P → (∀ a, P a → Q a) → draws m Q.
Proof. intros Hm HPQ k Hk. eapply wp_mono; [by apply Hm|]. intros a k' (? & ? & ?). auto. Qed.
Lemma draws_call c : call_ok c → draws (on_screen (run_call c)) (λ _, True).
Proof. intros Hc k Hk. by apply (draw_ok c). Qed.
Lemma draws_print pieces : draws (print pieces) (λ _, True).
Proof. intros k Hk. by apply print_ok. Qed.
Lemma draws_println pieces : draws (println pieces) (λ _, True).
Proof. intros k Hk. by apply println_ok. Qed.

Lemma draws_backspaces n : draws (backspaces n) (λ _, True).
Proof.
  induction n as [|n IH]; cbn [backspaces]; [by apply draws_done|].
  eapply draws_then; [by apply (draws_call Vga.Backspace)|]. done.
Qed.

Definition line_ok (l : Line) (t : str) : Prop :=
  length (line_buf l) = 256%nat ∧ (line_len l ≤ 256)%nat ∧ take (line_len l) (line_buf l) = t.

Lemma draws_type_char c l t : line_ok l t → draws (type_char c l) (λ l', line_ok l' (take 256 (t ++ [c]))).
Proof.
  intros (Hb & Hl & Ht). unfold type_char. rewrite Hb. case_decide as Hlt.
  - rewrite store_done by lia. apply draws_then with (P := λ b, b = <[line_len l:=c]> (line_buf l)).
    { by apply draws_lift. }
    intros b ->. eapply draws_then; [apply draws_print|]. intros [] _. apply draws_done. split_and!; cbn.
    + by rewrite length_insert.
    + lia.
    + rewrite (take_S_r _ _ c) by (apply list_lookup_insert_eq; lia). rewrite take_insert_ge by lia. rewrite Ht.
      rewrite take_ge; [done|]. rewrite length_app, <- Ht, length_take. cbn. lia.
  - apply draws_done. split_and!; [done|done|]. assert (line_len l = 256)%nat as E by lia.
    rewrite take_app_le by (rewrite <- Ht, length_take; lia). rewrite <- Ht, E, take_take. f_equal. 
Qed.

Lemma draws_type_all s l t : line_ok l t → draws (type_all s l) (λ l', line_ok l' (take 256 (t ++ s))).
Proof.
  revert l t. induction s as [|b s IH]; intros l t Hl; cbn [type_all].
  - apply draws_done. rewrite app_nil_r. destruct Hl as (Hb & Hn & Ht). split_and!; try done.
    rewrite (take_ge t); [done|]. rewrite <- Ht, length_take. lia.
  - eapply draws_then; [by apply draws_type_char|]. intros l' Hl'. eapply draws_mono; [exact (IH _ _ Hl')|].
    intros l2 Hl2. destruct (decide (length t < 256)%nat) as [Hlt|Hge].
    + rewrite (take_ge (t ++ [b])) in Hl2 by (rewrite length_app; cbn; lia).
      by rewrite <- app_assoc in Hl2.
    + destruct Hl as (Hb & Hn & Ht). assert (length t = 256)%nat as E by (rewrite <- Ht, length_take in Hge |- *; lia).
      rewrite (take_app_le t) by lia. rewrite (take_app_le t [b]), take_app_le, take_take in Hl2
        by (rewrite ?length_take; lia). exact Hl2.
Qed.

Lemma draws_load_line s l t : line_ok l t → draws (load_line s l) (λ l', line_ok l' (take 256 s)).
Proof.
  intros (Hb & Hl & Ht). unfold load_line. eapply draws_then; [apply draws_backspaces|]. intros [] _.
  apply (draws_type_all s _ []). split_and!; [done|cbn; lia|done].
Qed.

Lemma draws_rub_out l t : line_ok l t → draws (rub_out l) (λ l', line_ok l' (removelast t)).
Proof.
  intros (Hb & Hl & Ht). unfold rub_out. case_decide as Hp.
  - eapply draws_then; [by apply (draws_call Vga.Backspace)|]. intros [] _. apply draws_done.
    split_and!; cbn; [done|lia|]. rewrite <- Ht. destruct (line_len l) as [|n] eqn:E; [lia|].
    rewrite removelast_firstn by lia. by rewrite Nat.sub_succ, Nat.sub_0_r.
  - apply draws_done. assert (line_len l = 0)%nat as E by lia. rewrite E in *. cbn in Ht. subst t.
    split_and!; [done|lia|by rewrite E].
Qed.

Lemma shows_line h l s : shows h l s → line_ok l (text s).
Proof. intros []. done. Qed.
Lemma line_shows h l s t : shows h l s → ∀ l', line_ok l' t → shows h l' (mkSession t (commands s) (steps_back s)).
Proof. intros [] l' (? & ? & ?). by split. Qed.

Definition handled (i : input) (s : Session) (r : Input) : Prop :=
  finished r = (spec_input i s).1 ∧ shows (hist r) (typed r) (spec_input i s).2.

Lemma draws_cancel h l s : shows h l s →
  draws (cancel h l) (λ r, finished r = true ∧ shows (hist r) (typed r) (abandon s)).
Proof.
  intros Hs. unfold cancel. eapply draws_then; [apply draws_backspaces|]. intros [] _.
  eapply draws_then; [apply draws_println|]. intros [] _. apply draws_done. split; [done|].
  destruct Hs. split; cbn; try done. lia.
Qed.

Lemma draws_typed h l s c : shows h l s →
  draws (l ← type_char c l; mret (mkInput false h l))
    (λ r, finished r = false ∧ shows (hist r) (typed r) (type_at_end c s)).
Proof.
  intros Hs. eapply draws_then; [by eapply draws_type_char, shows_line|]. intros l' Hl'.
  apply draws_done. split; [done|]. by eapply line_shows.
Qed.
Lemma draws_rubbed h l s : shows h l s →
  draws (l ← rub_out l; mret (mkInput false h l)) (λ r, finished r = false ∧ shows (hist r) (typed r) (rub_last s)).
Proof.
  intros Hs. eapply draws_then; [by eapply draws_rub_out, shows_line|]. intros l' Hl'.
  apply draws_done. split; [done|]. by eapply line_shows.
Qed.

Lemma draws_recalled h h' l s cmd : shows h l s → history_wf h' → newest_first h' = newest_first h →
  draws (l ← load_line cmd l; mret (mkInput false h' l))
    (λ r, finished r = false ∧ shows (hist r) (typed r) (mkSession (take 256 cmd) (commands s) (back h'))).
Proof.
  intros Hs Hh Hn. eapply draws_then; [by eapply draws_load_line, shows_line|]. intros l' (? & ? & ?).
  apply draws_done. split; [done|]. destruct Hs. by split; cbn; rewrite ?Hn.
Qed.

Lemma draws_up h l s : shows h l s → draws (on_key (Some Up) h l) (handled (Key Up) s).
Proof.
  intros Hs. pose proof (shows_commands _ _ _ Hs) as Hc. pose proof (shows_back _ _ _ Hs) as Hb.
  eapply draws_then; [apply draws_lift, prev_spec, Hs|]. intros [r h'] (Hh & Ei & Eb & Er & Hnil).
  assert (newest_first h' = newest_first h) as En by (unfold newest_first; by rewrite Ei).
  assert (length (commands s) = length (items h)) as El by (rewrite <- Hc; apply length_reverse).
  unfold handled. cbn [spec_input fst snd].
  destruct (decide (commands s = [])) as [E0|E0].
  - rewrite E0 in El. assert (items h = []) as Ei0 by by apply nil_length_inv.
    rewrite Er, (Hnil Ei0), Hc, E0. cbn. apply draws_done. done.
  - assert (length (commands s) ≠ 0)%nat as Hpos by (intros ?%nil_length_inv; done).
    destruct (lookup_lt_is_Some_2 (newest_first h) (back h' - 1)) as [cmd Hcmd]; [rewrite Hc; lia|].
    rewrite Er, Hcmd. eapply draws_mono; [by apply (draws_recalled h)|]. intros i [Hf Hi]. split; [done|].
    unfold recall. rewrite El, <- Hb, <- Eb. rewrite <- Hc. destruct (back h') as [|n] eqn:En'; [lia|].
    rewrite Nat.sub_succ, Nat.sub_0_r in Hcmd. rewrite Hcmd. rewrite <- Hc in Hi. exact Hi.
Qed.

Lemma draws_down h l s : shows h l s → draws (on_key (Some Down) h l) (handled (Key Down) s).
Proof.
  intros Hs. pose proof (shows_commands _ _ _ Hs) as Hc. pose proof (shows_back _ _ _ Hs) as Hb.
  eapply draws_then; [apply draws_lift, next_spec, Hs|]. intros [r h'] (Hh & Ei & Eb & Er).
  assert (newest_first h' = newest_first h) as En by (unfold newest_first; by rewrite Ei).
  unfold handled. cbn [spec_input fst snd]. unfold recall. rewrite <- Hb, <- Eb, <- Hc.
  assert (∀ t, t = [] → draws (backspaces (line_len l);; mret (mkInput false h' (mkLine (line_buf l) 0)))
    (λ r, finished r = false ∧ shows (hist r) (typed r) (mkSession t (newest_first h) (back h')))) as Hclear.
  { intros t ->. eapply draws_then; [apply draws_backspaces|]. intros [] _. apply draws_done. split; [done|].
    destruct Hs. split; cbn; try done. lia. }
  destruct (back h') as [|n] eqn:E.
  - rewrite Er. cbn. by apply Hclear.
  - rewrite Nat.sub_succ, Nat.sub_0_r in Er. cbn in Er. rewrite Er.
    destruct (newest_first h !! n) as [cmd|]; [|by apply Hclear].
    eapply draws_mono; [by apply (draws_recalled h)|]. intros i [Hf Hi]. split; [done|].
    rewrite E, <- Hc in Hi. exact Hi.
Qed.

Lemma draws_nothing b h l s i : shows h l s → spec_input i s = (b, s) →
  draws (mret (mkInput b h l)) (handled i s).
Proof. intros Hs E. apply draws_done. unfold handled. by rewrite E. Qed.

Lemma draws_key ev h l s : shows h l s → draws (on_key (Some ev) h l) (handled (Key ev) s).
Proof.
  intros Hs. assert (∀ (m : KM D unit) b, draws m (λ _, True) → spec_input (Key ev) s = (b, s) →
    draws (m;; mret (mkInput b h l)) (handled (Key ev) s)) as Hthen.
  { intros m b Hm E. eapply draws_then; [exact Hm|]. intros [] _. by apply draws_nothing. }
  destruct ev; try by apply draws_nothing.
  - by apply draws_typed.
  - by apply draws_up.
  - by apply draws_down.
  - by apply draws_rubbed.
  - by apply Hthen; [apply draws_println|].
  - unfold handled. cbn [spec_input]. destruct (decide (c = 99)) as [->|Hne]; [by apply draws_cancel|].
    replace (on_key (Some (Ctrl c)) h l) with (mret (mkInput false h l) : KM D Input); [by apply draws_done|].
    cbn [on_key]. destruct c as [|p|p]; [done| |done]. repeat (destruct p as [p|p|]; try done).
  - apply Hthen; [|done]. by apply (draws_call (ScrollDisplayUp 10)).
  - apply Hthen; [|done]. by apply (draws_call (ScrollDisplayDown 10)).
Qed.

Lemma draws_byte b h l s : shows h l s → draws (on_byte b h l) (handled (Byte b) s).
Proof.
  intros Hs. unfold on_byte, handled. cbn [spec_input].
  destruct (decide (b = 13 ∨ b = 10)).
  { eapply draws_then; [apply draws_println|]. intros [] _. by apply draws_done. }
  destruct (decide (b = 0x7F ∨ b = 0x08)); [by apply draws_rubbed|].
  destruct (decide (b = 0x03)); [by apply draws_cancel|].
  destruct (decide (0x20 ≤ b ≤ 0x7E)); [by apply draws_typed|]. by apply draws_done.
Qed.

Lemma draws_feed ins h l s : shows h l s →
  draws (feed ins h l) (λ r, finished r = (spec_feed ins s).1 ∧ shows (hist r) (typed r) (spec_feed ins s).2).
Proof.
  revert h l s. induction ins as [|i ins IH]; intros h l s Hs; cbn [feed spec_feed]; [by apply draws_done|].
  apply draws_then with (P := handled i s).
  { destruct i; [by apply draws_key|by apply draws_byte]. }
  intros r [Hf Hr]. destruct (spec_input i s) as [b s'] eqn:E. cbn [fst snd] in *. rewrite Hf. destruct b.
  - apply draws_done. by rewrite Hf.
  - by apply IH.
Qed.
End line_props.

(** C6: the input line.  Whatever keys and serial bytes arrive, in any order,
    up to the end of the line: editing never panics and changes only screen and
    machine, and the line is the text the specification gives: characters are
    appended up to 256, backspace removes the last one, the arrows replace the
    whole line by commands of the history (or by nothing in front of it),
    Ctrl+C empties it; what is shown agrees with what will be executed. *)
Theorem input_line {D} `{MachineOk D} ins h l s (k : Kernel D) :
  shows h l s → VgaProps.wf (screen k) →
  wp (feed ins h l) (λ r k', finished r = (spec_feed ins s).1 ∧
    shows (hist r) (typed r) (spec_feed ins s).2 ∧ output_only k k' ∧ VgaProps.wf (screen k')) k.
Proof.
  intros Hs Hk. eapply wp_mono; [by apply draws_feed|]. intros r k' (O & W & Hf & Hr). done.
Qed.

(** "ab", a backspace, the command before, an exclamation mark, return. *)
Definition some_input : list input :=
  [Key (Char 97); Byte 98; Key Keyboard.Backspace; Key Up; Key (Char 33); Byte 13].
Definition some_history : History := push [108; 115] History_new.
Definition some_kernel : Kernel SimMachine := sim_kernel [] [].
Lemma some_shows : shows some_history empty_line (mkSession [] [[108; 115]] 0).
Proof.
  split; [apply push_wf, History_new_wf|done|cbn; lia|done..].
Qed.
Lemma input_line_witness :
  wp (feed some_input some_history empty_line) (λ r k', finished r = true ∧
    take (line_len (typed r)) (line_buf (typed r)) = [108; 115; 33] ∧ output_only some_kernel k') some_kernel.
Proof.
  eapply wp_mono; [refine (input_line some_input some_history empty_line _ some_kernel some_shows boot_screen_wf)|].
  intros r k' (Hf & Hs & Ho & _). split; [exact Hf|]. split; [exact (shows_text _ _ _ Hs)|exact Ho].
Defined.
