(* ===== verification/ShellFiles.v ===== *)
(** * The shell's file commands (src/src/shell/mod.rs)

    The commands on the file system in memory, shown to do to its map of names
    what they say, and the commands on the ext3 disk. *)
From stdpp Require Import strings.
From S2P Require Import Prelude Words Str Fmt Hardware Disk Ext3 Ext3Read Ext3Props Vfs Ramfs VgaProps Vga Kernel.
From S2P Require Import Simulator.
Local Open Scope Z_scope.
Local Open Scope list_scope.

(** ** Arguments *)

Definition is_valid_filename (name : str) : bool :=
  negb (bool_decide (name = [])) && negb (contains 47 name) && negb (contains 92 name) &&
  negb (contains 0 name) && bool_decide (length name ≤ 255)%nat.

Definition unquote (content : str) : str :=
  if starts_with [QUOTE] content && ends_with [QUOTE] content && bool_decide (2 ≤ length content)%nat
  then take (length content - 2) (drop 1 content) else content.

Definition parse_write_args (s : str) : option (str * str) :=
  let s := trim s in
  if decide (s = []) then None else
  split_pos ← find_whitespace s;
  let path := trim (take split_pos s) in
  if negb (is_valid_filename path) then None else
  let rest := trim (drop split_pos s) in
  if decide (rest = []) then None else Some (path, unquote rest).

Definition fs_error (e : FsError) : str := txt (FsError_fmt e).

Section ramfs.
Context {D : Type} `{Machine D}.
Abbreviation K := (KM D).

Fixpoint print_files (l : list (str * nat)) : K unit :=
  match l with
  | [] => mret tt
  | (name, size) :: l => println [pad_right 16 name; txt " "; dec size; txt " bytes"];; print_files l
  end.
Definition cmd_ls : K unit := l ← on_files Ramfs_list; print_files l.

Definition cmd_touch (path : str) : K unit :=
  if negb (is_valid_filename path) then
    println [txt "touch: invalid filename (max 255 chars, no / \ or null bytes)"]
  else
    r ← on_files (Ramfs_create path);
    match r with
    | Ok _ => println [txt "created "; path]
    | Err e => println [txt "touch: "; fs_error e]
    end.

Definition cmd_write (line : str) : K unit :=
  let rest := trim (default [] (strip_prefix (txt "write") line)) in
  match parse_write_args rest with
  | None => println [txt "usage: write <file> "; [QUOTE]; txt "content"; [QUOTE]; txt " (filename must be valid)"]
  | Some (path, content) =>
      r ← on_files (Ramfs_write path content);
      match r with
      | Ok _ => println [txt "wrote "; dec (length content); txt " bytes to "; path]
      | Err e => println [txt "write: "; fs_error e]
      end
  end.

Definition cmd_cat (path : str) : K unit :=
  if negb (is_valid_filename path) then println [txt "cat: invalid filename"]
  else
    r ← on_files (Ramfs_read path);
    match r with
    | Ok data =>
        if valid_utf8 data then println [data] else println [txt "(binary "; dec (length data); txt " bytes)"]
    | Err e => println [txt "cat: "; fs_error e]
    end.

Definition cmd_rm (path : str) : K unit :=
  if negb (is_valid_filename path) then println [txt "rm: invalid filename"]
  else
    r ← on_files (Ramfs_delete path);
    match r with
    | Ok _ => println [txt "removed "; path]
    | Err e => println [txt "rm: "; fs_error e]
    end.

Definition cmd_cp (src dst : str) : K unit :=
  if negb (is_valid_filename src) || negb (is_valid_filename dst) then println [txt "cp: invalid filename"]
  else
    r ← on_files (Ramfs_read src);
    match r with
    | Ok data =>
        w ← on_files (Ramfs_write dst data);
        match w with
        | Ok _ => println [txt "copied "; src; txt " to "; dst; txt " ("; dec (length data); txt " bytes)"]
        | Err e => println [txt "cp: "; fs_error e]
        end
    | Err e => println [txt "cp: "; fs_error e]
    end.

Definition cmd_mv (src dst : str) : K unit :=
  if negb (is_valid_filename src) || negb (is_valid_filename dst) then println [txt "mv: invalid filename"]
  else
    r ← on_files (Ramfs_read src);
    match r with
    | Ok data =>
        w ← on_files (Ramfs_write dst data);
        match w with
        | Ok _ =>
            d ← on_files (Ramfs_delete src);
            match d with
            | Ok _ => println [txt "moved "; src; txt " to "; dst]
            | Err e => println [txt "mv: failed to delete source: "; fs_error e]
            end
        | Err e => println [txt "mv: "; fs_error e]
        end
    | Err e => println [txt "mv: "; fs_error e]
    end.
End ramfs.

(** ** The disk *)

Definition ext3_fmt (fs : Ext3Fs) : list str := [txt "ext3 (block_size="; dec (block_size fs); txt ", ro)"].

Section ext3.
Context {D : Type} `{Machine D}.
Abbreviation K := (KM D).

Definition ext3_mount : K unit :=
  fs ← gets mounted;
  match fs with
  | Some _ => mret tt
  | None =>
      r ← on_machine mount;
      match r with
      | Ok f => println [txt "ext3: mounted (block_size="; dec (block_size f); txt ")"];; modify (set_mounted (Some f))
      | Err e => println [txt "ext3 mount: "; txt e]
      end
  end.

Definition ft_char (ft : Z) : Z := if decide (ft = 2) then 47 else if decide (ft = 7) then 64 else 32.
Fixpoint print_entries (l : list (str * Z * Z)) : K unit :=
  match l with
  | [] => mret tt
  | (name, ino, ft) :: l =>
      println [txt "  "; pad_left 8 (dec ino); txt "  "; name; [ft_char ft]];; print_entries l
  end.
Definition cmd_ext3ls (path : str) : K unit :=
  ext3_mount;;
  fs ← gets mounted;
  match fs with
  | None => mret tt
  | Some fs =>
      r ← on_machine (list_dir fs path);
      match r with
      | Ok [] => println [txt "(empty)"]
      | Ok entries => print_entries entries
      | Err e => println [txt "ext3ls: "; txt e]
      end
  end.
Definition cmd_ext3cat (path : str) : K unit :=
  ext3_mount;;
  fs ← gets mounted;
  match fs with
  | None => mret tt
  | Some fs =>
      r ← on_machine (read_file fs path);
      match r with
      | Ok data =>
          if valid_utf8 data then println [data] else println [txt "(binary, "; dec (length data); txt " bytes)"]
      | Err e => println [txt "ext3cat: "; txt e]
      end
  end.
Definition cmd_ext3info : K unit :=
  ext3_mount;;
  fs ← gets mounted;
  match fs with Some fs => println (ext3_fmt fs) | None => mret tt end.
End ext3.

(** ** What the file commands do to the files *)

Inductive file_command := Ls | Touch (path : str) | WriteLine (line : str) | Cat (path : str) | Rm (path : str)
  | Cp (src dst : str) | Mv (src dst : str).

Abbreviation store := (gmap str (list Z)).
(** The name a valid file name stands for. *)
Definition named (path : str) : option str := if is_valid_filename path then ram_key path else None.
Definition spec_write (path : str) (data : list Z) (m : store) : store :=
  match ram_key path with Some k => <[k := data]> m | None => m end.
Definition spec_delete (path : str) (m : store) : store :=
  match ram_key path with Some k => delete k m | None => m end.
Definition content (path : str) (m : store) : option (list Z) := k ← ram_key path; m !! k.

Definition spec_command (c : file_command) (m : store) : store :=
  match c with
  | Ls | Cat _ => m
  | Touch path =>
      if is_valid_filename path then match content path m with Some _ => m | None => spec_write path [] m end else m
  | WriteLine line =>
      match parse_write_args (trim (default [] (strip_prefix (txt "write") line))) with
      | Some (path, data) => spec_write path data m
      | None => m
      end
  | Rm path => if is_valid_filename path then spec_delete path m else m
  | Cp src dst =>
      if is_valid_filename src && is_valid_filename dst then
        match content src m with Some data => spec_write dst data m | None => m end
      else m
  | Mv src dst =>
      if is_valid_filename src && is_valid_filename dst then
        match content src m with
        | Some data => match ram_key dst with Some _ => spec_delete src (spec_write dst data m) | None => m end
        | None => m
        end
      else m
  end.

Section file_props.
Context {D : Type} `{MachineOk D}.
Implicit Types (k : Kernel D).

Definition run_command (c : file_command) : KM D unit :=
  match c with
  | Ls => cmd_ls | Touch p => cmd_touch p | WriteLine l => cmd_write l | Cat p => cmd_cat p
  | Rm p => cmd_rm p | Cp s d => cmd_cp s d | Mv s d => cmd_mv s d
  end.
Fixpoint run_commands (cs : list file_command) : KM D unit :=
  match cs with [] => mret tt | c :: cs => run_command c;; run_commands cs end.

Record in_order k : Prop := { order_screen : VgaProps.wf (screen k); order_files : sorted (file_tree (files k)) }.

Record acted (f : store → store) k k' : Prop := {
  acted_order : in_order k';
  acted_files : ram_files (files k') = f (ram_files (files k));
  acted_frame : files_only k k';
}.

Lemma acted_refl k : in_order k → acted id k k.
Proof. by split. Qed.

Lemma acted_println pieces k s f : in_order k → sorted (file_tree s) →
  ram_files s = f (ram_files (files k)) → wp (println pieces) (λ _ k', acted f k k') (set_files s k).
Proof.
  intros [Hk _] Hs Hm. apply println_ok; [done|]. intros k' O W. pose proof (out_eq _ _ O) as E.
  split; [split; [done|by rewrite E]|by rewrite E|].
  etrans; [|by apply output_files_only]. by destruct k as [? ? [? []] ? ? ? ? ? ?].
Qed.
Lemma acted_message pieces k : in_order k → wp (println pieces) (λ _ k', acted id k k') k.
Proof.
  intros Hk. replace k with (set_files (files k) k) at 2 by by destruct k. apply acted_println; [done|apply Hk|done].
Qed.

Lemma acted_trans f g k1 k2 k3 : acted f k1 k2 → acted g k2 k3 → acted (λ m, g (f m)) k1 k3.
Proof. intros [O1 F1 E1] [O2 F2 E2]. split; [done|by rewrite F2, F1|by etrans]. Qed.

Lemma wp_on_files {A} (m : ST RamFs A) k (Q : A → Kernel D → Prop) :
  wp m (λ a s, Q a (set_files s k)) (files k) → wp (on_files m) Q k.
Proof. apply wp_zoom. Qed.

Lemma ls_acts k : in_order k → wp cmd_ls (λ _ k', acted id k k') k.
Proof.
  intros Hk. unfold cmd_ls. apply wp_bind, wp_on_files. eapply wp_mono; [apply Ramfs_list_ok, Hk|].
  intros l s [-> _]. replace (set_files (files k) k) with k by by destruct k.
  induction l as [|[name size] l IH] in k, Hk |- *; cbn [print_files]; [by apply wp_ret, acted_refl|].
  apply wp_bind. eapply wp_mono; [by apply acted_message|]. intros [] k1 A1.
  eapply wp_mono; [apply (IH k1), A1|]. intros [] k2 A2. by apply (acted_trans id id k k1 k2).
Qed.

Lemma touch_acts path k : in_order k → wp (cmd_touch path) (λ _ k', acted (spec_command (Touch path)) k k') k.
Proof.
  intros Hk. unfold cmd_touch, spec_command. destruct (is_valid_filename path); [|by apply acted_message].
  cbn [negb]. apply wp_bind, wp_on_files. eapply wp_mono; [apply Ramfs_create_ok, Hk|].
  intros r s [Hs Hr]. unfold content, spec_write.
  destruct (ram_key path) as [q|] eqn:Eq; cbn [mbind option_bind].
  - destruct (ram_files (files k) !! q) eqn:El; destruct Hr as [-> Hm];
      apply acted_println; try done; cbn; by rewrite El, Hm.
  - destruct Hr as [-> Hm]. by apply acted_println.
Qed.

Lemma write_acts line k : in_order k → wp (cmd_write line) (λ _ k', acted (spec_command (WriteLine line)) k k') k.
Proof.
  intros Hk. unfold cmd_write, spec_command.
  destruct (parse_write_args _) as [[path data]|]; [|by apply acted_message].
  apply wp_bind, wp_on_files. eapply wp_mono; [apply Ramfs_write_ok, Hk|]. intros r s [Hs Hr]. unfold spec_write.
  destruct (ram_key path) as [q|]; destruct Hr as [-> Hm]; by apply acted_println.
Qed.

Lemma cat_acts path k : in_order k → wp (cmd_cat path) (λ _ k', acted id k k') k.
Proof.
  intros Hk. unfold cmd_cat. destruct (is_valid_filename path); [|by apply acted_message].
  cbn [negb]. apply wp_bind, wp_on_files. eapply wp_mono; [apply Ramfs_read_ok, Hk|]. intros r s (Hs & Hm & _).
  destruct r as [data|e]; [destruct (valid_utf8 data)|]; by apply acted_println.
Qed.

Lemma rm_acts path k : in_order k → wp (cmd_rm path) (λ _ k', acted (spec_command (Rm path)) k k') k.
Proof.
  intros Hk. unfold cmd_rm, spec_command. destruct (is_valid_filename path); [|by apply acted_message].
  cbn [negb]. apply wp_bind, wp_on_files. eapply wp_mono; [apply Ramfs_delete_ok, Hk|].
  intros r s [Hs Hr]. unfold spec_delete. destruct (ram_key path) as [q|].
  - destruct (ram_files (files k) !! q) eqn:El; destruct Hr as [-> Hm]; apply acted_println; try done.
    by rewrite Hm, delete_id.
  - destruct Hr as [-> Hm]. by apply acted_println.
Qed.

(** What [cp] and [mv] begin with. *)
Lemma read_source src k (Q : result (list Z) FsError → Kernel D → Prop) : in_order k →
  (∀ r, match content src (ram_files (files k)) with
        | Some data => r = Ok data | None => ∃ e, r = Err e end → Q r k) →
  wp (on_files (Ramfs_read src)) Q k.
Proof.
  intros Hk HQ. apply wp_on_files. unfold Ramfs_read. rewrite normalize_key. unfold content in HQ.
  destruct (ram_key src) as [q|]; cbn [mbind option_bind] in HQ.
  - change (Q (match bt_get q (file_tree (files k)) with Some data => Ok data | None => Err NotFound end)
      (set_files (files k) k)).
    rewrite bt_get_files. replace (set_files (files k) k) with k by by destruct k. apply HQ. destruct (ram_files (files k) !! q); eauto.
  - change (Q (Err InvalidName) (set_files (files k) k)).
    replace (set_files (files k) k) with k by by destruct k. apply HQ. eauto.
Qed.

Lemma cp_acts src dst k : in_order k → wp (cmd_cp src dst) (λ _ k', acted (spec_command (Cp src dst)) k k') k.
Proof.
  intros Hk. unfold cmd_cp, spec_command.
  destruct (is_valid_filename src); [|by apply acted_message].
  destruct (is_valid_filename dst); [|by apply acted_message]. cbn [negb orb andb].
  apply wp_bind, read_source; [done|]. intros r Hr.
  destruct (content src (ram_files (files k))) as [data|] eqn:Ec.
  - subst r. apply wp_bind, wp_on_files. eapply wp_mono; [apply Ramfs_write_ok, Hk|]. intros w s [Hs Hw].
    destruct (ram_key dst) as [q|] eqn:Ed; destruct Hw as [-> Hm]; (apply acted_println; [done|done|]);
      rewrite Ec; unfold spec_write; by rewrite Ed.
  - destruct Hr as [e ->]. eapply wp_mono; [by apply acted_message|]. intros u k' [O F E].
    split; [done|by rewrite Ec|done].
Qed.

Lemma mv_acts src dst k : in_order k → wp (cmd_mv src dst) (λ _ k', acted (spec_command (Mv src dst)) k k') k.
Proof.
  intros Hk. unfold cmd_mv, spec_command.
  destruct (is_valid_filename src); [|by apply acted_message].
  destruct (is_valid_filename dst); [|by apply acted_message]. cbn [negb orb andb].
  apply wp_bind, read_source; [done|]. intros r Hr.
  destruct (content src (ram_files (files k))) as [data|] eqn:Ec.
  2:{ destruct Hr as [e ->]. eapply wp_mono; [by apply acted_message|]. intros u k' [O F E].
      split; [done|by rewrite Ec|done]. }
  subst r. apply wp_bind, wp_on_files. eapply wp_mono; [apply Ramfs_write_ok, Hk|]. intros w s [Hs Hw].
  destruct (ram_key dst) as [q|] eqn:Ed; destruct Hw as [-> Hm].
  2:{ apply acted_println; [done|done|]. by rewrite Ec. }
  apply wp_bind, wp_on_files. eapply wp_mono; [apply Ramfs_delete_ok, Hs|]. intros d s' [Hs' Hd]. cbn [files set_files] in *.
  assert (ram_files s' = spec_delete src (spec_write dst data (ram_files (files k)))) as Hm'.
  { unfold spec_delete, spec_write. rewrite Ed, <- Hm. revert Hd. destruct (ram_key src) as [p|]; [|by intros [_ ->]].
    destruct (ram_files s !! p) eqn:El; intros [_ ->]; [done|]. by rewrite delete_id. }
  destruct d as [u|e]; (apply (acted_println _ k); [done|done|]); by rewrite Ec.
Qed.
End file_props.

(** C5: the file commands.  A sequence of ls, touch, write, cat, rm, cp and mv
    does to the files of the file system in memory exactly what the commands
    say on a map of names to contents: touch adds an empty file unless there is
    one, write, cp and mv replace what was there, an invalid or unknown name
    changes nothing; screen and machine apart, nothing else changes, and no
    command panics.  A file moved onto itself is gone. *)
Theorem file_commands_act {D} `{MachineOk D} cs (k : Kernel D) : in_order k →
  wp (run_commands cs) (λ _ k',
    ram_files (files k') = foldl (λ m c, spec_command c m) (ram_files (files k)) cs ∧
    in_order k' ∧ files_only k k') k ∧
  ∀ path key m, named path = Some key → spec_command (Mv path path) m = delete key m.
Proof.
  intros Hk. split.
  - induction cs as [|c cs IH] in k, Hk |- *; cbn [run_commands foldl]; [by apply wp_ret|].
    apply wp_bind. apply (wp_mono _ (λ _ k', acted (spec_command c) k k')).
    { destruct c; [by apply ls_acts|by apply touch_acts|by apply write_acts|by apply cat_acts|by apply rm_acts
        |by apply cp_acts|by apply mv_acts]. }
    intros [] k1 [O1 F1 E1]. eapply wp_mono; [by apply IH|]. intros [] k2 (F2 & O2 & E2).
    split_and!; [by rewrite F2, F1|done|by etrans].
  - intros path key m Hn. unfold named in Hn. cbn [spec_command].
    destruct (is_valid_filename path); [|done]. cbn [andb]. unfold content, spec_write, spec_delete. rewrite Hn.
    cbn [mbind option_bind]. destruct (m !! key) as [data|] eqn:E; [by rewrite delete_insert_eq|].
    by rewrite delete_id.
Qed.

(** Writing "hi" to a, copying it to b, moving a to itself. *)
Definition file_session : list file_command :=
  [WriteLine (txt "write a hi"); Cp [97] [98]; Mv [97] [97]; Touch [99]].
Lemma file_commands_act_witness :
  wp (run_commands file_session) (λ _ k', ram_files (files k') = {[ [98] := [104; 105]; [99] := [] ]})
    (sim_kernel [] []).
Proof.
  eapply wp_mono.
  - refine (proj1 (file_commands_act file_session (sim_kernel [] []) _)). split; [exact boot_screen_wf|by constructor].
  - intros u k' (Hm & _). rewrite Hm. refine (bool_decide_unpack _ _). by vm_compute.
Defined.
