(* ===== verification/ShellInfo.v ===== *)
(** * The shell's information commands (src/src/shell/mod.rs)

    Commands that print what the parts of the kernel report, the tables of
    tasks, devices and registers, memory dumps, and the shutdown. *)
From stdpp Require Import strings.
From Stdlib Require Import SpecFloat.
From S2P Require Import Prelude Words Str Fmt Hardware Scheduler Paging Heap Pci Net Tcp Rtl8139.
From S2P Require Import Cpu VgaProps Vga Framebuffer Kernel Shell.
Local Open Scope Z_scope.
Local Open Scope list_scope.

Definition hex2 (x : Z) : str := pad_zero 2 (hex x).
Definition hex4 (x : Z) : str := pad_zero 4 (hex x).
Definition hex8 (x : Z) : str := pad_zero 8 (hex x).
Fixpoint join (sep : str) (l : list str) : list str :=
  match l with [] => [] | [s] => [s] | s :: l => s :: sep :: join sep l end.
(** Six hexadecimal bytes with colons, four decimal ones with dots. *)
Definition mac_text (m : list Z) : list str := join (txt ":") (hex2 <$> m).
Definition ip_text (a : list Z) : list str := join (txt ".") (dec <$> a).

Definition parse_hex (s : str) : option Z := from_str_radix 16 32 (default s (strip_prefix (txt "0x") s)).

(** ** [f64] and [{:.1}]

    The arithmetic is IEEE double precision; printing rounds the exact value to
    one decimal, ties to even. *)
Definition f64_of (n : Z) : spec_float := binary_normalize 53 1024 n 0 false.
Definition f64_mul : spec_float → spec_float → spec_float := SFmul 53 1024.
Definition f64_div : spec_float → spec_float → spec_float := SFdiv 53 1024.
Definition round_even (num den : Z) : Z :=
  let q := num / den in let r := num mod den in
  if decide (2 * r < den) then q else if decide (den < 2 * r) then q + 1 else q + q mod 2.
Definition tenths (m e : Z) : Z := if decide (0 ≤ e) then 10 * m * 2 ^ e else round_even (10 * m) (2 ^ (- e)).
Definition fixed1 (f : spec_float) : str :=
  match f with
  | S754_zero s => (if s then txt "-" else []) ++ txt "0.0"
  | S754_infinity s => (if s then txt "-" else []) ++ txt "inf"
  | S754_nan => txt "NaN"
  | S754_finite s m e =>
      let t := tenths (Zpos m) e in
      (if s then txt "-" else []) ++ dec (t / 10) ++ txt "." ++ dec (t mod 10)
  end.

Section info.
Context {D : Type} `{Machine D}.
Abbreviation K := (KM D).

Fixpoint for_each {A} (l : list A) (f : A → K unit) : K unit :=
  match l with [] => mret tt | x :: l => f x;; for_each l f end.

Definition help_lines : list (list str) :=
  [[txt "help              - list commands"]; [txt "ls                - list RamFS files"];
   [txt "touch <file>      - create empty file"];
   [txt "write <f> "; [QUOTE]; txt "txt"; [QUOTE]; txt "   - write file"];
   [txt "cat <file>        - print file"]; [txt "rm <file>         - delete file"];
   [txt "cp <src> <dst>    - copy file"]; [txt "mv <src> <dst>    - move/rename file"];
   [txt "mem               - heap usage"]; [txt "free              - memory statistics"];
   [txt "lspci             - list PCI devices"]; [txt "cpuinfo           - CPU vendor"];
   [txt "netinfo           - NIC status"]; [txt "ifconfig          - network configuration"];
   [txt "calc <expr>       - integer math"]; [txt "clear             - clear screen"];
   [txt "edit <file>       - TUI editor (Esc=exit, Ctrl+S=save)"]; [txt "spawn <name>      - spawn test task"];
   [txt "ps                - list tasks"]; [txt "shutdown          - power off VM"];
   [txt "uptime            - system uptime"]; [txt "env               - system info"];
   [txt "dhcp              - request IP via DHCP"]; [txt "tcplisten <port>  - listen for TCP connections"];
   [txt "tcpconnect <ip> <p> - connect to TCP server"]; [txt "tcpsend <idx> <d> - send data on connection"];
   [txt "tcprecv <idx>     - receive data from connection"]; [txt "tcpclose <idx>    - close TCP connection"];
   [txt "tcpstat           - list TCP connections"]; [txt "ext3ls  [path]    - list ext3 directory"];
   [txt "ext3cat <path>    - read ext3 file"]; [txt "ext3info          - ext3 filesystem info"];
   [txt "fb                - framebuffer info"]; [txt "httpget <ip> <p>  - HTTP GET request"];
   [txt "ping <ip>         - send ICMP echo (e.g. ping 10.0.2.2)"]].
Definition cmd_help : K unit := for_each help_lines println.

(** ** Memory *)

Definition bucket_stats (b : Bucket) : K unit :=
  if decide (0 < total_blocks b) then
    println [txt "  "; dec (block_size b); txt "B: "; dec (wsub 64 (total_blocks b) (free_blocks b)); txt "/";
      dec (total_blocks b); txt " blocks used"]
  else mret tt.
Definition dump_stats : K unit :=
  h ← gets heap;
  println [txt "Bucket allocator stats:"];;
  for_each (buckets h) bucket_stats.

Definition cmd_mem (verbose : bool) : K unit :=
  h ← gets heap;
  let '(used, free) := heap_stats h in
  println [txt "heap used: "; dec used; txt " bytes"];;
  println [txt "heap free: "; dec free; txt " bytes"];;
  println [txt "heap total: "; dec HEAP_SIZE; txt " bytes"];;
  if verbose then dump_stats else mret tt.

Definition cmd_free : K unit :=
  h ← gets heap;
  let '(used, free) := heap_stats h in
  let total := HEAP_SIZE in
  '(page_total, page_free, page_used) ← on_frames Paging.stats;
  println [txt "              total        used        free     percent"];;
  println [txt "Heap:    "; pad_left 10 (dec total); txt " "; pad_left 10 (dec used); txt " "; pad_left 10 (dec free);
    txt "      "; pad_left 3 (dec (wmul 64 used 100 / total)); txt "%"];;
  percent ← lift (if decide (page_total = 0) then Panic else Done (wmul 64 page_used 100 / page_total));
  println [txt "Pages:   "; pad_left 10 (dec (wmul 64 page_total 4096)); txt " ";
    pad_left 10 (dec (wmul 64 page_used 4096)); txt " "; pad_left 10 (dec (wmul 64 page_free 4096));
    txt "      "; pad_left 3 (dec percent); txt "%"].

(** ** Clock, processor, environment *)

(** Hours, minutes, seconds and milliseconds. *)
Definition uptime_text (secs ms : Z) : list str :=
  [txt "uptime: "; pad_zero 2 (dec (secs / 3600)); txt ":"; pad_zero 2 (dec (secs mod 3600 / 60)); txt ":";
   pad_zero 2 (dec (secs mod 60)); txt "."; pad_zero 3 (dec ms)].
Definition cmd_uptime : K unit :=
  '(secs, ms) ← on_machine elapsed; println (uptime_text secs ms).

Definition cmd_cpuinfo : K unit :=
  v ← lift (Cpu.vendor_id cpuid);
  println [txt "vendor: "; v];;
  let brand := brand_string cpuid in
  if decide (brand = []) then mret tt else println [txt "brand:  "; brand].

Definition cmd_env : K unit :=
  h ← gets heap;
  let '(used, free) := heap_stats h in
  let total := wadd 64 used free in
  println [txt "heap: "; dec used; txt "/"; dec total; txt " bytes used (";
    fixed1 (f64_div (f64_mul (f64_of 100) (f64_of used)) (f64_of total)); txt "%)"];;
  v ← lift (Cpu.vendor_id cpuid);
  println [txt "cpu: "; v];;
  '(total, free, used) ← on_frames Paging.stats;
  println [txt "pages: "; dec total; txt " total, "; dec free; txt " free, "; dec used; txt " used (";
    dec (wmul 64 total 4); txt " KB)"];;
  '(secs, ms) ← on_machine elapsed; println (uptime_text secs ms).

(** ** Tasks *)

(** [scheduler::spawn] with its log lines. *)
Definition spawn_task : K Z :=
  id ← on_tasks (spawn task_stack test_task);
  (if decide (id < 0) then log Warn [txt "No free task slot"]
   else log Info [txt "Task "; dec id; txt " spawned, entry=0x"; pad_zero 16 (hex test_task)]);;
  mret id.
Definition cmd_spawn (name : str) : K unit :=
  id ← spawn_task;
  if decide (0 ≤ id) then println [txt "Task "; dec id; txt " spawned"] else println [txt "No free task slot"].

Definition state_name (st : TaskState) : str :=
  match st with Free => txt "Free" | Ready => txt "Ready" | Running => txt "Run" end.
Definition print_task (i : nat) : K unit :=
  s ← gets tasks;
  t ← lift (index i (TASKS s));
  if decide (task_state t = Free) then mret tt
  else println [txt "  "; dec i; txt "  "; pad_right 4 (state_name (task_state t)); txt "  0x"; pad_zero 16 (hex (rsp t))].
Definition print_tasks : K unit :=
  println [txt "Slot State      RSP"];; for_each (seq 0 MAX_TASKS) print_task.
Definition cmd_ps : K unit := print_tasks.

(** Halting for good. *)
Fixpoint halt (fuel : nat) : K unit :=
  match fuel with O => diverge | S fuel => on_machine hlt;; halt fuel end.
Definition cmd_shutdown (fuel : nat) : K unit :=
  println [txt "Shutting down..."];; on_machine (outw 0x604 0x2000);; halt fuel.

(** ** Memory dump *)

Definition printable (b : Z) : bool := bool_decide (0x20 ≤ b ≤ 0x7E).
Definition hex_cell (addr : Z) (off line_len i : nat) : K unit :=
  (if decide (i < line_len)%nat then
     b ← on_machine (volatile_read (addr + (off + i)%nat)); print [hex2 b; txt " "]
   else print [txt "   "]);;
  if decide (i = 7)%nat then print [txt " "] else mret tt.
Definition char_cell (addr : Z) (off i : nat) : K unit :=
  b ← on_machine (volatile_read (addr + (off + i)%nat));
  if printable b then print [[b]] else print [txt "."].
Definition dump_line (addr : Z) (len off : nat) : K unit :=
  print [hex8 (wadd 32 addr off); txt "  "];;
  let line_len := ((len - off) `min` 16)%nat in
  for_each (seq 0 16) (hex_cell addr off line_len);;
  print [txt " |"];;
  for_each (seq 0 line_len) (char_cell addr off);;
  println [txt "|"].
(** [(0..len).step_by(16)] *)
Definition offsets (len : nat) : list nat := (λ i, 16 * i)%nat <$> seq 0 ((len + 15) / 16).
Definition cmd_hexdump (addr_str len_str : option str) : K unit :=
  let addr := default 0 (addr_str ≫= parse_hex) in
  let len := default 128 (len_str ≫= parse_uint 64) in
  if decide (len = 0 ∨ 4096 < len) then println [txt "invalid length (max 4096)"]
  else for_each (offsets (Z.to_nat len)) (dump_line addr (Z.to_nat len)).

(** ** Devices *)

(** [for bus in 0..256], [for slot in 0..32], [for func in 0..8]. *)
Definition positions : list (Z * Z * Z) :=
  bus ← seqZ 0 256; slot ← seqZ 0 32; func ← seqZ 0 8; [(bus, slot, func)].
Fixpoint probe_all (l : list (Z * Z * Z)) (found : Z) : K Z :=
  match l with
  | [] => mret found
  | (bus, slot, func) :: l =>
      dev ← on_machine (probe_device bus slot func);
      match dev with
      | Some dev =>
          println [hex2 (Pci.bus dev); txt "  "; hex2 (Pci.slot dev); txt "  "; dec func; txt "  ";
            hex4 (Pci.vendor_id dev); txt "   "; hex4 (device_id dev); txt "   "; hex2 (class dev); txt ":";
            hex2 (subclass dev)];;
          probe_all l (wadd 32 found 1)
      | None => probe_all l found
      end
  end.
Definition cmd_lspci : K unit :=
  println [txt "Bus Dev Fn Vendor Device Class"];;
  found ← probe_all positions 0;
  if decide (found = 0) then println [txt "No PCI devices found"] else mret tt.

Definition cmd_ifconfig : K unit :=
  s ← on_stack (on_network status);
  let kind := match kind s with NicNone => txt "none" | E1000 => txt "e1000" | Net.Rtl8139 => txt "rtl8139" end in
  println [txt "eth0: "; kind; txt " ("; if link_up s then txt "UP" else txt "DOWN"; txt ")"];;
  println ([txt "      mac: "] ++ mac_text (mac s));;
  cfg ← on_stack (on_network get_config);
  match cfg with
  | Some cfg =>
      println ([txt "      inet: "] ++ ip_text (ip cfg));;
      println ([txt "      mask: "] ++ ip_text (subnet cfg));;
      println ([txt "      gateway: "] ++ ip_text (gateway cfg))
  | None => println [txt "      inet: not configured"]
  end.

(** [net::rx_ring_pos]. *)
Definition rx_ring_pos : K (Z * Z) :=
  s ← on_stack (on_network status);
  match kind s with
  | Net.Rtl8139 => d ← gets machine; on_machine (ring_position (nic_base d))
  | _ => mret (0, 0)
  end.
Definition cmd_netinfo : K unit :=
  s ← on_stack (on_network status);
  println [txt "interface: "; match kind s with NicNone => txt "none (stub)" | E1000 => txt "Intel e1000 (skeleton)"
    | Net.Rtl8139 => txt "Realtek RTL8139" end];;
  println ([txt "mac: "] ++ mac_text (mac s));;
  println [txt "link: "; if link_up s then txt "up" else txt "down"];;
  cfg ← on_stack (on_network get_config);
  (match cfg with
   | Some cfg =>
       println ([txt "ip: "] ++ ip_text (ip cfg));;
       println ([txt "gateway: "] ++ ip_text (gateway cfg));;
       println ([txt "dns: "] ++ ip_text (dns cfg))
   | None => println [txt "ip: not configured (run 'dhcp')"]
   end);;
  (if decide (kind s = Net.Rtl8139) then
     '(capr, cbr) ← rx_ring_pos; println [txt "rx ring: CAPR="; dec capr; txt " CBR="; dec cbr]
   else mret tt);;
  match pci s with
  | Some p => println [txt "pci "; hex2 (Pci.bus p); txt ":"; hex2 (Pci.slot p); txt ".0 - vendor ";
      hex4 (Pci.vendor_id p); txt " device "; hex4 (device_id p)]
  | None => mret tt
  end.

(** [rtl8139::dump_regs], through [info!]. *)
Definition bit_of (v : Z) (n : Z) : str := dec (Z.land (Z.shiftr v n) 1).
Definition dump_regs : K unit :=
  d ← gets machine;
  if negb (nic_initialized d) then log Info [txt "RTL8139: not initialized"] else
  let io := nic_base d in
  cr ← on_machine (inb (reg io CR));
  tcr ← on_machine (inl (reg io TCR));
  rcr ← on_machine (inl (reg io RCR));
  isr ← on_machine (inw (reg io ISR));
  imr ← on_machine (inw (reg io IMR));
  tsd0 ← on_machine (inl (reg io (TSD 0)));
  capr ← on_machine (inw (reg io CAPR));
  cbr ← on_machine (inw (reg io CBR));
  rbst ← on_machine (inl (reg io RBSTART));
  mac ← on_machine (read_mac io);
  log Info [txt "RTL8139 registers:"];;
  log Info [txt "  CR     = 0x"; hex2 cr; txt " (TE="; bit_of cr 2; txt " RE="; bit_of cr 3; txt " RST="; bit_of cr 4; txt ")"];;
  log Info [txt "  TCR    = 0x"; hex8 tcr];;
  log Info [txt "  RCR    = 0x"; hex8 rcr];;
  log Info [txt "  ISR    = 0x"; hex4 isr];;
  log Info [txt "  IMR    = 0x"; hex4 imr];;
  log Info [txt "  TSD0   = 0x"; hex8 tsd0; txt " (TOK="; bit_of tsd0 15; txt " OWN="; bit_of tsd0 14; txt " TER="; bit_of tsd0 22; txt ")"];;
  log Info [txt "  CAPR   = "; dec capr];;
  log Info [txt "  CBR    = "; dec cbr];;
  log Info [txt "  RBSTART= 0x"; hex8 rbst];;
  log Info ([txt "  MAC    = "] ++ mac_text mac).

(** [framebuffer::cmd_fb]. *)
Definition cmd_fb : K unit := c ← gets console; println (cmd_fb_text c).
End info.
