(* ===== verification/ShellNet.v ===== *)
(** * The shell's network commands (src/src/shell/mod.rs)

    Addresses are parsed and printed, requests built and sent, and replies
    awaited until a deadline.  Loops take a bound on their rounds; [diverge]
    stands for a loop cut off by it. *)
From stdpp Require Import strings.
From S2P Require Import Prelude Words Str Fmt Hardware Packets Pci Keyboard Dhcp Net Rtl8139 Tcp TcpTable.
From S2P Require Import VgaProps Vga Kernel ShellInfo.
Local Open Scope Z_scope.
Local Open Scope list_scope.

(** ** Addresses *)

Fixpoint parse_bytes (parts : list str) : option (list Z) :=
  match parts with
  | [] => Some []
  | part :: parts => b ← parse_uint 8 part; bs ← parse_bytes parts; Some (b :: bs)
  end.
Definition parse_ip (s : str) : option (list Z) :=
  let parts := split 46 s in
  if decide (length parts ≠ 4)%nat then None else parse_bytes parts.
Definition parse_ipv4 (s : str) : option (list Z) :=
  let parts := split 46 s in
  if decide (length parts ≠ 4)%nat then None else parse_bytes parts.

(** ** Frames *)

(** [expect] and [unwrap]. *)
Definition expect {A B} (x : option A * B) : outcome (A * B) :=
  match x with (Some a, b) => Done (a, b) | (None, _) => Panic end.

(** An ARP request in a frame to everybody; [n] is the length of the buffer. *)
Definition arp_frame (n : nat) (our_mac our_ip target_ip : list Z) : outcome (list Z) :=
  a ← Arp.build_request our_mac our_ip target_ip (replicate 28 0);
  '(arp_len, arp_buf) ← expect a;
  arp_bytes ← slice 0 arp_len arp_buf;
  f ← Ethernet.build (replicate 6 0xFF) our_mac Ethernet.ETHERTYPE_ARP arp_bytes (replicate n 0);
  '(frame_len, frame_buf) ← expect f;
  slice 0 frame_len frame_buf.

(** The words of the ICMP message, [for i in (0..icmp_len).step_by(2)]. *)
Fixpoint icmp_words (fuel i len : nat) (sum : Z) (data : list Z) : outcome Z :=
  if decide (i < len)%nat then
    match fuel with
    | O => Diverge
    | S fuel =>
        w ← (if decide (i + 1 < len)%nat then be16 i data
             else b ← index i data; Done (wrap 32 (Z.shiftl b 8)));
        icmp_words fuel (i + 2) len (wadd 32 sum w) data
    end
  else Done sum.
Definition PAYLOAD : list Z := txt "RustKernel".
Definition icmp_request : outcome (list Z) :=
  let icmp_buf := [8; 0; 0; 0; 0; 1; 0; 1] ++ replicate 56 0 in
  icmp_buf ← put 8 (8 + length PAYLOAD) PAYLOAD icmp_buf;
  let icmp_len := (8 + length PAYLOAD)%nat in
  sum ← icmp_words icmp_len 0 icmp_len 0 icmp_buf;
  sum ← Checksum.fold16 2 sum;
  let checksum := wnot 16 (wrap 16 sum) in
  icmp_buf ← put 2 4 (to_be 2 checksum) icmp_buf;
  slice 0 icmp_len icmp_buf.
(** The IP packet around it. *)
Definition ping_packet (our_ip target_ip : list Z) : outcome (list Z) :=
  icmp ← icmp_request;
  p ← Ipv4.build our_ip target_ip 1 (wrap 16 (length icmp)) (replicate 84 0);
  '(ip_len, ip_buf) ← expect p;
  ip_buf ← put ip_len (ip_len + length icmp) icmp ip_buf;
  slice 0 (ip_len + length icmp) ip_buf.
Definition ping_frame (target_mac our_mac packet : list Z) : outcome (list Z) :=
  f ← Ethernet.build target_mac our_mac 0x0800 packet (replicate 98 0);
  '(eth_len, eth_buf) ← expect f;
  slice 0 eth_len eth_buf.

(** What a received frame is: the ARP reply that is waited for, an echo reply
    from somewhere. *)
Definition arp_in (pkt : list Z) : outcome (option Arp.ArpPacket) :=
  eth ← Ethernet.parse pkt;
  match eth with
  | Some eth =>
      if Ethernet.ethertype eth =? Ethernet.ETHERTYPE_ARP then Arp.parse (Ethernet.payload eth) else mret None
  | None => mret None
  end.
Definition echo_reply (pkt : list Z) : outcome (option (list Z)) :=
  eth ← Ethernet.parse pkt;
  match eth with
  | Some eth =>
      if Ethernet.ethertype eth =? 0x0800 then
        ip ← Ipv4.parse (Ethernet.payload eth);
        match ip with
        | Some ip =>
            if decide (Ipv4.protocol ip = 1 ∧ 8 ≤ length (Ipv4.payload ip))%nat then
              icmp_type ← index 0 (Ipv4.payload ip);
              mret (if decide (icmp_type = 0) then Some (Ipv4.src ip) else None)
            else mret None
        | None => mret None
        end
      else mret None
  | None => mret None
  end.

(** ** Ports the program picks *)

Definition ephemeral_port (now : Z) : Z := wadd 16 1024 (wrap 16 (now mod 64512)).
Definition http_port (now : Z) : Z := wadd 16 2048 (wrap 16 (now mod 63500)).

Section net_code.
Context {D : Type} `{Machine D}.
Abbreviation K := (KM D).

Definition now : K Z := on_machine millis.
Definition net_status : K NetStatus := on_stack (on_network status).
Definition net_config : K (option NetConfig) := on_stack (on_network get_config).
Definition net_send (frame : list Z) : K (result unit unit) := on_stack (on_network (Net.send frame)).
Definition net_poll : K (option (list Z)) := on_stack (on_network Net.poll_rx).

(** [while millis() < deadline { body; hlt() }], left when the body returns. *)
Fixpoint until {A} (fuel : nat) (deadline : Z) (body : K (option A)) : K (option A) :=
  t ← now;
  if decide (t < deadline) then
    match fuel with
    | O => diverge
    | S fuel =>
        r ← body;
        match r with Some a => mret (Some a) | None => on_machine hlt;; until fuel deadline body end
    end
  else mret None.
Definition deadline_in (ms : Z) : K Z := t ← now; mret (wadd 64 t ms).
(** [if let Some(pkt) = net::poll_rx()]. *)
Definition with_packet {A} (f : list Z → K (option A)) : K (option A) :=
  pkt ← net_poll; match pkt with Some pkt => f pkt | None => mret None end.

Definition local_ip : K (list Z) :=
  cfg ← net_config; mret (match cfg with Some c => ip c | None => [10; 0; 2; 15] end).
Definition gateway_ip : K (list Z) :=
  cfg ← net_config; mret (match cfg with Some c => gateway c | None => [10; 0; 2; 2] end).
Definition kind_debug (k : NicKind) : str :=
  match k with NicNone => txt "None" | E1000 => txt "E1000" | Net.Rtl8139 => txt "Rtl8139" end.

(** ** ARP and loopback *)

Definition arp_wait (target_ip our_ip : list Z) : K (option unit) :=
  r ← with_packet (λ pkt,
    a ← lift (arp_in pkt);
    match a with
    | Some a =>
        if decide (Arp.opcode a = 2 ∧ Arp.sender_ip a = target_ip ∧ Arp.target_ip a = our_ip) then
          println ([txt "Reply from "] ++ ip_text (Arp.sender_ip a) ++ [txt " is "] ++ mac_text (Arp.sender_mac a));;
          mret (Some tt)
        else mret None
    | None => mret None
    end);
  match r with
  | Some _ => mret r
  | None =>
      k ← on_machine pop_key;
      if decide (k = Some (Ctrl 99) ∨ k = Some (Ctrl 67)) then println [txt "Aborted by user"];; mret (Some tt)
      else mret None
  end.
Definition cmd_arpwhois (fuel : nat) : K unit :=
  st ← net_status;
  if decide (kind st = NicNone) then println [txt "No NIC available"] else
  our_ip ← local_ip;
  target_ip ← gateway_ip;
  frame ← lift (arp_frame (14 + 28 + 4) (mac st) our_ip target_ip);
  println ([txt "Sending ARP who-has "] ++ ip_text target_ip ++ [txt " ..."]);;
  r ← net_send frame;
  match r with
  | Err _ => println [txt "TX failed"]
  | Ok _ =>
      println [txt "TX OK"];;
      deadline ← deadline_in 10000;
      r ← until fuel deadline (arp_wait target_ip our_ip);
      match r with
      | Some _ => mret tt
      | None =>
          info ← net_status;
          println ([txt "No ARP reply (NIC: "; kind_debug (kind info); txt ", MAC: "] ++ mac_text (mac info) ++ [txt ")"])
      end
  end.

Definition net_loopback (on : bool) : K unit := d ← gets machine; on_machine (set_loopback (nic_base d) on).
Definition loop_wait : K (option unit) :=
  with_packet (λ pkt,
    println [txt "LOOPBACK OK: received "; dec (length pkt); txt " bytes!"];;
    eth ← lift (Ethernet.parse pkt);
    (match eth with
     | Some eth =>
         d0 ← lift (index 0 (Ethernet.dst eth)); d1 ← lift (index 1 (Ethernet.dst eth));
         s0 ← lift (index 0 (Ethernet.src eth)); s1 ← lift (index 1 (Ethernet.src eth));
         println [txt "  dst="; hex2 d0; txt ":"; hex2 d1; txt ":... src="; hex2 s0; txt ":"; hex2 s1;
           txt ":... ethertype=0x"; hex4 (Ethernet.ethertype eth)]
     | None => mret tt
     end);;
    mret (Some tt)).
Definition cmd_looptest (fuel : nat) : K unit :=
  st ← net_status;
  if decide (kind st = NicNone) then println [txt "No NIC available"] else
  our_ip ← local_ip;
  gw ← gateway_ip;
  frame ← lift (arp_frame 64 (mac st) our_ip gw);
  net_loopback true;;
  println [txt "Loopback ON, sending packet..."];;
  _ ← net_send frame;
  println [txt "TX done, checking RX..."];;
  deadline ← deadline_in 500;
  got ← until fuel deadline loop_wait;
  net_loopback false;;
  println [txt "Loopback OFF"];;
  match got with
  | Some _ => mret tt
  | None =>
      println [txt "No RX data "; [0xE2; 0x80; 0x94]; txt " RX path broken"];;
      '(capr, cbr) ← ShellInfo.rx_ring_pos;
      println [txt "  CAPR="; dec capr; txt " CBR="; dec cbr]
  end.

(** ** DHCP *)

Definition display (cfg : NetConfig) : K unit :=
  log Info ([txt "IP: "] ++ ip_text (ip cfg) ++ [txt " / mask: "] ++ ip_text (subnet cfg) ++ [txt " / gw: "] ++
    ip_text (gateway cfg) ++ [txt " / dns: "] ++ ip_text (dns cfg)).
Definition cmd_dhcp (fuel : nat) : K unit :=
  st ← net_status;
  if decide (kind st = NicNone) then println [txt "No NIC available"] else
  t ← now;
  let xid := wrap 32 t in
  println [txt "DHCP discover (xid=0x"; hex8 xid; txt ")..."];;
  cfg ← on_stack (on_network (dhcp_request fuel (mac st) xid));
  match cfg with
  | Some cfg => on_stack (on_network (set_config cfg));; println [txt "DHCP OK!"];; display cfg
  | None => println [txt "DHCP failed (no response or bad ack)"]
  end.

(** ** Ping *)

Definition mac_wait (target_ip : list Z) : K (option (list Z)) :=
  with_packet (λ pkt,
    a ← lift (arp_in pkt);
    mret (match a with
     | Some a => if decide (Arp.opcode a = 2 ∧ Arp.sender_ip a = target_ip) then Some (Arp.sender_mac a) else None
     | None => None
     end)).
Definition resolve_mac (fuel : nat) (target_ip : list Z) (cfg : NetConfig) (our_mac : list Z) : K (option (list Z)) :=
  if decide (target_ip = [10; 0; 2; 2]) then mret (Some [0x52; 0x55; 0x0a; 0x00; 0x02; 0x02]) else
  frame ← lift (arp_frame 42 our_mac (ip cfg) target_ip);
  r ← net_send frame;
  match r with
  | Err _ => mret None
  | Ok _ =>
      deadline ← deadline_in 2000;
      r ← until fuel deadline (mac_wait target_ip);
      match r with
      | Some m => mret (Some m)
      | None =>
          t0 ← lift (index 0 target_ip); t1 ← lift (index 1 target_ip); t2 ← lift (index 2 target_ip);
          mret (Some [0x52; 0x55; 0x0a; t0; t1; t2])
      end
  end.
Definition ping_wait (start : Z) : K (option unit) :=
  r ← with_packet (λ pkt,
    src ← lift (echo_reply pkt);
    match src with
    | Some src =>
        t ← now;
        println ([txt "Reply from "] ++ ip_text src ++ [txt ": time="; dec (wsub 64 t start); txt "ms"]);;
        mret (Some tt)
    | None => mret None
    end);
  match r with
  | Some _ => mret r
  | None =>
      k ← on_machine pop_key;
      if decide (k = Some (Ctrl 99)) then println [txt "Aborted"];; mret (Some tt) else mret None
  end.
Definition cmd_ping (fuel : nat) (target : str) : K unit :=
  st ← net_status;
  if decide (kind st = NicNone) then println [txt "No NIC available"] else
  match parse_ip target with
  | None => println [txt "Invalid IP address format (use x.x.x.x)"]
  | Some target_ip =>
      cfg ← net_config;
      match cfg with
      | None => println [txt "Network not configured. Run 'dhcp' first."]
      | Some cfg =>
          println ([txt "PING "] ++ ip_text target_ip ++ [txt " from "] ++ ip_text (ip cfg));;
          packet ← lift (ping_packet (ip cfg) target_ip);
          println [txt "Resolving MAC address..."];;
          target_mac ← resolve_mac fuel target_ip cfg (mac st);
          match target_mac with
          | None => println [txt "ARP resolution failed"]
          | Some target_mac =>
              frame ← lift (ping_frame target_mac (mac st) packet);
              start ← now;
              r ← net_send frame;
              match r with
              | Err _ => println [txt "TX failed"]
              | Ok _ =>
                  println [txt "Sent "; dec (8 + length PAYLOAD)%nat; txt " bytes"];;
                  deadline ← deadline_in 5000;
                  r ← until fuel deadline (ping_wait start);
                  match r with Some _ => mret tt | None => println [txt "Request timeout"] end
              end
          end
      end
  end.

(** ** TCP *)

Definition cmd_tcplisten (port_str : str) : K unit :=
  match parse_uint 16 port_str with
  | None => println [txt "tcplisten: invalid port"]
  | Some port =>
      r ← on_stack (listen port);
      match r with
      | Ok _ => println [txt "Listening on port "; dec port]
      | Err e => println [txt "tcplisten: "; txt e]
      end
  end.
Definition cmd_tcpconnect (ip_str port_str : str) : K unit :=
  match parse_ipv4 ip_str with
  | None => println [txt "tcpconnect: invalid IP"]
  | Some ip =>
      match parse_uint 16 port_str with
      | None => println [txt "tcpconnect: invalid port"]
      | Some port =>
          t ← now;
          let local_port := ephemeral_port t in
          r ← on_stack (connect local_port ip port);
          match r with
          | Ok idx => println [txt "Connecting ["; dec (idx : nat); txt "] to "; ip_str; txt ":"; dec port; txt " (port ";
              dec local_port; txt ")..."]
          | Err e => println [txt "tcpconnect: "; txt e]
          end
      end
  end.
Definition cmd_tcpsend (idx_str data : str) : K unit :=
  match parse_uint 64 idx_str with
  | None => println [txt "tcpsend: invalid index"]
  | Some idx =>
      r ← on_stack (Tcp.send (Z.to_nat idx) data);
      match r with
      | Ok n => println [txt "Sent "; dec (n : nat); txt " bytes on ["; dec idx; txt "]"]
      | Err e => println [txt "tcpsend: "; txt e]
      end
  end.
Definition cmd_tcprecv (idx_str : str) : K unit :=
  match parse_uint 64 idx_str with
  | None => println [txt "tcprecv: invalid index"]
  | Some idx =>
      r ← on_stack (Tcp.recv (Z.to_nat idx) (replicate 512 0));
      match r with
      | Ok (0%nat, _) => println [txt "No data available on ["; dec idx; txt "]"]
      | Ok (n, buf) =>
          s ← lift (slice 0 n buf);
          if valid_utf8 s then println [txt "["; dec idx; txt "] received ("; dec n; txt " bytes): "; s]
          else println [txt "["; dec idx; txt "] received "; dec n; txt " bytes (binary)"]
      | Err e => println [txt "tcprecv: "; txt e]
      end
  end.
Definition cmd_tcpclose (idx_str : str) : K unit :=
  match parse_uint 64 idx_str with
  | None => println [txt "tcpclose: invalid index"]
  | Some idx =>
      r ← on_stack (Tcp.close (Z.to_nat idx));
      match r with
      | Ok _ => println [txt "Closing ["; dec idx; txt "]..."]
      | Err e => println [txt "tcpclose: "; txt e]
      end
  end.
Definition tcp_state_str (st : TcpState) : str :=
  match st with
  | Listen => txt "LISTEN" | SynSent => txt "SYN_SENT" | SynReceived => txt "SYN_RCVD"
  | Established => txt "ESTABLISHED" | FinWait1 => txt "FIN_WAIT1" | FinWait2 => txt "FIN_WAIT2"
  | CloseWait => txt "CLOSE_WAIT" | LastAck => txt "LAST_ACK" | TimeWait => txt "TIME_WAIT" | Closed => txt "CLOSED"
  end.
Definition print_conn (c : nat * TcpState * Z * list Z * Z) : K unit :=
  let '(idx, st, local_port, remote_ip, remote_port) := c in
  println ([txt "["; dec idx; txt "] "; pad_right 12 (tcp_state_str st); txt " :"; dec local_port; txt "  -> "] ++
    ip_text remote_ip ++ [txt ":"; dec remote_port]).
Definition cmd_tcpstat : K unit :=
  conns ← on_stack list_conns;
  match conns with
  | [] => println [txt "No active TCP connections"]
  | _ => for_each conns print_conn
  end.

(** ** HTTP *)

Definition coloured (c : Color) (pieces : list str) : K unit :=
  on_screen (set_color c Black);; println pieces;; on_screen (set_color LightGray Black).
Definition greenln : list str → K unit := coloured LightGreen.
Definition yellowln : list str → K unit := coloured Yellow.

(** Whether the connection was established before the deadline. *)
Fixpoint http_connect (fuel : nat) (idx : nat) (deadline : Z) : K bool :=
  match fuel with
  | O => diverge
  | S fuel' =>
      on_stack (poll_and_dispatch fuel);;
      st ← on_stack (conn_status idx);
      match st with
      | Ok (Established, _, _, _, _) => mret true
      | _ =>
          t ← now;
          if decide (deadline < t) then println [txt "Connection timeout"];; mret false
          else on_machine hlt;; http_connect fuel' idx deadline
      end
  end.
Fixpoint http_receive (fuel : nat) (idx : nat) (deadline : Z) (buf : list Z) : K unit :=
  match fuel with
  | O => diverge
  | S fuel' =>
      on_stack (poll_and_dispatch fuel);;
      r ← on_stack (Tcp.recv idx buf);
      match r with
      | Ok (0%nat, buf) =>
          t ← now;
          if decide (deadline < t) then mret tt else on_machine hlt;; http_receive fuel' idx deadline buf
      | Ok (n, buf) =>
          s ← lift (slice 0 n buf);
          (if valid_utf8 s then greenln [s] else mret tt);;
          http_receive fuel' idx deadline buf
      | Err _ => mret tt
      end
  end.
Definition crlf : str := [13; 10].
Definition http_request (path ip_str : str) (port : Z) : str :=
  txt "GET " ++ path ++ txt " HTTP/1.0" ++ crlf ++ txt "Host: " ++ ip_str ++ txt ":" ++ dec port ++ crlf ++
  txt "Connection: close" ++ crlf ++ crlf.
Definition cmd_httpget (fuel : nat) (ip_str port_str path : str) : K unit :=
  match parse_ipv4 ip_str with
  | None => println [txt "httpget: invalid IP"]
  | Some ip =>
      match parse_uint 16 port_str with
      | None => println [txt "httpget: invalid port"]
      | Some port =>
          t ← now;
          r ← on_stack (connect (http_port t) ip port);
          match r with
          | Err e => println [txt "httpget: "; txt e]
          | Ok idx =>
              println [txt "Connecting to "; ip_str; txt ":"; dec port; txt "..."];;
              deadline ← deadline_in 5000;
              established ← http_connect fuel idx deadline;
              if negb established then mret tt else
              yellowln [txt "Connected, sending request..."];;
              r ← on_stack (Tcp.send idx (http_request path ip_str port));
              match r with
              | Err e => println [txt "send: "; txt e]
              | Ok n =>
                  println [txt "Sent "; dec (n : nat); txt " bytes"];;
                  deadline ← deadline_in 10000;
                  http_receive fuel idx deadline (replicate 4096 0);;
                  _ ← on_stack (Tcp.close idx);
                  mret tt
              end
          end
      end
  end.
End net_code.

(** ** What is sent and read *)

Lemma split_app_sep c w s : (∀ b, b ∈ w → b ≠ c) → split c (w ++ c :: s) = w :: split c s.
Proof.
  induction w as [|b w IH]; intros Hw; cbn; [by rewrite decide_True|].
  rewrite decide_False by (apply Hw, list_elem_of_here). rewrite IH; [done|].
  intros x Hx. by apply Hw, list_elem_of_further.
Qed.
Lemma split_none c w : (∀ b, b ∈ w → b ≠ c) → split c w = [w].
Proof.
  induction w as [|b w IH]; intros Hw; cbn; [done|].
  rewrite decide_False by (apply Hw, list_elem_of_here). rewrite IH; [done|].
  intros x Hx. by apply Hw, list_elem_of_further.
Qed.
(** A decimal number has no dot. *)
Lemma dec_no_dot n b : 0 ≤ n → b ∈ dec n → b ≠ 46.
Proof.
  intros Hn Hb. pose proof (digits_chars 10 20 n ltac:(lia) Hn) as Hf. rewrite Forall_forall in Hf.
  specialize (Hf b Hb). cbv beta in Hf. lia.
Qed.

(** Addresses.  What the commands print for an IPv4 address, four decimal
    numbers with dots, is read back as that address by both parsers; and only
    text of four parts separated by dots is read at all, each part a number below
    256. *)
Theorem ip_text_parses a : ipv4_addr a →
  parse_ip (concat (ip_text a)) = Some a ∧ parse_ipv4 (concat (ip_text a)) = Some a ∧
  ∀ s b, parse_ip s = Some b → ipv4_addr b.
Proof.
  intros [Hl Hb]. assert (parse_ip (concat (ip_text a)) = Some a) as E.
  { explode a Hl. rewrite !Forall_cons in Hb. destruct Hb as (H0 & H1 & H2 & H3 & _). unfold byte, fits in *.
    unfold ip_text. cbn [fmap list_fmap join concat]. rewrite app_nil_r. unfold parse_ip.
    cbn [app]. change (txt ".") with [46]. cbn [app].
    rewrite !split_app_sep by (intros b; apply dec_no_dot; lia).
    rewrite split_none by (intros b; apply dec_no_dot; lia). cbn [parse_bytes length].
    rewrite decide_False by lia. rewrite !parse_dec by (pow2; lia). done. }
  split; [done|]. split; [done|]. intros s b. unfold parse_ip.
  destruct (decide (length (split 46 s) ≠ 4)%nat) as [|Hs]; [done|]. assert (length (split 46 s) = 4)%nat as Hs' by lia.
  clear Hs. revert b. generalize (split 46 s), Hs'. clear.
  assert (∀ s n, parse_uint 8 s = Some n → byte n) as Hbyte by (intros s n; by apply from_str_radix_fits).
  intros l Hl b. destruct l as [|s0 [|s1 [|s2 [|s3 [|]]]]]; try done. cbn.
  destruct (parse_uint 8 s0) eqn:E0, (parse_uint 8 s1) eqn:E1, (parse_uint 8 s2) eqn:E2, (parse_uint 8 s3) eqn:E3;
    cbn; try done. intros [= <-]. split; [done|]. repeat constructor; by eapply Hbyte.
Qed.
Lemma ip_text_parses_witness : ipv4_addr [10; 0; 2; 255] ∧
  concat (ip_text [10; 0; 2; 255]) = txt "10.0.2.255" ∧ parse_ip (txt "10.0.2.255") = Some [10; 0; 2; 255].
Proof.
  assert (ipv4_addr [10; 0; 2; 255]) as Ha by (split; [done|]; by repeat constructor).
  split; [done|]. split; [by vm_compute|]. exact (proj1 (ip_text_parses _ Ha)).
Defined.

Definition ICMP : list Z := [8; 0; 14; 212; 0; 1; 0; 1] ++ PAYLOAD.
Lemma icmp_done : icmp_request = Done ICMP.
Proof. by vm_compute. Qed.

Lemma frame_done dst src ethertype payload n : length dst = 6%nat → length src = 6%nat →
  (14 + length payload ≤ n)%nat →
  (f ← Ethernet.build dst src ethertype payload (replicate n 0);
   '(frame_len, frame_buf) ← expect f; slice 0 frame_len frame_buf) =
  Done (dst ++ src ++ to_be 2 ethertype ++ payload).
Proof.
  intros Hd Hs Hn. rewrite CodecProps.ethernet_build_layout by (rewrite ?length_replicate; done).
  cbn [mbind outcome_bind expect]. rewrite slice_take by len. f_equal. apply take_app_length'. len.
Qed.

Lemma ping_packet_done our target hdr : length hdr = 20%nat →
  Ipv4.build our target 1 18 (replicate 84 0) = Done (Some 20%nat, hdr ++ drop 20 (replicate 84 0)) →
  ping_packet our target = Done (hdr ++ ICMP).
Proof.
  intros Hl E. unfold ping_packet. rewrite icmp_done. cbn [mbind outcome_bind].
  change (wrap 16 (length ICMP)) with 18. change (length ICMP) with 18%nat. rewrite E.
  cbn [mbind outcome_bind expect].
  rewrite put_next by (rewrite ?length_drop, ?length_replicate; try done; try lia). cbn [mbind outcome_bind].
  rewrite slice_take by (rewrite !length_app, !length_drop, length_replicate, Hl; cbn; lia).
  f_equal. apply take_app_length'. by rewrite length_app, Hl.
Qed.

(** The echo request.  For any addresses [ping] builds, without a panic, a
    packet of 38 bytes whose IP header has a valid checksum and is parsed back
    with protocol ICMP, the two addresses and, as the payload, an echo request
    (type 8, code 0, identifier 1, sequence number 1, the text "RustKernel")
    whose own checksum is valid; the Ethernet frame is that packet behind the two
    hardware addresses and the type. *)
Theorem ping_request_wellformed our target our_mac target_mac :
  ipv4_addr our → ipv4_addr target → mac_addr our_mac → mac_addr target_mac →
  ∃ hdr, let packet := hdr ++ ICMP in
    ping_packet our target = Done packet ∧ length hdr = 20%nat ∧ Checksum.checksum hdr = Done 0 ∧
    Ipv4.parse packet = Done (Some (Ipv4.mkIp 4 20 38 1 our target ICMP)) ∧
    Checksum.checksum ICMP = Done 0 ∧ take 8 ICMP = [8; 0; 14; 212; 0; 1; 0; 1] ∧
    ping_frame target_mac our_mac packet = Done (target_mac ++ our_mac ++ [8; 0] ++ packet).
Proof.
  intros Ho Ht [Hm _] [Htm _].
  destruct (Ipv4Props.build_done our target 1 18 (replicate 84 0)) as (ck & Hf & Hck & E);
    [done|done|done|rewrite length_replicate; lia|].
  change (wadd 16 20 18) with 38 in *. set (hdr := Ipv4Props.header our target 1 38 ck) in *.
  assert (length hdr = 20%nat) as Hl by by apply Ipv4Props.length_header.
  exists hdr. split_and!; [|done|done| |by vm_compute|done|].
  - by apply ping_packet_done.
  - by apply Ipv4Props.parse_header.
  - unfold ping_frame. rewrite frame_done; [done|done|done|]. rewrite length_app, Hl. cbn. lia.
Qed.
Lemma ping_request_wellformed_witness :
  ∃ hdr, ping_packet [10; 0; 2; 15] [8; 8; 8; 8] = Done (hdr ++ ICMP) ∧ Checksum.checksum hdr = Done 0 ∧
    Ipv4.parse (hdr ++ ICMP) = Done (Some (Ipv4.mkIp 4 20 38 1 [10; 0; 2; 15] [8; 8; 8; 8] ICMP)).
Proof.
  destruct (ping_request_wellformed [10; 0; 2; 15] [8; 8; 8; 8] (replicate 6 1) (replicate 6 2))
    as (hdr & H1 & _ & H2 & H3 & _); try (split; [done|]; by repeat constructor).
  exists hdr. split; [exact H1|]. split; [exact H2|exact H3].
Defined.

(** The reply taken need not come from the host that was asked. *)
Lemma stray_reply_accepted : ∃ pkt, echo_reply pkt = Done (Some [6; 6; 6; 6]).
Proof.
  exists (replicate 12 0 ++ [8; 0] ++ [0x45; 0; 0; 28; 0; 0; 0; 0; 64; 1; 0; 0; 6; 6; 6; 6; 10; 0; 2; 15] ++ replicate 26 0).
  by vm_compute.
Qed.
(** The port of an HTTP request can wrap around, down to port 0. *)
Lemma http_port_wraps : http_port 63488 = 0 ∧ ∀ now, 0 ≤ now → 1024 ≤ ephemeral_port now < 65536.
Proof.
  split; [by vm_compute|]. intros now Hn. unfold ephemeral_port.
  pose proof (Z.mod_pos_bound now 64512 ltac:(done)).
  rewrite (wrap_id 16 (now mod 64512)) by (unfold fits; pow2; lia). unfold wadd. rewrite wrap_id; unfold fits; pow2; lia.
Qed.
