(* ===== verification/ShellRun.v ===== *)
(** * The shell: commands and the main loop (src/src/shell/mod.rs)

    [dispatch] finds the command of a line, [run] prompts, reads a line and
    executes it for ever.  No command line but the ones that ask for it makes the
    kernel panic. *)
From stdpp Require Import strings.
From S2P Require Import Prelude Words Str Fmt Hardware Scheduler Paging Heap Pci Keyboard Disk Ext3 Ext3Read Ext3Props.
From S2P Require Import Vfs Ramfs Packets Dhcp Net Rtl8139 Tcp TcpConnProps TcpSpec TcpTable Calc Rtc Cpu Serial.
From S2P Require Import VgaProps Vga Framebuffer Kernel Editor Simulator Shell ShellFiles ShellInfo ShellNet.
Local Open Scope Z_scope.
Local Open Scope list_scope.

Section dispatch.
Context {D : Type} `{Machine D}.
Abbreviation K := (KM D).

(** Commands with one argument, with two, or a line that tells their use. *)
Definition with_arg (args : list str) (usage : str) (f : str → K unit) : K unit :=
  match args with a :: _ => f a | [] => println [usage] end.
Definition with_two (args : list str) (usage : str) (f : str → str → K unit) : K unit :=
  match args with a :: b :: _ => f a b | _ => println [usage] end.

Definition cmd_calc (line : str) : K unit :=
  match strip_prefix (txt "calc") line with
  | Some expr =>
      let expr := trim expr in
      if decide (expr = []) then println [txt "usage: calc <expr>"] else
      r ← lift (Calc.eval expr);
      match r with
      | Ok v => println [txt "= "; dec_signed v]
      | Err e => println [txt "calc error: "; txt e]
      end
  | None => mret tt
  end.

(** The match on the command; [panic] is [panic!]. *)
Definition execute (fuel : nat) (line cmd : str) (args : list str) : K unit :=
  if decide (cmd = txt "help") then cmd_help
  else if decide (cmd = txt "ls") then cmd_ls
  else if decide (cmd = txt "touch") then with_arg args (txt "usage: touch <file>") cmd_touch
  else if decide (cmd = txt "write") then cmd_write line
  else if decide (cmd = txt "cat") then with_arg args (txt "usage: cat <file>") cmd_cat
  else if decide (cmd = txt "rm") then with_arg args (txt "usage: rm <file>") cmd_rm
  else if decide (cmd = txt "cp") then with_two args (txt "usage: cp <source> <dest>") cmd_cp
  else if decide (cmd = txt "mv") then with_two args (txt "usage: mv <source> <dest>") cmd_mv
  else if decide (cmd = txt "mem") then cmd_mem (bool_decide (args !! 0%nat = Some (txt "-v")))
  else if decide (cmd = txt "free") then cmd_free
  else if decide (cmd = txt "lspci") then cmd_lspci
  else if decide (cmd = txt "ifconfig") then cmd_ifconfig
  else if decide (cmd = txt "cpuinfo") then cmd_cpuinfo
  else if decide (cmd = txt "netinfo") then cmd_netinfo
  else if decide (cmd = txt "calc") then cmd_calc line
  else if decide (cmd = txt "arpwhois") then cmd_arpwhois fuel
  else if decide (cmd = txt "looptest") then cmd_looptest fuel
  else if decide (cmd = txt "netdiag") then dump_regs
  else if decide (cmd = txt "panic") then lift Panic
  else if decide (cmd = txt "spawn") then with_arg args (txt "usage: spawn <name>") cmd_spawn
  else if decide (cmd = txt "ps") then cmd_ps
  else if decide (cmd = txt "shutdown") then cmd_shutdown fuel
  else if decide (cmd = txt "clear") then on_screen clear_screen
  else if decide (cmd = txt "edit") then with_arg args (txt "usage: edit <file>") (λ file, Editor.run file fuel)
  else if decide (cmd = txt "hexdump") then cmd_hexdump (args !! 0%nat) (args !! 1%nat)
  else if decide (cmd = txt "uptime") then cmd_uptime
  else if decide (cmd = txt "dhcp") then cmd_dhcp fuel
  else if decide (cmd = txt "env") then cmd_env
  else if decide (cmd = txt "ping") then with_arg args (txt "usage: ping <ip>") (cmd_ping fuel)
  else if decide (cmd = txt "tcplisten") then with_arg args (txt "usage: tcplisten <port>") cmd_tcplisten
  else if decide (cmd = txt "tcpconnect") then with_two args (txt "usage: tcpconnect <ip> <port>") cmd_tcpconnect
  else if decide (cmd = txt "tcpsend") then
    with_arg args (txt "usage: tcpsend <idx> <data>") (λ idx, cmd_tcpsend idx (default [] (split_whitespace line !! 2%nat)))
  else if decide (cmd = txt "tcprecv") then with_arg args (txt "usage: tcprecv <idx>") cmd_tcprecv
  else if decide (cmd = txt "tcpclose") then with_arg args (txt "usage: tcpclose <idx>") cmd_tcpclose
  else if decide (cmd = txt "tcpstat") then cmd_tcpstat
  else if decide (cmd = txt "ext3ls") then cmd_ext3ls (default (txt "/") (args !! 0%nat))
  else if decide (cmd = txt "ext3cat") then with_arg args (txt "usage: ext3cat <path>") cmd_ext3cat
  else if decide (cmd = txt "ext3info") then cmd_ext3info
  else if decide (cmd = txt "fb") then cmd_fb
  else if decide (cmd = txt "httpget") then
    with_two args (txt "usage: httpget <ip> <port> [path]")
      (λ ip port, cmd_httpget fuel ip port (default (txt "/") (args !! 2%nat)))
  else println [txt "unknown command: "; cmd].

Definition dispatch (fuel : nat) (line : str) : K unit :=
  let line := trim line in
  if decide (line = []) then mret tt else
  match split_whitespace line with
  | [] => mret tt
  | cmd :: args => execute fuel line cmd args
  end.

(** ** The main loop *)

(** What is done with a line. *)
Definition submit (fuel : nat) (h : History) (trimmed : str) : K History :=
  if decide (trimmed = []) then mret h
  else if acceptable trimmed then let h := push trimmed h in dispatch fuel trimmed;; mret h
  else println [txt "Invalid input"];; mret h.
(** One round of the outer loop. *)
Definition prompt (rounds fuel : nat) (h : History) : K History :=
  print [txt "kernel> "];;
  i ← read_line rounds fuel h empty_line;
  trimmed ← lift (line_text (typed i));
  submit fuel (hist i) trimmed.
Fixpoint run (n rounds fuel : nat) (h : History) : K unit :=
  match n with O => diverge | S n => h ← prompt rounds fuel h; run n rounds fuel h end.
End dispatch.
