(* ===== verification/ShellSafe.v ===== *)
(** * What every part of the shell preserves

    [kernel_ok] is the kernel's invariant; [obeys total m P] says that [m] keeps
    it, does not panic and returns only values in [P], and for [total] that it
    returns.  Both forms are proved together for each command. *)
From stdpp Require Import strings.
From S2P Require Import Prelude Words Str Fmt Hardware Scheduler Paging Heap Pci Keyboard Disk Ext3 Ext3Read Ext3Props.
From S2P Require Import Vfs Ramfs Packets Dhcp Net Rtl8139 Tcp TcpConnProps TcpSpec TcpTable Calc Rtc Cpu Serial.
From S2P Require Import VgaProps Vga Framebuffer Kernel Shell ShellFiles ShellInfo ShellNet ShellRun.
Local Open Scope Z_scope.
Local Open Scope list_scope.

(** ** Partial and total correctness at once *)

Definition judged (total : bool) {S A} (m : ST S A) (Q : A → S → Prop) (s : S) : Prop :=
  if total then wp m Q s else safe m Q s.
Section judged.
Context {S : Type} (t : bool).
Lemma judged_wp {A} (m : ST S A) (Q : A → S → Prop) s : wp m Q s → judged t m Q s.
Proof. destruct t; [done|]. apply wp_safe. Qed.
Lemma judged_ret {A} (a : A) (Q : A → S → Prop) s : Q a s → judged t (mret a) Q s.
Proof. intros. by apply judged_wp, wp_ret. Qed.
Lemma judged_bind {A B} (m : ST S A) (f : A → ST S B) (Q : B → S → Prop) s :
  judged t m (λ a s', judged t (f a) Q s') s → judged t (m ≫= f) Q s.
Proof. destruct t; [apply wp_bind|apply safe_bind]. Qed.
Lemma judged_mono {A} (m : ST S A) (P Q : A → S → Prop) s :
  judged t m P s → (∀ a s', P a s' → Q a s') → judged t m Q s.
Proof. destruct t; [apply wp_mono|apply safe_mono]. Qed.
Lemma judged_zoom {T A} (part : T → S) put_part (m : ST S A) (Q : A → T → Prop) x :
  judged t m (λ a s, Q a (put_part s x)) (part x) → judged t (zoom part put_part m) Q x.
Proof. destruct t; [apply wp_zoom|apply safe_zoom]. Qed.
End judged.

(** ** The invariant *)

(** The disk's superblock can be mounted: no division by zero. *)
Definition mountable {D} `{BlockDeviceOk D} (d : D) : Prop :=
  let sb := decode_superblock (take SUPERBLOCK_SIZE (sectors_from (sector d) 2 2)) in
  sb_blocks_per_group sb ≠ 0 ∧ sb_inodes_per_group sb ≠ 0 ∧ log_block_size sb mod 64 ≤ 26.

Record kernel_ok {D} `{MachineOk D} (k : Kernel D) : Prop := {
  ok_screen : VgaProps.wf (screen k);
  ok_files : sorted (file_tree (files k));
  ok_stack : wf_tcp (stack k);
  ok_tasks : Scheduler.inv (tasks k);
  ok_frames : Paging.wf (page_frames k);
  ok_mounted : match mounted k with Some fs => wf_fs fs | None => True end;
}.

Section obeys.
Context {D : Type} `{MachineOk D} (t : bool).
Implicit Types (k : Kernel D).

Lemma ok_machine d k : kernel_ok k → kernel_ok (with_machine d k).
Proof.
  intros [Hsc Hf Hs Ht Hp Hm]. split; try done. destruct Hs as [Hc Hl [Hmac Hcfg]].
  split; [done|done|]. by split.
Qed.
Lemma ok_output k k' : output_only k k' → kernel_ok k → kernel_ok k'.
Proof.
  intros [E W] Hk. rewrite E. apply (ok_machine (machine k')) in Hk. destruct Hk. split; try done.
  apply W. done.
Qed.
Lemma ok_files_only k k' : files_only k k' → in_order k' → kernel_ok k → kernel_ok k'.
Proof.
  intros E [W S] Hk. rewrite E. apply (ok_machine (machine k')) in Hk. destruct Hk. split; try done.
Qed.

Definition obeys {A} (m : KM D A) (P : A → Prop) : Prop :=
  ∀ k, kernel_ok k → judged t m (λ a k', kernel_ok k' ∧ P a) k.
Abbreviation any := (λ _, True).

Lemma obeys_ret {A} (a : A) (P : A → Prop) : P a → obeys (mret a) P.
Proof. intros Ha k Hk. by apply judged_ret. Qed.
Lemma obeys_bind {A B} (m : KM D A) (f : A → KM D B) P Q :
  obeys m P → (∀ a, P a → obeys (f a) Q) → obeys (m ≫= f) Q.
Proof.
  intros Hm Hf k Hk. apply judged_bind. eapply judged_mono; [by apply Hm|].
  intros a k' [Hk' Ha]. by apply Hf.
Qed.
Lemma obeys_mono {A} (m : KM D A) (P Q : A → Prop) : obeys m P → (∀ a, P a → Q a) → obeys m Q.
Proof. intros Hm HPQ k Hk. eapply judged_mono; [by apply Hm|]. intros a k' []. auto. Qed.
Lemma obeys_any {A} (m : KM D A) P : obeys m P → obeys m any.
Proof. intros. by eapply obeys_mono. Qed.
Lemma obeys_wp {A} (m : KM D A) (P : A → Prop) :
  (∀ k, kernel_ok k → wp m (λ a k', kernel_ok k' ∧ P a) k) → obeys m P.
Proof. intros Hm k Hk. by apply judged_wp, Hm. Qed.
Lemma obeys_lift {A} (m : outcome A) (P : A → Prop) : runs m P → obeys (lift m) P.
Proof. intros Hm. apply obeys_wp. intros k Hk. apply wp_lift. by eapply runs_mono. Qed.
Lemma obeys_gets {A} (f : Kernel D → A) (P : A → Prop) : (∀ k, kernel_ok k → P (f k)) → obeys (gets f) P.
Proof. intros Hf. apply obeys_wp. intros k Hk. apply wp_gets. auto. Qed.

Lemma obeys_draws {A} (m : KM D A) P : draws m P → obeys m P.
Proof.
  intros Hm. apply obeys_wp. intros k Hk. eapply wp_mono; [by apply Hm, Hk|].
  intros a k' (O & _ & Ha). split; [by eapply ok_output|done].
Qed.
Lemma obeys_print pieces : obeys (print pieces) any.
Proof. apply obeys_draws, draws_print. Qed.
Lemma obeys_println pieces : obeys (println pieces) any.
Proof. apply obeys_draws, draws_println. Qed.
Lemma obeys_screen c : call_ok c → obeys (on_screen (run_call c)) any.
Proof. intros. by apply obeys_draws, draws_call. Qed.

(** Code on one part of the state. *)
Lemma obeys_machine {A} (m : ST D A) (P : A → Prop) : (∀ d, judged t m (λ a _, P a) d) → obeys (on_machine m) P.
Proof.
  intros Hm k Hk. apply judged_zoom. eapply judged_mono; [apply Hm|]. intros a d Ha. split; [by apply ok_machine|done].
Qed.
Lemma obeys_stack {A} (m : ST (Tcp D) A) (P : A → Prop) :
  (∀ s, wf_tcp s → judged t m (λ a s', wf_tcp s' ∧ P a) s) → obeys (on_stack m) P.
Proof.
  intros Hm k Hk. apply judged_zoom. eapply judged_mono; [apply Hm, Hk|]. intros a s [Hs Ha].
  split; [|done]. by destruct Hk.
Qed.
Lemma obeys_tasks {A} (m : ST Sched A) (P : A → Prop) :
  (∀ s, Scheduler.inv s → wp m (λ a s', Scheduler.inv s' ∧ P a) s) → obeys (on_tasks m) P.
Proof.
  intros Hm. apply obeys_wp. intros k Hk. apply wp_zoom. eapply wp_mono; [apply Hm, Hk|]. intros a s [Hs Ha].
  split; [|done]. by destruct Hk.
Qed.
Lemma obeys_frames {A} (m : ST Frames A) (P : A → Prop) :
  (∀ s, Paging.wf s → wp m (λ a s', Paging.wf s' ∧ P a) s) → obeys (on_frames m) P.
Proof.
  intros Hm. apply obeys_wp. intros k Hk. apply wp_zoom. eapply wp_mono; [apply Hm, Hk|]. intros a s [Hs Ha].
  split; [|done]. by destruct Hk.
Qed.
Lemma obeys_network {A} (m : ST (NetState D) A) (P : A → Prop) :
  (∀ n, wf_net n → judged t m (λ a n', wf_net n' ∧ P a) n) → obeys (on_stack (on_network m)) P.
Proof.
  intros Hm. apply obeys_stack. intros s [Hc Hl Hn]. apply judged_zoom. eapply judged_mono; [by apply Hm|].
  intros a n' [Hn' Ha]. split; [by split|done].
Qed.
Lemma obeys_acts f (m : KM D unit) : (∀ k, in_order k → wp m (λ _ k', acted f k k') k) → obeys m any.
Proof.
  intros Hm. apply obeys_wp. intros k Hk. eapply wp_mono; [by apply Hm; split; apply Hk|].
  intros [] k' [O _ E]. split; [by eapply ok_files_only|done].
Qed.

Lemma obeys_for_each {A} (l : list A) (f : A → KM D unit) :
  (∀ x, x ∈ l → obeys (f x) any) → obeys (for_each l f) any.
Proof.
  induction l as [|x l IH]; intros Hf; cbn [for_each]; [by apply obeys_ret|].
  eapply obeys_bind; [apply Hf; by apply list_elem_of_here|]. intros _ _. apply IH. intros y Hy. apply Hf.
  by apply list_elem_of_further.
Qed.

(** The machine's operations. *)
Lemma obeys_inb p : obeys (on_machine (inb p)) (λ v, fits 8 v).
Proof. apply obeys_machine. intros. apply judged_wp, inb_ok. Qed.
Lemma obeys_inw p : obeys (on_machine (inw p)) (λ v, fits 16 v).
Proof. apply obeys_machine. intros. apply judged_wp, inw_ok. Qed.
Lemma obeys_inl p : obeys (on_machine (inl p)) (λ v, fits 32 v).
Proof. apply obeys_machine. intros. apply judged_wp, inl_ok. Qed.
Lemma obeys_outw p v : obeys (on_machine (outw p v)) any.
Proof. apply obeys_machine. intros. apply judged_wp, outw_ok. Qed.
Lemma obeys_hlt : obeys (on_machine hlt) any.
Proof. apply obeys_machine. intros. apply judged_wp, hlt_ok. Qed.
Lemma obeys_key : obeys (on_machine pop_key) (λ r, match r with Some ev => event_ok ev | None => True end).
Proof. apply obeys_machine. intros. apply judged_wp, pop_key_ok. Qed.
Lemma obeys_now : obeys now (λ t, fits 32 t).
Proof.
  apply obeys_machine. intros d. apply judged_wp. eapply wp_mono; [apply millis_ok|]. by intros a d' [].
Qed.
Lemma obeys_elapsed : obeys (on_machine elapsed) any.
Proof.
  apply obeys_machine. intros d. apply judged_wp. unfold elapsed. apply wp_bind.
  eapply wp_mono; [apply millis_ok|]. intros a d' _. by apply wp_ret.
Qed.
Lemma obeys_serial pieces : obeys (on_serial (Serial.write_fmt uart_fuel pieces)) any.
Proof. apply obeys_wp. intros k Hk. apply serial_ok. intros d. split; [by apply ok_machine|done]. Qed.
End obeys.

Create HintDb obeys discriminated.
#[export] Hint Resolve obeys_print obeys_println obeys_inb obeys_inw obeys_inl obeys_outw obeys_hlt obeys_key
  obeys_now obeys_elapsed obeys_serial : obeys.
#[export] Hint Extern 2 (obeys _ _ (λ _, True)) => eapply obeys_any : obeys.

(** One step through a command. *)
Ltac obey1 :=
  lazymatch goal with
  | |- obeys _ (mbind _ _) _ => eapply obeys_bind; [solve [eauto 3 with obeys]|cbv beta; intros ??]
  | |- obeys _ (let x := _ in _) _ => cbv zeta
  | |- obeys _ (mret _) _ => by apply obeys_ret
  | |- obeys _ (if ?b then _ else _) _ => destruct b
  | |- obeys _ (match ?x with _ => _ end) _ => destruct x
  | |- _ => solve [eauto 3 with obeys]
  end.
Ltac obey := repeat obey1.
