(* ===== verification/ShellProps.v ===== *)
(** * The shell's commands do not panic

    Every command keeps the kernel's invariant; the commands that do not wait
    for the network return, the others do not panic however long they wait. *)
From stdpp Require Import strings.
From S2P Require Import Prelude Words Str Fmt Hardware Scheduler Paging Heap Pci Keyboard Disk Ext3 Ext3Read Ext3Props.
From S2P Require Import Vfs Ramfs Packets Dhcp Net Rtl8139 Tcp TcpConnProps TcpSpec TcpTable Calc Rtc Cpu Serial.
From S2P Require Import VgaProps Vga Framebuffer Kernel Editor Shell ShellFiles ShellInfo ShellNet ShellRun ShellSafe.
Local Open Scope Z_scope.
Local Open Scope list_scope.

(** ** Code on the machine alone *)

Section answers.
Context {D : Type} `{MachineOk D}.

Definition answers {A} (m : ST D A) (P : A → Prop) : Prop := ∀ d, wp m (λ a _, P a) d.
Lemma answers_ret {A} (a : A) (P : A → Prop) : P a → answers (mret a) P.
Proof. intros Ha d. by apply wp_ret. Qed.
Lemma answers_bind {A B} (m : ST D A) (f : A → ST D B) P Q :
  answers m P → (∀ a, P a → answers (f a) Q) → answers (m ≫= f) Q.
Proof.
  intros Hm Hf d. apply wp_bind. eapply wp_mono; [apply Hm|]. intros a d' Ha. by apply Hf.
Qed.
Lemma answers_any {A} (m : ST D A) P : answers m P → answers m (λ _, True).
Proof. intros Hm d. by eapply wp_mono. Qed.
Lemma obeys_answers t {A} (m : ST D A) (P : A → Prop) : answers m P → obeys t (on_machine m) P.
Proof. intros Hm. apply obeys_machine. intros d. apply judged_wp, Hm. Qed.

Lemma answers_inb p : answers (inb p) (λ v, fits 8 v). Proof. intros d. apply inb_ok. Qed.
Lemma answers_inw p : answers (inw p) (λ v, fits 16 v). Proof. intros d. apply inw_ok. Qed.
Lemma answers_inl p : answers (inl p) (λ v, fits 32 v). Proof. intros d. apply inl_ok. Qed.
Lemma answers_outb p v : answers (Hardware.outb p v) (λ _, True). Proof. intros d. apply outb_ok. Qed.
Lemma answers_outl p v : answers (outl p v) (λ _, True). Proof. intros d. apply outl_ok. Qed.
Lemma answers_reg r : answers (read_reg r) (λ v, fits 8 v).
Proof. eapply answers_bind; [apply answers_outb|]. intros _ _. apply answers_inb. Qed.
Lemma answers_wait n : answers (wait_update n) (λ _, True).
Proof.
  induction n as [|n IH]; cbn [wait_update]; [by apply answers_ret|].
  eapply answers_bind; [apply answers_reg|]. intros a _. case_decide; [by apply answers_ret|exact IH].
Qed.
Lemma answers_config b s f o : answers (read_config_dword b s f o) (λ v, fits 32 v).
Proof. eapply answers_bind; [apply answers_outl|]. intros _ _. apply answers_inl. Qed.
End answers.

Create HintDb answers discriminated.
#[export] Hint Resolve answers_inb answers_inw answers_inl answers_outb answers_outl answers_reg answers_wait
  answers_config : answers.
#[export] Hint Extern 2 (answers _ (λ _, True)) => eapply answers_any : answers.
Ltac answer := repeat first
  [ eapply answers_bind; [solve [eauto 3 with answers]|cbv beta; intros ??]
  | by apply answers_ret | solve [eauto 3 with answers] | progress cbv zeta
  | match goal with |- answers (if ?b then _ else _) _ => destruct b end ].

Section info_props.
Context {D : Type} `{MachineOk D} (t : bool).
Abbreviation any := (λ _, True).

Lemma answers_rtc : answers (D := D) Rtc.read any.
Proof. unfold Rtc.read. answer. Qed.
Lemma answers_probe b s f : answers (D := D) (probe_device b s f) any.
Proof. unfold probe_device. answer. Qed.
Lemma answers_loopback io on : answers (D := D) (set_loopback io on) any.
Proof. unfold set_loopback. answer. Qed.
Lemma answers_position io : answers (D := D) (ring_position io) any.
Proof. unfold ring_position. answer. Qed.
Lemma answers_mac io : answers (D := D) (read_mac io) any.
Proof. unfold read_mac. answer. Qed.

Lemma obeys_log level args : obeys (D := D) t (log level args) any.
Proof.
  unfold log. eapply obeys_bind; [by apply (obeys_screen (D := D) t (WriteFmt _))|]. intros _ _.
  eapply obeys_bind; [apply obeys_answers, answers_rtc|]. intros time _. obey.
Qed.
Lemma obeys_probe b s f : obeys (D := D) t (on_machine (probe_device b s f)) any.
Proof. apply obeys_answers, answers_probe. Qed.
Lemma obeys_position io : obeys (D := D) t (on_machine (ring_position io)) any.
Proof. apply obeys_answers, answers_position. Qed.
Lemma obeys_loopback on : obeys (D := D) t (net_loopback on) any.
Proof.
  eapply obeys_bind; [by apply obeys_gets with (P := any)|]. intros d _. apply obeys_answers, answers_loopback.
Qed.
Lemma obeys_field {A} (f : Kernel D → A) : obeys (D := D) t (gets f) any.
Proof. by apply obeys_gets. Qed.
Lemma obeys_status : obeys (D := D) t net_status (λ st, length (mac st) = 6%nat).
Proof. apply obeys_network. intros n Hn. apply judged_wp, wp_gets. split; [done|apply Hn]. Qed.
Lemma obeys_net_status : obeys (D := D) t (on_stack (on_network status)) any.
Proof. apply obeys_any with (P := λ st, length (mac st) = 6%nat), obeys_status. Qed.
Lemma obeys_config : obeys (D := D) t net_config (λ cfg, match cfg with
  | Some cfg => length (ip cfg) = 4%nat ∧ length (gateway cfg) = 4%nat | None => True end).
Proof. apply obeys_network. intros n Hn. apply judged_wp, wp_gets. split; [done|apply Hn]. Qed.
Lemma obeys_net_config : obeys (D := D) t (on_stack (on_network get_config)) any.
Proof. eapply obeys_any, obeys_config. Qed.
End info_props.

#[export] Hint Resolve obeys_log obeys_probe obeys_position obeys_loopback obeys_field obeys_net_status
  obeys_net_config : obeys.

(** ** The information commands *)

Section info_commands.
Context {D : Type} `{MachineOk D} (t : bool).
Abbreviation any := (λ _, True).

Lemma obeys_help : obeys (D := D) t cmd_help any.
Proof. apply obeys_for_each. intros l _. apply obeys_println. Qed.
Lemma obeys_mem verbose : obeys (D := D) t (cmd_mem verbose) any.
Proof.
  unfold cmd_mem, dump_stats. obey. apply obeys_for_each. intros b _. unfold bucket_stats. obey.
Qed.

Lemma count_free_wp (n : nat) i free s : Paging.wf s → 0 ≤ i → i + n ≤ FRAME_COUNT →
  wp (count_free n i free) (λ _ s', s' = s) s.
Proof.
  revert i free. induction n as [|n IH]; intros i free Hs Hi Hn; cbn [count_free]; [by apply wp_ret|].
  apply wp_bind. eapply wp_mono; [apply test_bit_wp; [done|]; unfold in_range; lia|]. intros b s' [-> ->].
  apply IH; [done|lia|lia].
Qed.
Lemma obeys_stats : obeys (D := D) t (on_frames Paging.stats) (λ r, r.1.1 = FRAME_COUNT).
Proof.
  apply obeys_frames. intros s Hs. unfold stats. apply wp_bind. eapply wp_mono.
  { apply count_free_wp; [done|lia|]. rewrite Z2Nat.id by (rewrite FRAME_COUNT_val; lia). lia. }
  intros free s' ->. by apply wp_ret.
Qed.
Lemma obeys_free : obeys (D := D) t cmd_free any.
Proof.
  unfold cmd_free. eapply obeys_bind; [apply obeys_field|]. intros h _. destruct (heap_stats h) as [used free].
  cbv zeta. eapply obeys_bind; [apply obeys_stats|]. intros [[total pfree] pused] Ht. cbn in Ht. subst total.
  do 2 (eapply obeys_bind; [apply obeys_println|]; intros _ _).
  rewrite decide_False by (rewrite FRAME_COUNT_val; lia). eapply obeys_bind; [by apply obeys_lift with (P := any)|].
  intros percent _. apply obeys_println.
Qed.

Lemma obeys_vendor : obeys (D := D) t (lift (Cpu.vendor_id cpuid)) any.
Proof. apply obeys_lift. destruct (vendor_id_ok cpuid vendor_ascii) as (s & -> & _). done. Qed.
Lemma obeys_uptime : obeys (D := D) t cmd_uptime any.
Proof. unfold cmd_uptime. obey. Qed.
Lemma obeys_cpuinfo : obeys (D := D) t cmd_cpuinfo any.
Proof. unfold cmd_cpuinfo. eapply obeys_bind; [apply obeys_vendor|]. intros v _. obey. Qed.
Lemma obeys_env : obeys (D := D) t cmd_env any.
Proof.
  unfold cmd_env. obey. eapply obeys_bind; [apply obeys_vendor|]. intros v _. obey.
  eapply obeys_bind; [apply obeys_stats|]. intros r _. obey.
Qed.

Lemma obeys_spawn name : obeys (D := D) t (cmd_spawn name) any.
Proof.
  unfold cmd_spawn, spawn_task. eapply obeys_bind with (P := any); [|intros id _; obey].
  eapply obeys_bind with (P := any).
  { apply obeys_tasks. intros s Hs. eapply wp_mono; [by apply spawn_wp|]. by intros a s' []. }
  intros id _. eapply obeys_bind with (P := any); [|intros _ _; by apply obeys_ret]. obey.
Qed.
Lemma obeys_ps : obeys (D := D) t cmd_ps any.
Proof.
  unfold cmd_ps, print_tasks. obey. apply obeys_for_each. intros i Hi%elem_of_seq. unfold print_task.
  eapply obeys_bind with (P := λ s : Sched, length (TASKS s) = MAX_TASKS).
  { apply obeys_gets. intros k Hk. apply Hk. }
  intros s Hs. eapply obeys_bind with (P := any); [|intros task _; obey]. apply obeys_lift.
  destruct (index_lt i (TASKS s)) as (task & _ & ->); [lia|done].
Qed.
Lemma halt_safe fuel : obeys (D := D) false (halt (D := D) fuel) any.
Proof.
  induction fuel as [|fuel IH]; cbn [halt]; [by intros k Hk|]. obey.
Qed.
Lemma obeys_shutdown fuel : obeys (D := D) false (cmd_shutdown fuel) any.
Proof. unfold cmd_shutdown. obey. apply halt_safe. Qed.

Lemma obeys_lspci : obeys (D := D) t cmd_lspci any.
Proof.
  unfold cmd_lspci. obey. eapply obeys_bind with (P := any); [|intros found _; obey].
  generalize 0 positions. intros found l. revert found.
  induction l as [|[[bus slot] func] l IH]; intros found; cbn [probe_all]; [by apply obeys_ret|].
  obey; apply IH.
Qed.
Lemma obeys_ifconfig : obeys (D := D) t cmd_ifconfig any.
Proof. unfold cmd_ifconfig. obey. Qed.
Lemma obeys_ring_pos : obeys (D := D) t ShellInfo.rx_ring_pos any.
Proof. unfold ShellInfo.rx_ring_pos. obey. Qed.
Lemma obeys_netinfo : obeys (D := D) t cmd_netinfo any.
Proof.
  unfold cmd_netinfo. obey. eapply obeys_bind with (P := any); [obey|]. intros _ _.
  eapply obeys_bind with (P := any); [|intros _ _; obey]. destruct (decide _); [|by apply obeys_ret].
  eapply obeys_bind; [apply obeys_ring_pos|]. intros [] _. obey.
Qed.
Lemma obeys_regs : obeys (D := D) t dump_regs any.
Proof.
  unfold dump_regs. obey. eapply obeys_bind; [apply obeys_answers, answers_mac|]. intros m _. obey.
Qed.
Lemma obeys_fb : obeys (D := D) t cmd_fb any.
Proof. unfold cmd_fb. obey. Qed.
End info_commands.

#[export] Hint Resolve obeys_ring_pos : obeys.

(** ** Files *)

Section file_commands.
Context {D : Type} `{MachineOk D} (t : bool).
Abbreviation any := (λ _, True).

Lemma obeys_ls : obeys (D := D) t cmd_ls any.
Proof. eapply obeys_acts, ls_acts. Qed.
Lemma obeys_touch p : obeys (D := D) t (cmd_touch p) any.
Proof. eapply obeys_acts, touch_acts. Qed.
Lemma obeys_write l : obeys (D := D) t (cmd_write l) any.
Proof. eapply obeys_acts, write_acts. Qed.
Lemma obeys_cat p : obeys (D := D) t (cmd_cat p) any.
Proof. eapply obeys_acts, cat_acts. Qed.
Lemma obeys_rm p : obeys (D := D) t (cmd_rm p) any.
Proof. eapply obeys_acts, rm_acts. Qed.
Lemma obeys_cp s d : obeys (D := D) t (cmd_cp s d) any.
Proof. eapply obeys_acts, cp_acts. Qed.
Lemma obeys_mv s d : obeys (D := D) t (cmd_mv s d) any.
Proof. eapply obeys_acts, mv_acts. Qed.

(** The ext3 commands first mount the disk, unless it is mounted. *)
Lemma mount_ok (k : Kernel D) : kernel_ok k → (mounted k = None → mountable (machine k)) →
  wp ext3_mount (λ _ k', kernel_ok k') k.
Proof.
  intros Hk Hm. unfold ext3_mount. apply wp_bind, wp_gets. destruct (mounted k) as [fs|]; [by apply wp_ret|].
  destruct (Hm eq_refl) as (Hb & Hi & Hl). apply wp_bind, wp_on_machine.
  eapply wp_mono; [by apply reads_wp, mount_reads|]. intros r d [_ Hr].
  assert (kernel_ok (with_machine d k)) as Hk' by by apply ok_machine. destruct r as [fs|e].
  - apply wp_bind, println_ok; [apply Hk'|]. intros k1 O W. apply wp_modify.
    eapply ok_output in Hk'; [|exact O]. by destruct Hk'.
  - apply println_ok; [apply Hk'|]. intros k1 O W. by eapply ok_output.
Qed.

(** What they do with the file system. *)
Lemma after_mount (f : Ext3Fs → KM D unit) (k : Kernel D) :
  (∀ fs, wf_fs fs → obeys true (f fs) any) → kernel_ok k → (mounted k = None → mountable (machine k)) →
  judged t (ext3_mount;; fs ← gets mounted; match fs with Some fs => f fs | None => mret tt end)
    (λ _ k', kernel_ok k' ∧ True) k.
Proof.
  intros Hf Hk Hm. apply judged_wp, wp_bind. eapply wp_mono; [by apply mount_ok|]. intros [] k1 Hk1.
  apply wp_bind, wp_gets. pose proof (ok_mounted _ Hk1) as Hfs. destruct (mounted k1) as [fs|]; [|by apply wp_ret].
  by apply (Hf fs Hfs).
Qed.

Lemma ext3ls_ok path (k : Kernel D) : kernel_ok k → (mounted k = None → mountable (machine k)) →
  judged t (cmd_ext3ls path) (λ _ k', kernel_ok k' ∧ True) k.
Proof.
  apply after_mount. intros fs Hfs. eapply obeys_bind with (P := any).
  { apply obeys_machine. intros d. apply (judged_wp true). eapply wp_mono; [by apply reads_wp, list_dir_reads|]. done. }
  intros r _. assert (∀ l, obeys true (print_entries (D := D) l) any) as Hall.
  { induction l as [|[[name ino] ft] l IH]; cbn [print_entries]; obey. }
  destruct r as [[|x l]|e]; obey.
Qed.
Lemma ext3cat_ok path (k : Kernel D) : kernel_ok k → (mounted k = None → mountable (machine k)) →
  judged t (cmd_ext3cat path) (λ _ k', kernel_ok k' ∧ True) k.
Proof.
  apply after_mount. intros fs Hfs. eapply obeys_bind with (P := any).
  { apply obeys_machine. intros d. apply (judged_wp true).
    eapply wp_mono; [by apply reads_wp, read_file_path_reads|]. done. }
  intros r _. obey.
Qed.
Lemma ext3info_ok (k : Kernel D) : kernel_ok k → (mounted k = None → mountable (machine k)) →
  judged t cmd_ext3info (λ _ k', kernel_ok k' ∧ True) k.
Proof. apply after_mount. intros fs Hfs. obey. Qed.
End file_commands.

(** ** Network *)

Section network_commands.
Context {D : Type} `{MachineOk D} (t : bool).
Abbreviation any := (λ _, True).

Definition addr4 (a : list Z) : Prop := length a = 4%nat.
Lemma parse_bytes_length parts bs : parse_bytes parts = Some bs → length bs = length parts.
Proof.
  revert bs. induction parts as [|p parts IH]; intros bs; cbn; [by intros [= <-]|].
  destruct (parse_uint 8 p) as [b|]; cbn; [|done]. destruct (parse_bytes parts) as [r|]; cbn; [|done].
  intros [= <-]. cbn. by rewrite (IH r).
Qed.
Lemma parse_ip_length s a : parse_ip s = Some a → addr4 a.
Proof.
  unfold parse_ip, addr4. destruct (decide (length (split 46 s) ≠ 4)%nat) as [|Hl]; [done|].
  intros E. rewrite (parse_bytes_length _ _ E). lia.
Qed.

Lemma arp_request_done mac ip target : length mac = 6%nat → addr4 ip → addr4 target →
  ∃ b, Arp.build_request mac ip target (replicate 28 0) = Done (Some 28%nat, b) ∧ length b = 28%nat.
Proof.
  intros Hm Hi Ht. do 6 (destruct mac as [|? mac]; [done|]). destruct mac; [|done].
  do 4 (destruct ip as [|? ip]; [done|]). destruct ip; [|done].
  do 4 (destruct target as [|? target]; [done|]). destruct target; [|done]. eexists. split; [reflexivity|done].
Qed.
Lemma arp_frame_runs n mac ip target : (42 ≤ n)%nat → length mac = 6%nat → addr4 ip → addr4 target →
  runs (arp_frame n mac ip target) any.
Proof.
  intros Hn Hm Hi Ht. unfold arp_frame. destruct (arp_request_done mac ip target Hm Hi Ht) as (b & -> & Hb).
  cbn [mbind outcome_bind expect]. rewrite slice_done by lia. cbn [mbind outcome_bind].
  rewrite frame_done; [done|done|done|]. rewrite length_take, length_drop. lia.
Qed.
Lemma ping_packet_runs ip target : addr4 ip → addr4 target → runs (ping_packet ip target) (λ p, length p = 38%nat).
Proof.
  intros Hi Ht. destruct (Ipv4Props.build_layout ip target 1 18 (replicate 84 0)) as [ck E];
    [done|done|rewrite length_replicate; lia|].
  assert (length (Ipv4Props.header ip target 1 (wadd 16 20 18) ck) = 20%nat) as Hl by (unfold Ipv4Props.header, addr4 in *; len).
  rewrite (ping_packet_done _ _ _ Hl E). apply runs_ret. rewrite length_app, Hl. done.
Qed.
Lemma ping_frame_runs tm om p : length tm = 6%nat → length om = 6%nat → length p = 38%nat → runs (ping_frame tm om p) any.
Proof. intros Ht Ho Hp. unfold ping_frame. by rewrite frame_done by lia. Qed.
Lemma arp_parse_mac data : runs (Arp.parse data) (λ r, ∀ a, r = Some a → length (Arp.sender_mac a) = 6%nat).
Proof.
  unfold Arp.parse. case_decide as Hd; [done|]. repeat parse_step.
  case_match; [done|]. repeat parse_step. apply runs_ret. intros a [= <-]. cbn [Arp.sender_mac]. len.
Qed.
Lemma arp_in_runs pkt : runs (arp_in pkt) (λ r, ∀ a, r = Some a → length (Arp.sender_mac a) = 6%nat).
Proof.
  unfold arp_in. apply runs_bind. eapply runs_mono; [apply CodecProps.ethernet_parse_runs|]. intros [eth|] _; [|done].
  destruct (_ =? _); [|done]. apply arp_parse_mac.
Qed.
Lemma echo_reply_runs pkt : runs (echo_reply pkt) any.
Proof.
  unfold echo_reply. apply runs_bind. eapply runs_mono; [apply CodecProps.ethernet_parse_runs|]. intros [eth|] _; [|done].
  destruct (_ =? _); [|done]. apply runs_bind. eapply runs_mono; [apply CodecProps.ipv4_parse_runs|].
  intros [p|] _; [|done]. case_decide as Hp; [|done]. apply runs_bind.
  destruct (index_lt 0 (Ipv4.payload p)) as (b & _ & ->); [lia|]. done.
Qed.

Lemma obeys_until {A} fuel deadline (body : KM D (option A)) (P : A → Prop) :
  let P' := λ r, match r with Some a => P a | None => True end in
  obeys false body P' → obeys false (until fuel deadline body) P'.
Proof.
  intros P' Hb. induction fuel as [|fuel IH]; cbn [until]; (eapply obeys_bind; [apply obeys_now|]; intros now _);
    (case_decide; [|by apply obeys_ret]); [by intros k Hk|].
  eapply obeys_bind; [exact Hb|]. intros [a|] Ha; [by apply obeys_ret|]. eapply obeys_bind; [apply obeys_hlt|].
  intros _ _. exact IH.
Qed.
Lemma obeys_deadline ms : obeys (D := D) t (deadline_in ms) any.
Proof. unfold deadline_in. obey. Qed.
Lemma obeys_net_send f : obeys (D := D) t (net_send f) any.
Proof.
  apply obeys_network. intros n Hn. apply judged_wp. eapply wp_mono; [apply send_wp|]. intros r n' (H1 & H2 & _).
  split; [|done]. by apply (wf_net_same n).
Qed.
Lemma obeys_net_poll : obeys (D := D) t net_poll (λ r, match r with Some f => bytes f ∧ (length f ≤ 1518)%nat | None => True end).
Proof.
  apply obeys_network. intros n Hn. apply judged_wp. unfold Net.poll_rx. apply wp_bind, wp_gets.
  destruct (kind (NET n)); [by apply wp_ret..|]. apply wp_zoom.
  eapply wp_mono; [apply wp_and; [apply nic_poll_rx_ok|apply nic_frame_ok]|].
  intros r d [[_ Hb] Hl]. split; [by destruct Hn; split|]. destruct r; done.
Qed.
Lemma obeys_packet {A} (f : list Z → KM D (option A)) (P : option A → Prop) : P None →
  (∀ pkt, bytes pkt → obeys t (f pkt) P) → obeys t (with_packet f) P.
Proof.
  intros HN Hf. unfold with_packet. eapply obeys_bind; [apply obeys_net_poll|].
  intros [pkt|] Hp; [apply Hf, Hp|by apply obeys_ret].
Qed.
Lemma obeys_local_ip : obeys (D := D) t local_ip addr4.
Proof.
  unfold local_ip. eapply obeys_bind; [apply obeys_config|]. intros [cfg|] Hc; apply obeys_ret; [apply Hc|done].
Qed.
Lemma obeys_gateway_ip : obeys (D := D) t gateway_ip addr4.
Proof.
  unfold gateway_ip. eapply obeys_bind; [apply obeys_config|]. intros [cfg|] Hc; apply obeys_ret; [apply Hc|done].
Qed.
End network_commands.

#[export] Hint Resolve obeys_deadline obeys_net_send : obeys.

(** ** Commands that wait *)

Section waiting.
Context {D : Type} `{MachineOk D}.
Abbreviation any := (λ _, True).

Lemma obeys_lift_runs t {A} (m : outcome A) P : runs m P → obeys (D := D) t (lift m) P.
Proof. apply obeys_lift. Qed.

Lemma obeys_arp_wait target our : obeys (D := D) false (arp_wait target our) any.
Proof.
  unfold arp_wait. eapply obeys_bind with (P := any); [|intros r _; obey].
  apply obeys_packet; [done|]. intros pkt _. eapply obeys_bind; [by apply obeys_lift, arp_in_runs|].
  intros [a|] _; [|by apply obeys_ret]. case_decide; obey.
Qed.
Lemma obeys_arpwhois fuel : obeys (D := D) false (cmd_arpwhois fuel) any.
Proof.
  unfold cmd_arpwhois. eapply obeys_bind; [apply obeys_status|]. intros st Hst. case_decide; [apply obeys_println|].
  eapply obeys_bind; [apply obeys_local_ip|]. intros our Ho. eapply obeys_bind; [apply obeys_gateway_ip|]. intros gw Hg.
  eapply obeys_bind; [apply obeys_lift, arp_frame_runs; first [done|cbn; lia]|]. intros frame _.
  obey. eapply obeys_bind; [apply (obeys_until _ _ _ any)|].
  { eapply obeys_mono; [apply obeys_arp_wait|]. by intros [] _. }
  intros r _. destruct r; [by apply obeys_ret|]. unfold net_status. obey.
Qed.

Lemma obeys_loop_wait : obeys (D := D) false loop_wait any.
Proof.
  apply obeys_packet; [done|]. intros pkt _. obey.
  eapply obeys_bind; [apply obeys_lift, CodecProps.ethernet_parse_runs|]. intros eth He.
  eapply obeys_bind with (P := any); [|intros _ _; by apply obeys_ret]. destruct eth as [eth|]; [|by apply obeys_ret].
  destruct He as (_ & Hd & Hs).
  assert (∀ i (l : list Z), length l = 6%nat → (i < 6)%nat → obeys (D := D) false (lift (index i l)) (λ _ : Z, True)) as Hi.
  { intros i l Hl Hi. apply obeys_lift. destruct (index_lt i l) as (b & _ & ->); [lia|done]. }
  do 4 (eapply obeys_bind; [apply Hi; [done|lia]|]; intros ? _). obey.
Qed.
Lemma obeys_looptest fuel : obeys (D := D) false (cmd_looptest fuel) any.
Proof.
  unfold cmd_looptest. eapply obeys_bind; [apply obeys_status|]. intros st Hst. case_decide; [apply obeys_println|].
  eapply obeys_bind; [apply obeys_local_ip|]. intros our Ho. eapply obeys_bind; [apply obeys_gateway_ip|]. intros gw Hg.
  eapply obeys_bind; [apply obeys_lift, arp_frame_runs; first [done|cbn; lia]|]. intros frame _.
  obey. eapply obeys_bind; [apply (obeys_until _ _ _ any)|].
  { eapply obeys_mono; [apply obeys_loop_wait|]. by intros [] _. }
  intros r _. obey.
Qed.

Lemma obeys_mac_wait target : obeys (D := D) false (mac_wait target)
  (λ r, match r with Some m => length m = 6%nat | None => True end).
Proof.
  apply obeys_packet; [done|]. intros pkt _. eapply obeys_bind; [apply obeys_lift, arp_in_runs|].
  intros a Ha. apply obeys_ret. destruct a as [a|]; [|done]. case_decide; [by apply Ha|done].
Qed.
Lemma obeys_resolve fuel target cfg our_mac : addr4 target → addr4 (ip cfg) → length our_mac = 6%nat →
  obeys (D := D) false (resolve_mac fuel target cfg our_mac) (λ r, match r with Some m => length m = 6%nat | None => True end).
Proof.
  intros Ht Hc Hm. unfold resolve_mac. case_decide; [by apply obeys_ret|].
  eapply obeys_bind; [apply obeys_lift, arp_frame_runs; first [done|cbn; lia]|]. intros frame _. obey.
  eapply obeys_bind; [apply obeys_until, obeys_mac_wait|]. intros [m|] Hr; [by apply obeys_ret|].
  assert (∀ i, (i < 4)%nat → obeys (D := D) false (lift (index i target)) (λ _ : Z, True)) as Hi.
  { intros i Hi. apply obeys_lift. destruct (index_lt i target) as (b & _ & ->); [unfold addr4 in Ht; lia|done]. }
  do 3 (eapply obeys_bind; [apply Hi; lia|]; intros ? _). by apply obeys_ret.
Qed.
Lemma obeys_ping_wait start : obeys (D := D) false (ping_wait start) any.
Proof.
  unfold ping_wait. eapply obeys_bind with (P := any); [|intros r _; obey].
  apply obeys_packet; [done|]. intros pkt _. eapply obeys_bind; [apply obeys_lift, echo_reply_runs|].
  intros [src|] _; obey.
Qed.
Lemma obeys_ping fuel target : obeys (D := D) false (cmd_ping fuel target) any.
Proof.
  unfold cmd_ping. eapply obeys_bind; [apply obeys_status|]. intros st Hst. case_decide; [apply obeys_println|].
  destruct (parse_ip target) as [tip|] eqn:Et; [|apply obeys_println]. apply parse_ip_length in Et.
  eapply obeys_bind; [apply obeys_config|]. intros [cfg|] Hc; [|apply obeys_println]. destruct Hc as [Hc _]. obey.
  eapply obeys_bind; [apply obeys_lift, ping_packet_runs; done|]. intros packet Hp. obey.
  eapply obeys_bind; [by apply obeys_resolve|]. intros [tm|] Htm; [|apply obeys_println].
  eapply obeys_bind; [apply obeys_lift, ping_frame_runs; done|]. intros frame _. obey.
  eapply obeys_bind; [apply (obeys_until _ _ _ any)|].
  { eapply obeys_mono; [apply obeys_ping_wait|]. by intros [] _. }
  intros r _. obey.
Qed.
End waiting.

(** ** TCP, DHCP, HTTP *)

Section tcp_commands.
Context {D : Type} `{MachineOk D}.
Abbreviation any := (λ _, True).

Lemma slot_wf i R (s s' : Tcp D) : slot_step i R s s' → wf_tcp s'.
Proof. by intros []. Qed.

Lemma obeys_tcplisten t port : obeys (D := D) t (cmd_tcplisten port) any.
Proof.
  unfold cmd_tcplisten. destruct (parse_uint 16 port) as [p|]; [|apply obeys_println].
  eapply obeys_bind with (P := any); [|intros r _; obey]. apply obeys_stack. intros s Hs. apply judged_wp.
  eapply wp_mono; [by apply listen_wp|]. intros r s' Hr. destruct (Tcp.position _ _); destruct Hr as [_ Hr];
    (split; [|done]); [by eapply slot_wf|by subst].
Qed.
Lemma obeys_connect t lport rip rport : addr4 rip → obeys (D := D) t (on_stack (connect lport rip rport)) any.
Proof.
  intros Hip. apply obeys_stack. intros s Hs. apply judged_wp.
  eapply wp_mono; [by apply connect_wp|]. intros r s' Hr. destruct (Tcp.position _ _); destruct Hr as [_ Hr];
    (split; [|done]); [by eapply slot_wf|by subst].
Qed.
Lemma parse_ipv4_length s a : parse_ipv4 s = Some a → addr4 a.
Proof. apply parse_ip_length. Qed.
Lemma obeys_tcpconnect t ip port : obeys (D := D) t (cmd_tcpconnect ip port) any.
Proof.
  unfold cmd_tcpconnect. destruct (parse_ipv4 ip) as [a|] eqn:Ea; [|apply obeys_println].
  destruct (parse_uint 16 port) as [p|]; [|apply obeys_println].
  obey. eapply obeys_bind; [by eapply obeys_connect, parse_ipv4_length|]. intros r _. obey.
Qed.

(** Calls on one connection. *)
Lemma obeys_conn t {A} idx (m : ST (TcpConn * NetState D) (result A string)) (P : result A string → Prop) :
  (∀ c, leads c m (λ r _, P r)) → P (Err "invalid connection index"%string) →
  obeys (D := D) t (on_stack (with_conn idx m)) P.
Proof.
  intros Hm HE. apply obeys_stack. intros s Hs. apply judged_wp. unfold with_conn. apply wp_bind, wp_get.
  rewrite (wf_slots _ Hs). case_decide as Hi; [|by apply wp_ret]. destruct (slot_lookup s idx Hs Hi) as [c Hc].
  eapply on_conn_wp; [done|exact Hc|apply Hm|]. intros r s' (Hs' & _ & c0 & c' & _ & _ & _ & Hr). done.
Qed.
Lemma obeys_send t idx data : obeys (D := D) t (on_stack (Tcp.send idx data)) any.
Proof. apply obeys_conn; [|done]. intros c. eapply leads_mono; [apply leads_send_body|done]. Qed.
Lemma obeys_close t idx : obeys (D := D) t (on_stack (Tcp.close idx)) any.
Proof. apply obeys_conn; [|done]. intros c. eapply leads_mono; [apply leads_close_body|done]. Qed.
Lemma obeys_conn_status t idx : obeys (D := D) t (on_stack (conn_status idx)) any.
Proof. apply obeys_conn; [|done]. intros c Hc n Hn. by apply wp_bind, wp_gets, wp_ret. Qed.
Lemma obeys_recv t idx buf : obeys (D := D) t (on_stack (Tcp.recv idx buf))
  (λ r, match r with Ok (n, b) => (n ≤ length b)%nat | Err _ => True end).
Proof.
  apply obeys_conn; [|done]. intros c. eapply leads_mono; [apply leads_recv_body|]. intros r a [= ->].
  rewrite length_app, !length_take, length_drop. lia.
Qed.
Lemma obeys_list t : obeys (D := D) t (on_stack list_conns) any.
Proof. apply obeys_stack. intros s Hs. by apply judged_wp, wp_bind, wp_get, wp_ret. Qed.

Lemma obeys_tcpsend t idx data : obeys (D := D) t (cmd_tcpsend idx data) any.
Proof.
  unfold cmd_tcpsend. destruct (parse_uint 64 idx) as [i|]; [|apply obeys_println].
  eapply obeys_bind; [apply obeys_send|]. intros r _. obey.
Qed.
Lemma obeys_tcpclose t idx : obeys (D := D) t (cmd_tcpclose idx) any.
Proof.
  unfold cmd_tcpclose. destruct (parse_uint 64 idx) as [i|]; [|apply obeys_println].
  eapply obeys_bind; [apply obeys_close|]. intros r _. obey.
Qed.
Lemma obeys_prefix t n (b : list Z) : (n ≤ length b)%nat → obeys (D := D) t (lift (slice 0 n b)) any.
Proof. intros Hn. apply obeys_lift. by rewrite slice_take. Qed.
Lemma obeys_tcprecv t idx : obeys (D := D) t (cmd_tcprecv idx) any.
Proof.
  unfold cmd_tcprecv. destruct (parse_uint 64 idx) as [i|]; [|apply obeys_println].
  eapply obeys_bind; [apply obeys_recv|]. intros [[[|n] b]|e] Hr; [apply obeys_println| |apply obeys_println].
  eapply obeys_bind; [by apply obeys_prefix|]. intros s _. obey.
Qed.
Lemma obeys_tcpstat t : obeys (D := D) t cmd_tcpstat any.
Proof.
  unfold cmd_tcpstat. eapply obeys_bind; [apply obeys_list|]. intros l _.
  assert (obeys (D := D) t (for_each l print_conn) any) as Hl.
  { apply obeys_for_each. intros [[[[idx st] lp] rip] rp] _. apply obeys_println. }
  destruct l; [apply obeys_println|exact Hl].
Qed.

(** Received packets. *)
Lemma wf_net_stack (s : Tcp D) (n : NetState D) : wf_tcp s → wf_net n → wf_tcp (mkTcpState (CONNS s) n).
Proof. intros [Hc Hl _] Hn. by split. Qed.
Lemma dispatch_wf pkt (s : Tcp D) : wf_tcp s → bytes pkt → (length pkt ≤ 1518)%nat →
  wp (Tcp.dispatch pkt) (λ _ s', wf_tcp s') s.
Proof.
  intros Hs Hb Hl. unfold Tcp.dispatch. apply wp_bind, wp_lift.
  eapply runs_mono; [apply CodecProps.ethernet_parse_runs|]. intros [eth|] He; [|by apply wp_ret].
  destruct He as [He _]. destruct (_ =? _); [|by apply wp_ret]. apply wp_bind, wp_lift.
  eapply runs_mono; [apply CodecProps.ipv4_parse_runs|]. intros [p|] Hp; [|by apply wp_ret].
  destruct (Hp p eq_refl) as (_ & _ & Epay & Hsrc & _). apply wp_bind, wp_zoom, wp_gets. cbv zeta.
  replace (mkTcpState (CONNS s) (net s)) with s by by destruct s.
  destruct (_ && _); [by apply wp_ret|]. destruct (_ =? _); [|by apply wp_ret].
  assert (bytes (Ipv4.payload p)) by (rewrite Epay, He; by repeat apply Forall_drop).
  eapply wp_mono; [apply receive_wp; try done|].
  - rewrite Epay, He, !length_drop. pow2. lia.
  - intros [] s' (r & _ & Hr). destruct r as [hdr|]; [|by subst].
    destruct (Tcp.position _ _); [by eapply slot_wf|by subst].
Qed.
Lemma drain_safe fuel (s : Tcp D) : wf_tcp s → safe (Tcp.drain fuel) (λ _ s', wf_tcp s') s.
Proof.
  revert s. assert (∀ s : Tcp D, wf_tcp s → wp (on_network Net.poll_rx) (λ r s', wf_tcp s' ∧
    match r with Some f => bytes f ∧ (length f ≤ 1518)%nat | None => True end) s) as Hpoll.
  { intros s Hs. apply wp_zoom. pose proof (wf_below _ Hs) as [Hm Hc]. unfold Net.poll_rx. apply wp_bind, wp_gets.
    assert (∀ r : option (list Z), match r with Some f => bytes f ∧ (length f ≤ 1518)%nat | None => True end →
      ∀ d : D, wf_tcp (mkTcpState (CONNS s) (mkNet (NET_CFG (net s)) (NET (net s)) d)) ∧
      match r with Some f => bytes f ∧ (length f ≤ 1518)%nat | None => True end) as Hput.
    { intros r Hr d. split; [|done]. apply wf_net_stack; [done|by split]. }
    replace (net s) with (mkNet (NET_CFG (net s)) (NET (net s)) (dev (net s))) by by destruct (net s).
    cbn [NET]. destruct (kind (NET (net s))); [by apply wp_ret, (Hput None)..|].
    apply wp_zoom. eapply wp_mono; [apply wp_and; [apply nic_poll_rx_ok|apply nic_frame_ok]|].
    intros r d [[_ Hb] Hl]. apply Hput. by destruct r. }
  induction fuel as [|fuel IH]; intros s Hs; cbn [Tcp.drain]; apply safe_bind_wp;
    (eapply wp_mono; [by apply Hpoll|]); intros [pkt|] s1 [Hs1 Hp]; try done.
  apply safe_bind_wp. eapply wp_mono; [apply dispatch_wf; [done|apply Hp..]|]. intros [] s2 Hs2. by apply IH.
Qed.
Lemma obeys_poll fuel : obeys (D := D) false (on_stack (poll_and_dispatch fuel)) any.
Proof.
  apply obeys_stack. intros s Hs. apply safe_bind. eapply safe_mono; [by apply drain_safe|].
  intros [] s1 Hs1. apply wp_safe. eapply wp_mono; [by apply poll_wp|]. by intros [] s2 [].
Qed.
End tcp_commands.

#[export] Hint Resolve obeys_poll obeys_conn_status obeys_send obeys_close : obeys.

Section dhcp_commands.
Context {D : Type} `{MachineOk D}.
Abbreviation any := (λ _, True).
Implicit Types n : NetState D.

(** What an accepted reply says about lengths. *)
Definition reply_ok (r : option (option (list Z) * Options)) : Prop :=
  ∀ ya o, r = Some (ya, o) → (∀ a, ya = Some a → addr4 a) ∧ options_len4 o.
Lemma accept_ok pkt mac xid : bytes pkt → runs (accept pkt mac xid) reply_ok.
Proof.
  intros Hb. destruct (accept_spec pkt mac xid Hb) as (r & -> & Hr). cbn [runs]. intros ya o ->.
  destruct (Hr ya o eq_refl) as (eth & p & udp & _ & _ & _ & _ & _ & _ & _ & Hya & Ho).
  split; [intros a Ha; by apply Hya|]. eapply parse_options_len4; [exact Ho|done].
Qed.
Lemma net_now n : wf_net n → wp Net.now (λ _ n', wf_net n') n.
Proof. intros Hn. eapply wp_mono; [apply now_wp|]. intros x n' (H1 & H2 & _). by apply (wf_net_same n). Qed.

Lemma recv_until_safe fuel dl mac xid n : wf_net n →
  safe (recv_until fuel dl mac xid) (λ r n', wf_net n' ∧ reply_ok r) n.
Proof.
  revert n. induction fuel as [|fuel IH]; intros n Hn; cbn [recv_until]; apply safe_bind_wp;
    (eapply wp_mono; [by apply net_now|]); intros now n1 Hn1; (destruct (now <? dl); [|by apply safe_ret]); [done|].
  apply safe_bind_wp. eapply wp_mono; [apply poll_rx_wp|]. intros r n2 (C1 & C2 & _ & Hr).
  assert (wf_net n2) as Hn2 by by apply (wf_net_same n1). destruct r as [pkt|]; [|by apply IH].
  apply safe_bind_wp, wp_lift. eapply runs_mono; [by apply accept_ok|]. intros [x|] Hx; [by apply safe_ret|by apply IH].
Qed.
Lemma send_and_recv_safe fuel payload mac xid n : wf_net n → length mac = 6%nat → (length payload ≤ 504)%nat →
  safe (send_and_recv fuel payload mac xid) (λ r n', wf_net n' ∧ reply_ok r) n.
Proof.
  intros Hn Hm Hl. unfold send_and_recv. destruct (encapsulate_returns payload mac Hm Hl) as [frame E].
  apply safe_bind_wp, wp_lift. rewrite E. cbn [runs]. apply safe_bind_wp. eapply wp_mono; [apply send_wp|].
  intros r n1 (C1 & C2 & _). assert (wf_net n1) as Hn1 by by apply (wf_net_same n). destruct r; [|by apply safe_ret].
  apply safe_bind_wp. eapply wp_mono; [by apply net_now|]. intros now n2 Hn2. by apply recv_until_safe.
Qed.
Definition config_ok (r : option NetConfig) : Prop :=
  match r with Some cfg => addr4 (ip cfg) ∧ addr4 (Net.gateway cfg) | None => True end.
Lemma dhcp_request_safe fuel mac xid n : wf_net n → length mac = 6%nat →
  safe (dhcp_request fuel mac xid) (λ r n', wf_net n' ∧ config_ok r) n.
Proof.
  intros Hn Hm. unfold dhcp_request. apply safe_bind.
  pose proof (build_dhcp_msg_length OP_BOOTREQUEST xid mac DHCP_DISCOVER None None Hm Logic.I Logic.I).
  eapply safe_mono; [apply send_and_recv_safe; [done|done|lia]|]. intros [[[offered|] o]|] n1 [Hn1 Hr]; try by apply safe_ret.
  destruct (Hr _ _ eq_refl) as [Hoff [Hsrv _]]. specialize (Hoff _ eq_refl).
  pose proof (build_dhcp_msg_length OP_BOOTREQUEST xid mac DHCP_REQUEST (Some offered) (server_id o) Hm Hoff Hsrv).
  apply safe_bind. eapply safe_mono; [apply send_and_recv_safe; [done|done|lia]|].
  intros [[ya o2]|] n2 [Hn2 Hr2]; [|by apply safe_ret]. destruct (negb _); [by apply safe_ret|]. apply safe_ret.
  destruct (Hr2 _ _ eq_refl) as [_ [_ Hg]]. split; [done|]. split; [done|]. cbn [Net.gateway]. unfold addr4.
  by destruct (Dhcp.gateway o2).
Qed.
Lemma obeys_dhcp fuel : obeys (D := D) false (cmd_dhcp fuel) any.
Proof.
  unfold cmd_dhcp. eapply obeys_bind; [apply obeys_status|]. intros st Hst. case_decide; [apply obeys_println|].
  obey. eapply obeys_bind with (P := config_ok).
  { apply obeys_network. intros n Hn. by apply dhcp_request_safe. }
  intros [cfg|] Hc; [|apply obeys_println]. eapply obeys_bind with (P := any).
  { apply obeys_network. intros n [Hm _]. apply judged_wp. unfold set_config. apply wp_modify. split; [|done]. by split. }
  intros _ _. obey.
Qed.

Lemma http_connect_safe fuel idx dl : obeys (D := D) false (http_connect fuel idx dl) any.
Proof.
  induction fuel as [|fuel IH]; cbn [http_connect]; [by intros k Hk|].
  obey1. eapply obeys_bind; [apply obeys_conn_status|]. intros st _.
  assert (obeys (D := D) false (t ← now; if decide (dl < t) then println [txt "Connection timeout"];; mret false
    else on_machine hlt;; http_connect fuel idx dl) any) as Hwait by obey.
  destruct st as [[[[[[] lp] rip] rp] n]|e]; try exact Hwait. by apply obeys_ret.
Qed.
Lemma obeys_coloured t c pieces : obeys (D := D) t (coloured c pieces) any.
Proof.
  unfold coloured. eapply obeys_bind; [by apply (obeys_screen (D := D) t (SetColor _ _))|]. intros _ _.
  obey1. by apply (obeys_screen (D := D) t (SetColor _ _)).
Qed.
Lemma http_receive_safe fuel idx dl buf : obeys (D := D) false (http_receive fuel idx dl buf) any.
Proof.
  revert buf. induction fuel as [|fuel IH]; intros buf; cbn [http_receive]; [by intros k Hk|].
  obey1. eapply obeys_bind; [apply obeys_recv|]. intros [[[|n] b]|e] Hr; [|..|by apply obeys_ret].
  - obey1. case_decide; [by apply obeys_ret|]. obey1. apply IH.
  - eapply obeys_bind; [by apply obeys_prefix|]. intros s _. eapply obeys_bind with (P := any); [|intros _ _; apply IH].
    destruct (valid_utf8 s); [apply obeys_coloured|by apply obeys_ret].
Qed.
Lemma obeys_httpget fuel ip port path : obeys (D := D) false (cmd_httpget fuel ip port path) any.
Proof.
  unfold cmd_httpget. destruct (parse_ipv4 ip) as [a|] eqn:Ea; [|apply obeys_println].
  destruct (parse_uint 16 port) as [p|]; [|apply obeys_println]. obey1.
  eapply obeys_bind; [by eapply obeys_connect, parse_ipv4_length|]. intros [idx|e] _; [|apply obeys_println]. obey1. obey1.
  eapply obeys_bind; [apply http_connect_safe|]. intros est _. destruct (negb est); [by apply obeys_ret|].
  eapply obeys_bind; [apply obeys_coloured|]. intros _ _. eapply obeys_bind; [apply obeys_send|]. intros [n|e] _; [|apply obeys_println].
  obey1. obey1. eapply obeys_bind; [apply http_receive_safe|]. intros _ _. obey.
Qed.
End dhcp_commands.
