(* ===== verification/ShellLoop.v ===== *)
(** * The shell's loop keeps the kernel in order

    No command line makes the kernel panic but the ones that ask for it: [panic],
    the editor (its theorem is in Editor.v), a dump of unmapped memory, a broken
    disk.  So the invariant holds whenever the prompt is shown. *)
From stdpp Require Import strings.
From S2P Require Import Prelude Words Str Fmt Hardware Scheduler Paging Heap Pci Keyboard Disk Ext3 Ext3Read Ext3Props.
From S2P Require Import Vfs Ramfs Packets Dhcp Net Rtl8139 Tcp TcpConnProps TcpSpec TcpTable Calc Rtc Cpu Serial.
From S2P Require Import VgaProps Vga Framebuffer Kernel Editor Shell ShellFiles ShellInfo ShellNet ShellRun ShellSafe ShellProps.
Local Open Scope Z_scope.
Local Open Scope list_scope.

(** ** What a command may be *)

(** The dumped memory is mapped (below 1 GiB, Boot.v). *)
Definition dump_inside (args : list str) : Prop :=
  let addr := default 0 ((args !! 0%nat) ≫= parse_hex) in
  let len := default 128 ((args !! 1%nat) ≫= parse_uint 64) in
  len ≤ 4096 → addr + len ≤ 2 ^ 30.
Definition disk_command (cmd : str) : Prop := cmd = txt "ext3ls" ∨ cmd = txt "ext3cat" ∨ cmd = txt "ext3info".
Record permitted {D} `{MachineOk D} (k : Kernel D) (cmd : str) (args : list str) : Prop := {
  not_panic : cmd ≠ txt "panic";
  not_edit : cmd ≠ txt "edit";
  dump_ok : cmd = txt "hexdump" → dump_inside args;
  disk_ok : disk_command cmd → mounted k = None → mountable (machine k);
}.
(** Commands that wait for the network, or for ever. *)
Definition waits (cmd : str) : bool :=
  bool_decide (cmd ∈ [txt "arpwhois"; txt "looptest"; txt "shutdown"; txt "dhcp"; txt "ping"; txt "httpget"]).

Section commands.
Context {D : Type} `{MachineOk D}.
Abbreviation any := (λ _, True).
Implicit Types (k : Kernel D).

Lemma obeys_byte t a : 0 ≤ a < 2 ^ 30 → obeys (D := D) t (on_machine (volatile_read a)) any.
Proof. intros Ha. eapply obeys_any, obeys_answers. intros d. by apply volatile_read_ok. Qed.
Lemma obeys_dump_line t addr len off : 0 ≤ addr → addr + Z.of_nat len ≤ 2 ^ 30 → (off < len)%nat →
  obeys (D := D) t (dump_line addr len off) any.
Proof.
  intros Ha Hl Ho. unfold dump_line. obey1. cbv zeta. eapply obeys_bind with (P := any).
  { apply obeys_for_each. intros i _. unfold hex_cell. eapply obeys_bind with (P := any); [|intros _ _; obey].
    case_decide; [|obey]. eapply obeys_bind; [apply obeys_byte; lia|]. intros b _. obey. }
  intros _ _. obey1. eapply obeys_bind with (P := any); [|intros _ _; obey].
  apply obeys_for_each. intros i Hi%elem_of_seq. unfold char_cell.
  eapply obeys_bind; [apply obeys_byte; lia|]. intros b _. obey.
Qed.
Lemma obeys_hexdump t args : dump_inside args → obeys (D := D) t (cmd_hexdump (args !! 0%nat) (args !! 1%nat)) any.
Proof.
  intros Hin. unfold cmd_hexdump, dump_inside in *. cbv zeta in *.
  set (addr := default 0 _) in *. set (len := default 128 _) in *.
  assert (0 ≤ addr) as Ha.
  { unfold addr. destruct (args !! 0%nat) as [s|]; cbn; [|done]. unfold parse_hex.
    destruct (from_str_radix 16 32 _) as [n|] eqn:E; cbn; [|done]. by apply from_str_radix_fits in E as []. }
  assert (0 ≤ len) as Hl.
  { unfold len. destruct (args !! 1%nat) as [s|]; cbn; [|done].
    destruct (parse_uint 64 s) as [n|] eqn:E; cbn; [|done]. by apply from_str_radix_fits in E as []. }
  destruct (decide (len = 0 ∨ 4096 < len)) as [|Hlen]; [apply obeys_println|].
  apply obeys_for_each. intros off (i & -> & Hi%elem_of_seq)%list_elem_of_fmap.
  apply obeys_dump_line; [done|lia|].
  assert ((Z.to_nat len + 15) / 16 * 16 ≤ Z.to_nat len + 15)%nat by (pose proof (Nat.Div0.mul_div_le (Z.to_nat len + 15) 16); lia).
  lia.
Qed.
Lemma obeys_calc t line : obeys (D := D) t (cmd_calc line) any.
Proof.
  unfold cmd_calc. destruct (strip_prefix _ line) as [e|]; [|by apply obeys_ret]. cbv zeta.
  case_decide; [apply obeys_println|]. eapply obeys_bind; [apply obeys_lift, eval_total|]. intros r _. obey.
Qed.

Lemma obeys_arg t args u (f : str → KM D unit) : (∀ a, obeys t (f a) any) → obeys t (with_arg args u f) any.
Proof. intros Hf. destruct args; [apply obeys_println|apply Hf]. Qed.
Lemma obeys_two t args u (f : str → str → KM D unit) : (∀ a b, obeys t (f a b) any) → obeys t (with_two args u f) any.
Proof. intros Hf. destruct args as [|a [|b l]]; [apply obeys_println..|apply Hf]. Qed.
End commands.

#[export] Hint Resolve obeys_arg obeys_two : obeys.
#[export] Hint Resolve obeys_help obeys_ls obeys_touch obeys_write obeys_cat obeys_rm obeys_cp obeys_mv obeys_mem
  obeys_free obeys_lspci obeys_ifconfig obeys_cpuinfo obeys_netinfo obeys_calc obeys_arpwhois obeys_looptest obeys_regs
  obeys_spawn obeys_ps obeys_shutdown obeys_uptime obeys_dhcp obeys_env obeys_ping obeys_tcplisten obeys_tcpconnect
  obeys_tcpsend obeys_tcprecv obeys_tcpclose obeys_tcpstat obeys_fb obeys_httpget : obeys.

(** One test of the chain in [execute], and whether the command waits. *)
Ltac command :=
  match goal with |- judged _ (if decide (?c = ?s) then _ else _) _ _ => destruct (decide (c = s)) as [->|] end.
Ltac waiting :=
  match goal with |- context [negb (waits ?c)] =>
    let b := eval vm_compute in (negb (waits c)) in replace (negb (waits c)) with b by (by vm_compute) end.

Section loop.
Context {D : Type} `{MachineOk D}.
Implicit Types (k : Kernel D).

Lemma obeys_at t (m : KM D unit) k : obeys t m (λ _, True) → kernel_ok k →
  judged t m (λ _ k', kernel_ok k' ∧ True) k.
Proof. intros Hm Hk. by apply Hm. Qed.

Lemma execute_ok fuel line cmd args k : kernel_ok k → permitted k cmd args →
  judged (negb (waits cmd)) (execute fuel line cmd args) (λ _ k', kernel_ok k' ∧ True) k.
Proof.
  intros Hk [Hp He Hd He3]. unfold execute. cbv zeta.
  repeat (command; [try done; waiting; first
    [ apply ext3ls_ok; [done|]; apply He3; by left
    | apply ext3info_ok; [done|]; apply He3; by right; right
    | apply obeys_at; [|exact Hk]; first
      [ solve [eauto 4 with obeys] | by apply obeys_hexdump, Hd | by apply (obeys_screen _ ClearScreen) ]
    | destruct args as [|path args]; [apply obeys_at; [apply obeys_println|exact Hk]|];
      apply ext3cat_ok; [done|]; apply He3; by right; left ]|]).
  apply obeys_at; [apply obeys_println|exact Hk].
Qed.

(** The first word of a line and the others. *)
Definition command_of (line : str) : option (str * list str) :=
  match split_whitespace (trim line) with [] => None | cmd :: args => Some (cmd, args) end.
Definition line_permitted k (line : str) : Prop :=
  match command_of line with Some (cmd, args) => permitted k cmd args | None => True end.
Definition line_waits (line : str) : bool :=
  match command_of line with Some (cmd, _) => waits cmd | None => false end.

Lemma dispatch_ok fuel line k : kernel_ok k → line_permitted k line →
  judged (negb (line_waits line)) (dispatch fuel line) (λ _ k', kernel_ok k' ∧ True) k.
Proof.
  intros Hk Hp. unfold dispatch, line_permitted, line_waits, command_of in *. cbv zeta.
  case_decide as E; [by apply judged_ret|].
  destruct (split_whitespace (trim line)) as [|cmd args]; [by apply judged_ret|]. by apply execute_ok.
Qed.
End loop.

(** C2: no command line panics.  From a kernel in order, for every line whose
    command is not one of the exceptions ([panic] and [edit], a dump of memory
    that is not mapped, an ext3 command on a disk whose superblock divides by
    zero): [dispatch] does not panic, whatever the devices answer and however long
    it waits, and leaves the kernel in order; and it returns, unless the command is
    one of the six that wait for the network or halt. *)
Theorem commands_never_panic {D} `{MachineOk D} fuel line (k : Kernel D) : kernel_ok k → line_permitted k line →
  safe (dispatch fuel line) (λ _ k', kernel_ok k') k ∧
  (line_waits line = false → wp (dispatch fuel line) (λ _ k', kernel_ok k') k).
Proof.
  intros Hk Hp. pose proof (dispatch_ok fuel line k Hk Hp) as Hd.
  assert (judged (negb (line_waits line)) (dispatch fuel line) (λ _ k', kernel_ok k') k) as Hj
    by (eapply judged_mono; [exact Hd|]; by intros [] k' []).
  split; [|by intros E; rewrite E in Hj]. destruct (line_waits line); [exact Hj|by apply wp_safe].
Qed.

(** ** The loop *)

Section prompt.
Context {D : Type} `{MachineOk D}.
Abbreviation any := (λ _, True).
Implicit Types (k : Kernel D).

(** The history and the line belong together (Shell.v). *)
Definition input_ok (i : Input) : Prop := ∃ s, shows (hist i) (typed i) s.

Lemma obeys_mouse ev : obeys (D := D) false (on_mouse ev) any.
Proof.
  destruct ev; try by apply obeys_ret. cbn [on_mouse]. case_decide.
  - apply (obeys_screen _ (ScrollDisplayDown _)). cbn. lia.
  - apply (obeys_screen _ (ScrollDisplayUp _)). by apply (wrap_fits 64).
Qed.
Lemma mouse_events_safe fuel : obeys (D := D) false (mouse_events fuel) any.
Proof.
  induction fuel as [|fuel IH]; cbn [mouse_events]; [by intros k Hk|].
  eapply obeys_bind with (P := any).
  { eapply obeys_any, obeys_answers. intros d. apply pop_mouse_ok. }
  intros [ev|] _; [|by apply obeys_ret]. eapply obeys_bind; [apply obeys_mouse|]. intros _ _. exact IH.
Qed.
Lemma obeys_poll_char : obeys (D := D) false (on_serial poll_char) any.
Proof.
  apply obeys_wp. intros k Hk. apply wp_zoom. eapply wp_mono; [apply poll_char_spec|].
  intros r [b d] _. split; [by apply (ok_machine d)|done].
Qed.

Lemma round_safe fuel h l : input_ok (mkInput false h l) → obeys (D := D) false (round fuel h l) input_ok.
Proof.
  intros [s Hs]. cbn [hist typed] in Hs. unfold round. eapply obeys_bind; [apply obeys_key|]. intros ev _.
  apply obeys_bind with (P := input_ok).
  { destruct ev as [ev|]; [|apply obeys_ret; by exists s]. apply obeys_draws.
    eapply draws_mono; [by apply draws_key|]. intros i [_ Hi]. by eexists. }
  intros i Hi. destruct (finished i); [by apply obeys_ret|].
  eapply obeys_bind; [apply obeys_poll_char|]. intros byte _. apply obeys_bind with (P := input_ok).
  { destruct byte as [b|]; [|by apply obeys_ret]. destruct Hi as [s1 Hs1]. apply obeys_draws.
    eapply draws_mono; [by apply draws_byte|]. intros i' [_ Hi']. by eexists. }
  clear i Hi. intros i Hi. destruct (finished i); [by apply obeys_ret|].
  eapply obeys_bind; [apply mouse_events_safe|]. intros _ _. obey.
Qed.
Lemma read_line_safe rounds fuel h l : input_ok (mkInput false h l) →
  obeys (D := D) false (read_line rounds fuel h l) input_ok.
Proof.
  revert h l. induction rounds as [|rounds IH]; intros h l Hi; cbn [read_line]; [by intros k Hk|].
  eapply obeys_bind; [by apply round_safe|]. intros i Hi'. destruct (finished i); [by apply obeys_ret|]. by apply IH.
Qed.

Lemma line_text_done i : input_ok i → ∃ t, line_text (typed i) = Done t.
Proof.
  intros [s Hs]. unfold line_text. rewrite slice_take; [by eexists|]. destruct Hs. lia.
Qed.
Lemma submit_safe fuel h t k : kernel_ok k → history_wf h → line_permitted k t →
  safe (submit fuel h t) (λ h' k', kernel_ok k' ∧ history_wf h') k.
Proof.
  intros Hk Hh Hp. unfold submit. case_decide; [by apply safe_ret|]. destruct (acceptable t).
  - apply safe_bind. pose proof (dispatch_ok fuel t k Hk Hp) as Hd.
    eapply safe_mono; [destruct (line_waits t); [exact Hd|by apply wp_safe]|].
    intros [] k' [Hk' _]. apply safe_ret. split; [done|by apply push_wf].
  - apply (obeys_bind false _ _ any (λ h' : History, history_wf h')) with (k := k); [apply obeys_println| |done].
    intros _ _. by apply obeys_ret.
Qed.

(** Reading the next line at the prompt. *)
Definition ask (rounds fuel : nat) (h : History) : KM D (History * str) :=
  print [txt "kernel> "];; i ← read_line rounds fuel h empty_line; t ← lift (line_text (typed i)); mret (hist i, t).
Lemma ask_safe rounds fuel h : history_wf h → obeys false (ask rounds fuel h) (λ x, history_wf x.1).
Proof.
  intros Hh. unfold ask. eapply obeys_bind; [apply obeys_print|]. intros _ _.
  eapply obeys_bind; [apply read_line_safe|].
  { exists (mkSession [] (newest_first h) (back h)). split; [done|done|cbn; lia|done..]. }
  intros i Hi. eapply obeys_bind with (P := any).
  { apply obeys_lift. by destruct (line_text_done i Hi) as [t ->]. }
  intros t _. apply obeys_ret. by destruct Hi as [s []].
Qed.
Lemma prompt_eq rounds fuel h (k : Kernel D) :
  prompt rounds fuel h k = ('(h, t) ← ask rounds fuel h; submit fuel h t) k.
Proof.
  unfold prompt, ask, mbind, st_bind. destruct (print _ k) as [[[] k1]| |]; [|done..].
  destruct (read_line rounds fuel h empty_line k1) as [[i k2]| |]; [|done..]. unfold lift, mret, st_ret.
  by destruct (line_text (typed i)).
Qed.

(** A round of the shell in which the line read is not one of the exceptions. *)
Inductive shell_round : History * Kernel D → History * Kernel D → Prop :=
  | one_round rounds fuel h k h1 t k1 h2 k2 : ask rounds fuel h k = Done ((h1, t), k1) → line_permitted k1 t →
      submit fuel h1 t k1 = Done (h2, k2) → shell_round (h, k) (h2, k2).

Lemma rounds_keep h0 k0 h k : rtc shell_round (h0, k0) (h, k) → history_wf h0 → kernel_ok k0 →
  history_wf h ∧ kernel_ok k.
Proof.
  intros Hr Hh Hk. remember (h0, k0) as x0 eqn:E0. remember (h, k) as x eqn:E.
  assert (history_wf x.1 ∧ kernel_ok x.2); [|by subst x].
  assert (history_wf x0.1 ∧ kernel_ok x0.2) as Hx0 by by subst.
  clear Hh Hk E0 E. induction Hr as [|x0 x1 x2 Hstep _ IH]; [done|]. apply IH.
  destruct Hstep as [r f ha ka h1 t k1 h2 k2 Ha Hp Hs]. destruct Hx0 as [Hha Hka].
  pose proof (ask_safe r f ha Hha ka Hka) as H1. unfold judged, safe in H1. rewrite Ha in H1. destruct H1 as [Hk1 Hh1].
  pose proof (submit_safe f h1 t k1 Hk1 Hh1 Hp) as H2. unfold safe in H2. rewrite Hs in H2. cbn. tauto.
Qed.
End prompt.

