(* ===== verification/ShellChecks.v ===== *)
(** * The shell on the simulated machine

    The theorems of ShellLoop.v at concrete kernels, lines and keys. *)
From stdpp Require Import strings.
From S2P Require Import Prelude Words Str Fmt Hardware Scheduler Paging Heap Keyboard Ramfs Net Tcp TcpConnProps TcpSpec TcpTable.
From S2P Require Import VgaProps Vga Kernel Simulator Shell ShellFiles ShellInfo ShellNet ShellRun ShellSafe ShellProps ShellLoop.
Local Open Scope Z_scope.
Local Open Scope list_scope.

Lemma sim_kernel_ok keys : kernel_ok (sim_kernel keys []).
Proof.
  split.
  - exact boot_screen_wf.
  - constructor.
  - apply boot_wf. by split.
  - constructor; [done|unfold MAX_TASKS; simpl; lia|done|].
    intros i. by do 8 (destruct i as [|i]; [done|]).
  - exact zeroed_wf.
  - exact Logic.I.
Qed.

(** An ordinary command of one word. *)
Lemma plain_permitted (k : Kernel SimMachine) line cmd args : command_of line = Some (cmd, args) →
  forallb (λ c, bool_decide (cmd ≠ c)) [txt "panic"; txt "edit"; txt "hexdump"; txt "ext3ls"; txt "ext3cat"; txt "ext3info"] = true →
  line_permitted k line.
Proof.
  intros E Hc. unfold line_permitted. rewrite E. cbn [forallb] in Hc.
  rewrite !andb_true_iff, !bool_decide_eq_true in Hc. destruct Hc as (H1 & H2 & H3 & H4 & H5 & H6 & _).
  split; [done|done|done|]. intros [?|[?|?]]; done.
Qed.

Lemma commands_never_panic_witness :
  wp (dispatch 3 (txt "  spawn  counter ")) (λ _ k', kernel_ok k') (sim_kernel [] []) ∧
  safe (dispatch 3 (txt "ping 10.0.2.2")) (λ _ k', kernel_ok k') (sim_kernel [] []).
Proof.
  split.
  - refine (proj2 (commands_never_panic 3 (txt "  spawn  counter ") (sim_kernel [] []) (sim_kernel_ok []) _) _).
    + eapply plain_permitted; by vm_compute.
    + by vm_compute.
  - refine (proj1 (commands_never_panic 3 (txt "ping 10.0.2.2") (sim_kernel [] []) (sim_kernel_ok []) _)).
    eapply plain_permitted; by vm_compute.
Defined.

(** "touch a" is typed, a line is made and executed. *)
Definition touch_keys : list (option KeyEvent) :=
  (λ c, Some (Char c)) <$> txt "touch a" ++ [98] .
Definition touch_kernel : Kernel SimMachine := sim_kernel (touch_keys ++ [Some Keyboard.Backspace; Some Enter]) [].
Definition touched (x : outcome ((History * str) * Kernel SimMachine)) : bool :=
  match x with
  | Done ((h, t), k) =>
      bool_decide (t = txt "touch a") &&
      match submit 2 h t k with
      | Done (h2, k2) => bool_decide (items h2 = [txt "touch a"]) && bool_decide (ram_files (files k2) = {[ [97] := [] ]})
      | _ => false
      end
  | _ => false
  end.
