(* ===== verification/Main.v ===== *)
(** * Starting the kernel (src/src/main.rs)

    [kernel_init] is [kernel_main] up to the call of the shell, with the
    initialisation functions of the drivers and their log lines; [panic] and
    [alloc_error] are the handlers.  [boot_enters_shell] says that the shell is
    entered with the kernel in order. *)
From stdpp Require Import strings.
From S2P Require Import Prelude Words Str Fmt Hardware Scheduler Memory Heap HeapProps Descriptors Interrupts Pci Mouse Keyboard.
From S2P Require Import Disk Ata Ext3 Ext3Read Ext3Props Vfs Ramfs Packets Dhcp Paging Net Rtl8139 Tcp TcpConnProps TcpSpec TcpTable Rtc Cpu Serial.
From S2P Require Import VgaProps Vga Framebuffer Kernel Shell ShellFiles ShellInfo ShellNet ShellRun ShellSafe ShellProps ShellLoop.
Local Open Scope Z_scope.
Local Open Scope list_scope.

(** ** The state during start-up

    The static variables of the drivers are part of the machine; the addresses
    of the other statics and of the stubs are the linker's choice. *)
Class Drivers (D : Type) `{Machine D} := {
  driver_memory :: NicMemory D;
  rtl : D → Rtl; set_rtl : Rtl → D → D;
  mouse : D → Mouse; set_mouse : Mouse → D → D;
  ata_ready : D → bool; set_ata_ready : bool → D → D;
  reset_fuel : nat;    (* polls while the card resets *)
}.
Class Image := {
  tss_address : Z; gdt_address : Z; df_stack_top : Z; idt_address : Z;
  stub_address : stub → Z;
  heap_address : Z;
}.

(** What the instructions [lgdt], [ltr], [lidt], [sti] and the tables in memory
    make of the processor. *)
Record Processor := mkProcessor {
  tables : TaskStateSegment * GdtStruct;
  segments : Segments;
  gates : list IdtEntry;
  idtr : TablePointer;
  interrupts : bool;
}.
Record System (D : Type) := mkSystem { kernel : Kernel D; processor : Processor }.
Arguments mkSystem {D}.
Arguments kernel {D}.
Arguments processor {D}.

Section code.
Context {D : Type} `{Drivers D} `{Image}.
Abbreviation K := (KM D).
Abbreviation S := (ST (System D)).

Definition on_kernel {A} (m : K A) : S A := zoom kernel (λ k s, mkSystem k (processor s)) m.
Definition on_processor (f : Processor → Processor) : S unit := modify (λ s, mkSystem (kernel s) (f (processor s))).
Definition on_heap {A} (m : heapM A) : K A := zoom heap set_heap m.
Definition on_nic {A} (m : ST (Rtl * D) A) : K A :=
  on_machine (zoom (λ d, (rtl d, d)) (λ x d, set_rtl x.1 x.2) m).

(** ** The initialisation functions *)

Definition set_serial (i : bool) (k : Kernel D) : Kernel D :=
  mkKernel (screen k) (files k) (stack k) (mounted k) (tasks k) (heap k) (page_frames k) i (console k).
Definition serial_init : K unit :=
  zoom (λ k, (serial_ready k, machine k)) (λ x k, set_serial x.1 (with_machine x.2 k)) Serial.init.

Definition load_gdt (p : Processor) : Processor :=
  let '(tss, gdt, segs) := gdt_init tss_address gdt_address df_stack_top in
  mkProcessor (tss, gdt) segs (gates p) (idtr p) (interrupts p).
Definition load_idt (p : Processor) : Processor :=
  let '(idt, ptr) := idt_init stub_address idt_address in
  mkProcessor (tables p) (segments p) idt ptr (interrupts p).
Definition enable_interrupts (p : Processor) : Processor :=
  mkProcessor (tables p) (segments p) (gates p) (idtr p) true.

Definition memory_init_heap : K unit := on_heap (modify (Heap.init heap_address HEAP_SIZE)).

Definition mouse_init : K unit :=
  config ← on_machine read_configuration;
  if decide (Z.land config 0x20 ≠ 0) then
    log Info [txt "Mouse: still disabled (cfg=0x"; hex2 config; txt ")"]
  else
    device_id ← on_machine identify;
    on_machine (modify (λ d, set_mouse (enable device_id (mouse d)) d));;
    log Info [txt "Mouse: ID=0x"; hex2 device_id].

(** [v.push(42u8)] on a new vector allocates room for eight bytes; the vector
    is dropped at the end of the block. *)
Definition heap_test : K unit :=
  p ← on_heap (global_alloc (mkLayout 8 1));
  if decide (p = 0) then lift Panic else
  on_heap (modify (λ h, set_mem (<[p := 42]> (mem h)) h));;
  v ← gets (λ k, read8 (mem (heap k)) p);
  println [txt "Heap alloc test: OK ("; dec v; txt ")"];;
  on_heap (global_dealloc p (mkLayout 8 1)).

Definition rtl8139_init (io_base : Z) : K (list Z) :=
  on_nic (set_vars (λ v, mkRtl (INITIALIZED v) io_base (TX_DESC v)));;
  log Info [txt "RTL8139 init at I/O base 0x"; hex4 io_base];;
  mac ← on_machine (reset_card reset_fuel io_base);
  log Debug (txt "RTL8139 MAC: " :: mac_text mac);;
  on_machine (start_card io_base);;
  on_nic (set_vars (λ v, mkRtl true (IO_BASE v) (TX_DESC v)));;
  on_machine (acknowledge io_base);;
  mret mac.

(** The status for the card found. *)
Definition choose_driver (p : PciDevice) : K NetStatus :=
  if decide (Pci.vendor_id p = 0x8086) then
    mret (mkStatus E1000 false e1000_default_mac (Some p))
  else if decide (Pci.vendor_id p = 0x10EC ∧ Pci.device_id p = 0x8139) then
    on_machine (enable_bus_mastering p);;
    bar0 ← on_machine (read_bar p 0);
    let io_base := wrap 16 (Z.land bar0 (wnot 32 0x3)) in
    mac ← rtl8139_init io_base;
    mret (mkStatus Rtl8139 true mac (Some p))
  else mret (mkStatus NicNone false (replicate 6 0) (Some p)).
Definition net_init : K unit :=
  found ← on_machine find_network_on_bus0;
  match found with
  | None => log Warn [txt "No network controller found on PCI bus 0"]
  | Some p =>
      log Info [txt "PCI: "; hex4 (Pci.vendor_id p); txt ":"; hex4 (Pci.device_id p); txt " class=";
        hex2 (Pci.class p); txt " subclass="; hex2 (Pci.subclass p)];;
      status ← choose_driver p;
      on_stack (on_network (modify (λ n, mkNet (NET_CFG n) status (dev n))))
  end.

Definition ata_init : K unit :=
  ready ← gets (λ k, ata_ready (machine k));
  if ready : bool then mret tt else
  status ← on_machine (inb Ata.STATUS);
  if decide (status = 0xFF) then log Warn [txt "ATA: no drive (status=0xFF)"]
  else
    on_machine (modify (set_ata_ready true));;
    log Info [txt "ATA: drive ready (status=0x"; hex2 status; txt ")"].

Definition fallback_config : NetConfig :=
  mkConfig [10; 0; 2; 15] [255; 255; 255; 0] [10; 0; 2; 2] [8; 8; 8; 8].
(** The configuration used until DHCP has found one. *)
Definition configure_network : K unit :=
  net_status ← on_stack (on_network status);
  if decide (kind net_status ≠ NicNone) then
    println [txt "Network available. Use 'dhcp' command to configure."];;
    on_stack (on_network (set_config fallback_config))
  else mret tt.

Definition scheduler_init : K unit :=
  on_tasks Scheduler.init;;
  log Info [txt "Scheduler: idle=0, "; dec (Z.of_nat MAX_TASKS - 1); txt " slots free"].

Definition kernel_init : S unit :=
  on_kernel serial_init;;
  on_processor load_gdt;;
  on_processor load_idt;;
  on_kernel (on_machine init_pic);;
  on_kernel (on_machine timer_init);;
  on_kernel memory_init_heap;;
  on_kernel (on_frames Paging.init);;
  on_kernel (on_screen Vga.init);;
  on_kernel mouse_init;;
  on_kernel (greenln [txt "Rust Kernel (x86_64) - boot OK"]);;
  on_kernel (println [txt "Heap: "; dec (HEAP_SIZE / 1024); txt " KiB"]);;
  on_kernel heap_test;;
  on_kernel net_init;;
  on_kernel (println [txt "Network init: OK"]);;
  on_kernel ata_init;;
  on_kernel configure_network;;
  on_kernel scheduler_init;;
  on_processor enable_interrupts;;
  on_kernel (println [txt "Interrupts enabled"]);;
  on_kernel (println [txt "Type 'help' for commands."]).
Definition kernel_main (n rounds fuel : nat) : S unit := kernel_init;; on_kernel (run n rounds fuel History_new).
End code.

(** ** Panics

    [load] is memory as the page tables show it, [rbp] the frame pointer. *)
Section panic.
Context {D : Type} `{Machine D} (load : Z → option Z) (rbp : Z).
Abbreviation K := (KM D).

Definition stack_trace : K unit :=
  lines ← lift (print_stack_trace load rbp);
  for_each lines (λ pieces, on_serial (Serial.write_fmt uart_fuel pieces)).

Definition panic_banner : vgaM unit :=
  set_color White Red;;
  clear_screen;;
  write_at 2 30 (txt "KERNEL PANIC");;
  set_color LightGray Black.

(** A source file and a line. *)
Definition place (before : str) (loc : str * Z) : list str := [before; loc.1; txt ":"; dec loc.2].
Definition screen_message (info : str) (location : option (str * Z)) : vgaM unit :=
  Vga.write_fmt [[10]; info; [10]];;
  match location with Some loc => Vga.write_fmt (place (txt "at ") loc ++ [[10]]) | None => mret tt end.
(** [panic] before it halts: [info] is the text of the panic. *)
Definition panic_report (info : str) (location : option (str * Z)) : K unit :=
  println [txt "KERNEL PANIC: "; info];;
  (match location with Some loc => println (place (txt "  at ") loc) | None => mret tt end);;
  stack_trace;;
  on_screen panic_banner;;
  on_screen (screen_message info location).
Definition panic (fuel : nat) (info : str) (location : option (str * Z)) : K unit :=
  panic_report info location;; halt fuel.

Definition alloc_report (layout : Layout) : K unit :=
  h ← gets (λ k, heap_stats (heap k));
  println [txt "ALLOC FAILED: size="; dec (Heap.size layout); txt " align="; dec (Heap.align layout); txt " heap: ";
    dec h.1; txt "/"; dec HEAP_SIZE];;
  dump_stats;;
  stack_trace;;
  on_screen panic_banner;;
  on_screen (Vga.write_fmt [[10]; txt "Allocation failed!"; [10]]);;
  on_screen (Vga.write_fmt [txt "Size: "; dec (Heap.size layout); txt " bytes, Align: "; dec (Heap.align layout); [10]]);;
  on_screen (Vga.write_fmt [txt "Heap: "; dec h.1; txt "/"; dec HEAP_SIZE; txt " bytes used"; [10]]).
Definition alloc_error (fuel : nat) (layout : Layout) : K unit := alloc_report layout;; halt fuel.

End panic.

(** ** What start-up relies on

    The card ends its reset and its base address register holds the port where
    it answers.  The linker puts the heap below 2^62, page-aligned. *)
Class DriversOk (D : Type) `{Drivers D} `{!MachineOk D} := {
  reset_wait : D → nat;
  reset_bounded (d : D) : (reset_wait d < reset_fuel)%nat;
  reset_law (d : D) : wp (inb (reg nic_io CR)) (λ v d', Z.land v CR_RST ≠ 0 → (reset_wait d' < reset_wait d)%nat) d;
  bar_law p (d : D) : Pci.vendor_id p = 0x10EC → Pci.device_id p = 0x8139 →
    wp (read_bar p 0) (λ v _, wrap 16 (Z.land v (wnot 32 0x3)) = nic_io) d;
}.
Class ImageOk `{Image} := {
  heap_address_ok : 0 < heap_address ∧ heap_address + HEAP_SIZE ≤ 2 ^ 62 ∧ (4096 | heap_address);
}.

(** The kernel as the boot loader leaves it: [text] is what video memory
    contains, [m] the heap's memory. *)
Definition at_boot {D} (text : list Z) (m : memory) (d : D) : Kernel D :=
  mkKernel (mkVga text 0 0 7 None ScrollbackBuffer_new []) (mkRamFs [])
    (TcpTable.boot (mkNet None (mkStatus NicNone false (replicate 6 0) None) d))
    None Scheduler.boot (BucketAllocator_new m) Paging.zeroed false None.

(** ** Proofs

    [like k0 k]: [k] is [k0] but for the machine and what is on the screen. *)
Record like {D} (k0 k : Kernel D) : Prop := {
  like_files : files k = files k0;
  like_conns : CONNS (stack k) = CONNS (stack k0);
  like_cfg : NET_CFG (net (stack k)) = NET_CFG (net (stack k0));
  like_nic : NET (net (stack k)) = NET (net (stack k0));
  like_mounted : mounted k = mounted k0;
  like_tasks : tasks k = tasks k0;
  like_heap : heap k = heap k0;
  like_frames : page_frames k = page_frames k0;
  like_serial : serial_ready k = serial_ready k0;
  like_console : console k = console k0;
  like_screen : VgaProps.wf (screen k);
}.

Section steps.
Context {D : Type} `{DriversOk D} `{ImageOk}.
Abbreviation any := (λ _, True).
Implicit Types k : Kernel D.

Lemma like_output k0 k k' : output_only k k' → VgaProps.wf (screen k') → like k0 k → like k0 k'.
Proof. intros [E _] W [? ? ? ? ? ? ? ? ? ? _]. split; [rewrite E; done..|done]. Qed.

Lemma like_draws {A} (m : KM D A) P (Q : A → Kernel D → Prop) k0 k : draws m P → like k0 k →
  (∀ a k', P a → like k0 k' → Q a k') → wp m Q k.
Proof.
  intros Hm Hk HQ. eapply wp_mono; [apply Hm, Hk|]. intros a k' (O & W & Ha).
  apply HQ; [done|]. by eapply like_output.
Qed.
(** Changing one part on both sides. *)
Lemma like_set_heap h k0 k : like k0 k → like (set_heap h k0) (set_heap h k).
Proof. intros []. by split. Qed.
Lemma like_set_frames f k0 k : like k0 k → like (set_frames f k0) (set_frames f k).
Proof. intros []. by split. Qed.
Lemma like_set_tasks s k0 k : like k0 k → like (set_tasks s k0) (set_tasks s k).
Proof. intros []. by split. Qed.

(** Accesses to the machine draw nothing. *)
Lemma draws_machine {A} (m : ST D A) (P : A → Prop) : answers m P → draws (on_machine m) P.
Proof.
  intros Hm k Hk. apply wp_on_machine. eapply wp_mono; [apply Hm|]. intros a d Ha.
  split; [apply machine_output|done].
Qed.
Lemma draws_log level args : draws (D := D) (log level args) any.
Proof.
  unfold log. eapply draws_then; [by apply (draws_call (D := D) (WriteFmt _))|]. intros _ _.
  eapply draws_then; [apply draws_machine, answers_rtc|]. intros t _.
  eapply draws_then with (P := any).
  { apply draws_machine. intros d. unfold elapsed. apply wp_bind. eapply wp_mono; [apply millis_ok|].
    intros x d' _. by apply wp_ret. }
  intros [sec ms] _ k Hk. apply serial_ok. intros d. split; [apply machine_output|done].
Qed.
Lemma draws_greenln pieces : draws (D := D) (greenln pieces) any.
Proof.
  unfold greenln, coloured. eapply draws_then; [by apply (draws_call (D := D) (SetColor _ _))|]. intros _ _.
  eapply draws_then; [apply draws_println|]. intros _ _. by apply (draws_call (D := D) (SetColor _ _)).
Qed.
(** ** The drivers' initialisation *)

Lemma answers_find n slot : answers (D := D) (find_from n slot) any.
Proof.
  revert slot. induction n as [|n IH]; intros slot; cbn [find_from]; [by apply answers_ret|].
  eapply answers_bind; [apply answers_probe|]. intros [p|] _; [|apply IH]. case_match; [by apply answers_ret|apply IH].
Qed.
Lemma answers_wait_write n : answers (D := D) (Mouse.wait_write n) any.
Proof.
  induction n as [|n IH]; cbn [Mouse.wait_write]; [by apply answers_ret|]. answer.
Qed.
Lemma answers_try_read n : answers (D := D) (try_read n) any.
Proof. induction n as [|n IH]; cbn [try_read]; [by apply answers_ret|]. answer. Qed.
Lemma answers_outw p v : answers (D := D) (outw p v) any.
Proof. intros d. apply outw_ok. Qed.
#[local] Hint Resolve answers_outw : answers.
(** The number of polls is never computed. *)
Lemma answers_command b : answers (D := D) (write_command b) any.
Proof. eapply answers_bind; [apply answers_wait_write|]. intros _ _. eapply answers_any, answers_outb. Qed.
Lemma answers_data b : answers (D := D) (Mouse.write_data b) any.
Proof. eapply answers_bind; [apply answers_wait_write|]. intros _ _. eapply answers_any, answers_outb. Qed.
Lemma answers_mouse_write b : answers (D := D) (mouse_write b) any.
Proof.
  eapply answers_bind; [apply answers_command|]. intros _ _.
  eapply answers_bind; [apply answers_data|]. intros _ _. apply answers_try_read.
Qed.
Lemma answers_default (m : ST D (option Z)) : answers m any → answers (r ← m; mret (default 0 r)) any.
Proof. intros Hm. eapply answers_bind; [exact Hm|]. intros r _. by apply answers_ret. Qed.
Lemma answers_configuration : answers (D := D) read_configuration any.
Proof.
  do 2 (eapply answers_bind; [apply answers_command|]; intros _ _). apply answers_default, answers_try_read.
Qed.
Lemma answers_rates l : answers (D := D) (set_rates l) any.
Proof.
  induction l as [|r l IH]; cbn [set_rates]; [by apply answers_ret|].
  do 2 (eapply answers_bind; [apply answers_mouse_write|]; intros _ _). exact IH.
Qed.
Lemma answers_identify : answers (D := D) identify any.
Proof.
  eapply answers_bind; [apply answers_mouse_write|]. intros _ _.
  eapply answers_bind; [apply answers_rates|]. intros _ _.
  eapply answers_bind; [apply answers_mouse_write|]. intros _ _. apply answers_default, answers_try_read.
Qed.
Lemma answers_reset : answers (D := D) (reset_card reset_fuel nic_io) (λ mac, length mac = 6%nat).
Proof.
  unfold reset_card. eapply answers_bind; [apply answers_outb|]. intros _ _.
  eapply answers_bind with (P := any).
  - intros d. pose proof (reset_bounded d) as Hb. revert d Hb. generalize reset_fuel.
    intros n. induction n as [|n IH]; intros d Hd; [lia|]. cbn [wait_reset]. apply wp_bind.
    eapply wp_mono; [apply reset_law|]. intros v d' Hv. case_decide; [|by apply wp_ret].
    apply IH. specialize (Hv ltac:(done)). lia.
  - intros _ _. unfold read_mac. answer.
Qed.
Lemma answers_update (f : D → D) : answers (modify f) any.
Proof. intros d. by apply wp_modify. Qed.
Lemma draws_vars f : draws (D := D) (on_nic (set_vars f)) any.
Proof. apply draws_machine. intros d. apply wp_zoom, wp_modify. done. Qed.

Lemma answers_init_pic : answers (D := D) init_pic any.
Proof. unfold init_pic. answer. Qed.
Lemma answers_timer_init : answers (D := D) timer_init any.
Proof. unfold timer_init. answer. Qed.

Lemma draws_mouse_init : draws (D := D) mouse_init any.
Proof.
  unfold mouse_init. eapply draws_then; [apply draws_machine, answers_configuration|]. intros config _.
  case_decide; [apply draws_log|]. eapply draws_then; [apply draws_machine, answers_identify|]. intros id _.
  eapply draws_then; [apply draws_machine, answers_update|]. intros _ _. apply draws_log.
Qed.
Lemma draws_rtl8139_init : draws (D := D) (rtl8139_init nic_io) (λ mac, length mac = 6%nat).
Proof.
  unfold rtl8139_init. eapply draws_then; [apply draws_vars|]. intros _ _.
  eapply draws_then; [apply draws_log|]. intros _ _.
  eapply draws_then; [apply draws_machine, answers_reset|]. intros m Hm.
  eapply draws_then; [apply draws_log|]. intros _ _.
  eapply draws_then with (P := any); [apply draws_machine; unfold start_card; answer|]. intros _ _.
  eapply draws_then; [apply draws_vars|]. intros _ _.
  eapply draws_then with (P := any); [apply draws_machine; unfold acknowledge; answer|]. intros _ _.
  by apply draws_done.
Qed.
Lemma answers_bar p : Pci.vendor_id p = 0x10EC → Pci.device_id p = 0x8139 →
  answers (D := D) (read_bar p 0) (λ v, wrap 16 (Z.land v (wnot 32 0x3)) = nic_io).
Proof. intros Hv Hd d. exact (bar_law p d Hv Hd). Qed.
Lemma draws_choose p : draws (D := D) (choose_driver p) (λ st, length (mac st) = 6%nat).
Proof.
  unfold choose_driver. case_decide; [by apply draws_done|]. case_decide as Hp; [|by apply draws_done].
  eapply draws_then with (P := any);
    [apply draws_machine; unfold enable_bus_mastering, write_config_dword; answer|]. intros _ _.
  eapply draws_then; [by apply draws_machine, answers_bar; apply Hp|]. intros bar Hbar. cbv beta zeta in *.
  rewrite Hbar. eapply draws_then; [apply draws_rtl8139_init|]. intros m Hm. by apply draws_done.
Qed.
Lemma draws_ata_init : draws (D := D) ata_init any.
Proof.
  unfold ata_init. eapply draws_then with (P := any); [intros k Hk; by apply wp_gets|]. intros ready _.
  destruct ready; [by apply draws_done|]. eapply draws_then; [apply draws_machine, answers_inb|]. intros v _.
  case_decide; [apply draws_log|]. eapply draws_then; [apply draws_machine, answers_update|]. intros _ _. apply draws_log.
Qed.

(** ** The panic handlers return to their halting loop *)

Lemma draws_screen (m : vgaM unit) : keeps true m → draws (D := D) (on_screen m) any.
Proof.
  intros Hm k Hk. apply (wp_on_screen true); [done|done|]. intros v Hv. split; [by apply screen_output|done].
Qed.
Lemma draws_list {A} (l : list A) (f : A → KM D unit) : (∀ x, draws (f x) any) → draws (for_each l f) any.
Proof.
  intros Hf. induction l as [|x l IH]; cbn [for_each]; [by apply draws_done|].
  eapply draws_then; [apply Hf|]. by intros _ _.
Qed.
Lemma keeps_fmt pieces : keeps true (Vga.write_fmt pieces).
Proof. by apply (keeps_weaken false), (keeps_call (WriteFmt pieces)). Qed.
Lemma keeps_banner : keeps true panic_banner.
Proof.
  unfold panic_banner. apply (keeps_bind true); [by apply (keeps_weaken false), (keeps_call (SetColor _ _))|].
  apply (keeps_bind true); [by apply (keeps_weaken false), (keeps_call ClearScreen)|].
  apply (keeps_bind true); [by apply (keeps_weaken false), (keeps_call (WriteAt _ _ _))|].
  by apply (keeps_weaken false), (keeps_call (SetColor _ _)).
Qed.
Lemma draws_trace load rbp : (∀ a, 0x100000 ≤ a ≤ 0x800000000000 → a `mod` 8 = 0 → is_Some (load a)) →
  draws (D := D) (stack_trace load rbp) any.
Proof.
  intros Hl. unfold stack_trace. eapply draws_then with (P := any).
  { apply draws_lift. unfold print_stack_trace. apply runs_bind.
    eapply runs_mono; [by apply trace_returns|]. done. }
  intros lines _. apply draws_list. intros l k Hk. apply serial_ok. intros d. split; [apply machine_output|done].
Qed.
(** If the addresses it may follow are mapped, the report of a panic is complete. *)
Lemma panic_reported load rbp info location :
  (∀ a, 0x100000 ≤ a ≤ 0x800000000000 → a `mod` 8 = 0 → is_Some (load a)) →
  draws (D := D) (panic_report load rbp info location) any.
Proof.
  intros Hl. unfold panic_report. eapply draws_then; [apply draws_println|]. intros _ _.
  eapply draws_then with (P := any); [destruct location; [apply draws_println|by apply draws_done]|]. intros _ _.
  eapply draws_then; [by apply draws_trace|]. intros _ _.
  eapply draws_then; [apply draws_screen, keeps_banner|]. intros _ _. apply draws_screen. unfold screen_message.
  apply (keeps_bind true); [apply keeps_fmt|]. destruct location; [apply keeps_fmt|apply keeps_ret].
Qed.

(** ** The heap test *)

Lemma init_buckets_keeps sizes i j current remaining bs m : (j < i)%nat →
  (init_buckets sizes i current remaining bs m).1.1 !! j = bs !! j.
Proof.
  revert i current remaining bs m. induction sizes as [|n sizes IH]; intros i current remaining bs m Hj; [done|].
  cbn [init_buckets]. case_decide; [cbn; by rewrite list_lookup_insert_ne by lia|].
  destruct (Bucket_init _ _ _ _) as [b m'] eqn:E. rewrite IH by lia. by rewrite list_lookup_insert_ne by lia.
Qed.
(** The first bucket starts at the beginning of the heap. *)
Lemma first_bucket start m : start ≠ 0 → served (init_heap start m) (mkLayout 8 1).
Proof.
  intros Hs. unfold served. change (bucket_index (Z.max (Heap.size (mkLayout 8 1)) 8)) with (Some 0%nat). cbv iota.
  unfold init_heap, Heap.init, BUCKET_SIZES.
  set (sizes := [16; 32; 64; 128; 256; 512; 1024; 2048]). cbn [init_buckets].
  rewrite decide_False by (unfold HEAP_SIZE, BLOCKS_PER_BUCKET; lia).
  destruct (Bucket_init _ _ _ _) as [b m1] eqn:E.
  assert (free_list b = start) as Hb.
  { unfold Bucket_init in E. by injection E as <- _. }
  pose proof (init_buckets_keeps sizes 1 0 (wadd 64 start (8 * BLOCKS_PER_BUCKET))
    (HEAP_SIZE - 8 * BLOCKS_PER_BUCKET) (<[0%nat := b]> (buckets (BucketAllocator_new m))) m1 ltac:(lia)) as Hk.
  destruct (init_buckets sizes _ _ _ _ _) as [[bs [cur rem]] m2]. cbn [fst] in Hk.
  exists b. split; [|by rewrite Hb]. case_decide; exact Hk.
Qed.

Lemma heap_test_like F R k0 k : like k0 k → heap_ok heap_address (heap k0) F R [] →
  served (heap k0) (mkLayout 8 1) → wp heap_test (λ _ k', ∃ h F' R', heap_ok heap_address h F' R' [] ∧ like (set_heap h k0) k') k.
Proof.
  intros Hk Hok Hs. unfold heap_test.
  assert (layout_ok (mkLayout 8 1)) as Hl by (split_and!; [done|by exists 0|done]).
  assert (tame (mkLayout 8 1)) as Ht by done.
  destruct (heap_alloc_bucket _ _ _ _ _ (mkLayout 8 1) 0%nat Hok eq_refl Hl Ht Hs) as (p & h1 & F1 & E & Hp & Hok1).
  apply wp_bind, wp_zoom. rewrite (like_heap _ _ Hk). unfold wp at 1. rewrite E. rewrite decide_False by done.
  apply wp_bind, wp_zoom, wp_modify. cbn [heap set_heap].
  set (h2 := set_mem _ h1). apply (heap_client_write _ _ _ _ _ p (mkLayout 8 1) p 42) in Hok1;
    [|by apply list_elem_of_here|cbn; lia]. fold h2 in Hok1.
  apply wp_bind, wp_gets, wp_bind.
  apply (like_draws _ _ _ (set_heap h2 k0) _ (draws_println _)).
  { destruct Hk. by split. }
  intros _ k' _ Hk'. apply wp_zoom. rewrite (like_heap _ _ Hk'). cbn [heap set_heap].
  destruct (heap_dealloc _ _ _ _ _ [] p (mkLayout 8 1) Hok1 ltac:(done)) as (h3 & E3 & F3 & R3 & Hok3).
  unfold wp. rewrite E3. exists h3, F3, R3. split; [done|]. destruct Hk'. by split.
Qed.

(** ** The other steps *)

Lemma serial_like k0 k : like k0 k → wp serial_init (λ _ k', like (set_serial true k0) k') k.
Proof.
  intros Hk. apply wp_zoom. unfold Serial.init. apply wp_bind, wp_zoom.
  assert (answers (D := D) (Hardware.outb (COM1 + 1) 0x00;; Hardware.outb (COM1 + 3) 0x80;; Hardware.outb (COM1 + 0) 0x01;;
    Hardware.outb (COM1 + 1) 0x00;; Hardware.outb (COM1 + 3) 0x03;; Hardware.outb (COM1 + 2) 0xC7;;
    Hardware.outb (COM1 + 4) 0x0B) any) as Ho by answer.
  eapply wp_mono; [apply Ho|]. intros [] d _. apply wp_modify. cbn. destruct Hk. by split.
Qed.
Lemma screen_like k0 k : like k0 k → wp (on_screen Vga.init) (λ _ k', like k0 k') k.
Proof.
  intros Hk. apply (wp_on_screen true); [|apply Hk|].
  - assert (∀ i b, keeps true (write_crtc i b)) as Hc.
    { intros i b. apply (keeps_bind true); apply keeps_outb. }
    unfold Vga.init, init_hardware. apply (keeps_bind true).
    + apply (keeps_bind true); [apply Hc|]. apply (keeps_bind true); [apply Hc|apply keeps_cursor].
    + apply (keeps_bind true); [apply keeps_clear|apply keeps_cursor].
  - intros v Hv. destruct Hk. by split.
Qed.
Lemma init_heap_like m k0 k : like k0 k → heap k0 = BucketAllocator_new m →
  wp memory_init_heap (λ _ k', like (set_heap (init_heap heap_address m) k0) k') k.
Proof.
  intros Hk Hh. apply wp_zoom, wp_modify. rewrite (like_heap _ _ Hk), Hh. by apply like_set_heap.
Qed.
Lemma frames_like k0 k : like k0 k → Paging.wf (page_frames k0) →
  wp (on_frames Paging.init) (λ _ k', ∃ f, Paging.wf f ∧ Paging.INITIALIZED f = true ∧
    (∀ i, in_range i → is_free f i = true) ∧ like (set_frames f k0) k') k.
Proof.
  intros Hk Hf. apply wp_zoom. rewrite (like_frames _ _ Hk). eapply wp_mono; [by apply init_wp|].
  intros [] f (Hw & Hi & Hfree). exists f. split_and!; [done..|]. by apply like_set_frames.
Qed.
Definition set_network (cfg : option NetConfig) (st : NetStatus) k : Kernel D :=
  set_stack (mkTcpState (CONNS (stack k)) (mkNet cfg st (dev (net (stack k))))) k.
Lemma net_like k0 k : like k0 k → length (mac (NET (net (stack k0)))) = 6%nat →
  wp net_init (λ _ k', ∃ st, length (mac st) = 6%nat ∧ like (set_network (NET_CFG (net (stack k0))) st k0) k') k.
Proof.
  intros Hk Hmac. unfold net_init. apply wp_bind.
  apply (like_draws _ _ _ k0 _ (draws_machine _ _ (answers_find 32 0)) Hk). intros found k1 _ Hk1.
  destruct found as [p|]; cycle 1.
  { apply (like_draws _ _ _ k0 _ (draws_log _ _) Hk1). intros _ k2 _ Hk2.
    exists (NET (net (stack k0))). split; [done|]. destruct Hk2. by split. }
  apply wp_bind, (like_draws _ _ _ k0 _ (draws_log _ _) Hk1). intros _ k2 _ Hk2.
  apply wp_bind, (like_draws _ _ _ k0 _ (draws_choose p) Hk2). intros st k3 Hst Hk3.
  apply wp_zoom, wp_zoom, wp_modify. exists st. split; [done|]. destruct Hk3. by split.
Qed.
Definition first_config (st : NetStatus) : option NetConfig :=
  if decide (kind st = NicNone) then None else Some fallback_config.
Lemma configure_like k0 k : like k0 k → NET_CFG (net (stack k0)) = None →
  wp configure_network (λ _ k', like (set_network (first_config (NET (net (stack k0)))) (NET (net (stack k0))) k0) k') k.
Proof.
  intros Hk Hc. unfold configure_network, first_config. apply wp_bind, wp_zoom, wp_zoom, wp_gets.
  cbn [CONNS net NET NET_CFG dev]. rewrite (like_nic _ _ Hk).
  destruct (decide (kind (NET (net (stack k0))) = NicNone)) as [E|E].
  - rewrite decide_False by (intros Hn; by apply Hn). apply wp_ret. destruct Hk. split; cbn; congruence || done.
  - rewrite decide_True by done. apply wp_bind.
    eapply (like_draws _ _ _ k0 _ (draws_println _)); [destruct Hk; by split|]. intros _ k1 _ Hk1.
    apply wp_zoom, wp_zoom, wp_modify. destruct Hk1. by split.
Qed.
Lemma scheduler_like k0 k : like k0 k → tasks k0 = Scheduler.boot →
  wp scheduler_init (λ _ k', like (set_tasks (set_task 0 (Scheduler.with_state Ready Task_new) Scheduler.boot) k0) k') k.
Proof.
  intros Hk Ht. unfold scheduler_init. apply wp_bind, wp_zoom. rewrite (like_tasks _ _ Hk), Ht.
  eapply wp_done; [done|]. eapply (like_draws _ _ _ _ _ (draws_log _ _)); [by apply like_set_tasks|]. by intros.
Qed.

(** ** The state in which the shell is entered *)

Record started (s : System D) : Prop := {
  in_order : kernel_ok (kernel s);
  no_files : file_tree (files (kernel s)) = [];
  no_connections : CONNS (stack (kernel s)) = replicate MAX_CONNS new;
  fallback : NET_CFG (net (stack (kernel s))) = first_config (NET (net (stack (kernel s))));
  one_task : tasks (kernel s) = set_task 0 (Scheduler.with_state Ready Task_new) Scheduler.boot;
  heap_empty : ∃ F R, heap_ok heap_address (heap (kernel s)) F R [];
  frames_free : Paging.INITIALIZED (page_frames (kernel s)) = true ∧
    ∀ i, in_range i → is_free (page_frames (kernel s)) i = true;
  serial_on : serial_ready (kernel s) = true;
  tables_loaded : processor s =
    let '(tss, gdt, segs) := gdt_init tss_address gdt_address df_stack_top in
    let '(idt, ptr) := idt_init stub_address idt_address in mkProcessor (tss, gdt) segs idt ptr true;
}.

Lemma boot_tasks_inv : Scheduler.inv (set_task 0 (Scheduler.with_state Ready Task_new) Scheduler.boot).
Proof.
  constructor; [done|unfold MAX_TASKS; simpl; lia|done|]. intros i. by do 8 (destruct i as [|i]; [done|]).
Qed.
Lemma wf_network st : length (mac st) = 6%nat → ∀ d : D, wf_net (mkNet (first_config st) st d).
Proof. intros Hm d. split; [done|]. unfold first_config. cbn. by case_decide. Qed.

Lemma kernel_started text m (d : D) p st h f k : length (mac st) = 6%nat →
  (∃ F R, heap_ok heap_address h F R []) → Paging.wf f → Paging.INITIALIZED f = true →
  (∀ i, in_range i → is_free f i = true) →
  like (set_tasks (set_task 0 (Scheduler.with_state Ready Task_new) Scheduler.boot)
    (set_network (first_config st) st (set_heap h (set_frames f (set_serial true (at_boot text m d)))))) k →
  started (mkSystem k (enable_interrupts (load_idt (load_gdt p)))).
Proof.
  intros Hm Hh Hw Hi Hf [L1 L2 L3 L4 L5 L6 L7 L8 L9 L10 W].
  cbn in L1, L2, L3, L4, L5, L6, L7, L8, L9, L10.
  split; cbn [kernel processor].
  - split; rewrite ?L1, ?L5, ?L6, ?L8; [done|constructor| |apply boot_tasks_inv|done|done].
    destruct (boot_wf (net (stack k))) as [Wc Wl Wn].
    { destruct (net (stack k)) as [c n d']. cbn in L3, L4. subst c n. by apply wf_network. }
    split; [rewrite L2; exact Wc|rewrite L2; exact Wl|exact Wn].
  - by rewrite L1.
  - by rewrite L2.
  - by rewrite L3, L4.
  - by rewrite L6.
  - by rewrite L7.
  - rewrite L8. done.
  - by rewrite L9.
  - done.
Qed.
Lemma boot_like text m (d : D) : length text = 4000%nat → like (at_boot text m d) (at_boot text m d).
Proof.
  intros Hl. split; [done..|]. cbn [screen at_boot].
  split; cbn [buffer row col deferred scrollback]; [done|lia|lia|done|done|by apply Forall_replicate|done|done].
Qed.
Lemma on_kernel_wp {A} (m : KM D A) (Q : A → System D → Prop) s :
  wp m (λ a k, Q a (mkSystem k (processor s))) (kernel s) → wp (on_kernel m) Q s.
Proof. intros Hm. apply wp_zoom. exact Hm. Qed.
End steps.

(** One step of [kernel_init]. *)
Ltac started_by L := apply wp_bind, on_kernel_wp; cbn [kernel processor]; eapply wp_mono; [apply L|cbv beta].
Ltac drawing L Hk :=
  apply wp_bind, on_kernel_wp; cbn [kernel processor];
  eapply (like_draws _ _ _ _ _ L Hk); clear Hk; intros _ ? _ Hk.

