(* ===== verification/MainChecks.v ===== *)
(** * Starting the simulated machine

    [boot_enters_shell] on a machine with an RTL8139 in slot 3, and what the
    panic screen shows. *)
From stdpp Require Import strings.
From S2P Require Import Prelude Words Str Fmt Hardware Scheduler Memory Heap HeapProps Descriptors Pci Mouse.
From S2P Require Import Disk Paging Net Rtl8139 Tcp Serial VgaProps Vga Kernel Simulator Shell ShellFiles ShellSafe ShellLoop Main.
Local Open Scope Z_scope.
Local Open Scope list_scope.

#[export] Instance sim_nic_memory : NicMemory SimMachine := {
  rx_byte _ m := Done (0, m); tx_fill _ _ m := Done (tt, m);
  rx_addr := 0x300000; tx_addr _ := 0x310000; tx_fuel := 1; nic_io := 0xC000;
}.
#[export] Instance sim_drivers : Drivers SimMachine := {
  rtl m := v_rtl (sim_vars m);
  set_rtl x m := put_vars (mkVars x (v_mouse (sim_vars m)) (v_ata (sim_vars m)) (v_pci (sim_vars m))) m;
  mouse m := v_mouse (sim_vars m);
  set_mouse x m := put_vars (mkVars (v_rtl (sim_vars m)) x (v_ata (sim_vars m)) (v_pci (sim_vars m))) m;
  ata_ready m := v_ata (sim_vars m);
  set_ata_ready x m := put_vars (mkVars (v_rtl (sim_vars m)) (v_mouse (sim_vars m)) x (v_pci (sim_vars m))) m;
  reset_fuel := 1;
}.
#[export] Instance sim_image : Image := {
  tss_address := 0x180000; gdt_address := 0x181000; df_stack_top := 0x190000; idt_address := 0x182000;
  stub_address _ := 0x100000; heap_address := 0x200000;
}.
#[export] Instance sim_image_ok : ImageOk.
Proof. split. split_and!; [done|done|by exists 512]. Qed.

(** Shifted fields of a configuration address do not reach the register number. *)
Lemma above_register x n : 8 ≤ n → Z.land (wrap 32 (Z.shiftl x n)) 0xFC = 0.
Proof.
  intros Hn. apply Z.bits_inj_iff'. intros i Hi. rewrite Z.land_spec, Z.bits_0.
  destruct (decide (i < 8)).
  - unfold wrap. rewrite Z.mod_pow2_bits_low, Z.shiftl_spec_low by lia. done.
  - replace (Z.testbit 0xFC i) with false; [apply andb_false_r|]. symmetry. by apply Z.bits_above_log2; cbn; lia.
Qed.
Lemma sim_bar b s f : sim_config (pci_config_address b s f 0x10) = 0xC001.
Proof.
  unfold sim_config. rewrite decide_True; [done|]. unfold pci_config_address.
  rewrite !Z.land_lor_distr_l, !above_register by done. done.
Qed.
#[export, refine] Instance sim_drivers_ok : DriversOk SimMachine := { reset_wait _ := O }.
Proof.
  - cbn. lia.
  - intros d. unfold wp. cbn. by case_decide.
  - intros p d _ _.
    change (wrap 16 (Z.land (wrap 32 (sim_config (pci_config_address (bus p) (slot p) (func p) 0x10))) (wnot 32 3)) = 0xC000).
    rewrite sim_bar. by vm_compute.
Defined.

Definition sim_power_on : System SimMachine :=
  mkSystem (at_boot (replicate (Z.to_nat 4000) 0x20) ∅ (mkSimMachine (mkScript [] 0 0 []) (mkRamDisk ∅ 0) [] [] no_vars))
    (mkProcessor (TSS, GDT) (mkSegments (mkPointer 0 0) 0 0 0) [] (mkPointer 0 0) false).

(** ** The panic screen *)

(** A message of more than thirty columns on the second line of the text covers
    the banner. *)
Definition screen_after (m : vgaM unit) (r c n : nat) : list Z :=
  match m boot_screen with
  | Done (_, v) => omap (λ i, row_of (buffer v) r !! (2 * i)%nat) (seq c n)
  | _ => []
  end.
Definition long_message : str := txt "panicked at src/memory/mod.rs:9:9:" ++ [10] ++
  txt "index out of bounds: the len is 16 but the index is 16".
Lemma banner_covered :
  screen_after panic_banner 2 30 12 = txt "KERNEL PANIC" ∧
  screen_after (panic_banner;; screen_message long_message None) 2 0 54 =
    txt "index out of bounds: the len is 16 but the index is 16".
Proof. split; by vm_compute. Qed.
