(* ===== verification/Unused.v ===== *)
(** * Functions the kernel defines but does not call

    [keyboard::read_line], the skeleton of the e1000 driver
    (src/src/drivers/net/e1000.rs) and [enable_vbe] of src/src/framebuffer.rs. *)
From stdpp Require Import strings.
From S2P Require Import Prelude Words Str Fmt Hardware Scheduler Paging Heap Pci Keyboard Disk Ext3 Ext3Read Ext3Props.
From S2P Require Import Vfs Ramfs Packets Net Rtl8139 Tcp TcpConnProps TcpSpec TcpTable Serial VgaProps Vga Framebuffer Kernel.
From S2P Require Import Shell ShellInfo ShellSafe ShellProps.
Local Open Scope Z_scope.
Local Open Scope list_scope.

(** ** e1000.rs *)

Record E1000Card := mkE1000 { mmio_base : Z; card_mac : list Z }.
Definition probe_mac (pci : PciDevice) : list Z := e1000_default_mac.
Definition E1000_new {D} `{Ports D} (pci : PciDevice) : ST D E1000Card :=
  bar ← read_config_dword (bus pci) (slot pci) (func pci) 0x10;
  let bar0 := Z.land bar (wnot 32 0xF) in
  mret (mkE1000 bar0 (probe_mac pci)).
Definition E1000_reset (c : E1000Card) : unit := tt.
Definition E1000_send (c : E1000Card) (frame : list Z) : result unit unit := Err tt.
Definition E1000_poll_rx (c : E1000Card) : option (list Z) := None.

Section code.
Context {D : Type} `{Machine D}.
Abbreviation K := (KM D).

(** ** [keyboard::read_line]

    [buf] is the string by its characters; [rounds] bounds the loop. *)
Fixpoint keyboard_line (rounds : nat) (buf : list Z) : K (list Z) :=
  match rounds with
  | O => diverge
  | S rounds =>
      ev ← on_machine pop_key;
      match ev with
      | Some (Char c) => print [char_bytes c];; on_machine hlt;; keyboard_line rounds (buf ++ [c])
      | Some Keyboard.Backspace =>
          (if decide (buf = []) then mret tt else on_screen backspace);;
          on_machine hlt;; keyboard_line rounds (removelast buf)
      | Some Enter => print [[10]];; mret buf
      | _ => on_machine hlt;; keyboard_line rounds buf
      end
  end.

(** ** [framebuffer::enable_vbe] *)

Definition vbe (index value : Z) : ST D unit := outw 0x1CE index;; outw 0x1CF value.
Definition enable_vbe (xres yres bpp : Z) : K unit :=
  id ← on_machine (outw 0x1CE 0;; inw 0x1CF);
  if decide (id < 0xB0C0 ∨ 0xB0C5 < id) then
    println [txt "fb: not Bochs VBE (id=0x"; hex4 id; txt "), using text mode"]
  else on_machine (vbe 4 0;; vbe 1 xres;; vbe 2 yres;; vbe 3 bpp;; vbe 4 0x41).
End code.

Section props.
Context {D : Type} `{MachineOk D}.

(** The line read is the text an editor without a cursor makes of the keys. *)
Definition line_key (buf : list Z) (ev : option KeyEvent) : list Z :=
  match ev with
  | Some (Char c) => buf ++ [c]
  | Some Keyboard.Backspace => removelast buf
  | _ => buf
  end.
Lemma keyboard_line_text rounds buf : obeys (D := D) false (keyboard_line rounds buf)
  (λ t, ∃ evs, (length evs < rounds)%nat ∧ (Some Enter ∉ evs) ∧ t = foldl line_key buf evs).
Proof.
  revert buf. induction rounds as [|rounds IH]; intros buf; cbn [keyboard_line]; [by intros k Hk|].
  assert (∀ ev (m : KM D (list Z)), ev ≠ Some Enter → m = keyboard_line rounds (line_key buf ev) →
    obeys (D := D) false (on_machine hlt;; m)
      (λ t, ∃ evs, (length evs < S rounds)%nat ∧ (Some Enter ∉ evs) ∧ t = foldl line_key buf evs)) as Hnext.
  { intros ev m Hev ->. eapply obeys_bind; [apply obeys_hlt|]. intros _ _. eapply obeys_mono; [apply IH|].
    intros t (evs & Hl & Hn & ->). exists (ev :: evs). cbn [length foldl]. split; [lia|]. split; [|done].
    intros [E|E]%elem_of_cons; [by apply Hev|done]. }
  eapply obeys_bind; [apply obeys_key|]. intros ev _. destruct ev as [ev|]; [|by apply (Hnext None)].
  destruct ev; try (by apply (Hnext None)).
  - eapply obeys_bind; [apply obeys_print|]. intros _ _. by eapply (Hnext (Some (Char _))).
  - eapply obeys_bind with (P := λ _, True); [|intros _ _; by apply (Hnext (Some Keyboard.Backspace))].
    case_decide; [by apply obeys_ret|]. by apply (obeys_screen (D := D) false Backspace).
  - eapply obeys_bind; [apply obeys_print|]. intros _ _. apply obeys_ret. exists []. split; [cbn; lia|]. split; [|done].
    by intros ?%elem_of_nil.
Qed.
End props.
