(* ===== verification/RustcFilter.v ===== *)
(** * The build helper (src/tools/rustc-filter.rs)

    A wrapper around the compiler that removes the option pair
    [-Z json-target-spec].  Starting the compiler is a parameter: [None] if it
    cannot be run, otherwise its exit code, if it has one. *)
From stdpp Require Import strings.
From S2P Require Import Prelude Words Str Fmt.
Local Open Scope list_scope.

Definition is_pair (a b : str) : bool := bool_decide (a = txt "-Z" ∧ b = txt "json-target-spec").

(** [Vec::remove] *)
Definition remove {A} (i : nat) (l : list A) : outcome (list A) :=
  if decide (i < length l)%nat then Done (take i l ++ drop (S i) l) else Panic.

(** The loop; [fuel] bounds its rounds. *)
Fixpoint filter_args (fuel i : nat) (args : list str) : outcome (list str) :=
  match fuel with
  | O => Diverge
  | S fuel =>
      if decide (i < length args)%nat then
        a ← index i args;
        hit ← (if decide (a = txt "-Z" ∧ (i + 1 < length args)%nat) then
                 b ← index (i + 1) args; mret (bool_decide (b = txt "json-target-spec"))
               else mret false);
        if hit : bool then args ← remove i args; args ← remove i args; filter_args fuel i args
        else filter_args fuel (i + 1) args
      else mret args
  end.

Section main.
Context (spawn : str → list str → option (option Z)).
(** The exit code, given the arguments without the program's name and the
    variable KERNEL_RUSTC. *)
Definition filter_main (args : list str) (kernel_rustc : option str) : outcome Z :=
  args ← filter_args (S (length args)) 0 args;
  mret (match spawn (default (txt "rustc") kernel_rustc) args with
        | Some code => default 1%Z code
        | None => 1%Z
        end).
End main.

(** ** What the loop computes *)

(** Pairs are removed from left to right, once. *)
Fixpoint strip (l : list str) : list str :=
  match l with
  | a :: t => match t with
              | b :: rest => if is_pair a b then strip rest else a :: strip t
              | [] => [a]
              end
  | [] => []
  end.

Lemma remove_at {A} (pre : list A) x l : remove (length pre) (pre ++ x :: l) = Done (pre ++ l).
Proof.
  unfold remove. rewrite decide_True by (rewrite length_app; cbn; lia). f_equal.
  rewrite take_app_length. f_equal. by rewrite (drop_app_ge pre), Nat.sub_succ_l, Nat.sub_diag by lia.
Qed.
Lemma index_at {A} (pre : list A) x l : index (length pre) (pre ++ x :: l) = Done x.
Proof. unfold index. by rewrite list_lookup_middle. Qed.

Lemma filter_args_spec n : ∀ l pre fuel, (length l ≤ n)%nat → (length l < fuel)%nat →
  filter_args fuel (length pre) (pre ++ l) = Done (pre ++ strip l).
Proof.
  induction n as [|n IH]; intros l pre fuel Hn Hf; (destruct fuel as [|fuel]; [lia|]); cbn [filter_args].
  { destruct l; [|cbn in Hn; lia]. rewrite decide_False by (rewrite length_app; cbn; lia). done. }
  destruct l as [|a l]; [rewrite decide_False by (rewrite length_app; cbn; lia); done|].
  rewrite decide_True by (rewrite length_app; cbn; lia). rewrite index_at. cbn [mbind outcome_bind].
  assert (filter_args fuel (length pre + 1) (pre ++ a :: l) = Done (pre ++ a :: strip l)) as Hskip.
  { pose proof (IH l (pre ++ [a]) fuel) as H. rewrite length_app in H. cbn [length] in *.
    rewrite <- !app_assoc in H. apply H; lia. }
  cbn [strip]. destruct l as [|b l].
  { rewrite (decide_False (P := a = _ ∧ _)) by (rewrite length_app; cbn; lia). exact Hskip. }
  replace (index (length pre + 1) (pre ++ a :: b :: l)) with (Done b).
  2:{ pose proof (index_at (pre ++ [a]) b l) as E. rewrite length_app, <- app_assoc in E. exact (eq_sym E). }
  unfold is_pair. destruct (decide (a = txt "-Z")) as [Ha|Ha].
  - rewrite (decide_True (P := a = _ ∧ _)) by (rewrite length_app; cbn; split; [done|lia]). cbn [mbind outcome_bind].
    destruct (decide (b = txt "json-target-spec")) as [Hb|Hb].
    + rewrite !bool_decide_eq_true_2 by done. rewrite !remove_at. cbn [mbind outcome_bind].
      rewrite remove_at. apply IH; cbn in *; lia.
    + rewrite !bool_decide_eq_false_2 by naive_solver. exact Hskip.
  - rewrite (decide_False (P := a = _ ∧ _)) by naive_solver. cbn [mbind outcome_bind].
    rewrite bool_decide_eq_false_2 by naive_solver. exact Hskip.
Qed.

(** The compiler is started with the pairs removed, and its exit code passed on. *)
Lemma filter_main_spec spawn args kernel_rustc :
  filter_main spawn args kernel_rustc =
  Done (default 1%Z (default None (spawn (default (txt "rustc") kernel_rustc) (strip args)))).
Proof.
  unfold filter_main. pose proof (filter_args_spec (length args) args [] (S (length args))) as H.
  cbn [app length] in H. rewrite H by lia. cbn [mbind outcome_bind]. by destruct (spawn _ _).
Qed.
(** A pair can remain when it only becomes one by a removal. *)
Lemma strip_once : strip [txt "-Z"; txt "-Z"; txt "json-target-spec"; txt "json-target-spec"]
  = [txt "-Z"; txt "json-target-spec"].
Proof. by vm_compute. Qed.
